(* ===== verification/_CoqProject ===== *)
-Q . S2P
Prelude.v
Error.v
ErrorKinds.v
Ordering.v
Prng.v
Crypto.v
Params.v
Message.v
Tbo.v
Globals.v
Collections.v
Channel.v
Node.v
Connect.v
Timeouts.v
DecLog.v
Log.v
Consensus.v
Progress.v
Agreement.v
Sync.v
Executor.v
Cst.v
Server.v
Stable.v
Liveness.v
ViewChange.v
Replication.v
Client.v
EndToEnd.v
Calc.v
Examples.v
