(* ===== verification/Prelude.v ===== *)
(** * A verification of bafomet

    bafomet is a library for Byzantine fault tolerant state machine replication
    in Rust. Clients broadcast requests to a group of [n >= 3f + 1] replicas;
    the replicas agree on an order of batches of requests with a three phase
    protocol (PRE-PREPARE, PREPARE, COMMIT), execute them on an application,
    and reply; a client accepts a reply that [f + 1] replicas agree on. When
    requests time out the replicas change the view, and with it the leader; a
    replica that lags behind fetches the state of its peers.

    This library is a shallow embedding of that code: data as records and
    inductive types, every operation as a function from the state to the new
    state, a Rust panic as [Panic] and a [Result] as [result]. What the code
    gets from outside (received messages, the clock, the randomness of the
    operating system, the application, the hash function and the signature
    scheme) are arguments or type classes.

    ** The parts and where they are modelled

    Paths are relative to [src/src/bft].

    - [Prelude]: machine integers, panics, futures, vectors and hash maps of the
      Rust standard library. [RandomState] is the iteration order of a
      [HashMap]: a theorem over it holds for every order.
    - [Error] ([error/mod.rs]) and [ErrorKinds] ([build.rs], which generates the
      kinds of errors from the directories of the crate).
    - [Ordering] ([ordering/mod.rs]): [SeqNo], an [i32] that wraps to zero, its
      two orders, and [index], the distance used to address the queues.
    - [Prng] ([prng/mod.rs]): the generator of nonces.
    - [Crypto] ([crypto/hash], [crypto/signature]): digests, keys and signatures
      over the classes [HashFn], [SigScheme] and [RingKeys]; [toy_hash],
      [toy_sig] and [toy_keys] instantiate them in the witnesses.
    - [Params] ([core/mod.rs], [ViewInfo] of [core/server/mod.rs], [NodeId] of
      [communication/mod.rs]): quorums, views and leaders. The class
      [ViewSource] is what the consensus layer asks of the synchronizer.
    - [Message] ([communication/message/mod.rs]): all messages, the header and
      its bytes, wire messages and their signatures.
    - [Tbo] (the queue functions of [ordering/mod.rs]): messages that arrive
      ahead of their instance.
    - [Globals] ([globals/mod.rs], [mod.rs], [async_runtime], and the sockets on
      io_uring): the process-wide variables, [init] and its guard.
    - [Collections] ([collections/mod.rs]): the linked hash map as the class
      [OrderedMap] with its documented laws, and an instance.
    - [Channel] ([communication/channel]): the three channel backends as
      instances of the class [Channel], over external channels with their
      documented laws, and the message channel on top of any of them.
    - [Node] ([communication/mod.rs], [communication/serialize/mod.rs]): sending,
      broadcasting, and the task that reads a connection.
    - [Connect] (the rest of [communication/mod.rs]): the tasks that connect and
      accept, and [Node::bootstrap], which waits for the group.
    - [Timeouts] ([timeouts/mod.rs]).
    - [DecLog] and [Log] ([consensus/log/mod.rs]): the decision log with its
      proofs, and the log of requests, batches and checkpoints.
    - [Consensus] ([consensus/mod.rs]): the protocol of one instance at one
      replica, with [process_message] split by phase.
    - [Progress]: messages that are enough for an instance to decide.
    - [Agreement]: a group of replicas that run [Consensus] against faulty ones,
      in one instance.
    - [Sync] ([sync/mod.rs]): the view change and the timers of the requests.
    - [Executor] ([executable/mod.rs]): the thread that executes batches.
    - [Cst] ([cst/mod.rs]): the state transfer.
    - [Server] ([core/server/mod.rs]): the replica that owns the components and
      its main loop; [run_once] is a turn of the loop.
    - [Stable]: a replica that stays in one view, instance after instance: what
      its turns do to its log, its queues and what it has sent, and why STOPs of
      at most [f] nodes do not make it leave the view.
    - [Liveness]: the loop of [Replica::run] on a list of messages, and what has to
      arrive for a replica, and for a group, to execute the next batch.
    - [ViewChange]: the loop during a view change, from the STOPs of a quorum to
      the SYNC of the new leader; where it does not get there.
    - [Replication]: a group of replicas that run [Server] against faulty nodes,
      which may also send STOPs.
    - [Client] ([core/client/mod.rs]): requests, replies and wake-ups.
    - [EndToEnd]: a client of such a group.
    - [Calc] and [Examples] ([examples/]): the example service, the
      configuration and set-up of a group on one machine, the nodes of
      [bootstrap-local.rs], and the framing of [sockets.rs].

    A component's operation takes the components it calls as arguments and
    returns them, in the order of the [&mut] parameters of the code. What is
    sent is recorded in the [outbox] of the node, a list of the tasks that
    [send] and [broadcast] spawn; [run_task] is what such a task writes.

    ** What is proved

    - Replication: as long as no request times out for the second time, correct
      replicas of a group with at most [f] faulty nodes stay in the view they
      start in, whatever STOPs the faulty nodes send under their own names
      ([view_is_stable]). They
      queue the same batches in the same order ([total_order]) and reach the same
      states and replies, also when their services differ in what does not show
      in an answer ([replicas_agree_on_state]); what a client accepts is the
      result of its request in that order ([reply_is_sequential_result]). It is
      assumed that consensus messages and STOPs are received only under the names
      of the nodes that sent them, that COMMITs are not repeated to a replica and
      that digests identify what they are digests of, because the code checks none
      of this; the theorems on the errors of the code show what happens without
      ([repeated_votes_break_agreement], [digest_does_not_bind_batch],
      [rx_accepts_any_header]).
    - Consensus: agreement in one instance when the votes counted are from
      different nodes ([agreement]); within one view, and while the log is not
      emptied by a checkpoint, a decision rests on a quorum of logged votes
      ([decision_has_certificate]) and a replica votes once per instance
      ([one_vote_per_instance]); enough votes decide the proposal, whatever else
      arrives ([normal_case_decides]); queued messages stay in the slot of their
      instance ([tbo_refines_slots], [queues_follow_instance]).
    - Progress: a replica that knows the requests of a proposal (and those of the
      digests left over behind a short one) and is sent the proposal and a quorum
      of votes, in any order and among other votes with numbers that are not
      negative and requests, executes the batch, also when messages wait in its queues
      ([replica_makes_progress]); a quorum of correct replicas whose messages
      reach each other does so together, each sending the votes that the others
      need ([group_makes_progress]). One forged sequence number is enough to stop
      a replica for ever ([aliased_number_starves]).
    - Log: the two request queues implement one map
      ([pending_requests_refine_map]), a batch is finalized exactly when all its
      requests are there ([finalize_batch_exact]), a snapshot replays to the
      state of the service when no operation is decided during a checkpoint, also
      after a state was installed ([snapshot_replays_history]); what the decision log reports about the
      running and the last instance.
    - View change: the STOP of the [f + 1]st node makes a replica ask for the next
      view ([last_stop_joins]); a replica that has asked for the next view installs it when the
      STOPs of a quorum have reached it and the proof of its decisions can be
      collected ([stops_install_view]); its leader, with the STOP-DATAs of a quorum of a first view change, enters it and announces it
      ([leader_enters_next_view]), unless STOP-DATAs come before the last STOP
      ([early_stop_data_lost]) or are rejected once ([rejected_collects_stall]).
      What a bound value is and when the choice is deterministic,
      that a SYNC carries the collects of a quorum, what is proposed in the new
      view, which requests a timer reports.
    - Execution: batches are executed as one sequence of operations; the [k]-th
      entry a replica queues is the batch it decided in its [k]-th instance
      ([replica_executes_in_order]).
    - State transfer: a number or a state is taken only when enough answers to the
      request that is pending reported it ([latest_cid_counted],
      [state_backed_by_answers]).
    - Client: when a reply is delivered, what it is backed by, and that whole
      turns lose no wake-up.
    - Wire: headers are well typed in both directions ([headers_well_typed]) and
      streams of messages are read back as written.
    - Connections and channels: the handshake, that a connecting task ends with
      one report, when the start of a node succeeds and that it panics when it
      does not know the address of a client ([bootstrap_connects_group],
      [unknown_client_panics]), and that a message channel
      keeps the order of the messages of each class ([message_channel_fifo]).
    - Start-up: a guard of [init] is alive exactly while the globals are set
      ([guard_means_initialized]); the generated error kinds; the replicas of the
      example start in their normal phase ([setup_replica_starts]).
    - Example service: the replicated number never leaves the numbers from one on
      ([calc_state_from_one]).
    - Theorems that show where the code does not keep what it means to promise:
      votes that are repeated, digests that are not checked, state transfer
      that is never started, checkpoints that break the view change, a lost
      wake-up, connections counted wrongly, and others. Each is stated as what
      the code does.

    Every theorem with hypotheses has a [_witness] that applies it to a concrete
    state on which they hold.

    ** Bounds and fuel

    Some functions have fuel. [rx_loop]: an iteration consumes a header of 128
    bytes, so the number of bytes is enough, and more changes nothing
    ([rx_loop_fuel]). [generate] of [ErrorKinds]: the depth of the directory
    tree is enough ([error_kinds_generated]). [polls_until_ready] of [Globals]:
    two polls are enough ([yield_now_returns]). [client_loop] of [Examples]: a
    turn reads four bytes, so the length of the stream is enough
    ([client_loop_total]). [serve] counts the turns of a loop that does not end;
    the theorems on progress say how many are enough: for a batch, two for each
    message to be received and one for each that is queued; for the STOPs of a
    view change, one for each message. [connect_loop] counts the attempts
    that the code bounds by [RETRY]. All other definitions are structurally
    recursive or not recursive. [usize] is 64 bits wide; sequence numbers, node
    ids and nonces have the width of the code. The theorems of [Replication] are
    for fewer than [2^31] instances, before sequence numbers repeat.

    ** What is not modelled

    Sockets of tokio and async-std, TLS, the executors of the asynchronous
    runtimes and the thread pool, which are external crates; the serialization
    of messages, which the application provides (the class [SharedData]); the
    internals of the hash and signature crates; rustls, bincode and the file
    system under the examples, and what these print. The protocols
    receive their messages as arguments or lists, so that sending to a bounded
    channel never blocks there; the clock is an argument and a timeout may fire
    at any time.

    ** What remains

    [Replication] follows a group in the view it starts in; it ends where a request times
    out for the second time. A group does not get through a view change, since the
    followers discard the proofs in a SYNC ([sync_with_payload_ignored]), and a
    state transfer is never started ([state_transfer_never_starts]): replicas that
    change the view together, and that fetch a state from each other, could be
    followed once the code does. [serve] ends at a turn that counts a STOP in
    the normal phase; what the last of these turns does is [last_stop_joins]. *)

From stdpp Require Export base numbers list gmap strings fin_maps.
From Stdlib Require Export ZArith Lia.

#[export] Set Default Goal Selector "!".

(** The hint database of the development. *)
Create HintDb bft.

(** ** Machine integers

    A Rust integer is a [Z] kept in the range of its type; the casts and the
    wrapping operations reduce into that range. *)

Definition i32_MAX : Z := 2147483647.
Definition i32_MIN : Z := -2147483648.

Definition wrap_i32 (z : Z) : Z := (z + 2147483648) mod 4294967296 - 2147483648.
Definition wrap_u32 (z : Z) : Z := z mod 4294967296.
Definition wrap_u64 (z : Z) : Z := z mod 18446744073709551616.

(** [usize] on the 64-bit targets the crate is run on. *)
Definition wrap_usize (z : Z) : Z := wrap_u64 z.

Definition is_i32 (z : Z) : Prop := (i32_MIN <= z <= i32_MAX)%Z.
Definition is_u32 (z : Z) : Prop := (0 <= z < 4294967296)%Z.
Definition is_u64 (z : Z) : Prop := (0 <= z < 18446744073709551616)%Z.
Definition is_u8 (z : Z) : Prop := (0 <= z < 256)%Z.

(** Little-endian bytes of an unsigned integer, and back. *)
Fixpoint to_le_bytes (n : nat) (z : Z) : list Z :=
  match n with
  | O => []
  | S n' => (z mod 256)%Z :: to_le_bytes n' (z / 256)%Z
  end.

Fixpoint from_le_bytes (bs : list Z) : Z :=
  match bs with
  | [] => 0%Z
  | b :: bs' => (b + 256 * from_le_bytes bs')%Z
  end.

(** ** Panics

    [Done] is a normal return, [Panic] a Rust panic (a failed [unwrap], an
    out-of-range slice, [unreachable!], a missing [HashMap] key). *)

Inductive outcome (A : Type) : Type :=
| Done (a : A)
| Panic.
Arguments Done {A} a.
Arguments Panic {A}.

Definition obind {A B : Type} (m : outcome A) (k : A -> outcome B) : outcome B :=
  match m with
  | Done a => k a
  | Panic => Panic
  end.

Declare Scope bft_scope.
Delimit Scope bft_scope with bft.
Notation "'let!' x ':=' m 'in' k" := (obind m (fun x => k))
  (at level 10, x name, m at level 100, k at level 200) : bft_scope.
Notation "'let!' ' p ':=' m 'in' k" := (obind m (fun x => match x with p => k end))
  (at level 10, p strict pattern, m at level 100, k at level 200) : bft_scope.

(** A call that returned: in a goal [obind m k = Done r -> _], the first call of
    [m] has returned some [p]. *)
Ltac first_call m := match m with obind ?m' _ => first_call m' | _ => m end.

Tactic Notation "returned_as" simple_intropattern(p) "eqn" ":" ident(E) :=
  match goal with |- obind ?m _ = Done _ -> _ =>
    let c := first_call m in destruct c as [p|] eqn:E; [cbn [obind]|discriminate] end.
Tactic Notation "returned_as" simple_intropattern(p) :=
  match goal with |- obind ?m _ = Done _ -> _ =>
    let c := first_call m in destruct c as [p|]; [cbn [obind]|discriminate] end.

Lemma done_inj3 {A B C : Type} (a a' : A) (b b' : B) (c c' : C) :
  Done (a, b, c) = Done (a', b', c') -> a = a' /\ b = b' /\ c = c'.
Proof. by intros [= -> -> ->]. Qed.

(** [Iterator::enumerate] *)
Definition enumerate {A : Type} (l : list A) : list (nat * A) := zip (seq 0 (length l)) l.

(** What a future reports when it is polled. *)
Inductive Poll (A : Type) : Type :=
| Ready (a : A)
| Pending.
Arguments Ready {A} a.
Arguments Pending {A}.

Definition poll_map {A B : Type} (f : A -> B) (p : Poll A) : Poll B :=
  match p with Ready a => Ready (f a) | Pending => Pending end.

(** The result of a computation that does not panic. *)
Definition returned {A : Type} (d : A) (m : outcome A) : A :=
  match m with Done a => a | Panic => d end.

Lemma returned_done {A : Type} (d : A) (m : outcome A) :
  match m with Done _ => true | Panic => false end = true -> m = Done (returned d m).
Proof. by destruct m. Qed.

(** ** Vectors *)

(** [Vec::last] and the indexing [v[v.len() - 1]] of a non-empty vector. *)
Definition vec_last {A : Type} (v : list A) : option A := last v.

(** [Vec::swap_remove i]: the last element takes the place of the removed one.
    Rust panics when [i] is out of range. *)
Definition vec_swap_remove {A : Type} (i : nat) (v : list A) : outcome (A * list A) :=
  match v !! i, last v with
  | Some x, Some l => Done (x, take (length v - 1) (<[i := l]> v))
  | _, _ => Panic
  end.

(** [VecDeque::swap_remove_back i]: as above, [None] and no change when [i]
    is out of range. *)
Definition deque_swap_remove_back {A : Type} (i : nat) (v : list A) : list A :=
  match v !! i, last v with
  | Some _, Some l => take (length v - 1) (<[i := l]> v)
  | _, _ => v
  end.

(** [buf[..src.len()].copy_from_slice(src)]: panics when [buf] is shorter. *)
Definition copy_prefix {A : Type} (src buf : list A) : outcome (list A) :=
  if decide (length src <= length buf) then Done (src ++ drop (length src) buf) else Panic.

(** ** Hash maps

    A [HashMap] is a [gmap]; the order in which its entries are visited is a
    parameter, about which only what the standard library promises is known:
    every entry is visited exactly once. *)

Class RandomState := {
  map_iter : forall {K V : Type} `{Countable K}, gmap K V -> list (K * V);
  set_iter : forall {K : Type} `{Countable K}, gset K -> list K;
  map_iter_perm : forall {K V : Type} `{Countable K} (m : gmap K V),
    map_iter m ≡ₚ map_to_list m;
  set_iter_perm : forall {K : Type} `{Countable K} (s : gset K),
    set_iter s ≡ₚ elements s
}.

Definition map_keys `{RandomState} `{Countable K} {V} (m : gmap K V) : list K :=
  (map_iter m).*1.
Definition map_values `{RandomState} `{Countable K} {V} (m : gmap K V) : list V :=
  (map_iter m).*2.

(** The iteration order used by the executable witnesses. *)
Definition key_order : RandomState := {|
  map_iter := fun K V _ _ m => map_to_list m;
  set_iter := fun K _ _ s => elements s;
  map_iter_perm := fun K V _ _ m => Permutation_refl _;
  set_iter_perm := fun K _ _ s => Permutation_refl _
|}.

(** [Iterator::max_by_key]: the last of the elements whose key is maximal. *)
Fixpoint max_by_key {A : Type} (key : A -> Z) (l : list A) : option A :=
  match l with
  | [] => None
  | x :: l' =>
    match max_by_key key l' with
    | None => Some x
    | Some y => if (key x >? key y)%Z then Some x else Some y
    end
  end.

(** [Iterator::position(..).is_some()] *)
Definition any {A : Type} (p : A -> bool) (l : list A) : bool := existsb p l.

(** [Iterator::filter(..).count()] *)
Definition count_if {A : Type} (p : A -> bool) (l : list A) : nat :=
  length (List.filter p l).

(** Take the longest prefix all of whose elements satisfy [p]: a [for] loop
    left by [break] at the first element that does not. *)
Fixpoint take_while {A : Type} (p : A -> bool) (l : list A) : list A :=
  match l with
  | [] => []
  | x :: l' => if p x then x :: take_while p l' else []
  end.

Fixpoint drop_while {A : Type} (p : A -> bool) (l : list A) : list A :=
  match l with
  | [] => []
  | x :: l' => if p x then drop_while p l' else l
  end.

(** ** Lists: shared lemmas *)

Lemma count_if_app {A : Type} (p : A -> bool) (l1 l2 : list A) :
  count_if p (l1 ++ l2) = (count_if p l1 + count_if p l2)%nat.
Proof. unfold count_if. by rewrite List.filter_app, length_app. Qed.

Lemma count_if_cons {A : Type} (p : A -> bool) x (l : list A) :
  count_if p (x :: l) = ((if p x then 1 else 0) + count_if p l)%nat.
Proof. unfold count_if. cbn. by destruct (p x). Qed.

Lemma count_if_submseteq {A : Type} (p : A -> bool) (l k : list A) : l ⊆+ k ->
  (count_if p l <= count_if p k)%nat.
Proof.
  induction 1 as [|x l k _ IH|x y l|x l k _ IH|l1 l2 l3 _ IH1 _ IH2]; rewrite ?count_if_cons; lia.
Qed.

Lemma NoDup_take {A : Type} (k : nat) (l : list A) : NoDup l -> NoDup (take k l).
Proof. rewrite <- (take_drop k l) at 1. rewrite NoDup_app. tauto. Qed.

Lemma NoDup_drop {A : Type} (k : nat) (l : list A) : NoDup l -> NoDup (drop k l).
Proof. rewrite <- (take_drop k l) at 1. rewrite NoDup_app. tauto. Qed.
