(* ===== verification/Error.v ===== *)
(** * Errors ([src/bft/error/mod.rs])

    The crate's [Error] and [Result], and the two extension traits that turn a
    foreign error into one of the crate's kinds. [ErrorKind] is generated by
    [build.rs] from the names of the directories under [src/bft] (see
    [ErrorKinds]); a kind is represented by its name. The boxed foreign error
    of a [Wrapped] error is represented by its message. *)

From S2P Require Import Prelude.

Definition ErrorKind : Type := string.

Inductive ErrorInner :=
| Simple (kind : ErrorKind)
| Wrapped (kind : ErrorKind) (e : string).

Record Error := mkError { inner : ErrorInner }.

Inductive result (A : Type) : Type :=
| Ok (a : A)
| Err (e : Error).
Arguments Ok {A} a.
Arguments Err {A} e.

Module Errors.

Definition simple (kind : ErrorKind) : Error := mkError (Simple kind).

Definition wrapped (kind : ErrorKind) (e : string) : Error := mkError (Wrapped kind e).

Definition kind (self : Error) : ErrorKind :=
  match inner self with
  | Simple k => k
  | Wrapped k _ => k
  end.

Definition swap_kind (self : Error) (k : ErrorKind) : Error :=
  mkError (match inner self with
           | Simple _ => Simple k
           | Wrapped _ e => Wrapped k e
           end).

(** [fmt::Display]; the [Debug] form of a kind is its name. *)
Definition display (self : Error) : string :=
  match inner self with
  | Simple k => k
  | Wrapped k e => (k +:+ ": " +:+ e)%string
  end.

(** [From<io::Error>] *)
Definition from_io_error (e : string) : Error := wrapped "Error" e.

End Errors.

(** ** The extension traits

    A foreign [Result] is a sum; [E: Into<Box<dyn Error>>] is given by the
    message of the boxed error. *)

Section ResultExt.
Context {A E : Type} (message : E -> string).

Definition map_err (f : E -> Error) (self : A + E) : result A :=
  match self with inl a => Ok a | inr e => Err (f e) end.

Definition result_wrapped (self : A + E) (kind : ErrorKind) : result A :=
  map_err (fun e => Errors.wrapped kind (message e)) self.

Definition result_wrapped_msg (self : A + E) (kind : ErrorKind) (msg : string) : result A :=
  map_err (fun e => Errors.wrapped kind (msg +:+ ": " +:+ message e)%string) self.

Definition result_simple (self : A + E) (kind : ErrorKind) : result A :=
  map_err (fun _ => Errors.simple kind) self.

Definition result_simple_msg (self : A + E) (kind : ErrorKind) (msg : string) : result A :=
  map_err (fun _ => Errors.wrapped kind msg) self.

End ResultExt.

(** [Err("...").wrapped(kind)] *)
Definition err_wrapped {A : Type} (msg : string) (kind : ErrorKind) : result A :=
  Err (Errors.wrapped kind msg).

(** [?]: the error is returned to the caller, otherwise the rest runs. *)
Definition result_bind {A B : Type} (m : result A) (k : A -> result B) : result B :=
  match m with Ok a => k a | Err e => Err e end.

Definition is_ok {A : Type} (r : result A) : bool :=
  match r with Ok _ => true | Err _ => false end.

(** What is printed for a foreign error that was given a kind and a message
    names both and the foreign error; [swap_kind] changes the kind alone. *)
Lemma display_wrapped_msg {A E : Type} (message : E -> string) (e : E) kind msg (err : Error) :
  result_wrapped_msg (A := A) message (inr e) kind msg = Err err ->
  Errors.kind err = kind /\
  Errors.display err = (kind +:+ ": " +:+ msg +:+ ": " +:+ message e)%string /\
  forall k, Errors.display (Errors.swap_kind err k) = (k +:+ ": " +:+ msg +:+ ": " +:+ message e)%string.
Proof. by intros [= <-]. Qed.
