(* ===== verification/ErrorKinds.v ===== *)
(** * The generated error kinds ([build.rs])

    The build script walks the directories under [src/bft] and writes an enum
    with a variant per directory: the names of the directories on the path to
    it, in title case and without underscores. It keeps the path and the names
    in two vectors that every call pops once. The file system is a tree; the
    theorem compares the script with the recursive definition of the names. *)

From Stdlib Require Import Ascii.
From S2P Require Import Prelude Error.
Local Open Scope string_scope.
Local Open Scope bft_scope.

(** An entry of a directory, as [read_dir] reports it. *)
Inductive DirEnt :=
| Dir (name : string) (entries : list DirEnt)
| NotUtf8 (entries : list DirEnt)   (* a directory whose name is not UTF-8 *)
| Other (name : string)             (* a file or a symbolic link *)
| Unreadable.                       (* the entry or its type cannot be read *)

Definition find_dir (n : string) (ents : list DirEnt) : option (list DirEnt) :=
  match List.find (fun e => match e with Dir m _ => String.eqb m n | _ => false end) ents with
  | Some (Dir _ sub) => Some sub
  | _ => None
  end.

(** [fs::read_dir] of a path. *)
Fixpoint read_dir (fs : list DirEnt) (path : list string) : option (list DirEnt) :=
  match path with
  | [] => Some fs
  | n :: path' =>
    match find_dir n fs with
    | Some sub => read_dir sub path'
    | None => None
    end
  end.

(** [str::split('_')] *)
Fixpoint split_underscore (s : string) : list string :=
  match s with
  | EmptyString => [""]
  | String c s' =>
    if Ascii.eqb c "_"%char then "" :: split_underscore s'
    else match split_underscore s' with
         | part :: parts => String c part :: parts
         | [] => [String c ""]
         end
  end.

Definition to_ascii_uppercase (c : Ascii.ascii) : Ascii.ascii :=
  let n := Ascii.nat_of_ascii c in
  if ((97 <=? n) && (n <=? 122))%nat then Ascii.ascii_of_nat (n - 32)%nat else c.

(** [part.split_at(1)] panics on an empty part and inside of a character that
    takes more than one byte. *)
Definition title_case (part : string) : outcome string :=
  match part with
  | EmptyString => Panic
  | String c rest =>
    if (Ascii.nat_of_ascii c <? 128)%nat then Done (String (to_ascii_uppercase c) rest) else Panic
  end.

Fixpoint title_parts (parts : list string) : outcome string :=
  match parts with
  | [] => Done ""
  | part :: parts' =>
    let! s := title_case part in
    let! rest := title_parts parts' in
    Done (s ++ rest)
  end.

Definition kind_name (dir_name : string) : outcome string :=
  title_parts (split_underscore dir_name).

(** The buffers of [generate], and the lines written so far. *)
Record Gen := mkGen { pbuf : list string; name_buf : list string; buf : list string }.

Definition vec_pop {A : Type} (v : list A) : list A := take (length v - 1) v.

Definition variant_line (kind : string) : string := "    " ++ kind ++ ",".

(** The loop over the entries of a directory; [rec] is the recursive call. *)
Fixpoint generate_entries (rec : Gen -> outcome Gen) (ents : list DirEnt) (st : Gen)
  : outcome Gen :=
  match ents with
  | [] => Done st
  | Dir n _ :: ents' =>
    let! k := kind_name n in
    let names := (name_buf st ++ [k])%list in
    let! st := rec (mkGen (pbuf st ++ [n])%list names
                      (buf st ++ [variant_line (String.concat "" names)])%list) in
    generate_entries rec ents' st
  | NotUtf8 _ :: _ => Panic
  | _ :: ents' => generate_entries rec ents' st
  end.

(** Fuel is the depth of the recursion. *)
Fixpoint generate (fuel : nat) (fs : list DirEnt) (st : Gen) : outcome Gen :=
  match fuel with
  | O => Panic
  | S fuel' =>
    match read_dir fs (pbuf st) with
    | None => Panic
    | Some ents =>
      let! st := generate_entries (generate fuel' fs) ents st in
      Done (mkGen (vec_pop (pbuf st)) (vec_pop (name_buf st)) (buf st))
    end
  end.

Definition enum_header : list string :=
  ["/// Includes a list of all the errors reported by this";
   "/// crate's modules. Generated automatically with `build.rs`.";
   "#[derive(Clone, Copy, Debug, Eq, Hash, Ord, PartialEq, PartialOrd)]";
   "#[non_exhaustive]";
   "pub enum ErrorKind {"].

(** [fs] is the directory of the manifest; the lines of [error_kind.rs]. *)
Definition generate_error_kinds (fuel : nat) (fs : list DirEnt) : outcome (list string) :=
  let! st := generate fuel fs (mkGen ["src"; "bft"] [] enum_header) in
  Done (buf st ++ ["}"])%list.

(** ** The names the script means to generate *)

(** The name of a directory in title case. *)
Definition title (n : string) : string := returned "" (kind_name n).

Fixpoint kinds_below (prefix : string) (e : DirEnt) : list string :=
  match e with
  | Dir n sub => (prefix ++ title n) :: flat_map (kinds_below (prefix ++ title n)) sub
  | _ => []
  end.

Fixpoint depth (e : DirEnt) : nat :=
  match e with
  | Dir _ sub => S (list_max (map depth sub))
  | _ => 0
  end.

(** The directories among the entries, by name. *)
Definition dir_names (ents : list DirEnt) : list string :=
  flat_map (fun e => match e with Dir n _ => [n] | _ => [] end) ents.

(** Names are unique in a directory, and every part of a name between
    underscores starts with an ASCII character. *)
Fixpoint named_well (e : DirEnt) : bool :=
  match e with
  | Dir n sub =>
    match kind_name n with Done _ => true | Panic => false end &&
    bool_decide (NoDup (dir_names sub)) && forallb named_well sub
  | NotUtf8 _ => false
  | _ => true
  end.

Definition dir_well (ents : list DirEnt) : bool :=
  bool_decide (NoDup (dir_names ents)) && forallb named_well ents.

(** ** Proofs *)

Lemma vec_pop_app {A : Type} (l : list A) x : vec_pop (l ++ [x])%list = l.
Proof.
  unfold vec_pop. rewrite length_app. cbn [length].
  replace (length l + 1 - 1) with (length l + 0) by lia.
  rewrite take_app_add. apply app_nil_r.
Qed.

Lemma string_app_assoc (a b c : string) : (a ++ b) ++ c = a ++ b ++ c.
Proof. induction a as [|x a IH]; [done|]. exact (f_equal (String x) IH). Qed.

Lemma concat_snoc (names : list string) k :
  String.concat "" (names ++ [k])%list = String.concat "" names ++ k.
Proof.
  induction names as [|a [|b names] IH]; [done|done|].
  change (a ++ String.concat "" ((b :: names) ++ [k])%list
          = (a ++ String.concat "" (b :: names)) ++ k).
  by rewrite IH, string_app_assoc.
Qed.

Lemma read_dir_snoc fs path ents n :
  read_dir fs path = Some ents -> read_dir fs (path ++ [n])%list = find_dir n ents.
Proof.
  revert fs. induction path as [|m path IH]; intros fs; cbn [read_dir app].
  - intros [= ->]. by destruct (find_dir n ents).
  - destruct (find_dir m fs); [apply IH|discriminate].
Qed.

(** Names being unique, a directory is found under its own name. *)
Lemma find_dir_unique n sub ents :
  Dir n sub ∈ ents -> NoDup (dir_names ents) -> find_dir n ents = Some sub.
Proof.
  unfold find_dir. induction ents as [|e ents IH]; [by intros ?%elem_of_nil|].
  intros [<-|Hin]%elem_of_cons Hnd.
  - cbn [List.find]. by rewrite String.eqb_refl.
  - destruct e as [m sub'|sub'|m|]; cbn [List.find]; try by apply IH.
    apply NoDup_cons in Hnd as [Hm Hnd]. destruct (String.eqb_spec m n) as [->|]; [|by apply IH].
    destruct Hm. apply list_elem_of_In, in_flat_map.
    exists (Dir n sub). split; [by apply list_elem_of_In|by left].
Qed.

Lemma dir_well_sub n sub ents :
  Dir n sub ∈ ents -> dir_well ents = true ->
  (exists k, kind_name n = Done k) /\ dir_well sub = true.
Proof.
  intros Hin [_ Hall]%andb_prop. rewrite forallb_forall in Hall.
  specialize (Hall _ (proj1 (list_elem_of_In _ _) Hin)). cbn [named_well] in Hall.
  destruct (kind_name n) as [k|]; [|discriminate].
  split; [by exists k|]. exact Hall.
Qed.

Lemma depth_sub n sub ents :
  Dir n sub ∈ ents -> S (list_max (map depth sub)) <= list_max (map depth ents).
Proof.
  intros Hin. apply (proj1 (Forall_forall _ _)
    (proj1 (list_max_le (map depth ents) _) (le_n _)) (depth (Dir n sub))).
  by apply list_elem_of_In, in_map, list_elem_of_In.
Qed.

Definition lines_of (prefix : string) (ents : list DirEnt) : list string :=
  map variant_line (flat_map (kinds_below prefix) ents).

Lemma lines_of_dir prefix n sub ents :
  lines_of prefix (Dir n sub :: ents)
  = (variant_line (prefix ++ title n) :: lines_of (prefix ++ title n) sub
     ++ lines_of prefix ents)%list.
Proof. unfold lines_of. cbn [flat_map kinds_below]. by rewrite map_app. Qed.

(** One call, given that the recursive calls are right: the loop writes the
    names below the entries it visits and leaves the two vectors as they are. *)
Lemma generate_entries_spec rec ents p names :
  dir_well ents = true ->
  (forall n sub k out', Dir n sub ∈ ents -> kind_name n = Done k ->
     rec (mkGen (p ++ [n])%list (names ++ [k])%list out')
     = Done (mkGen p names (out' ++ lines_of (String.concat "" names ++ k) sub)%list)) ->
  forall todo, todo ⊆ ents -> forall out,
  generate_entries rec todo (mkGen p names out)
  = Done (mkGen p names (out ++ lines_of (String.concat "" names) todo)%list).
Proof.
  intros Hwell Hrec. induction todo as [|e todo IH]; intros Hsub out.
  { cbn. by rewrite app_nil_r. }
  assert (He : e ∈ ents) by (apply Hsub; left).
  assert (Htodo : todo ⊆ ents) by (intros x Hx; apply Hsub; by right).
  destruct e as [n sub|sub|n|]; cbn [generate_entries]; try by apply IH.
  - destruct (dir_well_sub _ _ _ He Hwell) as [[k Hk] _].
    assert (title n = k) as Ht by (unfold title; by rewrite Hk).
    rewrite Hk. cbn [obind pbuf name_buf buf].
    rewrite (Hrec n sub k _ He Hk). cbn [obind].
    rewrite (IH Htodo), lines_of_dir, Ht, concat_snoc.
    by rewrite <- !app_assoc.
  - apply andb_prop in Hwell as [_ Hwell]. rewrite forallb_forall in Hwell.
    by specialize (Hwell _ (proj1 (list_elem_of_In _ _) He)).
Qed.

Lemma generate_spec fs fuel : forall p names ents out,
  read_dir fs p = Some ents -> dir_well ents = true -> list_max (map depth ents) < fuel ->
  generate fuel fs (mkGen p names out)
  = Done (mkGen (vec_pop p) (vec_pop names)
            (out ++ lines_of (String.concat "" names) ents)%list).
Proof.
  induction fuel as [|fuel IH]; intros p names ents out Hread Hwell Hfuel; [lia|].
  cbn [generate pbuf]. rewrite Hread.
  rewrite (generate_entries_spec _ ents p names Hwell); [done| |done].
  intros n sub k out' Hin Hk. destruct (dir_well_sub _ _ _ Hin Hwell) as [_ Hsub].
  pose proof (depth_sub _ _ _ Hin).
  rewrite (IH _ _ sub); [|..|done|lia].
  - by rewrite !vec_pop_app, concat_snoc.
  - rewrite (read_dir_snoc _ _ _ _ Hread). apply find_dir_unique; [done|].
    apply andb_prop in Hwell as [Hnd _]. by apply bool_decide_eq_true in Hnd.
Qed.

(** C32: the build script writes an enum with exactly one variant for each
    directory below [src/bft], in the order of a walk that visits a directory
    before its subdirectories, and the variant is the concatenation of the
    title-cased names on the path to the directory; a recursion as deep as the
    tree is enough. The names in a directory have to be unique, and their parts
    must not be empty. *)
Theorem error_kinds_generated fs ents fuel :
  read_dir fs ["src"; "bft"] = Some ents -> dir_well ents = true ->
  list_max (map depth ents) < fuel ->
  generate_error_kinds fuel fs
  = Done (enum_header ++ map variant_line (flat_map (kinds_below "") ents) ++ ["}"])%list.
Proof.
  intros Hread Hwell Hfuel. unfold generate_error_kinds.
  rewrite (generate_spec fs fuel _ _ ents _ Hread Hwell Hfuel).
  cbn [obind buf]. by rewrite <- app_assoc.
Qed.

(** ** The directories of this crate *)

Definition bft_dirs : list DirEnt :=
  [ Dir "async_runtime" [Dir "async_std" [Other "mod.rs"]; Dir "tokio" [Other "mod.rs"]; Other "mod.rs"];
    Dir "collections" [Other "mod.rs"];
    Dir "communication"
      [Dir "channel" [Dir "async_channel_mpmc" [Other "mod.rs"]; Dir "flume_mpmc" [Other "mod.rs"];
                      Dir "futures_mpsc" [Other "mod.rs"]; Other "mod.rs"];
       Dir "message" [Other "mod.rs"]; Dir "serialize" [Other "mod.rs"];
       Dir "socket" [Dir "async_std_tcp" [Other "mod.rs"]; Dir "rio_tcp" [Other "mod.rs"];
                     Dir "tokio_tcp" [Other "mod.rs"]; Other "mod.rs"];
       Other "mod.rs"];
    Dir "consensus" [Dir "log" [Other "mod.rs"]; Other "mod.rs"];
    Dir "core" [Dir "client" [Other "mod.rs"]; Dir "server" [Other "mod.rs"]; Other "mod.rs"];
    Dir "crypto"
      [Dir "hash" [Dir "blake3_blake3" [Other "mod.rs"]; Dir "ring_sha2" [Other "mod.rs"]; Other "mod.rs"];
       Dir "signature" [Dir "ring_ed25519" [Other "mod.rs"]; Other "mod.rs"];
       Other "mod.rs"];
    Dir "cst" [Other "mod.rs"]; Dir "error" [Other "mod.rs"]; Dir "executable" [Other "mod.rs"];
    Dir "globals" [Other "mod.rs"]; Other "mod.rs"; Dir "ordering" [Other "mod.rs"];
    Dir "prng" [Other "mod.rs"]; Dir "sync" [Other "mod.rs"];
    Dir "threadpool" [Dir "crossbeam" [Other "mod.rs"]; Dir "cthpool" [Other "mod.rs"]; Other "mod.rs"];
    Dir "timeouts" [Other "mod.rs"] ].

Definition crate_dir : list DirEnt :=
  [Other "build.rs"; Dir "src" [Dir "bft" bft_dirs; Other "lib.rs"]; Other "Cargo.toml"].

(** The kinds the code constructs errors with. *)
Definition kinds_used : list ErrorKind :=
  ["AsyncRuntime"; "AsyncRuntimeTokio"; "Communication"; "CommunicationChannelAsyncChannelMpmc";
   "CommunicationChannelFlumeMpmc"; "CommunicationChannelFuturesMpsc"; "CommunicationMessage";
   "CommunicationSocketRioTcp"; "ConsensusLog"; "Core"; "CoreServer"; "CryptoHashBlake3Blake3";
   "CryptoHashRingSha2"; "CryptoSignatureRingEd25519"; "Error"; "Executable"].

(** The variants of this crate are distinct, and those the code names exist. *)
Lemma crate_kinds :
  NoDup (flat_map (kinds_below "") bft_dirs) /\
  kinds_used ⊆ flat_map (kinds_below "") bft_dirs.
Proof.
  split.
  - apply (bool_decide_unpack _). vm_compute. exact I.
  - intros k Hk.
    assert (forallb (fun k => existsb (String.eqb k) (flat_map (kinds_below "") bft_dirs))
              kinds_used = true) as Hall by by vm_compute.
    rewrite forallb_forall in Hall. apply list_elem_of_In in Hk.
    apply Hall, existsb_exists in Hk as (k' & Hin & <-%String.eqb_eq).
    by apply list_elem_of_In.
Qed.

Lemma error_kinds_generated_witness :
  exists lines, generate_error_kinds 4 crate_dir = Done lines /\
  lines !! 5 = Some "    AsyncRuntime," /\ last lines = Some "}".
Proof.
  eexists. split.
  - apply (error_kinds_generated crate_dir bft_dirs); [reflexivity|vm_compute; reflexivity|].
    vm_compute. lia.
  - split; vm_compute; reflexivity.
Defined.

(** A directory whose name starts or ends with an underscore, or has two in a
    row, breaks the build. *)
Lemma empty_part_panics fuel n sub ents p :
  "" ∈ split_underscore n ->
  generate (S fuel) [Dir n sub] (mkGen [] p ents) = Panic.
Proof.
  intros Hin. cbn [generate read_dir pbuf generate_entries].
  assert (kind_name n = Panic) as ->; [|done].
  unfold kind_name. revert Hin. generalize (split_underscore n) as parts.
  induction parts as [|part parts IH]; [by intros ?%elem_of_nil|].
  intros [<-|Hin]%elem_of_cons; [done|].
  cbn [title_parts]. rewrite (IH Hin). by destruct (title_case part).
Qed.
