(* ===== verification/Ordering.v ===== *)
(** * Sequence numbers ([src/bft/ordering/mod.rs])

    [SeqNo] wraps an [i32]. Numbers are handed out by [next], which goes from
    [i32::MAX] back to [0]; [index] gives the position of a message in a queue
    of messages to be ordered, guarding against the wrap-around. *)

From S2P Require Import Prelude.
Local Open Scope Z_scope.

Record SeqNo := mkSeqNo { sn : Z }.

#[export] Instance SeqNo_eq_dec : EqDecision SeqNo.
Proof. solve_decision. Defined.

#[export] Instance SeqNo_countable : Countable SeqNo :=
  inj_countable' sn mkSeqNo (fun s => match s with mkSeqNo _ => eq_refl end).

Inductive InvalidSeqNo := Small | Big.

#[export] Instance InvalidSeqNo_eq_dec : EqDecision InvalidSeqNo.
Proof. solve_decision. Defined.

(** The checkpoint period of the log. *)
Definition PERIOD : Z := 1000.

Definition seq_from_u32 (sequence_number : Z) : SeqNo := mkSeqNo (wrap_i32 sequence_number).

Definition u32_from_seq (s : SeqNo) : Z := wrap_u32 (sn s).

Definition usize_from_seq (s : SeqNo) : Z := wrap_usize (sn s).

Definition ZERO : SeqNo := mkSeqNo 0.

(** [overflowing_add(1)], with [0] in place of the overflowed value. *)
Definition next (self : SeqNo) : SeqNo :=
  let r := wrap_i32 (sn self + 1) in
  let overflow := negb (r =? sn self + 1) in
  mkSeqNo (if overflow then 0 else r).

Definition OVERFLOW_THRES_POS : Z := 10000.
Definition OVERFLOW_THRES_NEG : Z := - OVERFLOW_THRES_POS.
Definition DROP_SEQNO_THRES : Z := PERIOD + Z.shiftr PERIOD 1.

Definition index (self other : SeqNo) : InvalidSeqNo + nat :=
  let index :=
    let index := wrap_i32 (sn self - sn other) in
    if (index <? OVERFLOW_THRES_NEG) || (index >? OVERFLOW_THRES_POS)
    then wrap_i32 (wrap_i32 (i32_MAX + index) + 1)
    else index in
  if (index <? 0) || (index >? DROP_SEQNO_THRES)
  then inl (if index <? 0 then Small else Big)
  else inr (Z.to_nat index).

(** The hand-written [PartialOrd], used by [<] and [>=]. *)
Definition partial_cmp (self other : SeqNo) : option comparison :=
  Some (match index self other with
        | inr O => Eq
        | inl Small => Lt
        | _ => Gt
        end).

(** The derived [Ord], used by [cmp] and [max_by_key]. *)
Definition cmp (self other : SeqNo) : comparison := sn self ?= sn other.

Definition seq_lt (a b : SeqNo) : bool :=
  match partial_cmp a b with Some Lt => true | _ => false end.

Definition seq_ge (a b : SeqNo) : bool :=
  match partial_cmp a b with Some Gt | Some Eq => true | _ => false end.

(** The trait [Orderable]. *)
Class Orderable (M : Type) := { sequence_number : M -> SeqNo }.

(** A sequence number held in the memory of a [SeqNo], and one that [next]
    can produce. *)
Definition seq_ok (s : SeqNo) : Prop := is_i32 (sn s).
Definition seq_nonneg (s : SeqNo) : Prop := 0 <= sn s <= i32_MAX.

(** ** Specification: cyclic distance modulo [2^31] *)

Definition seq_dist (a b : SeqNo) : Z := (sn a - sn b) mod 2147483648.

Ltac seq_unfold :=
  unfold seq_ok, seq_nonneg, is_i32, seq_dist, next, index, DROP_SEQNO_THRES,
    OVERFLOW_THRES_NEG, OVERFLOW_THRES_POS, PERIOD, i32_MAX, i32_MIN, wrap_i32 in *;
  change (1000 + Z.shiftr 1000 1) with 1500 in *.

Ltac zdm := Z.div_mod_to_equations; lia.

(** ** Facts shared with the queues *)

Lemma sn_inj a b : sn a = sn b -> a = b.
Proof. destruct a, b. simpl. by intros ->. Qed.

Lemma wrap_i32_small z : is_i32 z -> wrap_i32 z = z.
Proof. unfold is_i32, i32_MIN, i32_MAX, wrap_i32. intros. zdm. Qed.

Lemma wrap_i32_range z : is_i32 (wrap_i32 z).
Proof. unfold is_i32, i32_MIN, i32_MAX, wrap_i32. zdm. Qed.

Lemma next_sn s : seq_nonneg s ->
  sn (next s) = if sn s =? i32_MAX then 0 else sn s + 1.
Proof.
  intros Hs. seq_unfold. simpl.
  destruct (Z.eqb_spec (sn s) 2147483647) as [->|Hne]; [reflexivity|].
  replace ((sn s + 1 + 2147483648) mod 4294967296 - 2147483648) with (sn s + 1) by zdm.
  by rewrite Z.eqb_refl.
Qed.

Lemma next_nonneg s : seq_nonneg s -> seq_nonneg (next s).
Proof.
  intros Hs. unfold seq_nonneg. rewrite next_sn by done.
  unfold seq_nonneg in Hs. destruct (Z.eqb_spec (sn s) i32_MAX); unfold i32_MAX in *; lia.
Qed.

(** The signed position computed by [index] before its range checks. *)
Definition raw_index (self other : SeqNo) : Z :=
  let d := wrap_i32 (sn self - sn other) in
  if (d <? -10000) || (d >? 10000) then wrap_i32 (wrap_i32 (i32_MAX + d) + 1) else d.

Lemma index_raw a b :
  index a b =
  if raw_index a b <? 0 then inl Small
  else if raw_index a b >? 1500 then inl Big
  else inr (Z.to_nat (raw_index a b)).
Proof.
  unfold index, raw_index, OVERFLOW_THRES_NEG, OVERFLOW_THRES_POS, DROP_SEQNO_THRES, PERIOD.
  change (1000 + Z.shiftr 1000 1) with 1500. change (- (10000)) with (-10000).
  match goal with |- context [Z.to_nat ?x] => set (r := x) end.
  destruct (Z.ltb_spec r 0), (Z.gtb_spec r 1500); simpl; try reflexivity; lia.
Qed.

Lemma raw_index_cases a b : seq_ok a -> seq_ok b ->
  -2147473648 <= raw_index a b <= 2147473648 /\
  raw_index a b mod 2147483648 = seq_dist a b.
Proof.
  intros Ha Hb. unfold raw_index. seq_unfold.
  set (d := (sn a - sn b + 2147483648) mod 4294967296 - 2147483648).
  assert (Hd : -2147483648 <= d <= 2147483647) by (unfold d; zdm).
  assert (Hm : exists k, sn a - sn b = d + 4294967296 * k).
  { exists ((sn a - sn b + 2147483648) / 4294967296). unfold d. zdm. }
  destruct Hm as [k Hk]. clearbody d.
  assert (Hdist : (sn a - sn b) mod 2147483648 = d mod 2147483648).
  { rewrite Hk. replace (d + 4294967296 * k) with (d + (2 * k) * 2147483648) by lia.
    by rewrite Z.mod_add by lia. }
  rewrite Hdist.
  destruct (Z.ltb_spec d (-10000)); destruct (Z.gtb_spec d 10000); simpl; try lia.
  - split; zdm.
  - split; zdm.
Qed.

(** [index] accepts exactly the window of 1501 numbers starting at [other],
    on the circle of [2^31] numbers, and gives the offset in that window. *)
Lemma index_spec a b k : seq_ok a -> seq_ok b ->
  index a b = inr k <-> (seq_dist a b = Z.of_nat k /\ Z.of_nat k <= 1500).
Proof.
  intros Ha Hb. destruct (raw_index_cases a b Ha Hb) as [Hr Hm].
  rewrite index_raw, <- Hm.
  destruct (Z.ltb_spec (raw_index a b) 0); [|destruct (Z.gtb_spec (raw_index a b) 1500)].
  - split; [discriminate|]. intros [E Hk]. exfalso. zdm.
  - split; [discriminate|]. intros [E Hk]. exfalso. zdm.
  - assert (raw_index a b mod 2147483648 = raw_index a b) as -> by zdm.
    split; [intros [= <-]; lia|]. intros [E _]. f_equal. lia.
Qed.

Lemma index_self a : seq_ok a -> index a a = inr O.
Proof.
  intros Ha. apply index_spec; [done..|]. unfold seq_dist.
  rewrite Z.sub_diag. split; [reflexivity|lia].
Qed.

Lemma seq_nonneg_ok s : seq_nonneg s -> seq_ok s.
Proof. seq_unfold. lia. Qed.

Lemma seq_dist_next a b : seq_ok a -> seq_nonneg b -> seq_dist a b <> 0 ->
  seq_dist a (next b) = seq_dist a b - 1.
Proof.
  intros Ha Hb Hd. unfold seq_dist in *. rewrite next_sn by done.
  unfold seq_nonneg, seq_ok, is_i32, i32_MAX, i32_MIN in *.
  destruct (Z.eqb_spec (sn b) 2147483647); zdm.
Qed.

Lemma index_next_window a b k : seq_ok a -> seq_nonneg b ->
  index a b = inr (S k) -> index a (next b) = inr k.
Proof.
  intros Ha Hb Hi. pose proof (seq_nonneg_ok _ (next_nonneg _ Hb)) as Hn.
  pose proof (seq_nonneg_ok _ Hb) as Hb'.
  apply index_spec in Hi as [Hd Hk]; [|done..].
  apply index_spec; [done..|]. rewrite seq_dist_next by (done || lia). lia.
Qed.

Lemma seq_dist_zero a b : seq_nonneg a -> seq_nonneg b -> seq_dist a b = 0 -> a = b.
Proof.
  intros Ha Hb Hd. destruct a as [a], b as [b]. f_equal. unfold seq_dist in Hd.
  unfold seq_nonneg, i32_MAX in *. simpl in *. zdm.
Qed.

#[export] Hint Resolve next_nonneg seq_nonneg_ok : bft.

(** ** Properties of sequence numbers *)

Lemma raw_index_small a b : seq_ok a -> seq_ok b ->
  raw_index a b < 0 <->
  (-10000 <= wrap_i32 (sn a - sn b) < 0 \/ 10000 < wrap_i32 (sn a - sn b)).
Proof.
  intros Ha Hb. unfold raw_index. pose proof (wrap_i32_range (sn a - sn b)) as Hd.
  set (d := wrap_i32 (sn a - sn b)) in *. clearbody d. seq_unfold.
  destruct (Z.ltb_spec d (-10000)); destruct (Z.gtb_spec d 10000); simpl; zdm.
Qed.

(** C37: the three results of [index] on arbitrary [i32] values: an offset of at
    most 1500 on the circle of [2^31] numbers, [Small] for the 10000 numbers
    behind [other] and for everything more than 10000 ahead, [Big] otherwise. *)
Theorem index_characterisation a b : seq_ok a -> seq_ok b ->
  (forall k, index a b = inr k <-> seq_dist a b = Z.of_nat k /\ Z.of_nat k <= 1500) /\
  (index a b = inl Small <->
   -10000 <= wrap_i32 (sn a - sn b) < 0 \/ 10000 < wrap_i32 (sn a - sn b)) /\
  (index a b = inl Big <->
   1500 < seq_dist a b /\
   ~ (-10000 <= wrap_i32 (sn a - sn b) < 0 \/ 10000 < wrap_i32 (sn a - sn b))).
Proof.
  intros Ha Hb. split; [intros k; by apply index_spec|].
  rewrite <- raw_index_small by done.
  destruct (raw_index_cases a b Ha Hb) as [Hr Hm]. rewrite index_raw, <- Hm.
  destruct (Z.ltb_spec (raw_index a b) 0); [|destruct (Z.gtb_spec (raw_index a b) 1500)];
    (split; [split; [intros E | intros ?] | split; [intros E | intros [? ?]]]);
    try discriminate; try reflexivity; try lia; try zdm.
Qed.

Lemma index_characterisation_witness :
  index (mkSeqNo 3) (mkSeqNo 2147483646) = inr 5%nat.
Proof.
  apply (proj1 (index_characterisation (mkSeqNo 3) (mkSeqNo 2147483646)
    ltac:(vm_compute; split; discriminate) ltac:(vm_compute; split; discriminate))).
  vm_compute. split; [reflexivity|discriminate].
Defined.

Lemma seq_dist_iter_next s k : seq_nonneg s -> Z.of_nat k < 2147483648 ->
  seq_nonneg (Nat.iter k next s) /\ seq_dist (Nat.iter k next s) s = Z.of_nat k.
Proof.
  intros Hs. induction k as [|k IH]; intros Hk.
  - split; [done|]. unfold seq_dist. simpl. by rewrite Z.sub_diag.
  - destruct IH as [Hn Hd]; [lia|]. simpl. split; [by apply next_nonneg|].
    unfold seq_dist in *. rewrite next_sn by done.
    unfold seq_nonneg, i32_MAX in *.
    destruct (Z.eqb_spec (sn (Nat.iter k next s)) 2147483647); zdm.
Qed.

(** The numbers handed out do not repeat before all of them have been used. *)
Lemma iter_next_inj s k1 k2 : seq_nonneg s -> Z.of_nat k1 < 2147483648 -> Z.of_nat k2 < 2147483648 ->
  Nat.iter k1 next s = Nat.iter k2 next s -> k1 = k2.
Proof.
  intros Hs L1 L2 E. destruct (seq_dist_iter_next s k1 Hs L1) as [_ D1].
  destruct (seq_dist_iter_next s k2 Hs L2) as [_ D2]. rewrite E in D1. lia.
Qed.

(** Handing out numbers with [next] and locating them with [index] agree
    across the wrap-around at [i32::MAX]: the [k]-th successor of the current
    number is at position [k] of the queue, for every [k] in the window. *)
Theorem index_of_successor s k : seq_nonneg s -> (k <= 1500)%nat ->
  index (Nat.iter k next s) s = inr k.
Proof.
  intros Hs Hk. destruct (seq_dist_iter_next s k Hs) as [Hn Hd]; [lia|].
  apply index_spec; [by apply seq_nonneg_ok..|]. lia.
Qed.

Lemma index_of_successor_witness :
  index (Nat.iter 2 next (mkSeqNo i32_MAX)) (mkSeqNo i32_MAX) = inr 2%nat.
Proof.
  apply (index_of_successor (mkSeqNo i32_MAX) 2); [|lia].
  vm_compute. split; discriminate.
Defined.

Lemma partial_cmp_small a b : seq_nonneg a -> seq_nonneg b -> -10000 <= sn a - sn b <= 10000 ->
  partial_cmp a b = Some (cmp a b).
Proof.
  intros Ha Hb Hd. unfold partial_cmp, cmp. rewrite index_raw.
  assert (Hr : raw_index a b = sn a - sn b).
  { unfold raw_index. rewrite wrap_i32_small by (seq_unfold; lia).
    destruct (Z.ltb_spec (sn a - sn b) (-10000)); destruct (Z.gtb_spec (sn a - sn b) 10000);
      simpl; lia. }
  rewrite Hr. destruct (Z.ltb_spec (sn a - sn b) 0).
  - by rewrite (proj2 (Z.compare_lt_iff _ _)) by lia.
  - destruct (Z.gtb_spec (sn a - sn b) 1500).
    + by rewrite (proj2 (Z.compare_gt_iff _ _)) by lia.
    + destruct (Z.compare_spec (sn a) (sn b)) as [E|E|E]; [|lia|].
      * by rewrite E, Z.sub_diag.
      * destruct (Z.to_nat (sn a - sn b)) eqn:E'; [lia|reflexivity].
Qed.

Lemma partial_cmp_far a b : seq_nonneg a -> seq_nonneg b -> 10000 < sn b - sn a ->
  partial_cmp a b = Some Gt.
Proof.
  intros Ha Hb Hd. unfold partial_cmp. rewrite index_raw.
  assert (Hr : raw_index a b = sn a - sn b + 2147483648).
  { unfold raw_index. rewrite wrap_i32_small by (seq_unfold; lia).
    destruct (Z.ltb_spec (sn a - sn b) (-10000)); [|lia]. cbn [orb].
    seq_unfold. zdm. }
  rewrite Hr. unfold seq_nonneg, i32_MAX in *.
  destruct (Z.ltb_spec (sn a - sn b + 2147483648) 0); [lia|].
  destruct (Z.gtb_spec (sn a - sn b + 2147483648) 1500); [done|].
  destruct (Z.to_nat (sn a - sn b + 2147483648)) eqn:E; [lia|reflexivity].
Qed.

(** The hand-written [PartialOrd] of [SeqNo] coincides with the derived
    [Ord] exactly when the two numbers are at most 10000 apart; beyond that it
    is the reverse order, so [a < b] is false although [a.cmp(&b)] is [Less]. *)
Theorem partial_cmp_agrees_with_ord_iff a b : seq_nonneg a -> seq_nonneg b ->
  (partial_cmp a b = Some (cmp a b) <-> -10000 <= sn a - sn b <= 10000) /\
  (10000 < sn b - sn a -> seq_lt a b = false /\ cmp a b = Lt).
Proof.
  intros Ha Hb.
  assert (Hlt : 10000 < sn b - sn a -> cmp a b = Lt).
  { intros ?. unfold cmp. apply Z.compare_lt_iff. lia. }
  split.
  - split; [|by apply partial_cmp_small]. intros E.
    destruct (Z.le_gt_cases (sn b - sn a) 10000) as [H1|H1].
    2: { rewrite partial_cmp_far, Hlt in E by (done || lia). discriminate. }
    destruct (Z.le_gt_cases (sn a - sn b) 10000) as [H2|H2]; [lia|]. exfalso.
    assert (cmp a b = Gt) as E2 by (unfold cmp; apply Z.compare_gt_iff; lia).
    rewrite E2 in E. unfold partial_cmp in E.
    assert (Hs : index a b = inl Small).
    { rewrite index_raw. pose proof (proj2 (raw_index_small a b (seq_nonneg_ok _ Ha)
        (seq_nonneg_ok _ Hb))) as Hn.
      rewrite wrap_i32_small in Hn by (seq_unfold; lia).
      destruct (Z.ltb_spec (raw_index a b) 0); [done|]. lia. }
    rewrite Hs in E. discriminate.
  - intros Hd. split; [|by apply Hlt]. unfold seq_lt. by rewrite partial_cmp_far.
Qed.

Lemma partial_cmp_agrees_with_ord_iff_witness :
  seq_lt (mkSeqNo 0) (mkSeqNo 20000) = false /\ cmp (mkSeqNo 0) (mkSeqNo 20000) = Lt.
Proof.
  apply (proj2 (partial_cmp_agrees_with_ord_iff (mkSeqNo 0) (mkSeqNo 20000)
    ltac:(vm_compute; split; discriminate) ltac:(vm_compute; split; discriminate))).
  reflexivity.
Defined.
