(* ===== verification/Prng.v ===== *)
(** * Pseudo random numbers ([src/bft/prng/mod.rs])

    The [xoshiro256**] generator that produces the nonces of wire messages:
    its 256-bit state, one step, the long jump performed on a fresh state. The
    seed comes from the operating system and is an argument of [new]. *)

From S2P Require Import Prelude.
Local Open Scope Z_scope.

Record State := mkState { s0 : Z; s1 : Z; s2 : Z; s3 : Z }.

Definition shl64 (x k : Z) : Z := wrap_u64 (Z.shiftl x k).
Definition wrapping_mul (x y : Z) : Z := wrap_u64 (x * y).

Definition rotl (x k : Z) : Z := Z.lor (shl64 x k) (Z.shiftr x (64 - k)).

(** The number produced, and the state after the step. *)
Definition next_state (self : State) : Z * State :=
  let '(mkState a b c d) := self in
  let result := wrapping_mul (rotl (wrapping_mul b 5) 7) 9 in
  let t := shl64 b 17 in
  let c := Z.lxor c a in
  let d := Z.lxor d b in
  let b := Z.lxor b c in
  let a := Z.lxor a d in
  let c := Z.lxor c t in
  let d := rotl d 45 in
  (result, mkState a b c d).

Definition LONG_JUMP : list Z :=
  [ 0x76e15d3efefdcbbf; 0xc5004e441c522fb3; 0x77710069854ee241; 0x39109bb02acbe635 ].

(** One iteration of the inner loop, for bit [b] of [jmp_val]: the four
    accumulators are the components of the first state. *)
Definition jump_bit (jmp_val : Z) (accs : State * State) (b : nat) : State * State :=
  let '(acc, st) := accs in
  let acc :=
    if Z.land jmp_val (shl64 1 (Z.of_nat b)) =? 0 then acc
    else mkState (Z.lxor (s0 acc) (s0 st)) (Z.lxor (s1 acc) (s1 st))
                 (Z.lxor (s2 acc) (s2 st)) (Z.lxor (s3 acc) (s3 st)) in
  (acc, snd (next_state st)).

Definition long_jump (self : State) : State :=
  fst (fold_left (fun accs jmp_val => fold_left (jump_bit jmp_val) (seq 0 64) accs)
         LONG_JUMP (mkState 0 0 0 0, self)).

(** The 32 bytes of the seed reinterpreted as four little-endian [u64]. *)
Definition new (seed : list Z) : State :=
  long_jump (mkState (from_le_bytes (take 8 seed)) (from_le_bytes (take 8 (drop 8 seed)))
                     (from_le_bytes (take 8 (drop 16 seed))) (from_le_bytes (take 8 (drop 24 seed)))).

(** ** The words of the state stay 64 bits wide *)

Definition state_ok (s : State) : Prop :=
  is_u64 (s0 s) /\ is_u64 (s1 s) /\ is_u64 (s2 s) /\ is_u64 (s3 s).

Lemma is_u64_bits z : is_u64 z <-> 0 <= z /\ (forall i, 64 <= i -> Z.testbit z i = false).
Proof.
  unfold is_u64. change 18446744073709551616 with (2 ^ 64). split.
  - intros [H0 H1]. split; [done|]. intros i Hi.
    rewrite <- (Z.mod_small z (2 ^ 64)) by lia. by rewrite Z.mod_pow2_bits_high by lia.
  - intros [H0 Hb]. split; [done|].
    assert (z = z mod 2 ^ 64) as ->; [|apply Z.mod_pos_bound; lia].
    apply Z.bits_inj'. intros i Hi. destruct (Z.lt_ge_cases i 64).
    + by rewrite Z.mod_pow2_bits_low by lia.
    + rewrite Z.mod_pow2_bits_high by lia. by apply Hb.
Qed.

Lemma wrap_u64_range z : is_u64 (wrap_u64 z).
Proof. unfold is_u64, wrap_u64. apply Z.mod_pos_bound. lia. Qed.

Lemma lxor_u64 a b : is_u64 a -> is_u64 b -> is_u64 (Z.lxor a b).
Proof.
  rewrite !is_u64_bits. intros [Ha Ha'] [Hb Hb']. split; [apply Z.lxor_nonneg; tauto|].
  intros i Hi. by rewrite Z.lxor_spec, Ha', Hb'.
Qed.

Lemma rotl_u64 x k : is_u64 x -> 0 <= k <= 64 -> is_u64 (rotl x k).
Proof.
  intros Hx Hk. unfold rotl. pose proof (wrap_u64_range (Z.shiftl x k)) as Hs.
  rewrite is_u64_bits in *. destruct Hx as [Hx Hx'], Hs as [Hs Hs'].
  split; [apply Z.lor_nonneg; split; [done|by apply Z.shiftr_nonneg]|].
  intros i Hi. unfold shl64. rewrite Z.lor_spec, Hs' by done.
  rewrite Z.shiftr_spec by lia. apply Hx'. lia.
Qed.

#[export] Hint Resolve wrap_u64_range lxor_u64 rotl_u64 : bft.

Lemma next_state_ok s : state_ok s -> is_u64 (fst (next_state s)) /\ state_ok (snd (next_state s)).
Proof.
  destruct s as [a b c d]. unfold state_ok, next_state, wrapping_mul, shl64. simpl.
  intros (Ha & Hb & Hc & Hd).
  split; [auto with bft|]. repeat split_and; auto 7 with bft.
  all: apply rotl_u64; auto with bft; lia.
Qed.

Lemma jump_bit_ok j acc st b : state_ok acc -> state_ok st ->
  state_ok (fst (jump_bit j (acc, st) b)) /\ state_ok (snd (jump_bit j (acc, st) b)).
Proof.
  intros Ha Hs. unfold jump_bit. cbn [fst snd]. split; [|by apply next_state_ok].
  destruct (_ =? 0); [done|]. destruct Ha as (?&?&?&?), Hs as (?&?&?&?).
  unfold state_ok; simpl; auto with bft.
Qed.

Lemma jump_bits_ok j bits : forall accs, state_ok accs.1 -> state_ok accs.2 ->
  state_ok (fold_left (jump_bit j) bits accs).1 /\ state_ok (fold_left (jump_bit j) bits accs).2.
Proof.
  induction bits as [|b bits IH]; intros [acc st] H1 H2; [done|].
  cbn [fold_left]. destruct (jump_bit_ok j acc st b H1 H2). by apply IH.
Qed.

Lemma long_jump_ok s : state_ok s -> state_ok (long_jump s).
Proof.
  intros Hs. unfold long_jump.
  assert (H : forall js accs, state_ok accs.1 -> state_ok accs.2 ->
    state_ok (fold_left (fun accs j => fold_left (jump_bit j) (seq 0 64) accs) js accs).1).
  { induction js as [|j js IH]; intros accs H1 H2; [done|]. cbn [fold_left].
    destruct (jump_bits_ok j (seq 0 64) accs H1 H2). by apply IH. }
  apply H; [|done]. simpl. unfold state_ok, is_u64; simpl; lia.
Qed.
