(* ===== verification/Crypto.v ===== *)
(** * Hash digests and signatures ([src/bft/crypto])

    The hash function (blake3) and the signature scheme (ed25519) are external
    crates and parameters of the development, given by the classes [HashFn]
    and [SigScheme]. What this crate adds on top of them is defined here: the
    incremental [Context], [Digest] and its length check, [entropy],
    [Signature]. *)

From S2P Require Import Prelude Error.
Local Open Scope Z_scope.

(** ** Hashing *)

(** [hash_bytes l] is the output of the hasher after it has absorbed [l]. *)
Class HashFn := { hash_bytes : list Z -> list Z }.

Definition Digest_LENGTH : nat := 32.

(** The output of the hasher has [OUT_LEN] bytes. *)
Class HashLaws `{HashFn} : Prop := {
  hash_bytes_length : forall l, length (hash_bytes l) = Digest_LENGTH;
  hash_bytes_u8 : forall l, Forall is_u8 (hash_bytes l)
}.

Record Digest := mkDigest { dig_bytes : list Z }.

#[export] Instance Digest_eq_dec : EqDecision Digest.
Proof. solve_decision. Defined.

#[export] Instance Digest_countable : Countable Digest :=
  inj_countable' dig_bytes mkDigest (fun d => match d with mkDigest _ => eq_refl end).

(** The data fed to a hasher so far. *)
Record Context := mkContext { absorbed : list Z }.

Definition context_new : Context := mkContext [].

Definition context_update (self : Context) (data : list Z) : Context :=
  mkContext (absorbed self ++ data).

Definition context_finish `{HashFn} (self : Context) : Digest :=
  mkDigest (hash_bytes (absorbed self)).

Definition digest_from_bytes (raw_bytes : list Z) : result Digest :=
  if decide (length raw_bytes < Digest_LENGTH)%nat
  then err_wrapped "Digest has an invalid length" "CryptoHashBlake3Blake3"
  else Ok (mkDigest (take Digest_LENGTH raw_bytes)).

(** The SHA-2 backend differs in the kind of its error alone. *)
Definition sha2_digest_from_bytes (raw_bytes : list Z) : result Digest :=
  if decide (length raw_bytes < Digest_LENGTH)%nat
  then err_wrapped "Digest has an invalid length" "CryptoHashRingSha2"
  else Ok (mkDigest (take Digest_LENGTH raw_bytes)).

(** [Digest::from_bytes_unchecked(h.as_ref())]: the slice panics when the
    output of the hasher is too short. *)
Definition sha2_context_finish `{HashFn} (self : Context) : outcome Digest :=
  let h := hash_bytes (absorbed self) in
  if decide (length h < Digest_LENGTH)%nat then Panic
  else Done (mkDigest (take Digest_LENGTH h)).

Definition entropy `{HashFn} (self : Digest) (nonce : list Z) : Digest :=
  let ctx := context_new in
  let ctx := context_update ctx nonce in
  let ctx := context_update ctx (dig_bytes self) in
  context_finish ctx.

Definition zero_digest : Digest := mkDigest (replicate Digest_LENGTH 0).

Definition digest_ok (d : Digest) : Prop :=
  length (dig_bytes d) = Digest_LENGTH /\ Forall is_u8 (dig_bytes d).

(** ** Signatures *)

Definition Signature_LENGTH : nat := 64.

Class SigScheme := {
  KeyPair : Type;
  PublicKey : Type;
  public_key : KeyPair -> PublicKey;
  sign_bytes : KeyPair -> list Z -> list Z;
  verify_bytes : PublicKey -> list Z -> list Z -> bool
}.

(** A signature has 64 bytes and verifies under the public half of the key
    that made it. *)
Class SigLaws `{SigScheme} : Prop := {
  sign_bytes_length : forall sk m, length (sign_bytes sk m) = Signature_LENGTH;
  sign_bytes_u8 : forall sk m, Forall is_u8 (sign_bytes sk m);
  verify_sign : forall sk m, verify_bytes (public_key sk) m (sign_bytes sk m) = true
}.

Definition signature_from_bytes (raw_bytes : list Z) : result (list Z) :=
  if decide (length raw_bytes < Signature_LENGTH)%nat
  then err_wrapped "Signature has an invalid length" "CryptoSignatureRingEd25519"
  else Ok (take Signature_LENGTH raw_bytes).

Definition sign `{SigScheme} (sk : KeyPair) (message : list Z) : result (list Z) :=
  Ok (take Signature_LENGTH (sign_bytes sk message)).

Definition verify `{SigScheme} (pk : PublicKey) (message signature : list Z) : result unit :=
  if verify_bytes pk message signature then Ok tt
  else Err (Errors.wrapped "CryptoSignatureRingEd25519" "Invalid signature").

(** ** Keys *)

Definition ED25519_PUBLIC_KEY_LEN : nat := 32.

(** What ring offers on keys: [from_seed_unchecked] rejects seeds, the bytes of
    the public half of a key pair, and [UnparsedPublicKey::new]. *)
Class RingKeys `{SigScheme} := {
  from_seed_unchecked : list Z -> KeyPair + string;
  ring_public_key : KeyPair -> list Z;
  unparsed_public_key : list Z -> PublicKey
}.

(** A seed has 32 bytes, a public key has 32 bytes, and [public_key] is the key
    that is made of them. *)
Class RingKeysLaws `{RingKeys} : Prop := {
  seed_length : forall seed, (exists sk, from_seed_unchecked seed = inl sk) <-> length seed = 32%nat;
  ring_public_key_length : forall sk, length (ring_public_key sk) = ED25519_PUBLIC_KEY_LEN;
  ring_public_key_parses : forall sk, unparsed_public_key (ring_public_key sk) = public_key sk
}.

Section Keys.
Context `{RingKeys}.

Definition public_key_from_bytes_unchecked (raw_bytes : list Z) : PublicKey :=
  unparsed_public_key (take ED25519_PUBLIC_KEY_LEN raw_bytes).

Definition public_key_from_bytes (raw_bytes : list Z) : result PublicKey :=
  if decide (length raw_bytes < ED25519_PUBLIC_KEY_LEN)%nat
  then err_wrapped "Public key has an invalid length" "CryptoSignatureRingEd25519"
  else Ok (public_key_from_bytes_unchecked raw_bytes).

(** The pair [KeyPair { sk, pk }]. *)
Definition key_pair_from_bytes (seed_bytes : list Z) : result (KeyPair * PublicKey) :=
  result_bind
    (result_simple_msg (from_seed_unchecked seed_bytes) "CryptoSignatureRingEd25519"
       "Invalid seed for ed25519 key")
    (fun sk => Ok (sk, public_key_from_bytes_unchecked (ring_public_key sk))).

(** Exactly the seeds of 32 bytes make a key pair; its public key can be sent
    as bytes and read back, and what the pair signs verifies under it. *)
Lemma key_pair_signs `{!SigLaws, !RingKeysLaws} seed m :
  match key_pair_from_bytes seed with
  | Ok (sk, pk) =>
    length seed = 32%nat /\ public_key_from_bytes (ring_public_key sk) = Ok pk /\
    exists s, sign sk m = Ok s /\ signature_from_bytes s = Ok s /\ verify pk m s = Ok tt
  | Err e => length seed <> 32%nat /\ Errors.kind e = "CryptoSignatureRingEd25519"%string
  end.
Proof.
  unfold key_pair_from_bytes, result_simple_msg, map_err.
  destruct (from_seed_unchecked seed) as [sk|e] eqn:Hseed; cbn [result_bind].
  2:{ split; [|done]. intros [? Hsk]%seed_length. by rewrite Hseed in Hsk. }
  pose proof (ring_public_key_length sk) as Hpk. pose proof (sign_bytes_length sk m) as Hsig.
  split; [apply seed_length; by exists sk|]. split.
  - unfold public_key_from_bytes. by rewrite Hpk.
  - exists (sign_bytes sk m). unfold sign, signature_from_bytes, verify, public_key_from_bytes_unchecked.
    rewrite <- Hsig, <- Hpk, !firstn_all, ring_public_key_parses, verify_sign.
    by rewrite decide_False by lia.
Qed.

(** The types the rest of the crate uses, each around one of the backend's. *)
Record WKeyPair := mkWKeyPair { wkp_inner : KeyPair * PublicKey }.
Record WPublicKey := mkWPublicKey { wpk_inner : PublicKey }.
Record WPublicKeyRef := mkWPublicKeyRef { wpkr_inner : PublicKey }.
Record WSignature := mkWSignature { wsig_inner : list Z }.

Definition KeyPair_from_bytes (raw_bytes : list Z) : result WKeyPair :=
  result_bind (key_pair_from_bytes raw_bytes) (fun inner => Ok (mkWKeyPair inner)).
Definition KeyPair_public_key (self : WKeyPair) : WPublicKeyRef := mkWPublicKeyRef (wkp_inner self).2.
Definition KeyPair_sign (self : WKeyPair) (message : list Z) : result WSignature :=
  result_bind (sign (wkp_inner self).1 message) (fun inner => Ok (mkWSignature inner)).
Definition PublicKey_from_ref (pk : WPublicKeyRef) : WPublicKey := mkWPublicKey (wpkr_inner pk).
Definition PublicKeyRef_verify (self : WPublicKeyRef) (message : list Z) (signature : WSignature) : result unit :=
  verify (wpkr_inner self) message (wsig_inner signature).
Definition PublicKey_from_bytes (raw_bytes : list Z) : result WPublicKey :=
  result_bind (public_key_from_bytes raw_bytes) (fun inner => Ok (mkWPublicKey inner)).
Definition PublicKey_verify (self : WPublicKey) (message : list Z) (signature : WSignature) : result unit :=
  verify (wpk_inner self) message (wsig_inner signature).
Definition Signature_from_bytes (raw_bytes : list Z) : result WSignature :=
  result_bind (signature_from_bytes raw_bytes) (fun inner => Ok (mkWSignature inner)).
Definition Signature_as_ref (self : WSignature) : list Z := wsig_inner self.

(** What a key pair signs verifies under its public key, also after the
    signature and the key have been sent as bytes. *)
Lemma signature_travels `{!SigLaws, !RingKeysLaws} seed kp m : KeyPair_from_bytes seed = Ok kp ->
  exists s, KeyPair_sign kp m = Ok s /\ PublicKeyRef_verify (KeyPair_public_key kp) m s = Ok tt /\
    length (Signature_as_ref s) = Signature_LENGTH /\ Signature_from_bytes (Signature_as_ref s) = Ok s /\
    exists pk, PublicKey_from_bytes (ring_public_key (wkp_inner kp).1) = Ok pk /\
      pk = PublicKey_from_ref (KeyPair_public_key kp) /\ PublicKey_verify pk m s = Ok tt.
Proof.
  unfold KeyPair_from_bytes. pose proof (key_pair_signs seed m) as Hk.
  destruct (key_pair_from_bytes seed) as [[sk pk]|e]; [|discriminate]. intros [= <-].
  destruct Hk as (_ & Hpk & s & Hs & Hb & Hv). exists (mkWSignature s).
  unfold KeyPair_sign, Signature_from_bytes, PublicKey_from_bytes. cbn [wkp_inner fst snd].
  rewrite Hs, Hpk. cbn [result_bind wsig_inner Signature_as_ref]. rewrite Hb.
  split_and!; [done|done| |done|by exists (mkWPublicKey pk)].
  unfold signature_from_bytes in Hb. case_decide as Hl; [discriminate|]. injection Hb as Hb.
  rewrite <- Hb, length_take. lia.
Qed.

End Keys.

(** The two backends produce the same digests from a hash of the right length. *)
Lemma sha2_finish_agrees `{HashFn, !HashLaws} (ctx : Context) :
  sha2_context_finish ctx = Done (context_finish ctx).
Proof.
  unfold sha2_context_finish, context_finish. pose proof (hash_bytes_length (absorbed ctx)) as Hl.
  rewrite decide_False by lia. by rewrite <- Hl, firstn_all.
Qed.

(** ** A concrete scheme for the executable witnesses: the hash is the first
    bytes of the input padded to 32, and a signature repeats the key. *)

Definition toy_hash : HashFn := {|
  hash_bytes := fun l => take 32 (map (fun b => b mod 256) l ++ replicate 32 0)
|}.

Definition toy_sig : SigScheme := {|
  KeyPair := Z;
  PublicKey := Z;
  public_key := fun k => k;
  sign_bytes := fun k m => replicate 64 (k mod 256);
  verify_bytes := fun k m s => bool_decide (s = replicate 64 (k mod 256))
|}.

Definition toy_keys : @RingKeys toy_sig := {|
  from_seed_unchecked := fun s =>
    if decide (length s = 32%nat) then inl (default 0 (head s) : @KeyPair toy_sig) else inr "InvalidSeed"%string;
  ring_public_key := fun k : @KeyPair toy_sig => k :: replicate 31 0;
  unparsed_public_key := fun l => (default 0 (head l) : @PublicKey toy_sig)
|}.

Lemma mod_u8 z : is_u8 (z mod 256).
Proof. unfold is_u8. apply Z.mod_pos_bound. lia. Qed.

Lemma toy_hash_laws : @HashLaws toy_hash.
Proof.
  split; intros l; unfold hash_bytes, toy_hash.
  - rewrite length_take, length_app, length_replicate. unfold Digest_LENGTH. lia.
  - apply Forall_take, Forall_app. split.
    + apply Forall_forall. intros x Hx. apply list_elem_of_In, in_map_iff in Hx as (y & <- & _).
      apply mod_u8.
    + apply Forall_replicate. unfold is_u8. lia.
Qed.

Lemma toy_sig_laws : @SigLaws toy_sig.
Proof.
  split; intros sk m; unfold sign_bytes, verify_bytes, toy_sig, public_key.
  - apply length_replicate.
  - apply Forall_replicate, mod_u8.
  - by rewrite bool_decide_eq_true_2.
Qed.

Lemma toy_keys_laws : @RingKeysLaws toy_sig toy_keys.
Proof.
  split; [|done|done]. intros seed. cbn. case_decide as Hl; split; [done|by eexists| |done].
  by intros [? [=]].
Qed.

Lemma digest_from_bytes_ok l d : digest_from_bytes l = Ok d -> length (dig_bytes d) = Digest_LENGTH.
Proof.
  unfold digest_from_bytes. case_decide; [discriminate|]. intros [= <-]. simpl.
  rewrite length_take. unfold Digest_LENGTH in *. lia.
Qed.
