(* ===== verification/Params.v ===== *)
(** * System parameters, node ids and views
    ([src/bft/core/mod.rs], [ViewInfo] of [src/bft/core/server/mod.rs],
    [NodeId] of [src/bft/communication/mod.rs])

    [n] and [f] are [usize] values; the sums and products are those of a
    release build, which wrap. *)

From S2P Require Import Prelude Error Ordering.
Local Open Scope Z_scope.

(** ** Node ids *)

Record NodeId := mkNodeId { nid : Z }.

#[export] Instance NodeId_eq_dec : EqDecision NodeId.
Proof. solve_decision. Defined.

#[export] Instance NodeId_countable : Countable NodeId :=
  inj_countable' nid mkNodeId (fun i => match i with mkNodeId _ => eq_refl end).

Definition node_from_u32 (id : Z) : NodeId := mkNodeId id.
Definition node_from_usize (id : Z) : NodeId := mkNodeId (wrap_u32 id).
Definition usize_from_node (id : NodeId) : Z := nid id.
Definition u32_from_node (id : NodeId) : Z := nid id.

(** The derived [PartialOrd] of [NodeId]. *)
Definition node_ge (a b : NodeId) : bool := nid a >=? nid b.
Definition node_lt (a b : NodeId) : bool := nid a <? nid b.

(** [NodeId::targets(0..n)] *)
Definition targets (n : Z) : list NodeId :=
  map (fun i => node_from_usize (Z.of_nat i)) (seq 0 (Z.to_nat n)).

(** ** System parameters *)

Record SystemParams := mkParams { params_n : Z; params_f : Z }.

Definition params_new (n f : Z) : result SystemParams :=
  if n <? wrap_usize (wrap_usize (3 * f) + 1)
  then err_wrapped "Invalid params: n < 3f + 1" "Core"
  else Ok (mkParams n f).

Definition quorum (self : SystemParams) : Z := wrap_usize (wrap_usize (Z.shiftl (params_f self) 1) + 1).

(** ** Views *)

Record ViewInfo := mkView { view_seq : SeqNo; params : SystemParams }.

#[export] Instance ViewInfo_orderable : Orderable ViewInfo := {| sequence_number := view_seq |}.

Definition view_new (seq : SeqNo) (n f : Z) : result ViewInfo :=
  match params_new n f with
  | Ok p => Ok (mkView seq p)
  | Err e => Err e
  end.

Definition peek (self : ViewInfo) (seq : SeqNo) : ViewInfo := mkView seq (params self).

Definition next_view (self : ViewInfo) : ViewInfo := peek self (next (view_seq self)).

Definition leader (self : ViewInfo) : NodeId :=
  node_from_usize (usize_from_seq (view_seq self) mod params_n (params self)).

(** What the consensus and state transfer protocols ask of the synchronizer:
    the current view. *)
Class ViewSource (Sy : Type) := { view : Sy -> ViewInfo }.

#[export] Instance ViewInfo_source : ViewSource ViewInfo := {| view := fun v => v |}.

(** ** Well-formed parameters *)

Definition params_ok (p : SystemParams) : Prop :=
  0 <= params_f p /\ 3 * params_f p + 1 <= params_n p /\ params_n p < 4294967296.

Lemma quorum_eq p : params_ok p -> quorum p = 2 * params_f p + 1.
Proof.
  intros (H0 & H1 & H2). unfold quorum, wrap_usize, wrap_u64.
  rewrite Z.shiftl_mul_pow2 by lia. change (2 ^ 1) with 2.
  rewrite !Z.mod_small; lia || (rewrite ?Z.mod_small; lia).
Qed.

Lemma double_f p : params_ok p -> wrap_usize (Z.shiftl (params_f p) 1) = 2 * params_f p.
Proof.
  intros (? & ? & ?). unfold wrap_usize, wrap_u64.
  rewrite Z.shiftl_mul_pow2, Z.mod_small; lia.
Qed.

(** ** Quorum arithmetic on sets of nodes *)

Definition group (p : SystemParams) : gset NodeId := list_to_set (targets (params_n p)).

Lemma elem_of_targets k i : i ∈ targets k <->
  exists j : nat, (j < Z.to_nat k)%nat /\ i = node_from_usize (Z.of_nat j).
Proof.
  unfold targets. rewrite list_elem_of_In, in_map_iff. split.
  - intros (j & <- & Hj%in_seq). exists j. split; [lia|done].
  - intros (j & Hj & ->). exists j. split; [done|]. apply in_seq. lia.
Qed.

Lemma NoDup_targets k : k <= 4294967296 -> NoDup (targets k).
Proof.
  intros Hk. unfold targets. apply NoDup_fmap_2_strong; [|apply NoDup_seq].
  intros i j Hi Hj. rewrite list_elem_of_In, in_seq in Hi, Hj.
  unfold node_from_usize, wrap_u32. intros [= E].
  rewrite !Z.mod_small in E by lia. lia.
Qed.

Lemma size_group p : 0 <= params_n p <= 4294967296 -> size (group p) = Z.to_nat (params_n p).
Proof.
  intros Hn. unfold group. rewrite size_list_to_set by (apply NoDup_targets; lia).
  unfold targets. by rewrite length_map, length_seq.
Qed.

Lemma union_intersection_size {A : Type} `{Countable A} (q1 q2 : gset A) :
  (size q1 + size q2 = size (q1 ∪ q2) + size (q1 ∩ q2))%nat.
Proof.
  rewrite size_union_alt.
  assert (q2 = (q2 ∖ q1) ∪ (q1 ∩ q2)) as Hq.
  { apply set_eq. intros x. destruct (decide (x ∈ q1)); set_solver. }
  assert (size q2 = size (q2 ∖ q1) + size (q1 ∩ q2))%nat; [|lia].
  rewrite Hq at 1. apply size_union. set_solver.
Qed.

Lemma intersection_size {A : Type} `{Countable A} (U q1 q2 : gset A) :
  q1 ⊆ U -> q2 ⊆ U -> (size q1 + size q2 <= size U + size (q1 ∩ q2))%nat.
Proof.
  intros H1 H2. rewrite union_intersection_size.
  assert (size (q1 ∪ q2) <= size U)%nat; [apply subseteq_size; set_solver|lia].
Qed.

(** Two quorums of a group of [3f+1] share a node outside any set of [f]. *)
Lemma quorum_intersection p (q1 q2 faulty : gset NodeId) :
  params_ok p -> params_n p = 3 * params_f p + 1 ->
  q1 ⊆ group p -> q2 ⊆ group p ->
  quorum p <= Z.of_nat (size q1) -> quorum p <= Z.of_nat (size q2) ->
  Z.of_nat (size faulty) <= params_f p ->
  exists i, i ∈ q1 /\ i ∈ q2 /\ i ∉ faulty.
Proof.
  intros Hp Hn H1 H2 Hq1 Hq2 Hf. rewrite quorum_eq in Hq1, Hq2 by done.
  destruct Hp as (Hf0 & _ & Hn2).
  pose proof (intersection_size (group p) q1 q2 H1 H2) as Hi.
  rewrite size_group in Hi by lia.
  assert (size faulty < size (q1 ∩ q2))%nat as Hlt by lia.
  destruct (decide (q1 ∩ q2 ∖ faulty = ∅)) as [Hs|Hs].
  - assert (q1 ∩ q2 ⊆ faulty) as Hsub%subseteq_size; [|lia].
    intros x Hx. destruct (decide (x ∈ faulty)); [done|]. set_solver.
  - apply set_choose_L in Hs as [i Hi']. exists i. set_solver.
Qed.

(** ** Properties *)

(** [SystemParams::new] accepts exactly the pairs with [n >= 3f + 1], as
    long as [3f + 1] fits in a [usize]. *)
Theorem params_new_spec n f : 0 <= f -> 3 * f + 1 < 18446744073709551616 ->
  (params_new n f = Ok (mkParams n f) <-> 3 * f + 1 <= n) /\
  (is_ok (params_new n f) = false <-> n < 3 * f + 1).
Proof.
  intros Hf Hb. unfold params_new, wrap_usize, wrap_u64.
  rewrite (Z.mod_small (3 * f)), Z.mod_small by lia.
  destruct (Z.ltb_spec n (3 * f + 1)); simpl; (split; split; try discriminate; try done; lia).
Qed.

Lemma params_new_spec_witness : params_new 4 1 = Ok (mkParams 4 1).
Proof. apply (params_new_spec 4 1); lia. Defined.

(** C13: in a group of exactly [n = 3f + 1] nodes, any two sets of [quorum()]
    nodes have a node in common that is not among any [f] faulty ones. *)
Theorem quorums_share_correct_node p (q1 q2 faulty : gset NodeId) :
  params_ok p -> params_n p = 3 * params_f p + 1 ->
  q1 ⊆ group p -> q2 ⊆ group p ->
  quorum p <= Z.of_nat (size q1) -> quorum p <= Z.of_nat (size q2) ->
  Z.of_nat (size faulty) <= params_f p ->
  exists i, i ∈ q1 /\ i ∈ q2 /\ i ∉ faulty.
Proof. apply quorum_intersection. Qed.

Lemma quorums_share_correct_node_witness :
  exists i, i ∈ ({[mkNodeId 0; mkNodeId 1; mkNodeId 2]} : gset NodeId) /\
            i ∈ ({[mkNodeId 1; mkNodeId 2; mkNodeId 3]} : gset NodeId) /\
            i ∉ ({[mkNodeId 1]} : gset NodeId).
Proof.
  apply (quorums_share_correct_node (mkParams 4 1)); try reflexivity.
  1: unfold params_ok; simpl; lia.
  1,2: apply (bool_decide_unpack _); vm_compute; exact I.
  all: vm_compute; discriminate.
Defined.

Lemma size_list_to_set_nodes (l : list NodeId) : NoDup l ->
  size (list_to_set l : gset NodeId) = length l.
Proof. apply size_list_to_set. Qed.

(** The parameters [n = 3f + 2] are accepted too, but [quorum()] stays at
    [2f + 1], and then two quorums may meet in [f] nodes only: all the nodes
    they share can be faulty. *)
Theorem quorums_may_miss_beyond_3f1 f : 1 <= f -> 3 * f + 2 < 4294967296 ->
  params_new (3 * f + 2) f = Ok (mkParams (3 * f + 2) f) /\
  exists q1 q2 faulty : gset NodeId,
    q1 ⊆ group (mkParams (3 * f + 2) f) /\ q2 ⊆ group (mkParams (3 * f + 2) f) /\
    Z.of_nat (size q1) = quorum (mkParams (3 * f + 2) f) /\
    Z.of_nat (size q2) = quorum (mkParams (3 * f + 2) f) /\
    Z.of_nat (size faulty) <= f /\ q1 ∩ q2 ⊆ faulty.
Proof.
  intros Hf Hn. set (p := mkParams (3 * f + 2) f).
  assert (Hp : params_ok p) by (unfold params_ok, p; simpl; lia).
  split; [apply (params_new_spec (3 * f + 2) f); lia|].
  rewrite (quorum_eq p Hp). change (params_f p) with f.
  set (T := targets (3 * f + 2)).
  assert (HT : length T = Z.to_nat (3 * f + 2)).
  { unfold T, targets. by rewrite length_map, length_seq. }
  assert (HN : NoDup T) by (apply NoDup_targets; lia).
  set (k := Z.to_nat (2 * f + 1)).
  set (q1 := list_to_set (take k T) : gset NodeId).
  set (q2 := list_to_set (drop (length T - k) T) : gset NodeId).
  assert (H1 : size q1 = k).
  { unfold q1. rewrite size_list_to_set_nodes.
    - rewrite length_take. lia.
    - by apply NoDup_take. }
  assert (H2 : size q2 = k).
  { unfold q2. rewrite size_list_to_set_nodes.
    - rewrite length_drop. lia.
    - by apply NoDup_drop. }
  assert (S1 : q1 ⊆ group p).
  { intros x Hx. apply elem_of_list_to_set in Hx. apply elem_of_list_to_set.
    eapply elem_of_take in Hx as (i & Hi & _). by eapply list_elem_of_lookup_2. }
  assert (S2 : q2 ⊆ group p).
  { intros x Hx. apply elem_of_list_to_set in Hx. apply elem_of_list_to_set.
    change (x ∈ T). rewrite <- (take_drop (length T - k) T). apply elem_of_app. by right. }
  assert (SU : group p ⊆ q1 ∪ q2).
  { intros x Hx. apply elem_of_list_to_set in Hx. change (x ∈ T) in Hx.
    apply list_elem_of_lookup in Hx as [i Hi]. pose proof (lookup_lt_Some _ _ _ Hi).
    apply elem_of_union. destruct (decide (i < k)%nat).
    - left. apply elem_of_list_to_set, elem_of_take. eauto.
    - right. apply elem_of_list_to_set. apply list_elem_of_lookup.
      exists (i - (length T - k))%nat. rewrite lookup_drop.
      by replace (length T - k + (i - (length T - k)))%nat with i by lia. }
  exists q1, q2, (q1 ∩ q2). split_and!; try done; try lia.
  pose proof (union_intersection_size q1 q2) as HU.
  apply subseteq_size in SU. rewrite size_group in SU by (simpl; lia). simpl in SU. lia.
Qed.

Lemma quorums_may_miss_beyond_3f1_witness :
  params_new 5 1 = Ok (mkParams 5 1).
Proof. apply (quorums_may_miss_beyond_3f1 1); lia. Defined.
