(* ===== verification/Message.v ===== *)
(** * Messages ([src/bft/communication/message/mod.rs])

    The data that replicas and clients exchange, and the wire format. The
    types of the log ([src/bft/consensus/log/mod.rs]), of state transfer
    ([src/bft/cst/mod.rs]), of the view change ([src/bft/sync/mod.rs]) and of
    the execution layer ([src/bft/executable/mod.rs]) that occur inside
    messages are declared here too, in dependency order. [S], [O] and [P] are
    the application's state, request and reply types. *)

From S2P Require Import Prelude Error Ordering Crypto Params.
Local Open Scope Z_scope.

(** ** Headers and stored messages *)

Record Header := mkHeader {
  h_align : Z;
  h_version : Z;
  h_from : Z;
  h_to : Z;
  h_nonce : Z;
  h_length : Z;
  h_digest : list Z;
  h_signature : list Z
}.

#[export] Instance Header_eq_dec : EqDecision Header.
Proof. solve_decision. Defined.

Record StoredMessage (M : Type) := mkStored { header : Header; message : M }.
Arguments mkStored {M} header message.
Arguments header {M} s.
Arguments message {M} s.

(** ** Consensus messages *)

Inductive ConsensusMessageKind :=
| PrePrepare (digests : list Digest)
| Prepare (d : Digest)
| Commit (d : Digest).

Record ConsensusMessage := mkConsensus {
  c_seq : SeqNo;
  c_view : SeqNo;
  c_kind : ConsensusMessageKind
}.

#[export] Instance ConsensusMessageKind_eq_dec : EqDecision ConsensusMessageKind.
Proof. solve_decision. Defined.

#[export] Instance ConsensusMessage_eq_dec : EqDecision ConsensusMessage.
Proof. solve_decision. Defined.

#[export] Instance ConsensusMessage_orderable : Orderable ConsensusMessage :=
  {| sequence_number := c_seq |}.

(** ** The parts of the log that travel in messages *)

Record Checkpoint (S : Type) := mkCheckpoint { cp_seq : SeqNo; appstate : S }.
Arguments mkCheckpoint {S} cp_seq appstate.
Arguments cp_seq {S} c.
Arguments appstate {S} c.

Record DecisionLog := mkDecisionLog {
  last_exec : option SeqNo;
  pre_prepares : list (StoredMessage ConsensusMessage);
  prepares : list (StoredMessage ConsensusMessage);
  commits : list (StoredMessage ConsensusMessage)
}.

Record Proof_ := mkProof {
  p_pre_prepare : StoredMessage ConsensusMessage;
  p_prepares : list (StoredMessage ConsensusMessage);
  p_commits : list (StoredMessage ConsensusMessage)
}.

Record ViewDecisionPair := mkVDP { vdp_view : SeqNo; vdp_digest : Digest }.

#[export] Instance ViewDecisionPair_eq_dec : EqDecision ViewDecisionPair.
Proof. solve_decision. Defined.

Record IncompleteProof := mkIncomplete {
  in_exec : SeqNo;
  write_set : list ViewDecisionPair;
  quorum_writes : option ViewDecisionPair
}.

Record CollectData := mkCollect {
  incomplete_proof : IncompleteProof;
  last_proof : option Proof_
}.

(** ** Requests, replies and batches *)

Record RequestMessage (O : Type) := mkRequest { operation : O }.
Arguments mkRequest {O} operation.
Arguments operation {O} r.

Record ReplyMessage (P : Type) := mkReply { r_digest : Digest; r_payload : P }.
Arguments mkReply {P} r_digest r_payload.
Arguments r_digest {P} r.
Arguments r_payload {P} r.

Definition ForwardedRequestsMessage (O : Type) : Type := list (StoredMessage (RequestMessage O)).

Record Update (O : Type) := mkUpdate { u_from : NodeId; u_digest : Digest; u_operation : O }.
Arguments mkUpdate {O} u_from u_digest u_operation.
Arguments u_from {O} u.
Arguments u_digest {O} u.
Arguments u_operation {O} u.

Record UpdateReply (P : Type) := mkUpdateReply { ur_to : NodeId; ur_digest : Digest; ur_payload : P }.
Arguments mkUpdateReply {P} ur_to ur_digest ur_payload.
Arguments ur_to {P} u.
Arguments ur_digest {P} u.
Arguments ur_payload {P} u.

Definition UpdateBatch (O : Type) : Type := list (Update O).
Definition UpdateBatchReplies (P : Type) : Type := list (UpdateReply P).

(** [UpdateBatch::new] and [add]. *)
Definition batch_new {O : Type} : UpdateBatch O := [].
Definition batch_add {O : Type} (self : UpdateBatch O) (from : NodeId) (digest : Digest) (operation : O)
  : UpdateBatch O := self ++ [mkUpdate from digest operation].

(** [UpdateBatchReplies::with_capacity] and [add]. *)
Definition replies_with_capacity {P : Type} (n : nat) : UpdateBatchReplies P := [].
Definition replies_add {P : Type} (self : UpdateBatchReplies P) (to : NodeId) (digest : Digest) (payload : P)
  : UpdateBatchReplies P := self ++ [mkUpdateReply to digest payload].

(** ** State transfer messages *)

Record RecoveryState (S O : Type) := mkRecovery {
  rs_view : ViewInfo;
  rs_checkpoint : Checkpoint S;
  rs_requests : list O;
  rs_declog : DecisionLog
}.
Arguments mkRecovery {S O} rs_view rs_checkpoint rs_requests rs_declog.
Arguments rs_view {S O} r.
Arguments rs_checkpoint {S O} r.
Arguments rs_requests {S O} r.
Arguments rs_declog {S O} r.

Inductive CstMessageKind (S O : Type) :=
| RequestLatestConsensusSeq
| ReplyLatestConsensusSeq (seq : SeqNo)
| RequestState
| ReplyState (state : RecoveryState S O).
Arguments RequestLatestConsensusSeq {S O}.
Arguments ReplyLatestConsensusSeq {S O} seq.
Arguments RequestState {S O}.
Arguments ReplyState {S O} state.

Record CstMessage (S O : Type) := mkCst { cst_mseq : SeqNo; cst_kind : CstMessageKind S O }.
Arguments mkCst {S O} cst_mseq cst_kind.
Arguments cst_mseq {S O} c.
Arguments cst_kind {S O} c.

#[export] Instance CstMessage_orderable S O : Orderable (CstMessage S O) :=
  {| sequence_number := cst_mseq |}.

(** ** View change messages *)

Inductive ViewChangeMessage (O : Type) :=
| mkViewChange (vc_view : SeqNo) (vc_kind : ViewChangeMessageKind O)
with ViewChangeMessageKind (O : Type) :=
| Stop (stopped : list (StoredMessage (RequestMessage O)))
| StopData (collect : CollectData)
| Sync (collects : LeaderCollects O)
with LeaderCollects (O : Type) :=
| mkLeaderCollects (lc_proposed : list Digest)
                   (lc_collects : list (StoredMessage (ViewChangeMessage O))).
Arguments mkViewChange {O} vc_view vc_kind.
Arguments Stop {O} stopped.
Arguments StopData {O} collect.
Arguments Sync {O} collects.
Arguments mkLeaderCollects {O} lc_proposed lc_collects.

Definition vc_view {O} (m : ViewChangeMessage O) : SeqNo :=
  match m with mkViewChange v _ => v end.
Definition vc_kind {O} (m : ViewChangeMessage O) : ViewChangeMessageKind O :=
  match m with mkViewChange _ k => k end.
Definition lc_proposed {O} (l : LeaderCollects O) : list Digest :=
  match l with mkLeaderCollects p _ => p end.
Definition lc_collects {O} (l : LeaderCollects O) : list (StoredMessage (ViewChangeMessage O)) :=
  match l with mkLeaderCollects _ c => c end.

#[export] Instance ViewChangeMessage_orderable O : Orderable (ViewChangeMessage O) :=
  {| sequence_number := vc_view |}.

(** ** All messages *)

Inductive SystemMessage (S O P : Type) :=
| Request (m : RequestMessage O)
| Reply (m : ReplyMessage P)
| Consensus (m : ConsensusMessage)
| Cst (m : CstMessage S O)
| ViewChange (m : ViewChangeMessage O)
| ForwardedRequests (m : ForwardedRequestsMessage O).
Arguments Request {S O P} m.
Arguments Reply {S O P} m.
Arguments Consensus {S O P} m.
Arguments Cst {S O P} m.
Arguments ViewChange {S O P} m.
Arguments ForwardedRequests {S O P} m.

Inductive TimeoutKind :=
| TimeoutCst (seq : SeqNo)
| TimeoutClientRequests (seq : SeqNo).

(** The sockets carried by [ConnectedTx] and [ConnectedRx] are not modelled. *)
Inductive Message (S O P : Type) :=
| System (h : Header) (m : SystemMessage S O P)
| ConnectedTx (id : NodeId)
| ConnectedRx (id : NodeId)
| DisconnectedTx (id : NodeId)
| DisconnectedRx (some_id : option NodeId)
| ExecutionFinished (batch : UpdateBatchReplies P)
| ExecutionFinishedWithAppstate (batch : UpdateBatchReplies P) (appstate : S)
| Timeout (kind : TimeoutKind).
Arguments System {S O P} h m.
Arguments ConnectedTx {S O P} id.
Arguments ConnectedRx {S O P} id.
Arguments DisconnectedTx {S O P} id.
Arguments DisconnectedRx {S O P} some_id.
Arguments ExecutionFinished {S O P} batch.
Arguments ExecutionFinishedWithAppstate {S O P} batch appstate.
Arguments Timeout {S O P} kind.

(** [Message::header] *)
Definition message_header {S O P} (self : Message S O P) : result Header :=
  match self with
  | System h _ => Ok h
  | ConnectedTx _ => err_wrapped "Expected System found ConnectedTx" "CommunicationMessage"
  | ConnectedRx _ => err_wrapped "Expected System found ConnectedRx" "CommunicationMessage"
  | DisconnectedTx _ => err_wrapped "Expected System found DisconnectedTx" "CommunicationMessage"
  | DisconnectedRx _ => err_wrapped "Expected System found DisconnectedRx" "CommunicationMessage"
  | ExecutionFinished _ =>
    err_wrapped "Expected System found ExecutionFinished" "CommunicationMessage"
  | ExecutionFinishedWithAppstate _ _ =>
    err_wrapped "Expected System found ExecutionFinishedWithAppstate" "CommunicationMessage"
  | Timeout _ => err_wrapped "Expected System found Timeout" "CommunicationMessage"
  end.

(** ** Taking a value out of a message

    The [take_*] methods leave a placeholder behind when they succeed and
    restore the message when they do not. *)

Definition take_collects {O} (self : ViewChangeMessage O)
  : option (LeaderCollects O) * ViewChangeMessage O :=
  match vc_kind self with
  | Sync collects => (Some collects, mkViewChange (vc_view self) (Sync (mkLeaderCollects [] [])))
  | kind => (None, mkViewChange (vc_view self) kind)
  end.

Definition take_state {S O} (self : CstMessage S O) : option (RecoveryState S O) * CstMessage S O :=
  match cst_kind self with
  | ReplyState state => (Some state, mkCst (cst_mseq self) RequestState)
  | kind => (None, mkCst (cst_mseq self) kind)
  end.

Definition take_proposed_requests (self : ConsensusMessage)
  : option (list Digest) * ConsensusMessage :=
  match c_kind self with
  | PrePrepare v => (Some v, mkConsensus (c_seq self) (c_view self) (PrePrepare []))
  | kind => (None, mkConsensus (c_seq self) (c_view self) kind)
  end.

Definition has_proposed_digest (self : ConsensusMessage) (digest : Digest) : option bool :=
  match c_kind self with
  | PrePrepare _ => None
  | Prepare d | Commit d => Some (bool_decide (d = digest))
  end.

(** ** Headers on the wire

    A header is a packed C struct: its memory on a little-endian machine is
    the concatenation of its fields, 128 bytes. *)

Definition Header_LENGTH : nat := 128.

Definition serialize_into_unchecked (self : Header) (buf : list Z) : list Z :=
  let hdr := to_le_bytes 4 (h_align self) ++ to_le_bytes 4 (h_version self) ++
             to_le_bytes 4 (h_from self) ++ to_le_bytes 4 (h_to self) ++
             to_le_bytes 8 (h_nonce self) ++ to_le_bytes 8 (h_length self) ++
             h_digest self ++ h_signature self in
  hdr ++ drop Header_LENGTH buf.

Definition serialize_into (self : Header) (buf : list Z) : result (list Z) :=
  if decide (length buf < Header_LENGTH)%nat
  then err_wrapped "Buffer is too short to serialize into" "CommunicationMessage"
  else Ok (serialize_into_unchecked self buf).

Definition slice (from len : nat) (buf : list Z) : list Z := take len (drop from buf).

Definition deserialize_from_unchecked (buf : list Z) : Header := {|
  h_align := from_le_bytes (slice 0 4 buf);
  h_version := from_le_bytes (slice 4 4 buf);
  h_from := from_le_bytes (slice 8 4 buf);
  h_to := from_le_bytes (slice 12 4 buf);
  h_nonce := from_le_bytes (slice 16 8 buf);
  h_length := from_le_bytes (slice 24 8 buf);
  h_digest := slice 32 Digest_LENGTH buf;
  h_signature := slice 64 Signature_LENGTH buf
|}.

Definition deserialize_from (buf : list Z) : result Header :=
  if decide (length buf < Header_LENGTH)%nat
  then err_wrapped "Buffer is too short to deserialize from" "CommunicationMessage"
  else Ok (deserialize_from_unchecked buf).

Definition hdr_from (self : Header) : NodeId := node_from_u32 (h_from self).
Definition hdr_to (self : Header) : NodeId := node_from_u32 (h_to self).
Definition payload_length (self : Header) : Z := h_length self.
Definition hdr_digest (self : Header) : Digest := mkDigest (h_digest self).

Definition unique_digest `{HashFn} (self : Header) : Digest :=
  entropy (hdr_digest self) (to_le_bytes 8 (h_nonce self)).

(** ** Wire messages *)

Record WireMessage := mkWire { wm_header : Header; wm_payload : list Z }.

Definition CURRENT_VERSION : Z := 0.

Definition digest_parts `{HashFn} (from to nonce : Z) (payload : list Z) : Digest :=
  let ctx := context_new in
  let ctx := context_update ctx (to_le_bytes 4 CURRENT_VERSION) in
  let ctx := context_update ctx (to_le_bytes 4 from) in
  let ctx := context_update ctx (to_le_bytes 4 to) in
  let ctx := context_update ctx (to_le_bytes 8 nonce) in
  let ctx := context_update ctx (to_le_bytes 8 (Z.of_nat (length payload))) in
  let ctx := context_update ctx payload in
  context_finish ctx.

(** [sk.sign(..).unwrap()] cannot fail: [sign] always returns [Ok]. *)
Definition sign_parts `{HashFn, SigScheme} (sk : KeyPair) (from to nonce : Z) (payload : list Z)
  : list Z :=
  let digest := digest_parts from to nonce payload in
  match sign sk (dig_bytes digest) with
  | Ok s => s
  | Err _ => []
  end.

Definition verify_parts `{HashFn, SigScheme} (pk : PublicKey) (sig : list Z)
  (from to nonce : Z) (payload : list Z) : result unit :=
  let digest := digest_parts from to nonce payload in
  verify pk (dig_bytes digest) sig.

Definition wire_new `{HashFn, SigScheme} (from to : NodeId) (payload : list Z) (nonce : Z)
  (digest : option Digest) (sk : option KeyPair) : WireMessage :=
  let digest := match digest with
                | Some d => dig_bytes d
                | None => replicate Digest_LENGTH 0
                end in
  let signature := match sk with
                   | Some sk => sign_parts sk (u32_from_node from) (u32_from_node to) nonce digest
                   | None => replicate Signature_LENGTH 0
                   end in
  let from := u32_from_node from in
  let to := u32_from_node to in
  mkWire {|
    h_align := 0;
    h_version := CURRENT_VERSION;
    h_length := Z.of_nat (length payload);
    h_signature := signature;
    h_digest := digest;
    h_nonce := nonce;
    h_from := from;
    h_to := to
  |} payload.

Definition is_valid `{HashFn, SigScheme} (self : WireMessage) (public_key : option PublicKey)
  : bool :=
  let preliminary_check_failed :=
    negb (h_version (wm_header self) =? CURRENT_VERSION) ||
    negb (h_length (wm_header self) =? Z.of_nat (length (wm_payload self))) in
  if preliminary_check_failed then false
  else match public_key with
       | Some pk =>
         is_ok (verify_parts pk (h_signature (wm_header self)) (h_from (wm_header self))
                  (h_to (wm_header self)) (h_nonce (wm_header self)) (h_digest (wm_header self)))
       | None => true
       end.

Definition from_parts `{HashFn, SigScheme} (header : Header) (payload : list Z)
  : result WireMessage :=
  let wm := mkWire header payload in
  if negb (is_valid wm None) then Err (Errors.simple "CommunicationMessage") else Ok wm.

(** The bytes [WireMessage::write_to] hands to the socket: the header, then
    the payload when there is one. The inner [unwrap] succeeds because the
    buffer has [Header::LENGTH] bytes. *)
Definition write_to (self : WireMessage) : list Z :=
  match serialize_into (wm_header self) (replicate Header_LENGTH 0) with
  | Ok buf => buf ++ wm_payload self
  | Err _ => []
  end.

(** ** Headers inside of messages

    A header that travels inside of a message ([StoredMessage]) is serialized
    by serde as a byte string: the memory of the struct. [copy_from_slice]
    panics when the string that arrives has another length. *)

Definition header_serialize (self : Header) : list Z := serialize_into_unchecked self [].

Definition header_deserialize (bytes : list Z) : outcome Header :=
  if decide (length bytes = Header_LENGTH) then Done (deserialize_from_unchecked bytes)
  else Panic.

(** ** Owned wire messages *)

(** A buffer of type [T: AsRef<[u8]>]: where its bytes are, and what they are. *)
Record Buffer := mkBuffer { buf_addr : Z; buf_bytes : list Z }.

Record OwnedWireMessage := mkOwnedWire { owm_header : Header; owm_payload : Buffer }.

(** The payload is copied into a new allocation, at [addr]. *)
Definition owned_from_wire (addr : Z) (wm : WireMessage) : OwnedWireMessage :=
  mkOwnedWire (wm_header wm) (mkBuffer addr (wm_payload wm)).

Definition borrowed (self : OwnedWireMessage) : WireMessage :=
  mkWire (owm_header self) (buf_bytes (owm_payload self)).

(** [payload] is the slice the wire message borrows. [buf_p] is the first byte
    of [buf], cast to a pointer; indexing an empty slice panics. *)
Definition with_owned_buffer (h : Header) (payload buf : Buffer)
  : outcome (option OwnedWireMessage) :=
  match buf_bytes buf, buf_bytes payload with
  | b :: _, _ :: _ =>
    let buf_p := b in
    let payload_p := buf_addr payload in
    Done (if buf_p =? payload_p then Some (mkOwnedWire h buf) else None)
  | _, _ => Panic
  end.

(** ** Little-endian round trips *)

Lemma length_to_le_bytes k : forall z, length (to_le_bytes k z) = k.
Proof. induction k as [|k IH]; intros z; simpl; [done|]. by rewrite IH. Qed.

Lemma from_to_le_bytes k : forall z, 0 <= z < 256 ^ Z.of_nat k ->
  from_le_bytes (to_le_bytes k z) = z.
Proof.
  induction k as [|k IH]; intros z Hz.
  - simpl in *. lia.
  - cbn [to_le_bytes from_le_bytes]. rewrite Nat2Z.inj_succ, Z.pow_succ_r in Hz by lia.
    rewrite IH.
    + pose proof (Z.div_mod z 256). lia.
    + split; [apply Z.div_pos; lia|]. apply Z.div_lt_upper_bound; lia.
Qed.

Lemma to_from_le_bytes bs : Forall is_u8 bs ->
  to_le_bytes (length bs) (from_le_bytes bs) = bs /\
  0 <= from_le_bytes bs < 256 ^ Z.of_nat (length bs).
Proof.
  induction 1 as [|b bs Hb _ [IH1 IH2]]; [done|]. cbn [length to_le_bytes from_le_bytes].
  rewrite Nat2Z.inj_succ, Z.pow_succ_r by lia. unfold is_u8 in Hb. split; [|lia].
  rewrite (Z.mul_comm 256), Z_mod_plus_full, Z.mod_small, Z.div_add by lia.
  by rewrite Z.div_small, Z.add_0_l, IH1 by lia.
Qed.

(** Consecutive fields are one block. *)
Lemma slice_cons i n m (buf : list Z) j : j = (i + n)%nat ->
  slice i n buf ++ slice j m buf = slice i (n + m) buf.
Proof.
  intros ->. unfold slice. rewrite <- drop_drop. symmetry.
  rewrite <- (take_drop n (drop i buf)) at 1. rewrite take_app.
  rewrite firstn_firstn. f_equal; [f_equal; lia|].
  rewrite length_take. destruct (decide (n <= length (drop i buf))%nat).
  - f_equal. lia.
  - by rewrite (drop_ge (drop i buf)), !take_nil by lia.
Qed.

(** Reading a field out of a buffer made of consecutive blocks. *)
Lemma slice_here (a b : list Z) len : length a = len -> slice 0 len (a ++ b) = a.
Proof. intros <-. unfold slice. by rewrite drop_0, take_app_length. Qed.

Lemma slice_skip (a b : list Z) i k len : length a = k -> (k <= i)%nat ->
  slice i len (a ++ b) = slice (i - k) len b.
Proof. intros <- Hi. unfold slice. rewrite drop_app_ge by lia. done. Qed.

Definition header_ok (h : Header) : Prop :=
  is_u32 (h_align h) /\ is_u32 (h_version h) /\ is_u32 (h_from h) /\ is_u32 (h_to h) /\
  is_u64 (h_nonce h) /\ is_u64 (h_length h) /\
  length (h_digest h) = Digest_LENGTH /\ length (h_signature h) = Signature_LENGTH.

Lemma from_le_u32 z : is_u32 z -> from_le_bytes (to_le_bytes 4 z) = z.
Proof. intros Hz. apply from_to_le_bytes. exact Hz. Qed.

Lemma from_le_u64 z : is_u64 z -> from_le_bytes (to_le_bytes 8 z) = z.
Proof. intros Hz. apply from_to_le_bytes. exact Hz. Qed.

Ltac len_side := first [apply length_to_le_bytes | done | lia].
Ltac skip k := rewrite (slice_skip _ _ _ k) by len_side; cbn [Nat.sub].
Ltac here := rewrite slice_here by len_side.

Lemma deserialize_serialize h buf : header_ok h ->
  deserialize_from_unchecked (serialize_into_unchecked h buf) = h.
Proof.
  intros (Ha & Hv & Hf & Ht & Hn & Hl & Hd & Hs).
  unfold deserialize_from_unchecked, serialize_into_unchecked.
  destruct h as [al ve fr to no le di si]. cbn in Ha, Hv, Hf, Ht, Hn, Hl, Hd, Hs.
  cbn [h_align h_version h_from h_to h_nonce h_length h_digest h_signature].
  unfold Digest_LENGTH, Signature_LENGTH in *. rewrite <- !app_assoc.
  f_equal.
  - here. by apply from_le_u32.
  - skip 4%nat. here. by apply from_le_u32.
  - do 2 skip 4%nat. here. by apply from_le_u32.
  - do 3 skip 4%nat. here. by apply from_le_u32.
  - do 4 skip 4%nat. here. by apply from_le_u64.
  - do 4 skip 4%nat. skip 8%nat. here. by apply from_le_u64.
  - do 4 skip 4%nat. do 2 skip 8%nat. by here.
  - do 4 skip 4%nat. do 2 skip 8%nat. skip 32%nat. by here.
Qed.

Lemma length_serialized h : header_ok h ->
  length (serialize_into_unchecked h []) = Header_LENGTH.
Proof.
  intros (_ & _ & _ & _ & _ & _ & Hd & Hs). unfold serialize_into_unchecked.
  rewrite !length_app, !length_to_le_bytes, Hd, Hs. reflexivity.
Qed.

Lemma serialize_unchecked_app h buf :
  serialize_into_unchecked h buf = serialize_into_unchecked h [] ++ drop Header_LENGTH buf.
Proof. unfold serialize_into_unchecked. rewrite drop_nil, app_nil_r. by rewrite <- !app_assoc. Qed.

(** ** Properties *)

(** The wire format of headers round-trips: what [serialize_into] writes
    at the front of a large enough buffer, [deserialize_from] reads back, and
    the rest of the buffer is untouched; a short buffer is an error for both. *)
Theorem header_roundtrip h buf : header_ok h ->
  (length buf < Header_LENGTH)%nat /\ is_ok (serialize_into h buf) = false /\
    is_ok (deserialize_from buf) = false \/
  exists out, serialize_into h buf = Ok out /\ length out = length buf /\
    drop Header_LENGTH out = drop Header_LENGTH buf /\ deserialize_from out = Ok h.
Proof.
  intros Hh. unfold serialize_into, deserialize_from. case_decide as Hlen; [by left|right].
  eexists. split; [done|].
  pose proof (serialize_unchecked_app h buf) as Hs.
  pose proof (length_serialized h Hh) as HL.
  assert (HL2 : length (serialize_into_unchecked h buf) = length buf).
  { rewrite Hs, length_app, HL, length_drop. lia. }
  split; [done|]. split.
  - rewrite Hs, <- HL, drop_app_length. done.
  - case_decide as Hd; [rewrite HL2 in Hd; lia|]. f_equal. by apply deserialize_serialize.
Qed.

(** Owned messages hold what they were made of, but a wire message cannot be
    converted into its own buffer: the first byte of the buffer is compared with
    its address, and no buffer is at an address below 256. *)
Lemma with_owned_buffer_none h buf :
  Forall is_u8 (buf_bytes buf) -> 256 <= buf_addr buf -> buf_bytes buf <> [] ->
  borrowed (owned_from_wire (buf_addr buf) (mkWire h (buf_bytes buf))) = mkWire h (buf_bytes buf) /\
  with_owned_buffer h buf buf = Done None.
Proof.
  unfold with_owned_buffer. destruct buf as [addr [|b bytes]]; cbn; [done|].
  intros [Hb _]%Forall_cons Haddr _. split; [done|].
  unfold is_u8 in Hb. by destruct (Z.eqb_spec b addr); [lia|].
Qed.

Lemma with_owned_buffer_none_witness :
  with_owned_buffer (mkHeader 0 0 0 1 5 3 (replicate 32 0) (replicate 64 0))
    (mkBuffer 4096 [7; 8; 9]) (mkBuffer 4096 [7; 8; 9]) = Done None.
Proof.
  apply (with_owned_buffer_none _ (mkBuffer 4096 [7; 8; 9])); cbn; [|lia|done].
  repeat constructor; unfold is_u8; lia.
Defined.

(** Any bytes of the length of a header are the memory of one, whose fields
    have the width of their types. *)
Lemma deserialize_typed bytes :
  length bytes = Header_LENGTH -> Forall is_u8 bytes ->
  header_ok (deserialize_from_unchecked bytes) /\
  serialize_into_unchecked (deserialize_from_unchecked bytes) [] = bytes.
Proof.
  intros Hlen Hu8. unfold Header_LENGTH in Hlen.
  assert (Hslice : forall i n, (i + n <= 128)%nat ->
            length (slice i n bytes) = n /\ Forall is_u8 (slice i n bytes)).
  { intros i n Hin. unfold slice. split.
    - rewrite length_take, length_drop. lia.
    - by apply Forall_take, Forall_drop. }
  assert (Hint : forall i n, (i + n <= 128)%nat ->
            to_le_bytes n (from_le_bytes (slice i n bytes)) = slice i n bytes /\
            0 <= from_le_bytes (slice i n bytes) < 256 ^ Z.of_nat n).
  { intros i n Hin. destruct (Hslice i n Hin) as [Hl Hb].
    pose proof (to_from_le_bytes _ Hb) as Hr. by rewrite Hl in Hr. }
  split.
  - unfold header_ok, deserialize_from_unchecked, is_u32, is_u64. cbn -[slice].
    repeat split; try (apply Hslice; unfold Digest_LENGTH, Signature_LENGTH; lia).
    all: match goal with |- context [slice ?i ?n _] => apply (Hint i n); lia end.
  - unfold serialize_into_unchecked, deserialize_from_unchecked.
    cbn [h_align h_version h_from h_to h_nonce h_length h_digest h_signature].
    rewrite drop_nil, app_nil_r.
    do 6 match goal with |- context [to_le_bytes ?n (from_le_bytes (slice ?i ?n bytes))] =>
      rewrite (proj1 (Hint i n ltac:(lia))) end.
    rewrite (slice_cons 32 _ 64), (slice_cons 24 _ 96), (slice_cons 16 _ 104), (slice_cons 12 _ 112),
      (slice_cons 8 _ 116), (slice_cons 4 _ 120), (slice_cons 0 _ 124) by reflexivity.
    unfold slice. rewrite drop_0. apply take_ge. cbn. lia.
Qed.

(** Only the first bytes of a buffer are read. *)
Lemma deserialize_take buf :
  deserialize_from_unchecked (take Header_LENGTH buf) = deserialize_from_unchecked buf.
Proof.
  unfold deserialize_from_unchecked, slice.
  by rewrite !skipn_firstn_comm, !firstn_firstn.
Qed.

Lemma wire_new_header_ok `{HashFn, SigScheme, !SigLaws} from to payload nonce digest sk :
  is_u32 (nid from) -> is_u32 (nid to) -> is_u64 nonce -> is_u64 (Z.of_nat (length payload)) ->
  (forall d, digest = Some d -> digest_ok d) ->
  header_ok (wm_header (wire_new from to payload nonce digest sk)).
Proof.
  intros Hfrom Hto Hnonce Hlen Hd. unfold header_ok, wire_new, sign_parts.
  cbn [wm_header h_align h_version h_from h_to h_nonce h_length h_digest h_signature].
  do 6 (split; [done|]). split.
  - destruct digest as [d|]; [by apply Hd|apply length_replicate].
  - destruct sk as [sk|]; [|apply length_replicate].
    cbn [sign]. rewrite length_take, sign_bytes_length. unfold Signature_LENGTH. lia.
Qed.

(** C31: headers are well typed both ways. Any buffer of at least 128 bytes that
    arrives is read as a header whose integers are within 32 and 64 bits, whose
    digest has 32 bytes and whose signature has 64, and writing the header back
    reproduces the buffer; every header made for a message between two nodes is
    well typed. A header embedded in a message is read back as it was written,
    but any number of bytes other than 128 panics instead of being reported as
    an error. *)
Theorem headers_well_typed `{HashFn, SigScheme, !SigLaws} :
  (forall buf, (Header_LENGTH <= length buf)%nat -> Forall is_u8 buf ->
     exists h, deserialize_from buf = Ok h /\ header_ok h /\ serialize_into h buf = Ok buf) /\
  (forall from to payload nonce digest sk,
     is_u32 (nid from) -> is_u32 (nid to) -> is_u64 nonce ->
     is_u64 (Z.of_nat (length payload)) -> (forall d, digest = Some d -> digest_ok d) ->
     header_ok (wm_header (wire_new from to payload nonce digest sk))) /\
  (forall h, header_ok h -> header_deserialize (header_serialize h) = Done h) /\
  (forall bytes, header_deserialize bytes = Panic <-> length bytes <> Header_LENGTH).
Proof.
  split; [|split; [exact wire_new_header_ok|split]].
  - intros buf Hlen Hu8. unfold deserialize_from, serialize_into. rewrite !decide_False by lia.
    eexists. split; [done|]. rewrite <- deserialize_take.
    destruct (deserialize_typed (take Header_LENGTH buf)) as [Hok Hser].
    { rewrite length_take. lia. }
    { by apply Forall_take. }
    split; [done|]. rewrite decide_False by lia. by rewrite serialize_unchecked_app, Hser, take_drop.
  - intros h Hh. unfold header_deserialize, header_serialize.
    pose proof (length_serialized h Hh) as Hl. rewrite decide_True by exact Hl.
    f_equal. by apply deserialize_serialize.
  - intros bytes. unfold header_deserialize. by case_decide.
Qed.

Lemma headers_well_typed_witness :
  exists h, deserialize_from (replicate 130 255) = Ok h /\ h_nonce h = 18446744073709551615.
Proof.
  destruct (proj1 (@headers_well_typed toy_hash toy_sig toy_sig_laws) (replicate 130 255))
    as (h & Hh & _).
  - rewrite length_replicate. unfold Header_LENGTH. lia.
  - apply Forall_replicate. unfold is_u8. lia.
  - exists h. split; [exact Hh|]. vm_compute in Hh. injection Hh as <-. reflexivity.
Defined.

Definition sample_header : Header :=
  mkHeader 0 0 7 3 258 65536 (replicate 32 9) (replicate 64 1).

Lemma sample_header_ok : header_ok sample_header.
Proof. unfold header_ok, is_u32, is_u64, sample_header; cbn -[replicate]; repeat split; lia. Qed.

Lemma header_roundtrip_witness :
  exists out, serialize_into sample_header (replicate 130 5) = Ok out /\
              deserialize_from out = Ok sample_header.
Proof.
  destruct (header_roundtrip sample_header (replicate 130 5) sample_header_ok)
    as [(H & _)|(out & H1 & _ & _ & H2)].
  - exfalso. vm_compute in H. lia.
  - by exists out.
Defined.

Section wire.
Context `{HashFn, SigScheme}.

Lemma verify_parts_sign_parts `{!HashLaws, !SigLaws} sk from to nonce digest :
  is_ok (verify_parts (public_key sk) (sign_parts sk from to nonce digest) from to nonce digest)
  = true.
Proof.
  unfold verify_parts, sign_parts, verify. cbn [sign].
  rewrite take_ge by (rewrite sign_bytes_length; done). by rewrite verify_sign.
Qed.

(** A message signed by [WireMessage::new] passes [is_valid] under the
    sender's public key, and an unsigned one passes without a key. *)
Theorem wire_new_is_valid `{!HashLaws, !SigLaws} from to payload nonce digest sk :
  is_valid (wire_new from to payload nonce digest (Some sk)) (Some (public_key sk)) = true /\
  is_valid (wire_new from to payload nonce digest None) None = true.
Proof.
  unfold is_valid, wire_new. cbn. rewrite Z.eqb_refl. cbn. split; [|done].
  apply verify_parts_sign_parts.
Qed.

(** The signature covers the version, the ids, the nonce and the digest
    only: replacing the length field and the payload by any others of equal
    size, with the digest kept, leaves a valid message valid. *)
Theorem is_valid_ignores_payload wm pk payload' :
  let h := wm_header wm in
  is_valid wm (Some pk) = true ->
  is_valid (mkWire (mkHeader (h_align h) (h_version h) (h_from h) (h_to h) (h_nonce h)
                      (Z.of_nat (length payload')) (h_digest h) (h_signature h)) payload')
    (Some pk) = true.
Proof.
  intros h. unfold is_valid. cbn. rewrite Z.eqb_refl, orb_false_r.
  fold h. destruct (negb (h_version h =? CURRENT_VERSION)); cbn; [discriminate|].
  destruct (negb _); cbn; [discriminate|]. done.
Qed.

End wire.

Lemma is_valid_ignores_payload_witness :
  let wm := @wire_new toy_hash toy_sig (mkNodeId 1) (mkNodeId 2) [1; 2; 3] 7
              (Some zero_digest) (Some 5) in
  @is_valid toy_hash toy_sig (mkWire (mkHeader 0 0 1 2 7 1 (h_digest (wm_header wm))
      (h_signature (wm_header wm))) [99]) (Some 5) = true.
Proof.
  apply (@is_valid_ignores_payload toy_hash toy_sig
    (@wire_new toy_hash toy_sig (mkNodeId 1) (mkNodeId 2) [1; 2; 3] 7
       (Some zero_digest) (Some 5)) 5 [99]).
  vm_compute. reflexivity.
Defined.

Lemma wire_new_is_valid_witness :
  @is_valid toy_hash toy_sig
    (@wire_new toy_hash toy_sig (mkNodeId 0) (mkNodeId 1) [4] 9 (Some zero_digest) (Some 3))
    (Some 3) = true.
Proof.
  apply (@wire_new_is_valid toy_hash toy_sig toy_hash_laws toy_sig_laws
    (mkNodeId 0) (mkNodeId 1) [4] 9 (Some zero_digest) 3).
Defined.
