(* ===== verification/Tbo.v ===== *)
(** * Queues of messages to be ordered ([src/bft/ordering/mod.rs])

    A queue has one slot per sequence number, starting at the number of the
    current instance; a message goes to the slot its number's [index] gives.
    The consensus and view change protocols keep one such queue per kind of
    message. The specification is a function from offsets to slots: queueing
    appends at one offset, popping takes from offset 0, advancing shifts. *)

From S2P Require Import Prelude Ordering Crypto Params Message.
Local Open Scope Z_scope.

Section queue.
Context {M : Type} `{Orderable M}.

Implicit Type tbo : list (list (StoredMessage M)).

(** The popped message, and the queue after the pop. *)
Definition tbo_pop_message tbo : option (StoredMessage M) * list (list (StoredMessage M)) :=
  match tbo with
  | [] => (None, [])
  | [] :: rest => (None, [] :: rest)
  | (m :: q) :: rest => (Some m, q :: rest)
  end.

Definition tbo_queue_message (curr_seq : SeqNo) tbo (m : StoredMessage M)
  : list (list (StoredMessage M)) :=
  match index (sequence_number (message m)) curr_seq with
  | inl _ => tbo
  | inr index =>
    let tbo := if decide (length tbo <= index)%nat
               then tbo ++ replicate (index - length tbo + 1) []
               else tbo in
    alter (fun q => q ++ [m]) index tbo
  end.

Definition tbo_advance_message_queue tbo : list (list (StoredMessage M)) :=
  match tbo with
  | [] => []
  | _ :: rest => rest ++ [[]]
  end.

(** ** Specification *)

Definition slot tbo (i : nat) : list (StoredMessage M) := default [] (tbo !! i).

(** Every queued message sits at the cyclic distance of its number from the
    current one. *)
Definition tbo_ok (curr_seq : SeqNo) tbo : Prop :=
  forall i m, m ∈ slot tbo i ->
    seq_ok (sequence_number (message m)) /\
    seq_dist (sequence_number (message m)) curr_seq = Z.of_nat i.

Lemma slot_extend tbo k i : slot (tbo ++ replicate k []) i = slot tbo i.
Proof.
  unfold slot. destruct (decide (i < length tbo)%nat) as [Hi|Hi].
  - by rewrite lookup_app_l.
  - rewrite lookup_app_r by lia. rewrite (lookup_ge_None_2 tbo) by lia.
    destruct (replicate k [] !! (i - length tbo)%nat) eqn:E; [|done].
    by apply lookup_replicate in E as [-> _].
Qed.

Lemma slot_queue curr tbo m k i :
  index (sequence_number (message m)) curr = inr k ->
  slot (tbo_queue_message curr tbo m) i = slot tbo i ++ (if decide (i = k) then [m] else []).
Proof.
  intros Hk. unfold tbo_queue_message. rewrite Hk.
  set (tbo' := if decide _ then _ else _).
  assert (Hslot : slot tbo' i = slot tbo i).
  { subst tbo'. case_decide; [apply slot_extend|done]. }
  assert (Hlen : (k < length tbo')%nat).
  { subst tbo'. case_decide; [rewrite length_app, length_replicate; lia|lia]. }
  rewrite <- Hslot. unfold slot. case_decide as Hi.
  - subst i. rewrite list_lookup_alter_eq.
    destruct (tbo' !! k) eqn:E; [done|]. apply lookup_ge_None in E. lia.
  - rewrite list_lookup_alter_ne by done. by rewrite app_nil_r.
Qed.

(** Among numbers that are not negative, only the current one has slot 0. *)
Lemma slot_queue_zero curr_seq tbo m : seq_nonneg curr_seq -> seq_nonneg (sequence_number (message m)) ->
  slot (tbo_queue_message curr_seq tbo m) 0 =
    slot tbo 0 ++ (if decide (sequence_number (message m) = curr_seq) then [m] else []).
Proof.
  intros Hs Hm. destruct (index (sequence_number (message m)) curr_seq) as [e|k] eqn:E.
  - unfold tbo_queue_message. rewrite E.
    rewrite decide_False; [by rewrite app_nil_r|]. intros Heq.
    assert (E' : index (sequence_number (message m)) curr_seq = inr 0%nat).
    { apply index_spec; [by apply seq_nonneg_ok..|]. rewrite Heq. unfold seq_dist.
      rewrite Z.sub_diag. by split. }
    rewrite E' in E. discriminate.
  - rewrite (slot_queue _ _ _ _ _ E). apply index_spec in E as [E _]; [|by apply seq_nonneg_ok..].
    destruct (decide (sequence_number (message m) = curr_seq)) as [Heq|Hne]; case_decide as Hk; try done.
    + rewrite Heq in E. unfold seq_dist in E. rewrite Z.sub_diag, Z.mod_0_l in E by lia. lia.
    + subst k. destruct Hne. by apply seq_dist_zero.
Qed.

Lemma slot_pop tbo m tbo' : tbo_pop_message tbo = (Some m, tbo') ->
  forall i, slot tbo i = if decide (i = O) then m :: slot tbo' i else slot tbo' i.
Proof.
  destruct tbo as [|[|m0 q] rest]; try discriminate. intros [= -> <-] i.
  destruct i; by case_decide.
Qed.

Lemma tbo_pop_none tbo tbo' : tbo_pop_message tbo = (None, tbo') -> tbo' = tbo /\ slot tbo 0 = [].
Proof. destruct tbo as [|[|m0 q] rest]; [intros [= <-]; done..|discriminate]. Qed.

Lemma slot_advance tbo i : slot (tbo_advance_message_queue tbo) i = slot tbo (S i).
Proof.
  destruct tbo as [|q rest]; [done|]. unfold tbo_advance_message_queue.
  apply (slot_extend rest 1).
Qed.

Lemma tbo_ok_empty curr : tbo_ok curr [].
Proof. intros i m Hm. unfold slot in Hm. simpl in Hm. set_solver. Qed.

Lemma tbo_ok_queue curr tbo m : seq_ok curr -> seq_ok (sequence_number (message m)) ->
  tbo_ok curr tbo -> tbo_ok curr (tbo_queue_message curr tbo m).
Proof.
  intros Hc Hm Ht. destruct (index (sequence_number (message m)) curr) as [e|k] eqn:E.
  - unfold tbo_queue_message. by rewrite E.
  - intros i m'. rewrite (slot_queue _ _ _ _ _ E). intros [Hin|Hin]%elem_of_app; [by apply Ht|].
    case_decide; [|set_solver]. apply list_elem_of_singleton in Hin. subst. split; [done|].
    apply index_spec in E; [lia|done..].
Qed.

Lemma tbo_ok_pop curr tbo m tbo' : tbo_pop_message tbo = (Some m, tbo') -> tbo_ok curr tbo ->
  tbo_ok curr tbo' /\ seq_ok (sequence_number (message m)) /\
  seq_dist (sequence_number (message m)) curr = 0.
Proof.
  intros Hp Ht. pose proof (slot_pop _ _ _ Hp) as Hs. split.
  - intros i m' Hin. apply Ht. rewrite Hs. case_decide; set_solver.
  - apply (Ht O). rewrite Hs. simpl. set_solver.
Qed.

Lemma tbo_ok_advance curr tbo : seq_nonneg curr -> tbo_ok curr tbo ->
  tbo_ok (next curr) (tbo_advance_message_queue tbo).
Proof.
  intros Hc Ht i m. rewrite slot_advance. intros Hin. destruct (Ht _ _ Hin) as [Hok Hd].
  split; [done|]. rewrite seq_dist_next by (done || lia). lia.
Qed.

Lemma tbo_ok_drop curr curr' tbo k : seq_ok curr -> seq_ok curr' ->
  index curr' curr = inr k -> tbo_ok curr tbo -> tbo_ok curr' (drop k tbo).
Proof.
  intros Hc Hc' Hk Ht i m Hin. assert (Hin' : m ∈ slot tbo (k + i)).
  { unfold slot in *. by rewrite lookup_drop in Hin. }
  destruct (Ht _ _ Hin') as [Hok Hd]. split; [done|].
  apply index_spec in Hk as [Hk Hk']; [|done..].
  assert (Hi : (Z.of_nat (k + i) < 2147483648)) by (rewrite <- Hd; apply Z.mod_pos_bound; lia).
  unfold seq_dist in *.
  set (s := sn (sequence_number (message m))) in *. clearbody s.
  replace (s - sn curr') with ((s - sn curr) - (sn curr' - sn curr)) by lia.
  rewrite Zminus_mod, Hd, Hk, Z.mod_small by lia. lia.
Qed.

(** ** Properties *)

(** C14: the queue refines its specification: an accepted message is appended
    to the slot at the cyclic distance of its number, a message outside the
    window of 1501 numbers is dropped, [pop] takes the oldest message of slot
    0 and nothing else, and [advance] drops slot 0 and shifts the others. *)
Theorem tbo_refines_slots curr tbo m : seq_ok curr -> seq_ok (sequence_number (message m)) ->
  let d := seq_dist (sequence_number (message m)) curr in
  (forall i, slot (tbo_queue_message curr tbo m) i =
     slot tbo i ++ (if decide (Z.of_nat i = d /\ d <= 1500) then [m] else [])) /\
  (tbo_pop_message tbo).1 = head (slot tbo 0) /\
  (forall i, slot (tbo_pop_message tbo).2 i =
     if decide (i = O) then tail (slot tbo 0) else slot tbo i) /\
  (forall i, slot (tbo_advance_message_queue tbo) i = slot tbo (S i)).
Proof.
  intros Hc Hm d. split; [|split; [|split]].
  - intros i. destruct (index (sequence_number (message m)) curr) as [e|k] eqn:E.
    + unfold tbo_queue_message. rewrite E. case_decide as Hd; [|by rewrite app_nil_r].
      assert (index (sequence_number (message m)) curr = inr i) by (apply index_spec; [done..|lia]).
      congruence.
    + rewrite (slot_queue _ _ _ _ _ E). apply index_spec in E as [Hd Hk]; [|done..].
      fold d in Hd. do 2 case_decide; try done; lia.
  - by destruct tbo as [|[|m0 q] rest].
  - intros i. destruct tbo as [|[|m0 q] rest]; simpl; case_decide; subst; try done; by destruct i.
  - intros i. apply slot_advance.
Qed.

(** The operations on a queue, as steps. *)
Inductive tbo_step : SeqNo * list (list (StoredMessage M)) ->
                     SeqNo * list (list (StoredMessage M)) -> Prop :=
| step_queue curr tbo m : seq_ok (sequence_number (message m)) ->
    tbo_step (curr, tbo) (curr, tbo_queue_message curr tbo m)
| step_pop curr tbo : tbo_step (curr, tbo) (curr, (tbo_pop_message tbo).2)
| step_advance curr tbo : tbo_step (curr, tbo) (next curr, tbo_advance_message_queue tbo).

Lemma tbo_step_ok s s' : tbo_step s s' ->
  seq_nonneg s.1 /\ tbo_ok s.1 s.2 -> seq_nonneg s'.1 /\ tbo_ok s'.1 s'.2.
Proof.
  intros Hst [Hc Ht]. destruct Hst as [curr tbo m Hm|curr tbo|curr tbo]; simpl in *.
  - split; [done|]. apply tbo_ok_queue; auto with bft.
  - split; [done|]. destruct (tbo_pop_message tbo) as [[m|] tbo'] eqn:E; simpl.
    + by eapply tbo_ok_pop.
    + apply tbo_pop_none in E as [-> _]. done.
  - split; [by apply next_nonneg|by apply tbo_ok_advance].
Qed.

(** Along any sequence of queue, pop and advance operations started from
    an empty queue at a number [next] can produce, a popped message always
    belongs to the current instance: its number is at distance 0, hence equal
    to the current one when it is not negative. *)
Theorem tbo_pops_current_instance init curr tbo m tbo' : seq_nonneg init ->
  rtc tbo_step (init, []) (curr, tbo) -> tbo_pop_message tbo = (Some m, tbo') ->
  seq_dist (sequence_number (message m)) curr = 0 /\
  (seq_nonneg (sequence_number (message m)) -> sequence_number (message m) = curr).
Proof.
  intros Hi Hr Hp.
  assert (H' : seq_nonneg (curr, tbo).1 /\ tbo_ok (curr, tbo).1 (curr, tbo).2).
  { assert (H0 : seq_nonneg (init, @nil (list (StoredMessage M))).1 /\
                 tbo_ok (init, @nil (list (StoredMessage M))).1 (init, @nil (list (StoredMessage M))).2)
      by (split; [done|apply tbo_ok_empty]).
    revert H0. clear Hi. induction Hr as [|x y z Hst _ IH]; [done|].
    intros H0. apply IH. by eapply tbo_step_ok. }
  simpl in H'. destruct H' as [Hc Ht]. destruct (tbo_ok_pop _ _ _ _ Hp Ht) as (_ & Hok & Hd).
  split; [done|]. intros Hn. by apply seq_dist_zero.
Qed.

End queue.

Definition sample_stored (seq : Z) : StoredMessage ConsensusMessage :=
  mkStored sample_header (mkConsensus (mkSeqNo seq) ZERO (Commit zero_digest)).

Lemma tbo_refines_slots_witness :
  slot (tbo_queue_message (mkSeqNo 7) [] (sample_stored 9)) 2 = [sample_stored 9].
Proof.
  destruct (tbo_refines_slots (mkSeqNo 7) [] (sample_stored 9)
    ltac:(vm_compute; split; discriminate) ltac:(vm_compute; split; discriminate)) as [H _].
  rewrite (H 2%nat). reflexivity.
Defined.

Lemma tbo_pops_current_instance_witness :
  sequence_number (message (sample_stored 1)) = next (mkSeqNo 0).
Proof.
  apply (tbo_pops_current_instance (mkSeqNo 0) (next (mkSeqNo 0))
    (tbo_advance_message_queue (tbo_queue_message (mkSeqNo 0) [] (sample_stored 1)))
    (sample_stored 1) [[]; []]).
  - vm_compute. split; discriminate.
  - eapply rtc_l; [apply (step_queue (mkSeqNo 0) [] (sample_stored 1))|].
    + vm_compute. split; discriminate.
    + apply rtc_once, step_advance.
  - reflexivity.
  - vm_compute. split; discriminate.
Defined.
