(* ===== verification/Globals.v ===== *)
(** * Global state: runtime, sockets and initialisation

    The process-wide variables ([globals/mod.rs]), the asynchronous runtime
    ([async_runtime/mod.rs] and its two backends), the socket module
    ([communication/socket/mod.rs]) with its io_uring backend
    ([communication/socket/rio_tcp/mod.rs]), and [init] with the guard that
    undoes it ([src/bft/mod.rs]). The crates underneath are types ([TokioRt],
    [Uring]) and the answers of their constructors, which are arguments. *)

From stdpp Require Import pretty.
From S2P Require Import Prelude Error.
Local Open Scope bft_scope.

(** ** Global variables *)

Definition Flag : Type := bool.

Definition flag_new : Flag := false.
Definition flag_set (self : Flag) : Flag := true.
Definition flag_unset (self : Flag) : Flag := false.
Definition flag_test (self : Flag) : bool := self.

Record Global (T : Type) := mkGlobal { flag : Flag; value : option T }.
Arguments mkGlobal {T} flag value.
Arguments flag {T} g : rename.
Arguments value {T} g : rename.

Definition global_new {T : Type} : Global T := mkGlobal flag_new None.

Definition global_set {T : Type} (self : Global T) (v : T) : Global T :=
  mkGlobal (flag_set (flag self)) (Some v).

Definition global_drop {T : Type} (self : Global T) : Global T :=
  mkGlobal (flag_unset (flag self)) None.

Definition global_get {T : Type} (self : Global T) : option T :=
  if flag_test (flag self) then value self else None.

(** The features that select the backends at compile time. *)
Inductive RuntimeFeature := async_runtime_tokio | async_runtime_async_std.
Inductive SocketFeature := socket_tokio_tcp | socket_async_std_tcp | socket_rio_tcp.

Section Globals.
Context {TokioRt Uring : Type} (rt_feature : RuntimeFeature) (sock_feature : SocketFeature).

Inductive Runtime :=
| TokioRuntime (rt : TokioRt)
| AsyncStdRuntime.

Record Globals := mkGlobals {
  INITIALIZED : Flag;
  RUNTIME : Global Runtime;
  RIO : Global Uring;
  env : gmap string string    (* environment variables *)
}.

Definition globals_new (env : gmap string string) : Globals :=
  mkGlobals flag_new global_new global_new env.

(** What the crates answer during one call of [init]: [build] of the tokio
    builder for a number of threads (which may panic), and [rio::new] with the
    number of references to the ring it returns. *)
Record Answers := mkAnswers {
  tokio_build : Z -> outcome (TokioRt + string);
  rio_new : (nat * Uring) + string
}.

(** ** The asynchronous runtime *)

Definition tokio_init (a : Answers) (num_threads : Z) : outcome (result Runtime) :=
  let! built := tokio_build a num_threads in
  Done (match result_wrapped_msg id built "AsyncRuntimeTokio" "Failed to build tokio runtime" with
        | Ok rt => Ok (TokioRuntime rt)
        | Err e => Err e
        end).

Definition async_std_init (num_threads : Z) (env : gmap string string)
  : gmap string string * result Runtime :=
  (<["ASYNC_STD_THREAD_COUNT" := pretty num_threads]> env, Ok AsyncStdRuntime).

Definition set_runtime (self : Globals) (rt : result Runtime) : Globals * result unit :=
  match rt with
  | Ok rt => (mkGlobals (INITIALIZED self) (global_set (RUNTIME self) rt) (RIO self) (env self), Ok tt)
  | Err e => (self, Err e)
  end.

Definition runtime_init (a : Answers) (num_threads : Z) (self : Globals)
  : outcome (Globals * result unit) :=
  match rt_feature with
  | async_runtime_tokio =>
    let! rt := tokio_init a num_threads in
    Done (set_runtime self rt)
  | async_runtime_async_std =>
    let '(env', rt) := async_std_init num_threads (env self) in
    Done (set_runtime (mkGlobals (INITIALIZED self) (RUNTIME self) (RIO self) env') rt)
  end.

Definition runtime_drop (self : Globals) : Globals * result unit :=
  (mkGlobals (INITIALIZED self) (global_drop (RUNTIME self)) (RIO self) (env self), Ok tt).

(** [runtime!()], the first thing [spawn] and [block_on] do. *)
Definition runtime (self : Globals) : outcome Runtime :=
  match global_get (RUNTIME self) with
  | Some rt => Done rt
  | None => Panic
  end.

(** [spawn_on rt] is what the backend does with a future. *)
Definition spawn {F H : Type} (spawn_on : Runtime -> F -> H) (self : Globals) (future : F)
  : outcome H :=
  let! rt := runtime self in Done (spawn_on rt future).

Definition block_on {F A : Type} (block : Runtime -> F -> A) (self : Globals) (future : F)
  : outcome A :=
  let! rt := runtime self in Done (block rt future).

(** The handle of async-std reports no errors of its own. *)
Definition async_std_join_poll {A : Type} (inner : Poll A) : Poll (result A) :=
  poll_map Ok inner.

(** [inner] is what polling the handle of the backend answers. *)
Definition join_poll {A E : Type} (message : E -> string) (inner : Poll (A + E)) : Poll (result A) :=
  poll_map (fun r => result_wrapped_msg message r "AsyncRuntime" "Failed to join handle") inner.

(** ** Sockets: the io_uring instance *)

Definition rio_init (a : Answers) (self : Globals) : outcome (Globals * result unit) :=
  match result_wrapped id (rio_new a) "CommunicationSocketRioTcp" with
  | Err e => Done (self, Err e)
  | Ok (refs, ring) =>
    (* Arc::try_unwrap(ring.0).unwrap() *)
    if decide (refs = 1)
    then Done (mkGlobals (INITIALIZED self) (RUNTIME self) (global_set (RIO self) ring) (env self), Ok tt)
    else Panic
  end.

Definition rio_drop (self : Globals) : Globals * result unit :=
  (mkGlobals (INITIALIZED self) (RUNTIME self) (global_drop (RIO self)) (env self), Ok tt).

Definition ring (self : Globals) : outcome Uring :=
  match global_get (RIO self) with
  | Some r => Done r
  | None => Panic
  end.

Definition socket_init (a : Answers) (self : Globals) : outcome (Globals * result unit) :=
  match sock_feature with
  | socket_rio_tcp => rio_init a self
  | _ => Done (self, Ok tt)
  end.

Definition socket_drop (self : Globals) : Globals * result unit :=
  match sock_feature with
  | socket_rio_tcp => rio_drop self
  | _ => (self, Ok tt)
  end.

(** ** [init] and the guard *)

Inductive InitGuard := mkInitGuard.

Record InitConfig := mkInitConfig { async_threads : Z }.

Definition init (a : Answers) (c : InitConfig) (self : Globals)
  : outcome (Globals * result (option InitGuard)) :=
  if flag_test (INITIALIZED self) then Done (self, Ok None)
  else
    let! '(self, r) := runtime_init a (async_threads c) self in
    match r with
    | Err e => Done (self, Err e)
    | Ok _ =>
      let! '(self, r) := socket_init a self in
      match r with
      | Err e => Done (self, Err e)
      | Ok _ =>
        Done (mkGlobals (flag_set (INITIALIZED self)) (RUNTIME self) (RIO self) (env self),
              Ok (Some mkInitGuard))
      end
    end.

(** [drop] *)
Definition drop_all (self : Globals) : Globals * result unit :=
  let self := mkGlobals (flag_unset (INITIALIZED self)) (RUNTIME self) (RIO self) (env self) in
  let '(self, r) := runtime_drop self in
  match r with
  | Err e => (self, Err e)
  | Ok _ =>
    let '(self, r) := socket_drop self in
    match r with
    | Err e => (self, Err e)
    | Ok _ => (self, Ok tt)
    end
  end.

(** [Drop for InitGuard]: [drop().unwrap()] *)
Definition guard_drop (self : Globals) : outcome Globals :=
  match drop_all self with
  | (self, Ok _) => Done self
  | (_, Err _) => Panic
  end.

(** ** The life of a process: calls of [init], whatever the crates answer, and
    drops of the guards it has obtained. *)

Record Process := mkProcess { globals : Globals; guards : list InitGuard }.

Inductive process_step : Process -> Process -> Prop :=
| step_init a c g g' gs r :
    init a c g = Done (g', r) ->
    process_step (mkProcess g gs)
      (mkProcess g' (match r with Ok (Some guard) => guard :: gs | _ => gs end))
| step_guard_drop g g' guard gs :
    guard_drop g = Done g' ->
    process_step (mkProcess g (guard :: gs)) (mkProcess g' gs).

Definition process_start (env : gmap string string) : Process := mkProcess (globals_new env) [].

(** A flag that is set has a value behind it. *)
Definition global_ok {T : Type} (g : Global T) : Prop := flag g = true -> is_Some (value g).

(** What the code relies on while it holds a guard. *)
Definition ready (g : Globals) : Prop :=
  (exists rt, runtime g = Done rt) /\ (sock_feature = socket_rio_tcp -> exists r, ring g = Done r).

Record process_inv (p : Process) : Prop := {
  inv_guards : length (guards p) = if INITIALIZED (globals p) then 1 else 0;
  inv_ready : INITIALIZED (globals p) = true -> ready (globals p);
  inv_runtime : global_ok (RUNTIME (globals p));
  inv_rio : global_ok (RIO (globals p))
}.

Lemma global_set_ok {T : Type} (g : Global T) v :
  global_ok (global_set g v) /\ global_get (global_set g v) = Some v.
Proof. split; [by intros _; exists v|done]. Qed.

Lemma global_drop_ok {T : Type} (g : Global T) :
  global_ok (global_drop g) /\ global_get (global_drop g) = None.
Proof. by split. Qed.

(** What a call of the runtime's [init] does to the globals. *)
Lemma runtime_init_spec a n g g' r :
  runtime_init a n g = Done (g', r) ->
  INITIALIZED g' = INITIALIZED g /\ RIO g' = RIO g /\
  match r with
  | Ok _ => global_ok (RUNTIME g') /\ exists rt, runtime g' = Done rt
  | Err e => RUNTIME g' = RUNTIME g /\ Errors.kind e = "AsyncRuntimeTokio"%string
  end.
Proof.
  unfold runtime_init, tokio_init. destruct rt_feature.
  - destruct (tokio_build a n) as [[rt|e]|]; cbn [obind]; intros [= <- <-]; cbn;
      repeat split; by try (eexists; done).
  - intros [= <- <-]. cbn. repeat split; [by eexists|by eexists].
Qed.

Lemma socket_init_spec a g g' r :
  socket_init a g = Done (g', r) ->
  INITIALIZED g' = INITIALIZED g /\ RUNTIME g' = RUNTIME g /\
  match r with
  | Ok _ => (sock_feature = socket_rio_tcp -> exists u, ring g' = Done u)
            /\ (global_ok (RIO g) -> global_ok (RIO g'))
  | Err e => RIO g' = RIO g /\ sock_feature = socket_rio_tcp
             /\ Errors.kind e = "CommunicationSocketRioTcp"%string
  end.
Proof.
  unfold socket_init, rio_init. destruct sock_feature; [by intros [= <- <-]..|].
  destruct (rio_new a) as [[refs u]|e]; cbn [result_wrapped map_err].
  - case_decide; [|discriminate]. intros [= <- <-]. cbn. repeat split; by try (eexists; done).
  - by intros [= <- <-].
Qed.

Lemma init_spec a c g g' r :
  init a c g = Done (g', r) ->
  (INITIALIZED g = true -> g' = g /\ r = Ok None) /\
  (INITIALIZED g = false ->
    match r with
    | Ok (Some _) => INITIALIZED g' = true /\ ready g' /\ global_ok (RUNTIME g')
                     /\ (global_ok (RIO g) -> global_ok (RIO g'))
    | Ok None => False
    | Err _ => INITIALIZED g' = false /\ RIO g' = RIO g
               /\ (global_ok (RUNTIME g) -> global_ok (RUNTIME g'))
    end).
Proof.
  unfold init, flag_test. destruct (INITIALIZED g) eqn:Hinit; [by intros [= <- <-]|].
  destruct (runtime_init a (async_threads c) g) as [[g1 r1]|] eqn:H1; [cbn [obind]|discriminate].
  apply runtime_init_spec in H1 as (Hi1 & Hrio1 & H1).
  destruct r1 as [u1|e1].
  2:{ destruct H1 as [Hrt _]. intros [= <- <-]. split; [done|]. by rewrite Hi1, Hrt. }
  destruct H1 as [Hok1 Hrt1].
  destruct (socket_init a g1) as [[g2 r2]|] eqn:H2; [cbn [obind]|discriminate].
  apply socket_init_spec in H2 as (Hi2 & Hrt2 & H2).
  destruct r2 as [u2|e2]; intros [= <- <-]; (split; [done|]); intros _; cbn.
  - destruct H2 as [Hring Hok2]. unfold ready, runtime, ring in *. cbn. rewrite Hrt2, <- Hrio1.
    done.
  - destruct H2 as [Hrio2 _]. by rewrite Hi2, Hi1, Hrio2, Hrt2.
Qed.

(** Dropping the guard always succeeds and leaves nothing behind. *)
Lemma guard_drop_spec g :
  exists g', guard_drop g = Done g' /\ INITIALIZED g' = false /\
  global_get (RUNTIME g') = None /\ global_ok (RUNTIME g') /\
  (global_ok (RIO g) -> global_ok (RIO g')) /\
  (sock_feature = socket_rio_tcp -> global_get (RIO g') = None).
Proof.
  unfold guard_drop, drop_all, runtime_drop, socket_drop, rio_drop.
  destruct sock_feature; eexists; repeat split; done.
Qed.

Lemma process_step_inv p p' : process_step p p' -> process_inv p -> process_inv p'.
Proof.
  intros [a c g g' gs r Hr|g g' guard gs Hd] [Hg Hready Hrt Hrio]; cbn [globals guards] in *.
  - apply init_spec in Hr as [Hset Hunset]. destruct (INITIALIZED g) eqn:Hi.
    + destruct (Hset eq_refl) as [-> ->]. split; cbn; rewrite ?Hi; done.
    + specialize (Hunset eq_refl). destruct r as [[guard|]|e]; [|done|].
      * destruct Hunset as (Hi' & Hready' & Hrt' & Hrio').
        split; cbn [globals guards length]; rewrite ?Hi'; auto.
      * destruct Hunset as (Hi' & Hrio' & Hrt').
        split; cbn [globals guards]; rewrite ?Hi', ?Hrio'; auto; done.
  - destruct (guard_drop_spec g) as (g1 & Hd1 & Hi' & _ & Hrt' & Hrio' & _).
    rewrite Hd1 in Hd. injection Hd as ->. cbn [length] in Hg.
    split; cbn [globals guards]; rewrite ?Hi'; auto; [|done].
    destruct (INITIALIZED g); lia.
Qed.

(** C33: through all sequences of calls of [init], whatever the runtime and the
    ring answer, and of drops of guards, at most one guard is alive, and one is
    exactly while [INITIALIZED] is set; while it is alive [spawn], [block_on]
    and the sockets find their globals and do not panic, and a further [init]
    changes nothing and returns no second guard. *)
Theorem guard_means_initialized env p :
  rtc process_step (process_start env) p ->
  length (guards p) <= 1 /\
  (guards p <> [] <-> INITIALIZED (globals p) = true) /\
  (guards p <> [] ->
     ready (globals p) /\
     forall a c, init a c (globals p) = Done (globals p, Ok None)).
Proof.
  intros Hsteps.
  assert (process_inv p) as [Hg Hready _ _].
  { revert Hsteps. apply (rtc_ind_r process_inv (process_start env)); [by split|].
    intros p1 p2 _ Hstep. by apply process_step_inv. }
  unfold init, flag_test. destruct (INITIALIZED (globals p)), (guards p) as [|guard [|]]; try done.
  all: cbn in Hg |- *; repeat split; try lia; try done; by apply Hready.
Qed.

(** When the sockets cannot be initialised [init] returns the error and leaves
    the runtime running although the library counts as uninitialised; another
    [init] replaces that runtime. *)
Lemma failed_init_leaves_runtime a c g g' e :
  INITIALIZED g = false -> init a c g = Done (g', Err e) ->
  Errors.kind e = "CommunicationSocketRioTcp"%string ->
  INITIALIZED g' = false /\ exists rt, runtime g' = Done rt.
Proof.
  unfold init, flag_test. intros Hi. rewrite Hi.
  destruct (runtime_init a (async_threads c) g) as [[g1 r1]|] eqn:H1; [cbn [obind]|discriminate].
  apply runtime_init_spec in H1 as (Hi1 & _ & H1).
  destruct r1 as [u1|e1].
  2:{ destruct H1 as [_ Hk]. intros [= <- <-]. by rewrite Hk. }
  destruct (socket_init a g1) as [[g2 r2]|] eqn:H2; [cbn [obind]|discriminate].
  apply socket_init_spec in H2 as (Hi2 & Hrt2 & H2).
  destruct r2 as [u2|e2]; [discriminate|]. intros [= <- <-] _.
  unfold runtime. rewrite Hi2, Hi1, Hrt2. split; [done|apply H1].
Qed.

End Globals.

(** A run with tokio and io_uring: an [init] fails because there is no ring,
    the next one succeeds. *)
Definition w_no_ring : Answers (TokioRt := unit) (Uring := unit) :=
  mkAnswers (fun _ => Done (inl tt)) (inr "no io_uring"%string).
Definition w_ring : Answers (TokioRt := unit) (Uring := unit) :=
  mkAnswers (fun _ => Done (inl tt)) (inl (1, tt)).

Lemma guard_means_initialized_witness :
  exists p : Process (TokioRt := unit) (Uring := unit),
    rtc (process_step async_runtime_tokio socket_rio_tcp) (process_start ∅) p /\
    guards p = [mkInitGuard] /\ ready socket_rio_tcp (globals p).
Proof.
  assert (exists p, rtc (process_step (TokioRt := unit) (Uring := unit)
                           async_runtime_tokio socket_rio_tcp) (process_start ∅) p
                    /\ guards p = [mkInitGuard]) as (p & Hsteps & Hp).
  { eexists. split.
    - eapply rtc_l; [by apply (step_init _ _ w_no_ring (mkInitConfig 2))|].
      eapply rtc_l; [by apply (step_init _ _ w_ring (mkInitConfig 2))|]. apply rtc_refl.
    - reflexivity. }
  exists p. split; [exact Hsteps|]. split; [exact Hp|].
  apply (guard_means_initialized async_runtime_tokio socket_rio_tcp ∅ p Hsteps).
  by rewrite Hp.
Defined.

(** ** [yield_now] *)

Record YieldNow := mkYieldNow { yielded : bool }.

(** The new state, whether the task was woken, and the answer. *)
Definition yield_poll (self : YieldNow) : YieldNow * bool * Poll unit :=
  if yielded self then (self, false, Ready tt)
  else (mkYieldNow true, true, Pending).

(** An executor that polls a task again only when it has been woken; the number
    of polls until it is ready. *)
Fixpoint polls_until_ready (fuel : nat) (self : YieldNow) : option nat :=
  match fuel with
  | O => None
  | S fuel' =>
    match yield_poll self with
    | (_, _, Ready _) => Some 1
    | (self, true, Pending) => S <$> polls_until_ready fuel' self
    | (_, false, Pending) => None
    end
  end.

(** Yielding gives up the thread exactly once, and wakes the task by itself. *)
Lemma yield_now_returns fuel :
  2 <= fuel -> polls_until_ready fuel (mkYieldNow false) = Some 2.
Proof. destruct fuel as [|[|fuel]]; [lia..|reflexivity]. Qed.

(** ** Reading and writing through io_uring

    A completion is the index of the operation it belongs to; [done c] is what
    polling it answers at the moment. *)

Inductive UringOp := Recv | Send (data : list Z).

Record RioSocket := mkRioSocket { reading : option nat; writing : option nat }.

Definition submit (op : UringOp) (submitted : list UringOp) : nat * list UringOp :=
  (length submitted, submitted ++ [op]).

Definition rio_poll_read (done : nat -> Poll (Z + string)) (self : RioSocket)
    (submitted : list UringOp) : RioSocket * list UringOp * Poll (Z + string) :=
  match reading self with
  | Some c =>
    match done c with
    | Ready r => (mkRioSocket None (writing self), submitted, Ready r)
    | Pending => (self, submitted, Pending)
    end
  | None =>
    let '(c, submitted) := submit Recv submitted in
    match done c with
    | Ready r => (self, submitted, Ready r)
    | Pending => (mkRioSocket (Some c) (writing self), submitted, Pending)
    end
  end.

(** The completion of [poll_write] is a local variable. *)
Definition rio_poll_write (done : nat -> Poll (Z + string)) (self : RioSocket)
    (submitted : list UringOp) (buf : list Z) : RioSocket * list UringOp * Poll (Z + string) :=
  let '(c, submitted) := submit (Send buf) submitted in
  (self, submitted, done c).

(** Poll until ready, [answers] being what the completions answer at each poll. *)
Fixpoint poll_again {S A : Type} (poll : (nat -> Poll A) -> S -> list UringOp -> S * list UringOp * Poll A)
    (answers : list (nat -> Poll A)) (s : S) (submitted : list UringOp)
  : S * list UringOp * Poll A :=
  match answers with
  | [] => (s, submitted, Pending)
  | done :: answers' =>
    match poll done s submitted with
    | (s, submitted, Ready r) => (s, submitted, Ready r)
    | (s, submitted, Pending) => poll_again poll answers' s submitted
    end
  end.

(** A read that is polled until it is ready submits one operation, and the
    answer is that of this operation. *)
Lemma rio_read_submits_once answers w submitted done :
  let c := length submitted in
  Forall (fun done => done c = Pending) answers ->
  poll_again rio_poll_read (answers ++ [done]) (mkRioSocket None w) submitted
  = match done c with
    | Ready r => (mkRioSocket None w, submitted ++ [Recv], Ready r)
    | Pending => (mkRioSocket (Some c) w, submitted ++ [Recv], Pending)
    end.
Proof.
  intros c Hpending.
  assert (forall answers, Forall (fun done => done c = Pending) answers ->
    poll_again rio_poll_read (answers ++ [done]) (mkRioSocket (Some c) w) (submitted ++ [Recv])
    = match done c with
      | Ready r => (mkRioSocket None w, submitted ++ [Recv], Ready r)
      | Pending => (mkRioSocket (Some c) w, submitted ++ [Recv], Pending)
      end) as Hwait.
  { clear. induction 1 as [|d answers Hd _ IH]; cbn; [by destruct (done c)|by rewrite Hd]. }
  destruct Hpending as [|d answers Hd Hpending]; cbn; fold c.
  - by destruct (done c).
  - rewrite Hd. by apply Hwait.
Qed.

(** A write that is pending [k] times is submitted [k + 1] times: the completion
    of a pending poll is dropped and the next poll submits the bytes again. *)
Lemma rio_write_resubmits buf answers s submitted :
  (forall done c, done ∈ answers -> done c = Pending) ->
  poll_again (fun done s l => rio_poll_write done s l buf) answers s submitted
  = (s, submitted ++ replicate (length answers) (Send buf), Pending).
Proof.
  revert submitted. induction answers as [|d answers IH]; intros submitted Hd; cbn.
  - by rewrite app_nil_r.
  - rewrite (Hd d) by left. rewrite IH by (intros ?? ?; apply Hd; by right).
    by rewrite <- app_assoc.
Qed.
