(* ===== verification/Collections.v ===== *)
(** * Collections ([src/bft/collections/mod.rs])

    [OrderedMap] is the external crate's [LinkedHashMap], a hash map that
    remembers the order in which its keys were inserted. It is a parameter:
    its operations are the class [OrderedMap], and [OrderedMapLaws] states its
    documented behaviour in terms of the sequence of its entries. [HashMap] and
    [HashSet] are [gmap] and [gset] (see [RandomState] in the prelude). *)

From S2P Require Import Prelude.

Class OrderedMap (K : Type) := {
  lhm : Type -> Type;
  om_new : forall {V : Type}, lhm V;
  om_insert : forall {V : Type}, K -> V -> lhm V -> lhm V;
  om_remove : forall {V : Type}, K -> lhm V -> option V * lhm V;
  om_pop_front : forall {V : Type}, lhm V -> option ((K * V) * lhm V);
  om_get : forall {V : Type}, K -> lhm V -> option V;
  om_iter : forall {V : Type}, lhm V -> list (K * V)
}.

Class OrderedMapLaws (K : Type) `{OrderedMap K, EqDecision K} : Prop := {
  om_iter_nodup : forall {V} (m : lhm V), NoDup (om_iter m).*1;
  om_iter_new : forall {V}, om_iter (V := V) om_new = [];
  om_get_iter : forall {V} (m : lhm V) k v, om_get k m = Some v <-> (k, v) ∈ om_iter m;
  om_insert_fresh : forall {V} (m : lhm V) k v, om_get k m = None ->
    om_iter (om_insert k v m) = om_iter m ++ [(k, v)];
  om_get_insert : forall {V} (m : lhm V) k k' v,
    om_get k' (om_insert k v m) = if decide (k' = k) then Some v else om_get k' m;
  om_remove_fst : forall {V} (m : lhm V) k, (om_remove k m).1 = om_get k m;
  om_remove_iter : forall {V} (m : lhm V) k,
    om_iter (om_remove k m).2 = filter (fun kv => kv.1 <> k) (om_iter m);
  om_pop_front_iter : forall {V} (m : lhm V),
    match om_iter m with
    | [] => om_pop_front m = None
    | kv :: rest => exists m', om_pop_front m = Some (kv, m') /\ om_iter m' = rest
    end
}.

Definition om_contains_key {K V : Type} `{OrderedMap K} (k : K) (m : lhm V) : bool :=
  match om_get k m with Some _ => true | None => false end.

Definition om_keys {K V : Type} `{OrderedMap K} (m : lhm V) : list K := (om_iter m).*1.

Section laws.
Context {K V : Type} `{OrderedMapLaws K}.

Lemma om_get_remove (m : lhm V) k k' :
  om_get k' (om_remove k m).2 = if decide (k' = k) then None else om_get k' m.
Proof.
  destruct (decide (k' = k)) as [->|Hne].
  - destruct (om_get k (om_remove k m).2) as [v|] eqn:E; [|done].
    apply om_get_iter in E. rewrite om_remove_iter in E.
    apply list_elem_of_filter in E as [E _]. simpl in E. congruence.
  - destruct (om_get k' m) as [v|] eqn:E.
    + apply om_get_iter. rewrite om_remove_iter. apply list_elem_of_filter.
      split; [done|]. by apply om_get_iter.
    + destruct (om_get k' (om_remove k m).2) as [v|] eqn:E'; [|done].
      apply om_get_iter in E'. rewrite om_remove_iter in E'.
      apply list_elem_of_filter in E' as [_ E']. apply om_get_iter in E'. congruence.
Qed.

Lemma om_pop_front_get (m m' : lhm V) k v : om_pop_front m = Some ((k, v), m') ->
  om_get k m = Some v /\ (forall k', om_get k' m' = if decide (k' = k) then None else om_get k' m).
Proof.
  intros Hp. pose proof (om_pop_front_iter m) as Hi. pose proof (om_iter_nodup m) as Hn.
  destruct (om_iter m) as [|kv rest] eqn:Em; [congruence|].
  destruct Hi as (m'' & Hp' & Hrest). rewrite Hp in Hp'. injection Hp' as <- <-.
  split; [apply om_get_iter; rewrite Em; set_solver|].
  apply NoDup_cons in Hn as [Hnk Hn]. intros k'. destruct (decide (k' = k)) as [->|Hne].
  - destruct (om_get k m') as [w|] eqn:E; [|done]. apply om_get_iter in E.
    rewrite Hrest in E. exfalso. apply Hnk. apply list_elem_of_fmap. by exists (k, w).
  - destruct (om_get k' m') as [w|] eqn:E; symmetry.
    + apply om_get_iter in E. apply om_get_iter. rewrite Em, <- Hrest. set_solver.
    + destruct (om_get k' m) as [w|] eqn:E'; [|done]. apply om_get_iter in E'.
      rewrite Em in E'. apply elem_of_cons in E' as [[= ->]|E']; [done|].
      rewrite <- Hrest in E'. apply om_get_iter in E'. congruence.
Qed.

End laws.

(** ** A concrete ordered map: the list of its entries *)

Fixpoint al_get {K V : Type} `{EqDecision K} (k : K) (l : list (K * V)) : option V :=
  match l with
  | [] => None
  | (k', v) :: l' => if decide (k = k') then Some v else al_get k l'
  end.

(** The entries of a list, the first one for each key. *)
Fixpoint entries {K V : Type} `{EqDecision K} (l : list (K * V)) : list (K * V) :=
  match l with
  | [] => []
  | kv :: l' => kv :: filter (fun kv' => kv'.1 <> kv.1) (entries l')
  end.

Lemma filter_keys_nodup {K V : Type} `{EqDecision K} (k : K) (l : list (K * V)) :
  NoDup l.*1 -> NoDup (filter (fun kv => kv.1 <> k) l).*1.
Proof.
  induction l as [|[k0 v0] l IH]; [done|]. simpl. intros [Hk Hn]%NoDup_cons.
  rewrite filter_cons. case_decide; [|by apply IH]. simpl. apply NoDup_cons. split; [|by apply IH].
  intros Hin. apply Hk. apply list_elem_of_fmap in Hin as (kv & -> & Hin).
  apply list_elem_of_filter in Hin as [_ Hin]. apply list_elem_of_fmap. by exists kv.
Qed.

Lemma filter_key_absent {K V : Type} `{EqDecision K} (k : K) (l : list (K * V)) :
  k ∉ (filter (fun kv => kv.1 <> k) l).*1.
Proof.
  intros Hin. apply list_elem_of_fmap in Hin as (kv & -> & Hin).
  apply list_elem_of_filter in Hin as [Hne _]. congruence.
Qed.

Lemma entries_nodup {K V : Type} `{EqDecision K} (l : list (K * V)) : NoDup (entries l).*1.
Proof.
  induction l as [|kv l IH]; simpl; [apply NoDup_nil_2|]. apply NoDup_cons.
  split; [apply filter_key_absent|by apply filter_keys_nodup].
Qed.

Lemma entries_id {K V : Type} `{EqDecision K} (l : list (K * V)) : NoDup l.*1 -> entries l = l.
Proof.
  induction l as [|[k v] l IH]; simpl; [done|]. intros [Hk Hn]%NoDup_cons.
  rewrite IH by done. f_equal. clear IH Hn. induction l as [|[k' v'] l IH]; [done|].
  rewrite filter_cons, decide_True; [rewrite IH; [done|set_solver]|simpl; set_solver].
Qed.

Definition assoc_map (K : Type) `{EqDecision K} : OrderedMap K := {|
  lhm := fun V => list (K * V);
  om_new := fun V => [];
  om_insert := fun V k v m => filter (fun kv => kv.1 <> k) (entries m) ++ [(k, v)];
  om_remove := fun V k m => (al_get k (entries m), filter (fun kv => kv.1 <> k) (entries m));
  om_pop_front := fun V m =>
    match entries m with
    | [] => None
    | kv :: l => Some (kv, l)
    end;
  om_get := fun V k m => al_get k (entries m);
  om_iter := fun V m => entries m
|}.

Lemma al_get_elem {K V : Type} `{EqDecision K} (l : list (K * V)) k v : NoDup l.*1 ->
  al_get k l = Some v <-> (k, v) ∈ l.
Proof.
  induction l as [|[k' v'] l IH]; simpl; intros Hn.
  - split; [discriminate|]. set_solver.
  - apply NoDup_cons in Hn as [Hk Hn]. specialize (IH Hn). case_decide as Hd.
    + subst. split; [intros [= ->]; set_solver|]. intros [[= ->]|Hin]%elem_of_cons; [done|].
      exfalso. apply Hk. apply list_elem_of_fmap. by exists (k', v).
    + rewrite IH. split; [set_solver|]. intros [[= -> ->]|Hin]%elem_of_cons; done.
Qed.

Lemma al_get_app {K V : Type} `{EqDecision K} (l : list (K * V)) k k' v :
  k ∉ l.*1 -> al_get k' (l ++ [(k, v)]) = if decide (k' = k) then Some v else al_get k' l.
Proof.
  induction l as [|[k0 v0] l IH]; simpl; intros Hk; [done|].
  rewrite IH by set_solver. destruct (decide (k' = k0)), (decide (k' = k)); subst; try done.
  set_solver.
Qed.

Lemma al_get_filter {K V : Type} `{EqDecision K} (l : list (K * V)) k k' :
  k' <> k -> al_get k' (filter (fun kv => kv.1 <> k) l) = al_get k' l.
Proof.
  intros Hne. induction l as [|[k0 v0] l IH]; [done|]. rewrite filter_cons. simpl.
  destruct (decide (k0 = k)) as [->|Hk].
  - rewrite decide_False by tauto. rewrite decide_False by done. done.
  - rewrite decide_True by done. simpl. by rewrite IH.
Qed.

Lemma al_get_none_filter {K V : Type} `{EqDecision K} (l : list (K * V)) k :
  al_get k l = None -> filter (fun kv => kv.1 <> k) l = l.
Proof.
  induction l as [|[k0 v0] l IH]; [done|]. simpl. case_decide as Hd; [discriminate|].
  intros E. rewrite filter_cons, decide_True by (simpl; congruence). by rewrite IH.
Qed.

Lemma insert_entries_nodup {K V : Type} `{EqDecision K} k (v : V) (l : list (K * V)) :
  NoDup (filter (fun kv => kv.1 <> k) (entries l) ++ [(k, v)]).*1.
Proof.
  rewrite fmap_app. apply NoDup_app. split; [|split].
  - apply filter_keys_nodup, entries_nodup.
  - intros x Hx Hx'. simpl in Hx'. apply list_elem_of_singleton in Hx'. subst.
    by apply filter_key_absent in Hx.
  - simpl. apply NoDup_singleton.
Qed.

Lemma assoc_map_laws (K : Type) `{EqDecision K} : @OrderedMapLaws K (assoc_map K) _.
Proof.
  split; unfold om_iter, om_get, om_insert, om_remove, om_pop_front, om_new, assoc_map; intros V.
  - apply entries_nodup.
  - done.
  - intros m k v. apply al_get_elem, entries_nodup.
  - intros m k v Hk. rewrite entries_id by apply insert_entries_nodup.
    by rewrite al_get_none_filter.
  - intros m k k' v. rewrite entries_id by apply insert_entries_nodup.
    rewrite al_get_app by apply filter_key_absent.
    case_decide; [done|]. by apply al_get_filter.
  - intros m k. done.
  - intros m k. apply entries_id, filter_keys_nodup, entries_nodup.
  - intros m. pose proof (entries_nodup m) as Hn. destruct (entries m) as [|kv l]; [done|].
    exists l. split; [done|]. apply entries_id. simpl in Hn. by apply NoDup_cons in Hn as [_ ?].
Qed.
