(* ===== verification/Channel.v ===== *)
(** * Channels ([src/bft/communication/channel/mod.rs] and its three back ends)

    The FIFO channels between the tasks of a node. A channel of one of the
    external crates is a parameter: the class [Mpsc] is the interface of
    [futures::channel::mpsc], [Mpmc] that of [flume] and [async_channel], each
    with its documented behaviour as laws. The class [Channel] is what the
    wrappers of this crate promise to their users, the same for the three back
    ends. A [MessageChannel] sorts messages into four such channels; its
    receiving end selects among them. A future is a function that is called at
    every poll; both halves of a channel are one state. *)

From S2P Require Import Prelude Error Crypto Params Message.
Local Open Scope bft_scope.

(** ** The external channels *)

Inductive MpscError := Full | Disconnected.

Class Mpsc := {
  mpsc : Type -> Type;
  mpsc_channel : forall {T : Type}, nat -> mpsc T;
  mpsc_poll_ready : forall {T : Type}, mpsc T -> Poll (option MpscError);
  mpsc_try_send : forall {T : Type}, mpsc T -> T -> option MpscError * mpsc T;
  mpsc_poll_next : forall {T : Type}, mpsc T -> Poll (option T) * mpsc T;
  mpsc_is_terminated : forall {T : Type}, mpsc T -> bool
}.

(** A sender that is ready has a slot; a message that was taken is received,
    in order; the stream ends when the senders are gone and nothing is left. *)
Class MpscLaws `{Mpsc} := {
  mpsc_items : forall {T : Type}, mpsc T -> list T;
  mpsc_closed : forall {T : Type}, mpsc T -> Prop;
  mpsc_channel_items : forall T bound, mpsc_items (mpsc_channel (T := T) bound) = [];
  mpsc_send_ready : forall T (c : mpsc T) x, mpsc_poll_ready c = Ready None ->
    exists c', mpsc_try_send c x = (None, c') /\ mpsc_items c' = mpsc_items c ++ [x];
  mpsc_next : forall T (c : mpsc T), let '(p, c') := mpsc_poll_next c in
    match p with
    | Ready (Some x) => mpsc_items c = x :: mpsc_items c'
    | Ready None => mpsc_items c = [] /\ mpsc_items c' = [] /\ mpsc_closed c
    | Pending => mpsc_items c = [] /\ mpsc_items c' = []
    end;
  mpsc_terminated : forall T (c : mpsc T), mpsc_is_terminated c = true ->
    mpsc_items c = [] /\ mpsc_closed c
}.

(** The futures of [Sender::send] and [Receiver::recv]: [None] is their error,
    the other half is gone. *)
Class Mpmc := {
  mpmc : Type -> Type;
  mpmc_bounded : forall {T : Type}, nat -> mpmc T;
  mpmc_send : forall {T : Type}, mpmc T -> T -> Poll (option unit) * mpmc T;
  mpmc_recv : forall {T : Type}, mpmc T -> Poll (option T) * mpmc T;
  mpmc_is_terminated : forall {T : Type}, mpmc T -> bool
}.

Class MpmcLaws `{Mpmc} := {
  mpmc_items : forall {T : Type}, mpmc T -> list T;
  mpmc_closed : forall {T : Type}, mpmc T -> Prop;
  mpmc_bounded_items : forall T bound, mpmc_items (mpmc_bounded (T := T) bound) = [];
  mpmc_sent : forall T (c : mpmc T) x, let '(p, c') := mpmc_send c x in
    mpmc_items c' = match p with Ready (Some _) => mpmc_items c ++ [x] | _ => mpmc_items c end;
  mpmc_received : forall T (c : mpmc T), let '(p, c') := mpmc_recv c in
    match p with
    | Ready (Some x) => mpmc_items c = x :: mpmc_items c'
    | Ready None => mpmc_items c = [] /\ mpmc_items c' = [] /\ mpmc_closed c
    | Pending => mpmc_items c = [] /\ mpmc_items c' = []
    end;
  mpmc_terminated : forall T (c : mpmc T), mpmc_is_terminated c = true ->
    mpmc_items c = [] /\ mpmc_closed c
}.

(** ** What the crate makes of them *)

Class Channel := {
  chan : Type -> Type;
  new_bounded : forall {T : Type}, nat -> chan T;
  ch_send : forall {T : Type}, chan T -> T -> Poll (result unit) * chan T;
  ch_recv : forall {T : Type}, chan T -> Poll (result T) * chan T;
  ch_is_terminated : forall {T : Type}, chan T -> bool
}.

(** A channel is a queue: what was sent is received once, in order, and
    receiving waits only when the queue is empty. *)
Class ChannelLaws `{Channel} := {
  ch_items : forall {T : Type}, chan T -> list T;
  ch_closed : forall {T : Type}, chan T -> Prop;
  ch_new_items : forall T bound, ch_items (new_bounded (T := T) bound) = [];
  ch_send_items : forall T (c : chan T) x, let '(p, c') := ch_send c x in
    ch_items c' = match p with Ready (Ok _) => ch_items c ++ [x] | _ => ch_items c end;
  ch_recv_items : forall T (c : chan T), let '(p, c') := ch_recv c in
    match p with
    | Ready (Ok x) => ch_items c = x :: ch_items c'
    | Ready (Err _) => ch_items c = [] /\ ch_items c' = [] /\ ch_closed c
    | Pending => ch_items c = [] /\ ch_items c' = []
    end;
  ch_terminated_items : forall T (c : chan T), ch_is_terminated c = true ->
    ch_items c = [] /\ ch_closed c
}.

Section futures.
Context `{Mpsc}.

Definition futures_kind : ErrorKind := "CommunicationChannelFuturesMpsc".

(** [ChannelTx::ready] *)
Definition futures_ready {T : Type} (c : mpsc T) : Poll (result unit) :=
  match mpsc_poll_ready c with
  | Ready None => Ready (Ok tt)
  | Ready (Some Full) => Pending
  | Ready (Some Disconnected) => Ready (Err (Errors.simple futures_kind))
  | Pending => Pending
  end.

(** [ChannelTx::send] *)
Definition futures_send {T : Type} (c : mpsc T) (message : T) : Poll (result unit) * mpsc T :=
  match futures_ready c with
  | Pending => (Pending, c)
  | Ready (Err e) => (Ready (Err e), c)
  | Ready (Ok _) =>
    match mpsc_try_send c message with
    | (None, c') => (Ready (Ok tt), c')
    | (Some _, c') => (Ready (Err (Errors.simple futures_kind)), c')
    end
  end.

(** [ChannelRxFut::poll] *)
Definition futures_recv {T : Type} (c : mpsc T) : Poll (result T) * mpsc T :=
  let '(p, c') := mpsc_poll_next c in
  (poll_map (fun opt => match opt with Some x => Ok x | None => Err (Errors.simple futures_kind) end) p, c').

Definition futures_backend : Channel := {|
  chan := mpsc;
  new_bounded := fun T => mpsc_channel;
  ch_send := fun T => futures_send;
  ch_recv := fun T => futures_recv;
  ch_is_terminated := fun T => mpsc_is_terminated
|}.

End futures.

Section flume.
Context `{Mpmc}.

Definition flume_kind : ErrorKind := "CommunicationChannelFlumeMpmc".

Definition flume_send {T : Type} (c : mpmc T) (message : T) : Poll (result unit) * mpmc T :=
  let '(p, c') := mpmc_send c message in
  (poll_map (fun r => match r with Some _ => Ok tt | None => Err (Errors.simple flume_kind) end) p, c').

Definition flume_recv {T : Type} (c : mpmc T) : Poll (result T) * mpmc T :=
  let '(p, c') := mpmc_recv c in
  (poll_map (fun r => match r with Some x => Ok x | None => Err (Errors.simple flume_kind) end) p, c').

Definition flume_backend : Channel := {|
  chan := mpmc;
  new_bounded := fun T => mpmc_bounded;
  ch_send := fun T => flume_send;
  ch_recv := fun T => flume_recv;
  ch_is_terminated := fun T => mpmc_is_terminated
|}.

End flume.

Section async_channel.
Context `{Mpmc}.

Definition async_channel_kind : ErrorKind := "CommunicationChannelAsyncChannelMpmc".

Definition async_channel_send {T : Type} (c : mpmc T) (message : T) : Poll (result unit) * mpmc T :=
  let '(p, c') := mpmc_send c message in
  (poll_map (fun r => match r with Some _ => Ok tt | None => Err (Errors.simple async_channel_kind) end) p, c').

Definition async_channel_recv {T : Type} (c : mpmc T) : Poll (result T) * mpmc T :=
  let '(p, c') := mpmc_recv c in
  (poll_map (fun opt => match opt with Some x => Ok x | None => Err (Errors.simple async_channel_kind) end) p, c').

Definition async_channel_backend : Channel := {|
  chan := mpmc;
  new_bounded := fun T => mpmc_bounded;
  ch_send := fun T => async_channel_send;
  ch_recv := fun T => async_channel_recv;
  ch_is_terminated := fun T => mpmc_is_terminated
|}.

End async_channel.

(** The three back ends keep the promise. *)

#[export] Instance futures_laws `{MpscLaws} : @ChannelLaws futures_backend.
Proof.
  refine (@Build_ChannelLaws futures_backend (fun T => mpsc_items) (fun T => mpsc_closed)
    mpsc_channel_items _ _ mpsc_terminated).
  - intros T c x. cbn. unfold futures_send, futures_ready.
    destruct (mpsc_poll_ready c) as [[[]|]|] eqn:E; try done.
    by destruct (mpsc_send_ready T c x E) as (c' & -> & ->).
  - intros T c. cbn. unfold futures_recv. pose proof (mpsc_next T c) as Hn.
    destruct (mpsc_poll_next c) as [[[x|]|] c']; done.
Defined.

#[export] Instance flume_laws `{MpmcLaws} : @ChannelLaws flume_backend.
Proof.
  refine (@Build_ChannelLaws flume_backend (fun T => mpmc_items) (fun T => mpmc_closed)
    mpmc_bounded_items _ _ mpmc_terminated).
  - intros T c x. cbn. unfold flume_send. pose proof (mpmc_sent T c x) as Hs.
    destruct (mpmc_send c x) as [[[]|] c']; done.
  - intros T c. cbn. unfold flume_recv. pose proof (mpmc_received T c) as Hn.
    destruct (mpmc_recv c) as [[[x|]|] c']; done.
Defined.

#[export] Instance async_channel_laws `{MpmcLaws} : @ChannelLaws async_channel_backend.
Proof.
  refine (@Build_ChannelLaws async_channel_backend (fun T => mpmc_items) (fun T => mpmc_closed)
    mpmc_bounded_items _ _ mpmc_terminated).
  - intros T c x. cbn. unfold async_channel_send. pose proof (mpmc_sent T c x) as Hs.
    destruct (mpmc_send c x) as [[[]|] c']; done.
  - intros T c. cbn. unfold async_channel_recv. pose proof (mpmc_received T c) as Hn.
    destruct (mpmc_recv c) as [[[x|]|] c']; done.
Defined.

(** ** The message channel *)

Section message_channel.
Context {S O P : Type} `{ChannelLaws}.

Record MessageChannel := mkChannel {
  mc_other : chan (Message S O P);
  mc_requests : chan (Header * RequestMessage O);
  mc_replies : chan (Header * ReplyMessage P);
  mc_consensus : chan (Header * ConsensusMessage)
}.
Implicit Type self : MessageChannel.

Definition new_message_channel (bound : nat) : MessageChannel :=
  mkChannel (new_bounded bound) (new_bounded bound) (new_bounded bound) (new_bounded bound).

Definition send_other self (m : Message S O P) : Poll (result unit) * MessageChannel :=
  let '(p, c) := ch_send (mc_other self) m in
  (p, mkChannel c (mc_requests self) (mc_replies self) (mc_consensus self)).

(** [MessageChannelTx::send] *)
Definition mc_send self (message : Message S O P) : Poll (result unit) * MessageChannel :=
  match message with
  | System header m =>
    match m with
    | Request m =>
      let '(p, c) := ch_send (mc_requests self) (header, m) in
      (p, mkChannel (mc_other self) c (mc_replies self) (mc_consensus self))
    | Reply m =>
      let '(p, c) := ch_send (mc_replies self) (header, m) in
      (p, mkChannel (mc_other self) (mc_requests self) c (mc_consensus self))
    | Consensus m =>
      let '(p, c) := ch_send (mc_consensus self) (header, m) in
      (p, mkChannel (mc_other self) (mc_requests self) (mc_replies self) c)
    | Cst _ => send_other self (System header m)
    | ViewChange _ => send_other self (System header m)
    | ForwardedRequests _ => send_other self (System header m)
    end
  | _ => send_other self message
  end.

(** The branches of the [select!] in [MessageChannelRx::recv]. *)
Inductive Branch := BConsensus | BRequests | BReplies | BOther.

#[export] Instance Branch_eq_dec : EqDecision Branch.
Proof. solve_decision. Defined.

Definition branches : list Branch := [BConsensus; BRequests; BReplies; BOther].

Definition result_map {A B : Type} (g : A -> B) (r : result A) : result B :=
  match r with Ok a => Ok (g a) | Err e => Err e end.

(** A branch whose future is terminated is not polled. *)
Definition poll_branch (b : Branch) self : option (Poll (result (Message S O P)) * MessageChannel) :=
  match b with
  | BConsensus =>
    if ch_is_terminated (mc_consensus self) then None
    else let '(p, c) := ch_recv (mc_consensus self) in
         Some (poll_map (result_map (fun '(h, c) => System h (Consensus c))) p,
               mkChannel (mc_other self) (mc_requests self) (mc_replies self) c)
  | BRequests =>
    if ch_is_terminated (mc_requests self) then None
    else let '(p, c) := ch_recv (mc_requests self) in
         Some (poll_map (result_map (fun '(h, r) => System h (Request r))) p,
               mkChannel (mc_other self) c (mc_replies self) (mc_consensus self))
  | BReplies =>
    if ch_is_terminated (mc_replies self) then None
    else let '(p, c) := ch_recv (mc_replies self) in
         Some (poll_map (result_map (fun '(h, r) => System h (Reply r))) p,
               mkChannel (mc_other self) (mc_requests self) c (mc_consensus self))
  | BOther =>
    if ch_is_terminated (mc_other self) then None
    else let '(p, c) := ch_recv (mc_other self) in
         Some (p, mkChannel c (mc_requests self) (mc_replies self) (mc_consensus self))
  end.

(** [select!] polls the branches in an order it chooses at random and takes the
    first that is ready; it panics when all of them are terminated. *)
Fixpoint select (order : list Branch) self (live : bool)
  : outcome (Poll (result (Message S O P)) * MessageChannel) :=
  match order with
  | [] => if live then Done (Pending, self) else Panic
  | b :: order =>
    match poll_branch b self with
    | None => select order self live
    | Some (Ready r, self) => Done (Ready r, self)
    | Some (Pending, self) => select order self true
    end
  end.

(** [MessageChannelRx::recv], polled with the branches in the order [order]. *)
Definition mc_recv (order : list Branch) self
  : outcome (Poll (result (Message S O P)) * MessageChannel) := select order self false.

(** ** Specification: four queues *)

Definition class_of (m : Message S O P) : Branch :=
  match m with
  | System _ (Request _) => BRequests
  | System _ (Reply _) => BReplies
  | System _ (Consensus _) => BConsensus
  | _ => BOther
  end.

(** The messages waiting in the queue of a branch. *)
Definition queued (b : Branch) self : list (Message S O P) :=
  match b with
  | BConsensus => map (fun '(h, c) => System h (Consensus c)) (ch_items (mc_consensus self))
  | BRequests => map (fun '(h, r) => System h (Request r)) (ch_items (mc_requests self))
  | BReplies => map (fun '(h, r) => System h (Reply r)) (ch_items (mc_replies self))
  | BOther => ch_items (mc_other self)
  end.

Definition branch_closed (b : Branch) self : Prop :=
  match b with
  | BConsensus => ch_closed (mc_consensus self)
  | BRequests => ch_closed (mc_requests self)
  | BReplies => ch_closed (mc_replies self)
  | BOther => ch_closed (mc_other self)
  end.

Lemma mc_send_queued self m p self' : mc_send self m = (p, self') -> forall b,
  queued b self' = queued b self ++
    match p with Ready (Ok _) => if decide (class_of m = b) then [m] else [] | _ => [] end.
Proof.
  assert (Hother : forall m, class_of m = BOther -> send_other self m = (p, self') -> forall b,
    queued b self' = queued b self ++
      match p with Ready (Ok _) => if decide (class_of m = b) then [m] else [] | _ => [] end).
  { clear m. intros m Hm. unfold send_other. pose proof (ch_send_items _ (mc_other self) m) as Hs.
    destruct (ch_send _ _) as [p0 c]. intros [= -> <-] b. rewrite Hm.
    destruct b; cbn [queued mc_other mc_requests mc_replies mc_consensus];
      destruct p as [[]|]; cbn; rewrite ?app_nil_r; try done. }
  unfold mc_send. destruct m as [h m| | | | | | |]; try by apply Hother.
  destruct m as [m|m|m|m|m|m]; try by apply Hother.
  - pose proof (ch_send_items _ (mc_requests self) (h, m)) as Hs.
    destruct (ch_send _ _) as [p0 c]. intros [= -> <-] b.
    destruct b, p as [[]|]; cbn; rewrite ?Hs, ?map_app, ?app_nil_r; done.
  - pose proof (ch_send_items _ (mc_replies self) (h, m)) as Hs.
    destruct (ch_send _ _) as [p0 c]. intros [= -> <-] b.
    destruct b, p as [[]|]; cbn; rewrite ?Hs, ?map_app, ?app_nil_r; done.
  - pose proof (ch_send_items _ (mc_consensus self) (h, m)) as Hs.
    destruct (ch_send _ _) as [p0 c]. intros [= -> <-] b.
    destruct b, p as [[]|]; cbn; rewrite ?Hs, ?map_app, ?app_nil_r; done.
Qed.

(** What is left of the queues when branch [b] answered [p]. *)
Definition taken (b : Branch) (p : Poll (result (Message S O P))) self self' : Prop :=
  (forall b', b' <> b -> queued b' self' = queued b' self /\ branch_closed b' self' = branch_closed b' self) /\
  match p with
  | Ready (Ok m) => queued b self = m :: queued b self'
  | Ready (Err _) => queued b self = [] /\ queued b self' = [] /\ branch_closed b self
  | Pending => queued b self = [] /\ queued b self' = []
  end.

Lemma poll_branch_taken b self :
  match poll_branch b self with
  | Some (p, self') => taken b p self self'
  | None => queued b self = [] /\ branch_closed b self
  end.
Proof.
  unfold poll_branch. destruct b;
    match goal with |- context [ch_is_terminated ?c] =>
      pose proof (ch_terminated_items _ c) as Ht; pose proof (ch_recv_items _ c) as Hr;
      destruct (ch_is_terminated c); [by destruct (Ht eq_refl) as [E ?]; cbn; rewrite E|];
      destruct (ch_recv c) as [p c'] end;
    (split; [by intros []|]); destruct p as [[x|e]|]; cbn; try (destruct x); cbn in Hr;
    try (destruct Hr as (-> & -> & ?)); try (destruct Hr as (-> & ->)); try rewrite Hr; done.
Qed.

(** What [select!] does to the queues. *)
Lemma select_taken order : NoDup order -> forall self live,
  match select order self live with
  | Done (Ready (Ok m), self') => exists b, b ∈ order /\ queued b self = m :: queued b self' /\
      forall b', b' <> b -> queued b' self' = queued b' self
  | Done (Ready (Err _), self') => (forall b, queued b self' = queued b self) /\
      exists b, b ∈ order /\ branch_closed b self
  | Done (Pending, self') => (forall b, queued b self' = queued b self) /\
      forall b, b ∈ order -> queued b self = []
  | Panic => live = false /\ forall b, b ∈ order -> queued b self = [] /\ branch_closed b self
  end.
Proof.
  induction order as [|b order IH]; intros Hn self live; cbn [select].
  { destruct live; [split; [done|set_solver]|split; [done|set_solver]]. }
  apply NoDup_cons in Hn as [Hb Hn]. pose proof (poll_branch_taken b self) as Ht.
  assert (Hall : forall self1, (forall b', queued b' self1 = queued b' self) -> forall b', b' ∈ order ->
    queued b' self1 = [] -> queued b' self = []) by (intros s1 E b' _; by rewrite E).
  destruct (poll_branch b self) as [[[[m|e]|] self1]|].
  - destruct Ht as [Ho Ht]. exists b. split; [set_solver|]. split; [done|]. intros b' Hb'. by apply Ho.
  - destruct Ht as [Ho (E1 & E2 & Hc)]. split.
    + intros b'. destruct (decide (b' = b)) as [->|Hne]; [by rewrite E1, E2|by apply Ho].
    + exists b. split; [set_solver|done].
  - destruct Ht as [Ho (E1 & E2)].
    assert (Hq : forall b', queued b' self1 = queued b' self).
    { intros b'. destruct (decide (b' = b)) as [->|Hne]; [by rewrite E1, E2|by apply Ho]. }
    specialize (IH Hn self1 true). destruct (select order self1 true) as [[[[m|e]|] self']|].
    + destruct IH as (b' & A & B & C). exists b'. rewrite <- Hq. split_and!; [set_solver|done|].
      intros b0 Hb0. by rewrite C, Hq.
    + destruct IH as (A & b' & B & C). split; [intros b0; by rewrite A, Hq|]. exists b'.
      split; [set_solver|]. assert (b' <> b) by (intros ->; done). destruct (Ho b') as [_ <-]; done.
    + destruct IH as (A & B). split; [intros b0; by rewrite A, Hq|].
      intros b0 [->|Hin]%elem_of_cons; [done|]. by rewrite <- Hq, B.
    + by destruct IH as [? _].
  - destruct Ht as [E1 Hc]. specialize (IH Hn self live). destruct (select order self live) as [[[[m|e]|] self']|].
    + destruct IH as (b' & A & B & C). exists b'. split_and!; [set_solver|done|done].
    + destruct IH as (A & b' & B & C). split; [done|]. exists b'. split; [set_solver|done].
    + destruct IH as (A & B). split; [done|]. intros b0 [->|Hin]%elem_of_cons; [done|auto].
    + destruct IH as [A B]. split; [done|]. intros b0 [->|Hin]%elem_of_cons; [done|auto].
Qed.

(** ** Histories *)

Inductive ChEvent :=
| EvSend (m : Message S O P)
| EvRecv (order : list Branch).

(** The messages sent with success and those received, in order. *)
Record History := mkHistory {
  hi_channel : MessageChannel;
  hi_sent : list (Message S O P);
  hi_got : list (Message S O P)
}.

Definition mc_event (hi : History) (e : ChEvent) : outcome History :=
  match e with
  | EvSend m =>
    let '(p, c) := mc_send (hi_channel hi) m in
    Done (mkHistory c (hi_sent hi ++ match p with Ready (Ok _) => [m] | _ => [] end) (hi_got hi))
  | EvRecv order =>
    let! '(p, c) := mc_recv order (hi_channel hi) in
    Done (mkHistory c (hi_sent hi) (hi_got hi ++ match p with Ready (Ok m) => [m] | _ => [] end))
  end.

Fixpoint mc_run (hi : History) (es : list ChEvent) : outcome History :=
  match es with
  | [] => Done hi
  | e :: es => let! hi := mc_event hi e in mc_run hi es
  end.

Definition order_ok (e : ChEvent) : Prop :=
  match e with EvRecv order => order ≡ₚ branches | _ => True end.

Definition of_class (b : Branch) (ms : list (Message S O P)) : list (Message S O P) :=
  List.filter (fun m => bool_decide (class_of m = b)) ms.

Definition fifo (hi : History) : Prop :=
  forall b, of_class b (hi_sent hi) = of_class b (hi_got hi) ++ queued b (hi_channel hi).

Lemma order_nodup order : order ≡ₚ branches -> NoDup order.
Proof. intros ->. repeat (apply NoDup_cons; split; [set_solver|]). apply NoDup_nil_2. Qed.

Lemma fifo_class hi b m rest : fifo hi -> queued b (hi_channel hi) = m :: rest -> class_of m = b.
Proof.
  intros Hf Hq. specialize (Hf b). rewrite Hq in Hf.
  assert (Hin : In m (of_class b (hi_sent hi))) by (rewrite Hf; apply in_app_iff; right; by left).
  apply filter_In in Hin as [_ Hin]. by apply bool_decide_eq_true in Hin.
Qed.

Lemma mc_event_fifo hi e hi' : order_ok e -> fifo hi -> mc_event hi e = Done hi' -> fifo hi'.
Proof.
  intros Ho Hf. destruct e as [m|order]; cbn.
  - destruct (mc_send _ _) as [p c] eqn:E. intros [= <-] b.
    cbn [hi_sent hi_got hi_channel]. rewrite (mc_send_queued _ _ _ _ E). unfold of_class.
    rewrite List.filter_app, app_assoc. fold (of_class b (hi_sent hi)). rewrite (Hf b). f_equal.
    destruct p as [[]|]; [cbn; case_bool_decide; by case_decide|done|done].
  - pose proof (select_taken order (order_nodup _ Ho) (hi_channel hi) false) as Ht. unfold mc_recv.
    destruct (select order (hi_channel hi) false) as [[p c]|]; [|discriminate]. cbn [obind].
    intros [= <-] b. cbn [hi_sent hi_got hi_channel].
    destruct p as [[m|e]|]; [|rewrite app_nil_r; destruct Ht as [-> _]; apply Hf..].
    destruct Ht as (b0 & _ & Hq & Hr). pose proof (fifo_class _ _ _ _ Hf Hq) as Hm.
    unfold of_class. rewrite List.filter_app. cbn. fold (of_class b (hi_got hi)).
    destruct (decide (b = b0)) as [->|Hne].
    + rewrite bool_decide_eq_true_2 by done. rewrite <- app_assoc. cbn. rewrite <- Hq. apply Hf.
    + rewrite bool_decide_eq_false_2 by congruence. rewrite app_nil_r, Hr by done. apply Hf.
Qed.

Lemma mc_run_fifo es : forall hi hi', Forall order_ok es -> fifo hi -> mc_run hi es = Done hi' -> fifo hi'.
Proof.
  induction es as [|e es IH]; intros hi hi' Ho Hf; cbn [mc_run]; [by intros [= <-]|].
  apply Forall_cons in Ho as [Ho1 Ho]. returned_as hi1 eqn:E. intros Hr.
  eapply IH; [done| |exact Hr]. by eapply mc_event_fifo.
Qed.

(** C27: the message channel loses, repeats and reorders nothing within a class
    of messages. After any interleaving of sends and receives on a new channel,
    whichever branches [select!] prefers, the requests sent with success are
    those received, in the same order, followed by those still queued; the same
    holds of the replies, of the consensus messages and of all others. *)
Theorem message_channel_fifo bound es hi : Forall order_ok es ->
  mc_run (mkHistory (new_message_channel bound) [] []) es = Done hi ->
  forall b, of_class b (hi_sent hi) = of_class b (hi_got hi) ++ queued b (hi_channel hi).
Proof.
  intros Ho Hr. eapply mc_run_fifo; [exact Ho| |exact Hr]. intros b.
  destruct b; cbn; rewrite ch_new_items; done.
Qed.

(** A receiver does not wait while something is queued: as long as no sender is
    gone, a poll of [recv] returns a message, the first of its class. *)
Theorem queued_message_received order self b : order ≡ₚ branches ->
  queued b self <> [] -> (forall b', ~ branch_closed b' self) ->
  exists m self' b', mc_recv order self = Done (Ready (Ok m), self') /\
    queued b' self = m :: queued b' self'.
Proof.
  intros Ho Hq Hc. pose proof (select_taken order (order_nodup _ Ho) self false) as Ht. unfold mc_recv.
  assert (Hb : b ∈ order) by (rewrite Ho; destruct b; set_solver).
  destruct (select order self false) as [[[[m|e]|] self']|].
  - destruct Ht as (b0 & _ & Hx & _). eauto.
  - destruct Ht as (_ & b0 & _ & Hx). by apply Hc in Hx.
  - destruct Ht as [_ Hx]. by apply Hx in Hb.
  - destruct Ht as [_ Hx]. by apply Hx in Hb as [? _].
Qed.

End message_channel.

(** ** Witness: a bounded queue *)

Record ListChan (T : Type) := mkListChan { lc_bound : nat; lc_items : list T; lc_open : bool }.
Arguments mkListChan {T} lc_bound lc_items lc_open.
Arguments lc_bound {T} l.
Arguments lc_items {T} l.
Arguments lc_open {T} l.

Definition list_mpsc : Mpsc := {|
  mpsc := ListChan;
  mpsc_channel := fun T bound => mkListChan bound [] true;
  mpsc_poll_ready := fun T c =>
    if lc_open c then if decide (length (lc_items c) < lc_bound c) then Ready None else Pending
    else Ready (Some Disconnected);
  mpsc_try_send := fun T c x =>
    if lc_open c then
      if decide (length (lc_items c) < lc_bound c)
      then (None, mkListChan (lc_bound c) (lc_items c ++ [x]) true) else (Some Full, c)
    else (Some Disconnected, c);
  mpsc_poll_next := fun T c =>
    match lc_items c with
    | x :: l => (Ready (Some x), mkListChan (lc_bound c) l (lc_open c))
    | [] => if lc_open c then (Pending, c) else (Ready None, c)
    end;
  mpsc_is_terminated := fun T c => negb (lc_open c) && bool_decide (length (lc_items c) = 0)
|}.

#[local] Existing Instance list_mpsc.

#[local] Instance list_mpsc_laws : MpscLaws.
Proof.
  refine (@Build_MpscLaws list_mpsc (fun T => lc_items) (fun T c => lc_open c = false) _ _ _ _);
    unfold list_mpsc; cbn.
  - done.
  - intros T c x. destruct (lc_open c); [|discriminate]. case_decide; [|discriminate]. eauto.
  - intros T c. destruct (lc_items c) eqn:E; [|done]. by destruct (lc_open c).
  - intros T c. destruct (lc_open c); [discriminate|]. cbn. rewrite bool_decide_eq_true.
    split; [|done]. by apply length_zero_iff_nil.
Defined.

#[local] Existing Instance futures_backend.

Definition w_ch_header : Header := mkHeader 0 0 1 0 0 0 [] [].
Definition w_ch_request (o : Z) : Message Z Z Z := System w_ch_header (Request (mkRequest o)).
Definition w_ch_timeout : Message Z Z Z := Timeout (TimeoutCst (Ordering.mkSeqNo 0)).

(** Two requests and a timeout; the timeout overtakes the second request. *)
Definition w_history : outcome (History (S := Z) (O := Z) (P := Z)) :=
  mc_run (mkHistory (new_message_channel 2) [] [])
    [EvRecv branches; EvSend (w_ch_request 1); EvSend (w_ch_request 2); EvSend (w_ch_request 3);
     EvSend w_ch_timeout; EvRecv [BRequests; BOther; BReplies; BConsensus];
     EvRecv [BReplies; BOther; BConsensus; BRequests]].

(** The third request finds the channel full; the classes are independent. *)
Lemma message_channel_fifo_witness : exists hi, w_history = Done hi /\
  hi_sent hi = [w_ch_request 1; w_ch_request 2; w_ch_timeout] /\
  hi_got hi = [w_ch_request 1; w_ch_timeout] /\
  of_class BRequests (hi_sent hi) = of_class BRequests (hi_got hi) ++ queued BRequests (hi_channel hi).
Proof.
  unfold w_history.
  destruct (mc_run _ _) as [hi|] eqn:E; [|vm_compute in E; discriminate].
  pose proof E as E'. vm_compute in E'. injection E' as <-.
  eexists. split; [reflexivity|]. split; [reflexivity|]. split; [reflexivity|].
  refine (message_channel_fifo 2 _ _ _ E BRequests).
  repeat apply Forall_cons_2; try exact I; try (by apply Forall_nil_2); cbn [order_ok];
    refine (bool_decide_unpack _ _); vm_compute; exact I.
Defined.

Lemma queued_message_received_witness : exists m self' b',
  mc_recv [BOther; BReplies; BRequests; BConsensus]
    (mc_send (new_message_channel 1) (w_ch_request 1)).2 = Done (Ready (Ok m), self') /\
  queued b' (mc_send (new_message_channel 1) (w_ch_request 1)).2 = m :: queued b' self'.
Proof.
  apply (queued_message_received _ _ BRequests).
  - refine (bool_decide_unpack _ _). vm_compute. exact I.
  - discriminate.
  - intros []; discriminate.
Defined.
