(* ===== verification/Node.v ===== *)
(** * Sending messages ([src/bft/communication/mod.rs], [serialize/mod.rs])

    The part of a [Node] that the protocols use: its id, its keys, its nonce
    generator, the connections it may write to, and [send]/[broadcast]. A
    [send] or [broadcast] serializes the message, draws a nonce and spawns a
    task that writes to the peers' sockets and to the node's own channel; the
    tasks spawned so far are recorded in [outbox], and [run_task] is the body
    of a task. A connection is an element of the set in [peer_tx]; how
    connections come about is in [Connect]. *)

From S2P Require Import Prelude Error Ordering Crypto Params Message Prng.
Local Open Scope Z_scope.
Local Open Scope bft_scope.

(** The trait [SharedData]: the application's serialization routines. *)
Class SharedData (S O P : Type) := {
  serialize_message : SystemMessage S O P -> result (list Z);
  deserialize_message : list Z -> result (SystemMessage S O P)
}.

(** [DigestData::serialize_digest]: the digest and the serialized bytes. *)
Definition serialize_digest `{HashFn} {S O P} `{SharedData S O P} (m : SystemMessage S O P)
  : result (Digest * list Z) :=
  match serialize_message m with
  | Ok w =>
    let ctx := context_new in
    let ctx := context_update ctx w in
    Ok (context_finish ctx, w)
  | Err e => Err e
  end.

Inductive PeerTx :=
| Client (conns : gset NodeId)
| Server (conns : gset NodeId).

Definition peer_conns (p : PeerTx) : gset NodeId :=
  match p with Client c => c | Server c => c end.

Inductive SendTo :=
| Me (my_id : NodeId)
| Peers (my_id peer_id : NodeId).

(** A task spawned by [send] or [broadcast], with what it captured. *)
Record SendTask (S O P : Type) := mkTask {
  t_message : SystemMessage S O P;
  t_mine : option SendTo;
  t_others : list SendTo;
  t_nonce : Z;
  t_digest : Digest;
  t_buf : list Z
}.
Arguments mkTask {S O P} t_message t_mine t_others t_nonce t_digest t_buf.
Arguments t_message {S O P} s.
Arguments t_mine {S O P} s.
Arguments t_others {S O P} s.
Arguments t_nonce {S O P} s.
Arguments t_digest {S O P} s.
Arguments t_buf {S O P} s.

Record Node (S O P : Type) `{SigScheme} := mkNode {
  node_id : NodeId;
  first_cli : NodeId;
  rng : Prng.State;
  my_key : KeyPair;
  peer_keys : gmap NodeId PublicKey;
  peer_addrs : gmap NodeId (string * string);
  peer_tx : PeerTx;
  outbox : list (SendTask S O P)
}.
Arguments mkNode {S O P H} node_id first_cli rng my_key peer_keys peer_addrs peer_tx outbox.
Arguments node_id {S O P H} n.
Arguments first_cli {S O P H} n.
Arguments rng {S O P H} n.
Arguments my_key {S O P H} n.
Arguments peer_keys {S O P H} n.
Arguments peer_addrs {S O P H} n.
Arguments peer_tx {S O P H} n.
Arguments outbox {S O P H} n.

Section node.
Context {S O P : Type} `{HashFn, SigScheme, !SharedData S O P}.

Implicit Type self : Node S O P.

Definition get_public_key self (id : NodeId) : option PublicKey := peer_keys self !! id.

(** The state after drawing a nonce and spawning a task. *)
Definition node_spawn self (rng' : Prng.State) (task : SendTask S O P) : Node S O P :=
  mkNode (node_id self) (first_cli self) rng' (my_key self) (peer_keys self) (peer_addrs self) (peer_tx self)
    (outbox self ++ [task]).

(** [map[&id]] panics when there is no connection to [id]. *)
Definition send_to (my_id peer_id : NodeId) (peer_tx : PeerTx) : outcome SendTo :=
  if decide (my_id = peer_id) then Done (Me my_id)
  else if decide (peer_id ∈ peer_conns peer_tx) then Done (Peers my_id peer_id)
  else Panic.

Fixpoint create_send_tos (my_id : NodeId) (map : gset NodeId) (targets : list NodeId)
  (mine : option SendTo) (others : list SendTo) : outcome (option SendTo * list SendTo) :=
  match targets with
  | [] => Done (mine, others)
  | id :: targets =>
    if decide (id = my_id) then create_send_tos my_id map targets (Some (Me my_id)) others
    else if decide (id ∈ map)
    then create_send_tos my_id map targets mine (others ++ [Peers my_id id])
    else Panic
  end.

Definition send_tos (my_id : NodeId) (peer_tx : PeerTx) (targets : list NodeId)
  : outcome (option SendTo * list SendTo) :=
  match peer_tx with
  | Client map => create_send_tos my_id map targets None []
  | Server map => create_send_tos my_id map targets None []
  end.

(** [Node::send]: the digest returned is that of the message with the nonce. *)
Definition send self (message : SystemMessage S O P) (target : NodeId)
  : outcome (Node S O P * Digest) :=
  let! st := send_to (node_id self) target (peer_tx self) in
  let my_id := node_id self in
  let '(nonce, rng') := next_state (rng self) in
  match serialize_digest message with
  | Err _ => Panic
  | Ok (digest, buf) =>
    let task := if decide (my_id = target)
                then mkTask message (Some st) [] nonce digest buf
                else mkTask message None [st] nonce digest buf in
    Done (node_spawn self rng' task, entropy digest (to_le_bytes 8 nonce))
  end.

Definition broadcast self (message : SystemMessage S O P) (targets : list NodeId)
  : outcome (Node S O P * Digest) :=
  let! '(mine, others) := send_tos (node_id self) (peer_tx self) targets in
  let '(nonce, rng') := next_state (rng self) in
  match serialize_digest message with
  | Err _ => Panic
  | Ok (digest, buf) =>
    Done (node_spawn self rng' (mkTask message mine others nonce digest buf),
          entropy digest (to_le_bytes 8 nonce))
  end.

(** What a spawned task delivers: a message into the node's own channel, and
    bytes on the sockets of the peers. *)
Inductive Delivery :=
| ToMe (h : Header) (m : SystemMessage S O P)
| ToPeer (peer : NodeId) (bytes : list Z).

(** [SendTo::me] and [SendTo::peers]. *)
Definition deliver (sk : KeyPair) (task : SendTask S O P) (st : SendTo) : Delivery :=
  match st with
  | Me my_id =>
    ToMe (wm_header (wire_new my_id my_id (t_buf task) (t_nonce task) (Some (t_digest task)) (Some sk)))
      (t_message task)
  | Peers my_id peer_id =>
    ToPeer peer_id
      (write_to (wire_new my_id peer_id (t_buf task) (t_nonce task) (Some (t_digest task)) (Some sk)))
  end.

(** What a spawned task hands to a destination: [Left] for a peer, [Right],
    with the message itself, for the node's own channel. *)
Inductive SendValue :=
| Left (n : Z) (d : Digest) (b : list Z)
| Right (m : SystemMessage S O P) (n : Z) (d : Digest) (b : list Z).

(** [SendTo::value]; the other two combinations are [unreachable!()]. *)
Definition send_value (sk : KeyPair) (st : SendTo) (v : SendValue) : outcome Delivery :=
  match st, v with
  | Me my_id, Right m n d b => Done (ToMe (wm_header (wire_new my_id my_id b n (Some d) (Some sk))) m)
  | Peers my_id peer_id, Left n d b =>
    Done (ToPeer peer_id (write_to (wire_new my_id peer_id b n (Some d) (Some sk))))
  | _, _ => Panic
  end.

(** What is announced on the node's channel when writing to the peer failed. *)
Definition write_failed (st : SendTo) : option (Message S O P) :=
  match st with
  | Me _ => None
  | Peers _ peer_id => Some (DisconnectedTx peer_id)
  end.

Definition run_task (sk : KeyPair) (task : SendTask S O P) : list Delivery :=
  match t_mine task with
  | Some st => [deliver sk task st]
  | None => []
  end ++ map (deliver sk task) (t_others task).

(** [handle_connected_tx] *)
Definition handle_connected_tx self (peer_id : NodeId) : Node S O P :=
  mkNode (node_id self) (first_cli self) (rng self) (my_key self) (peer_keys self) (peer_addrs self)
    (match peer_tx self with
     | Server conns => Server ({[peer_id]} ∪ conns)
     | Client conns => Client ({[peer_id]} ∪ conns)
     end) (outbox self).

(** [handle_connected_rx] before it spawns the receiving task ([rx_task]
    below): a server that is not yet connected to the client whose connection it
    accepted looks up its address, which panics when the configuration has none,
    draws a nonce and connects back to it. *)
Definition handle_connected_rx self (peer_id : NodeId) : outcome (Node S O P) :=
  match peer_tx self with
  | Server conns =>
    if node_ge peer_id (first_cli self) && negb (bool_decide (peer_id ∈ conns))
    then match peer_addrs self !! peer_id with
         | None => Panic
         | Some _ =>
           Done (mkNode (node_id self) (first_cli self) (next_state (rng self)).2 (my_key self)
                   (peer_keys self) (peer_addrs self) (peer_tx self) (outbox self))
         end
    else Done self
  | Client _ => Done self
  end.

Lemma handle_connected_rx_outbox self peer_id self' : handle_connected_rx self peer_id = Done self' ->
  node_id self' = node_id self /\ outbox self' = outbox self.
Proof.
  unfold handle_connected_rx. destruct (peer_tx self); [by intros [= <-]|]. destruct (_ && _); [|by intros [= <-]].
  destruct (peer_addrs self !! peer_id); [by intros [= <-]|discriminate].
Qed.

(** ** Receiving *)

(** One iteration of the task spawned by [handle_connected_rx]: the bytes that
    have arrived on the socket give a message and the bytes that follow it, or
    end the connection. [read_exact] fails when too few bytes arrive; the header
    is then complete, so that its deserialization does not fail. *)
Definition rx_read (sock : list Z) : option (Message S O P * list Z) :=
  if decide (length sock < Header_LENGTH)%nat then None
  else
    match deserialize_from (take Header_LENGTH sock) with
    | Err _ => None
    | Ok header =>
      let rest := drop Header_LENGTH sock in
      let len := Z.to_nat (payload_length header) in
      if decide (length rest < len)%nat then None
      else match deserialize_message (take len rest) with
           | Ok message => Some (System header message, drop len rest)
           | Err _ => None
           end
    end.

(** The messages the task sends to the node's channel, in order; the last one
    announces the disconnection. Every iteration consumes a header, so the
    number of bytes is fuel enough. *)
Fixpoint rx_loop (fuel : nat) (peer_id : NodeId) (sock : list Z) : list (Message S O P) :=
  match fuel with
  | 0%nat => [DisconnectedRx (Some peer_id)]
  | Datatypes.S fuel =>
    match rx_read sock with
    | Some (m, sock) => m :: rx_loop fuel peer_id sock
    | None => [DisconnectedRx (Some peer_id)]
    end
  end.

Definition rx_task (peer_id : NodeId) (sock : list Z) : list (Message S O P) :=
  rx_loop (length sock) peer_id sock.

Lemma rx_read_shorter sock m sock' : rx_read sock = Some (m, sock') ->
  (length sock' < length sock)%nat.
Proof.
  unfold rx_read. case_decide as Hl; [discriminate|].
  destruct (deserialize_from _); [|discriminate]. case_decide; [discriminate|].
  destruct (deserialize_message _); [|discriminate]. intros [= _ <-].
  rewrite !length_drop. unfold Header_LENGTH in *. lia.
Qed.

(** More fuel than there are bytes changes nothing. *)
Lemma rx_loop_fuel fuel : forall peer sock, (length sock <= fuel)%nat ->
  rx_loop fuel peer sock = rx_task peer sock.
Proof.
  unfold rx_task.
  assert (Hgen : forall f1 f2 peer sock, (length sock <= f1)%nat -> (length sock <= f2)%nat ->
    rx_loop f1 peer sock = rx_loop f2 peer sock).
  { induction f1 as [|f1 IH]; intros [|f2] peer sock H1' H2'; cbn [rx_loop]; try done.
    - assert (rx_read sock = None) as ->; [|done]. unfold rx_read. rewrite decide_True; [done|].
      unfold Header_LENGTH. lia.
    - assert (rx_read sock = None) as ->; [|done]. unfold rx_read. rewrite decide_True; [done|].
      unfold Header_LENGTH. lia.
    - destruct (rx_read sock) as [[m sock']|] eqn:E; [|done]. f_equal.
      apply rx_read_shorter in E. apply IH; lia. }
  intros peer sock Hl. by apply Hgen.
Qed.

Lemma rx_loop_step peer sock : rx_task peer sock =
  match rx_read sock with
  | Some (m, sock') => m :: rx_task peer sock'
  | None => [DisconnectedRx (Some peer)]
  end.
Proof.
  unfold rx_task at 1. destruct (length sock) as [|k] eqn:El; cbn [rx_loop].
  - assert (rx_read sock = None) as ->; [|done]. unfold rx_read. rewrite decide_True; [done|].
    unfold Header_LENGTH. lia.
  - destruct (rx_read sock) as [[m sock']|] eqn:E; [|done]. f_equal.
    apply rx_read_shorter in E. apply rx_loop_fuel. lia.
Qed.

Lemma rx_read_written h payload m rest : header_ok h -> h_length h = Z.of_nat (length payload) ->
  deserialize_message payload = Ok m ->
  rx_read (write_to (mkWire h payload) ++ rest) = Some (System h m, rest).
Proof.
  intros Hh Hlen Hd.
  assert (Ew : write_to (mkWire h payload) = serialize_into_unchecked h [] ++ payload).
  { unfold write_to, serialize_into. cbn [wm_header wm_payload].
    rewrite decide_False by (rewrite length_replicate; lia).
    reflexivity. }
  pose proof (length_serialized h Hh) as HL. unfold rx_read.
  rewrite Ew, <- !app_assoc. rewrite decide_False by (rewrite length_app, HL; lia).
  rewrite take_app_length', drop_app_length' by done.
  unfold deserialize_from. rewrite decide_False by (rewrite HL; lia).
  rewrite deserialize_serialize by done. unfold payload_length. rewrite Hlen, Nat2Z.id.
  rewrite decide_False by (rewrite length_app; lia).
  by rewrite take_app_length, drop_app_length, Hd.
Qed.

(** ** When sending does not panic *)

Definition connected self (targets : list NodeId) : Prop :=
  forall i, i ∈ targets -> i <> node_id self -> i ∈ peer_conns (peer_tx self).

Definition serializable (m : SystemMessage S O P) : Prop :=
  exists d_buf, serialize_digest m = Ok d_buf.

Lemma create_send_tos_done my_id conns targets : forall mine others,
  (forall i, i ∈ targets -> i <> my_id -> i ∈ conns) ->
  create_send_tos my_id conns targets mine others =
  Done (if decide (my_id ∈ targets) then Some (Me my_id) else mine,
        others ++ map (Peers my_id) (filter (fun i => i <> my_id) targets)).
Proof.
  induction targets as [|t ts IH]; intros mine others Hc.
  - simpl. by rewrite app_nil_r.
  - cbn [create_send_tos]. rewrite filter_cons. destruct (decide (t = my_id)) as [->|Hne].
    + rewrite IH by set_solver. rewrite (decide_False (P := my_id <> my_id)) by congruence.
      rewrite (decide_True (P := my_id ∈ my_id :: ts)) by set_solver.
      by destruct (decide (my_id ∈ ts)).
    + rewrite decide_True by (apply Hc; set_solver).
      rewrite IH by set_solver. rewrite (decide_True (P := t <> my_id)) by done.
      rewrite <- app_assoc. f_equal. f_equal.
      apply decide_ext. set_solver.
Qed.

(** A [broadcast] to connected peers records one task, for exactly those
    targets, and changes nothing else but the nonce generator. *)
Lemma broadcast_done self m targets : connected self targets -> serializable m ->
  exists task d, broadcast self m targets =
      Done (node_spawn self (next_state (rng self)).2 task, d) /\
    t_message task = m /\
    t_mine task = (if decide (node_id self ∈ targets) then Some (Me (node_id self)) else None) /\
    t_others task = map (Peers (node_id self)) (filter (fun i => i <> node_id self) targets).
Proof.
  intros Hc [[d buf] Hs]. unfold broadcast, send_tos.
  assert (E : forall p, p = peer_tx self ->
    match p with
    | Client map => create_send_tos (node_id self) map targets None []
    | Server map => create_send_tos (node_id self) map targets None []
    end = Done (if decide (node_id self ∈ targets) then Some (Me (node_id self)) else None,
          map (Peers (node_id self)) (filter (fun i => i <> node_id self) targets))).
  { intros p ->. unfold connected, peer_conns in Hc.
    destruct (peer_tx self); by rewrite create_send_tos_done. }
  rewrite (E _ eq_refl). cbn [obind]. destruct (next_state (rng self)) as [nonce rng'].
  rewrite Hs. eexists _, _. split; [reflexivity|]. done.
Qed.

Lemma broadcast_inv self m targets node' d : broadcast self m targets = Done (node', d) ->
  exists task, node' = node_spawn self (next_state (rng self)).2 task /\ t_message task = m.
Proof.
  unfold broadcast. returned_as [mine others]. destruct (next_state (rng self)) as [nonce rng'].
  destruct (serialize_digest m) as [[dg buf]|]; [|discriminate].
  intros [= <- <-]. eexists. split; [reflexivity|done].
Qed.

Lemma send_inv self m target node' d : send self m target = Done (node', d) ->
  exists task, node' = node_spawn self (next_state (rng self)).2 task /\ t_message task = m.
Proof.
  unfold send. returned_as st. destruct (next_state (rng self)) as [nonce rng'].
  destruct (serialize_digest m) as [[dg buf]|]; [|discriminate].
  intros [= <- <-]. eexists. split; [reflexivity|]. by case_decide.
Qed.

(** ** Properties *)

(** C30: what a task writes to a peer's socket is read back there: for a batch
    of messages written one after the other, the receiving task delivers each
    of them with the header it was sent with, in order, and then announces the
    end of the connection. *)
Theorem rx_reads_what_was_written peer (ws : list (Header * list Z * SystemMessage S O P)) :
  (forall h payload m, (h, payload, m) ∈ ws -> header_ok h /\
     h_length h = Z.of_nat (length payload) /\ deserialize_message payload = Ok m) ->
  rx_task peer (concat (map (fun w => write_to (mkWire w.1.1 w.1.2)) ws)) =
  map (fun w => System w.1.1 w.2) ws ++ [DisconnectedRx (Some peer)].
Proof.
  induction ws as [|[[h payload] m] ws IH]; intros Hws; rewrite rx_loop_step; [done|].
  cbn [map concat fst snd app]. destruct (Hws h payload m) as (Hh & Hl & Hd); [set_solver|].
  rewrite (rx_read_written _ _ m) by done. f_equal. apply IH. intros h' p' m' Hin. apply Hws. set_solver.
Qed.

(** The receiving side checks nothing but the length and the encoding: any
    header, whatever its sender, digest and signature, in front of any
    well-formed payload is delivered to the protocols. *)
Theorem rx_accepts_any_header peer h payload m : header_ok h ->
  h_length h = Z.of_nat (length payload) -> deserialize_message payload = Ok m ->
  System h m ∈ rx_task peer (write_to (mkWire h payload)).
Proof.
  intros Hh Hl Hd. rewrite rx_loop_step, <- (app_nil_r (write_to _)).
  rewrite (rx_read_written h payload m []) by done. set_solver.
Qed.

(** A [broadcast] to connected peers does not panic, and hands the message
    to every target exactly once: into the node's own channel for itself, to
    the socket of each other target, in the order of the targets. *)
Theorem broadcast_reaches_targets self m targets : connected self targets -> serializable m ->
  exists node' d task, broadcast self m targets = Done (node', d) /\
    outbox node' = outbox self ++ [task] /\ peer_tx node' = peer_tx self /\
    run_task (my_key self) task =
      (if decide (node_id self ∈ targets)
       then [deliver (my_key self) task (Me (node_id self))] else []) ++
      map (fun i => deliver (my_key self) task (Peers (node_id self) i))
        (filter (fun i => i <> node_id self) targets) /\
    t_message task = m.
Proof.
  intros Hc Hs. destruct (broadcast_done self m targets Hc Hs) as (task & d & Hb & Hm & Hmine & Hoth).
  eexists _, d, task. split; [exact Hb|]. split_and!; try done.
  unfold run_task. rewrite Hmine, Hoth, map_map. by case_decide.
Qed.

(** *** The values handed to the destinations of a task *)

Definition is_me (st : SendTo) : bool := match st with Me _ => true | Peers _ _ => false end.

Definition task_ok (task : SendTask S O P) : Prop :=
  (forall st, t_mine task = Some st -> is_me st = true) /\
  Forall (fun st => is_me st = false) (t_others task).

Lemma create_send_tos_kinds my_id conns targets : forall mine others mine' others',
  create_send_tos my_id conns targets mine others = Done (mine', others') ->
  (forall st, mine = Some st -> is_me st = true) -> Forall (fun st => is_me st = false) others ->
  (forall st, mine' = Some st -> is_me st = true) /\ Forall (fun st => is_me st = false) others'.
Proof.
  induction targets as [|t ts IH]; intros mine others mine' others'; cbn [create_send_tos].
  - by intros [= <- <-].
  - destruct (decide (t = my_id)).
    + intros Hc _ Ho. apply (IH _ _ _ _ Hc); [by intros st [= <-]|done].
    + destruct (decide (t ∈ conns)); [|discriminate]. intros Hc Hm Ho.
      apply (IH _ _ _ _ Hc); [done|]. apply Forall_app. by split; [|constructor].
Qed.

(** [send] and [broadcast] spawn a task whose destinations get the value meant
    for them: [SendTo::value] never reaches its [unreachable!()], and what it
    delivers is [run_task]. *)
Lemma task_values_reachable self message self' d :
  (exists ts, broadcast self message ts = Done (self', d)) \/
  (exists t, send self message t = Done (self', d)) ->
  exists task, outbox self' = outbox self ++ [task] /\
    let right := Right (t_message task) (t_nonce task) (t_digest task) (t_buf task) in
    let left := Left (t_nonce task) (t_digest task) (t_buf task) in
    (forall st, t_mine task = Some st ->
       send_value (my_key self) st right = Done (deliver (my_key self) task st)) /\
    (forall st, st ∈ t_others task ->
       send_value (my_key self) st left = Done (deliver (my_key self) task st)).
Proof.
  intros Hcall.
  assert (exists task, outbox self' = outbox self ++ [task] /\ task_ok task) as (task & Ho & Hm & Hp).
  { destruct Hcall as [[ts Hc]|[t Hc]]; revert Hc; [unfold broadcast|unfold send].
    - destruct (send_tos _ _ _) as [[mine others]|] eqn:Hs; [cbn [obind]|discriminate].
      destruct (next_state _), (serialize_digest _) as [[? ?]|]; [|discriminate].
      intros [= <- <-]. eexists. split; [done|].
      unfold send_tos in Hs. destruct (peer_tx self); apply (create_send_tos_kinds _ _ _ _ _ _ _ Hs); done.
    - unfold send_to. case_decide as Ht; [|case_decide; [|discriminate]]; cbn [obind];
        (destruct (next_state _), (serialize_digest _) as [[? ?]|]; [|discriminate]);
        intros [= <- <-]; (eexists; split; [done|]); split; cbn; try done.
      + by intros st [= <-].
      + by repeat constructor. }
  exists task. split; [done|]. split.
  - intros st Hst. by destruct st; [|specialize (Hm _ Hst)].
  - intros st Hst. rewrite Forall_forall in Hp. by destruct st; [specialize (Hp _ Hst)|].
Qed.

End node.

(** ** A node for the executable witnesses: one of four connected replicas. *)

Definition toy_data : SharedData Z Z Z :=
  {| serialize_message := fun _ => Ok []; deserialize_message := fun _ => Err (Errors.simple "toy") |}.

Definition w_node (i : NodeId) : @Node Z Z Z toy_sig :=
  @mkNode Z Z Z toy_sig i (mkNodeId 1000) (Prng.new (replicate 32 1)) 5 ∅ ∅
    (Server (list_to_set (targets 4))) [].

Lemma broadcast_reaches_targets_witness :
  exists node' d task, @broadcast Z Z Z toy_hash toy_sig toy_data (w_node (mkNodeId 1))
      (Request (mkRequest 3)) (targets 4) = Done (node', d) /\ t_message task = Request (mkRequest 3)
    /\ length (@run_task Z Z Z toy_hash toy_sig 5 task) = 4%nat.
Proof.
  destruct (@broadcast_reaches_targets Z Z Z toy_hash toy_sig toy_data (w_node (mkNodeId 1))
    (Request (mkRequest 3)) (targets 4)) as (n' & d & task & H1 & _ & _ & H2 & H3).
  - intros i Hi _. by apply elem_of_list_to_set.
  - eexists. reflexivity.
  - exists n', d, task. split; [exact H1|]. split; [exact H3|].
    change (@my_key Z Z Z toy_sig (w_node (mkNodeId 1))) with 5 in H2. rewrite H2. reflexivity.
Defined.

(** An encoding of requests of a [Z] below 256 in one byte. *)
Definition byte_data : SharedData Z Z Z := {|
  serialize_message := fun m =>
    match m with Request r => Ok [operation r] | _ => Err (Errors.simple "toy") end;
  deserialize_message := fun w =>
    match w with [b] => Ok (Request (mkRequest b)) | _ => Err (Errors.simple "toy") end
|}.

Definition byte_header : Header := mkHeader 0 0 7 3 258 1 (replicate 32 9) (replicate 64 1).

Lemma byte_header_ok : header_ok byte_header.
Proof. unfold header_ok, is_u32, is_u64, byte_header; cbn -[replicate]; repeat split; lia. Qed.

Lemma rx_reads_what_was_written_witness :
  @rx_task Z Z Z byte_data (mkNodeId 7)
    (write_to (mkWire byte_header [42]) ++ write_to (mkWire byte_header [43])) =
  [System byte_header (Request (mkRequest 42)); System byte_header (Request (mkRequest 43));
   DisconnectedRx (Some (mkNodeId 7))].
Proof.
  apply (@rx_reads_what_was_written Z Z Z byte_data (mkNodeId 7)
    [(byte_header, [42], Request (mkRequest 42)); (byte_header, [43], Request (mkRequest 43))]).
  intros h p m Hin. rewrite !elem_of_cons in Hin.
  destruct Hin as [[= -> -> ->]|[[= -> -> ->]|Hin]]; [..|set_solver];
    (split; [apply byte_header_ok|done]).
Defined.

Lemma rx_accepts_any_header_witness :
  System byte_header (Request (mkRequest 42)) ∈
    @rx_task Z Z Z byte_data (mkNodeId 0) (write_to (mkWire byte_header [42])).
Proof.
  apply (@rx_accepts_any_header Z Z Z byte_data (mkNodeId 0) byte_header [42]).
  - apply byte_header_ok.
  - reflexivity.
  - reflexivity.
Defined.
