(* ===== verification/Connect.v ===== *)
(** * Connection set-up ([src/bft/communication/mod.rs])

    How the nodes of the group find each other: every node connects to every
    replica and announces itself with a header ([tx_side_connect]), accepts the
    connections of the others ([rx_side_accept]), and waits in
    [Node::bootstrap] until it has seen two connections with each replica. The
    sockets and the TLS library are external: whether a connection, a handshake
    or a write succeeds, and the bytes that arrive on an accepted connection,
    are arguments. The tasks report to the node's channel; the order in which
    their reports are received is the list [rx] of [bootstrap]. *)

From stdpp Require Import pretty.
From S2P Require Import Prelude Error Ordering Prng Crypto Params Message Node.
Local Open Scope Z_scope.
Local Open Scope bft_scope.

Definition RETRY : nat := 180.

(** An attempt to connect: no connection, no TLS session, no room for the
    header, or success. *)
Inductive Attempt := Refused | HandshakeFailed | WriteFailed | Written.

Record NodeConfig `{SigScheme} := mkConfig {
  cfg_n : Z;
  cfg_f : Z;
  cfg_id : NodeId;
  cfg_first_cli : NodeId;
  cfg_addrs : gmap NodeId (string * string);
  cfg_pk : gmap NodeId PublicKey;
  cfg_sk : KeyPair
}.
Arguments mkConfig {H} cfg_n cfg_f cfg_id cfg_first_cli cfg_addrs cfg_pk cfg_sk.

Section connect.
Context {S O P : Type} `{HashFn, SigScheme}.

(** ** The connecting side *)

(** What a connecting task has done when it ends: the report it sent, the bytes
    it wrote, and the number of attempts. *)
Record Connected := mkConnected {
  report : Message S O P;
  written : list Z;
  attempts : nat
}.

(** The header a node announces itself with. *)
Definition hello (my_id peer_id : NodeId) (nonce : Z) : outcome (list Z) :=
  let header := wm_header (wire_new my_id peer_id [] nonce None None) in
  match serialize_into header (replicate Header_LENGTH 0) with
  | Ok buf => Done buf
  | Err _ => Panic
  end.

Fixpoint connect_loop (retry : nat) (my_id peer_id : NodeId) (nonce : Z) (net : nat -> Attempt) (k : nat)
  : outcome Connected :=
  match retry with
  | 0%nat => Done (mkConnected (DisconnectedTx peer_id) [] k)
  | Datatypes.S retry =>
    match net k with
    | Refused => connect_loop retry my_id peer_id nonce net (k + 1)
    | HandshakeFailed => Done (mkConnected (DisconnectedTx peer_id) [] (k + 1))
    | WriteFailed =>
      let! _ := hello my_id peer_id nonce in
      Done (mkConnected (DisconnectedTx peer_id) [] (k + 1))
    | Written =>
      let! buf := hello my_id peer_id nonce in
      Done (mkConnected (ConnectedTx peer_id) buf (k + 1))
    end
  end.

Definition tx_side_connect_task (my_id peer_id : NodeId) (nonce : Z) (net : nat -> Attempt)
  : outcome Connected := connect_loop RETRY my_id peer_id nonce net 0.

(** A spawned connecting task: its arguments. *)
Record ConnectTask := mkConnectTask { ct_peer : NodeId; ct_nonce : Z; ct_addr : string * string }.

(** [NodeId::targets_u32(0..n)] *)
Definition targets_u32 (n : Z) : list NodeId :=
  map (fun i => node_from_u32 (Z.of_nat i)) (seq 0 (Z.to_nat n)).

Fixpoint connect_all (peers : list NodeId) (my_id : NodeId) (addrs : gmap NodeId (string * string))
  (rng : Prng.State) : outcome (list ConnectTask * Prng.State) :=
  match peers with
  | [] => Done ([], rng)
  | peer_id :: peers =>
    match addrs !! peer_id with
    | None => Panic
    | Some addr =>
      let '(nonce, rng) := next_state rng in
      let! '(tasks, rng) := connect_all peers my_id addrs rng in
      Done (mkConnectTask peer_id nonce addr :: tasks, rng)
    end
  end.

Definition tx_side_connect (n : Z) (my_id : NodeId) (addrs : gmap NodeId (string * string))
  (rng : Prng.State) : outcome (list ConnectTask * Prng.State) :=
  connect_all (filter (fun id => id <> my_id) (targets_u32 n)) my_id addrs rng.

(** ** The accepting side *)

(** [sock] is [None] when the TLS handshake fails, and otherwise the bytes that
    arrive on the connection. The report, and the bytes left on an accepted
    connection. *)
Definition rx_side_accept_task (first_cli my_id : NodeId) (sock : option (list Z))
  : Message S O P * list Z :=
  let failed := (DisconnectedRx None, []) in
  match sock with
  | None => failed
  | Some bytes =>
    if decide (length bytes < Header_LENGTH)%nat then failed
    else match deserialize_from (take Header_LENGTH bytes) with
         | Err _ => failed
         | Ok header =>
           match from_parts header [] with
           | Err _ => failed
           | Ok wm =>
             if node_ge (hdr_from (wm_header wm)) first_cli && node_ge my_id first_cli then failed
             else if decide (hdr_to (wm_header wm) <> my_id) then failed
             else (ConnectedRx (hdr_from (wm_header wm)), drop Header_LENGTH bytes)
           end
         end
  end.

(** The reports of the accepting loop, for the sockets that [accept] returned
    ([None] for an error). *)
Definition rx_side_accept (first_cli my_id : NodeId) (accepted : list (option (option (list Z))))
  : list (Message S O P) :=
  map (fun sock => (rx_side_accept_task first_cli my_id sock).1) (omap id accepted).

(** ** Waiting for the group *)

Definition NODE_CHAN_BOUND : nat := 128.

(** [c.iter().enumerate().any(|(id, &n)| id != usize::from(node.id) && n != 2)] *)
Definition waiting_for (my_id : NodeId) (c : list Z) : bool :=
  existsb (fun '(id, n) => negb (Z.of_nat id =? usize_from_node my_id) && negb (n =? 2)) (enumerate c).

(** [c[usize::from(id)] += 1] panics when the index is out of range. *)
Definition count_connection (first_cli id : NodeId) (c : list Z) : outcome (list Z) :=
  if node_lt id first_cli then
    let i := Z.to_nat (usize_from_node id) in
    match c !! i with
    | Some x => Done (<[i := wrap_i32 (x + 1)]> c)
    | None => Panic
    end
  else Done c.

(** A returned [Result], with the messages not yet received; [None] when the
    loop waits for another message. *)
Definition Bootstrapped : Type :=
  outcome (option (result (Node S O P * list (Message S O P)) * list (Message S O P))).

Fixpoint wait_peers (node : Node S O P) (first_cli : NodeId) (c : list Z) (rogue : list (Message S O P))
  (rx : list (Message S O P)) : Bootstrapped :=
  if waiting_for (node_id node) c then
    match rx with
    | [] => Done None
    | message :: rx =>
      match message with
      | ConnectedTx id =>
        let node := handle_connected_tx node id in
        let! c := count_connection first_cli id c in
        wait_peers node first_cli c rogue rx
      | ConnectedRx id =>
        let! node := handle_connected_rx node id in
        let! c := count_connection first_cli id c in
        wait_peers node first_cli c rogue rx
      | DisconnectedTx i =>
        Done (Some (err_wrapped ("Node " +:+ pretty (nid i) +:+ " disconnected from send side")
                      "Communication", rx))
      | DisconnectedRx (Some i) =>
        Done (Some (err_wrapped ("Node " +:+ pretty (nid i) +:+ " disconnected from receive side")
                      "Communication", rx))
      | DisconnectedRx None =>
        Done (Some (err_wrapped "Disconnected from receive side" "Communication", rx))
      | m => wait_peers node first_cli c (rogue ++ [m]) rx
      end
    end
  else Done (Some (Ok (node, rogue), rx)).

(** [Node::bootstrap]: [bind_error] is the error of binding the listening
    socket, if any, [seed] the randomness of the node's generator. *)
Definition node_bootstrap (cfg : NodeConfig) (bind_error : option string) (seed : list Z)
  (rx : list (Message S O P)) : Bootstrapped :=
  let id := cfg_id cfg in
  if cfg_n cfg <? wrap_usize (wrap_usize (3 * cfg_f cfg) + 1)
  then Done (Some (err_wrapped "Invalid number of replicas" "Communication", rx))
  else if node_ge id (node_from_usize (cfg_n cfg)) && node_lt id (cfg_first_cli cfg)
  then Done (Some (err_wrapped "Invalid node ID" "Communication", rx))
  else match cfg_addrs cfg !! id with
       | None => Panic
       | Some _ =>
         match bind_error with
         | Some e => Done (Some (err_wrapped e "Communication", rx))
         | None =>
           let! '(_, rng) := tx_side_connect (wrap_u32 (cfg_n cfg)) id (cfg_addrs cfg) (Prng.new seed) in
           let peer_tx := if node_ge id (cfg_first_cli cfg) then Client ∅ else Server ∅ in
           let node := mkNode id (cfg_first_cli cfg) rng (cfg_sk cfg) (cfg_pk cfg) (cfg_addrs cfg) peer_tx [] in
           wait_peers node (cfg_first_cli cfg) (replicate (Z.to_nat (cfg_n cfg)) 0) [] rx
         end
       end.

(** ** The handshake *)

Lemma hello_header_ok my_id peer_id nonce : is_u32 (nid my_id) -> is_u32 (nid peer_id) -> is_u64 nonce ->
  header_ok (wm_header (wire_new my_id peer_id [] nonce None None)).
Proof.
  intros Hm Hp Hn. unfold header_ok, wire_new, CURRENT_VERSION. cbn [wm_header h_align h_version h_from
    h_to h_nonce h_length h_digest h_signature]. rewrite !length_replicate.
  split_and!; try done; unfold is_u32, is_u64; cbn; lia.
Qed.

Lemma hello_done my_id peer_id nonce : hello my_id peer_id nonce =
  Done (write_to (wire_new my_id peer_id [] nonce None None)).
Proof.
  unfold hello, write_to, serialize_into. rewrite decide_False by (rewrite length_replicate; lia).
  cbn [wm_payload wire_new]. by rewrite app_nil_r.
Qed.

(** The handshake. The header a connecting node writes is accepted exactly by
    the node it is addressed to, unless both are clients; the accepting node
    learns the right id of its peer and leaves the bytes that follow the header
    on the connection. Anyone else drops the connection. *)
Theorem handshake_roundtrip first_cli my_id peer_id nonce acceptor rest :
  is_u32 (nid my_id) -> is_u32 (nid peer_id) -> is_u64 nonce ->
  exists buf, hello my_id peer_id nonce = Done buf /\
    rx_side_accept_task first_cli acceptor (Some (buf ++ rest)) =
      if (node_ge my_id first_cli && node_ge acceptor first_cli) || negb (bool_decide (acceptor = peer_id))
      then (DisconnectedRx None, []) else (ConnectedRx my_id, rest).
Proof.
  intros Hm Hp Hn. pose proof (hello_header_ok my_id peer_id nonce Hm Hp Hn) as Hh.
  rewrite hello_done. eexists. split; [reflexivity|].
  set (h := wm_header (wire_new my_id peer_id [] nonce None None)) in *.
  assert (Ew : write_to (wire_new my_id peer_id [] nonce None None) = serialize_into_unchecked h []).
  { unfold write_to, serialize_into. rewrite decide_False by (rewrite length_replicate; lia).
    cbn [wm_payload wire_new]. by rewrite app_nil_r. }
  pose proof (length_serialized h Hh) as HL. unfold rx_side_accept_task. rewrite Ew.
  rewrite decide_False by (rewrite length_app, HL; lia).
  rewrite take_app_length', drop_app_length' by done.
  unfold deserialize_from. rewrite decide_False by (rewrite HL; lia). rewrite deserialize_serialize by done.
  assert (Efrom : hdr_from h = my_id) by (by destruct my_id).
  assert (Eto : hdr_to h = peer_id) by (by destruct peer_id).
  assert (Ef : from_parts h [] = Ok (mkWire h [])) by reflexivity.
  rewrite Ef. cbn [wm_header]. rewrite Efrom, Eto.
  destruct (node_ge my_id first_cli && node_ge acceptor first_cli); [done|]. cbn [orb].
  case_bool_decide as Hd; [rewrite decide_False by congruence|rewrite decide_True by congruence]; done.
Qed.

(** ** The connecting task *)

Lemma connect_loop_spec retry my_id peer_id nonce net : forall k, exists r,
  connect_loop retry my_id peer_id nonce net k = Done r /\ (attempts r <= k + retry)%nat /\
  ((report r = ConnectedTx peer_id /\ hello my_id peer_id nonce = Done (written r) /\
    exists j, (k <= j < k + retry)%nat /\ net j = Written /\ forall i, (k <= i < j)%nat -> net i = Refused) \/
   (report r = DisconnectedTx peer_id /\ written r = [] /\
    forall j, (k <= j < k + retry)%nat -> net j = Written ->
      exists i, (k <= i < j)%nat /\ net i <> Refused)).
Proof.
  induction retry as [|retry IH]; intros k; cbn [connect_loop].
  { eexists. split; [done|]. split; [cbn; lia|]. right. split_and!; [done|done|]. intros j Hj. lia. }
  destruct (net k) eqn:Ek.
  - destruct (IH (k + 1)%nat) as (r & E & Ha & Hr). exists r. split; [done|]. split; [lia|].
    destruct Hr as [(R1 & R2 & j & Hj & Hw & Hb)|(R1 & R2 & Hb)].
    + left. split_and!; [done|done|]. exists j. split_and!; [lia|lia|done|]. intros i Hi.
      destruct (decide (i = k)) as [->|]; [done|]. apply Hb. lia.
    + right. split_and!; [done|done|]. intros j Hj Hw. destruct (decide (j = k)) as [->|]; [congruence|].
      destruct (Hb j ltac:(lia) Hw) as (i & Hi & Hn). exists i. split; [lia|done].
  - eexists. split; [done|]. split; [cbn; lia|]. right. split_and!; [done|done|]. intros j Hj Hw.
    exists k. assert (j <> k) by congruence. split; [lia|congruence].
  - rewrite hello_done. cbn [obind]. eexists. split; [done|]. split; [cbn; lia|]. right.
    split_and!; [done|done|]. intros j Hj Hw.
    exists k. assert (j <> k) by congruence. split; [lia|congruence].
  - rewrite hello_done. cbn [obind]. eexists. split; [done|]. split; [cbn; lia|]. left.
    cbn [report written attempts]. split_and!; [done|done|]. exists k. split_and!; [lia|lia|done|]. lia.
Qed.

(** C29: the connecting task ends after at most [RETRY] attempts and reports
    exactly once: [ConnectedTx] when some attempt among the first [RETRY]
    succeeds and all before it were refused, having written the header, and
    [DisconnectedTx] otherwise, also when a peer that could be reached failed
    the handshake. *)
Theorem connect_task_reports my_id peer_id nonce net : exists r,
  tx_side_connect_task my_id peer_id nonce net = Done r /\ (attempts r <= 180)%nat /\
  ((report r = ConnectedTx peer_id /\ hello my_id peer_id nonce = Done (written r) /\
    exists j, (j < 180)%nat /\ net j = Written /\ forall i, (i < j)%nat -> net i = Refused) \/
   (report r = DisconnectedTx peer_id /\ written r = [] /\
    forall j, (j < 180)%nat -> net j = Written -> exists i, (i < j)%nat /\ net i <> Refused)).
Proof.
  destruct (connect_loop_spec RETRY my_id peer_id nonce net 0) as (r & E & Ha & Hr). unfold RETRY in *.
  exists r. split; [done|]. split; [lia|].
  destruct Hr as [(R1 & R2 & j & Hj & Hw & Hb)|(R1 & R2 & Hb)].
  - left. split_and!; [done|done|]. exists j. split_and!; [lia|done|]. intros i Hi. apply Hb. lia.
  - right. split_and!; [done|done|]. intros j Hj Hw. destruct (Hb j ltac:(lia) Hw) as (i & ? & ?).
    exists i. split; [lia|done].
Qed.

(** ** The waiting loop *)

Implicit Type m : Message S O P.

Definition connection_of m : option NodeId :=
  match m with ConnectedTx id | ConnectedRx id => Some id | _ => None end.

Definition tx_of m : option NodeId := match m with ConnectedTx id => Some id | _ => None end.

Definition is_disconnect m : bool :=
  match m with DisconnectedTx _ | DisconnectedRx _ => true | _ => false end.

Definition is_report m : bool := match connection_of m with Some _ => true | None => false end.

(** Messages that do not pertain to the set-up. *)
Definition is_rogue m : bool :=
  match connection_of m with Some _ => false | None => negb (is_disconnect m) end.

(** A report about a connection with replica [i]. *)
Definition counts_for (first_cli : NodeId) (i : nat) m : bool :=
  match connection_of m with
  | Some id => node_lt id first_cli && bool_decide (Z.to_nat (nid id) = i)
  | None => false
  end.

Definition conn_count (first_cli : NodeId) (i : nat) (ms : list (Message S O P)) : nat :=
  length (List.filter (counts_for first_cli i) ms).

Lemma conn_count_cons fc i m ms :
  conn_count fc i (m :: ms) = ((if counts_for fc i m then 1 else 0) + conn_count fc i ms)%nat.
Proof. unfold conn_count. cbn. by destruct (counts_for fc i m). Qed.

Lemma conn_count_app fc i l1 l2 : conn_count fc i (l1 ++ l2) = (conn_count fc i l1 + conn_count fc i l2)%nat.
Proof. unfold conn_count. by rewrite List.filter_app, length_app. Qed.

Lemma waiting_for_false my_id c :
  waiting_for my_id c = false <-> forall i x, c !! i = Some x -> Z.of_nat i <> nid my_id -> x = 2.
Proof.
  assert (Hgen : forall off l, existsb (fun '(id, n) => negb (Z.of_nat id =? nid my_id) && negb (n =? 2))
      (zip (seq off (length l)) l) = false <->
    forall i x, l !! i = Some x -> Z.of_nat (off + i) <> nid my_id -> x = 2).
  { intros off l. revert off. induction l as [|y l IH]; intros off; cbn; [by split|].
    rewrite orb_false_iff, IH, andb_false_iff, !negb_false_iff, Z.eqb_eq, Z.eqb_eq. split.
    - intros [Hy Hl] [|i] x; cbn.
      + intros [= ->] Hne. rewrite Nat.add_0_r in Hne. tauto.
      + intros Hx Hne. apply (Hl i x Hx). by rewrite <- Nat.add_succ_comm in Hne.
    - intros Hl. split.
      + destruct (Z.eq_dec (Z.of_nat off) (nid my_id)); [by left|right]. apply (Hl 0%nat y); [done|].
        by rewrite Nat.add_0_r.
      + intros i x Hx Hne. apply (Hl (Datatypes.S i) x Hx). by rewrite <- Nat.add_succ_comm. }
  apply (Hgen 0%nat c).
Qed.

(** A counted report adds one to its entry. *)
Lemma count_connection_done fc m id c c' k : connection_of m = Some id ->
  (forall i x, c !! i = Some x -> 0 <= x /\ x + Z.of_nat (Datatypes.S k) <= i32_MAX) ->
  count_connection fc id c = Done c' ->
  (forall i x, c' !! i = Some x -> 0 <= x /\ x + Z.of_nat k <= i32_MAX) /\
  forall i x, c !! i = Some x -> c' !! i = Some (x + if counts_for fc i m then 1 else 0).
Proof.
  intros Hm Hc. unfold count_connection, counts_for, usize_from_node. rewrite Hm.
  destruct (node_lt id fc); cbn [andb].
  - destruct (c !! Z.to_nat (nid id)) as [y|] eqn:Ey; [|discriminate]. intros [= <-].
    destruct (Hc _ _ Ey) as [Hy1 Hy2].
    assert (Hw : wrap_i32 (y + 1) = y + 1) by (apply wrap_i32_small; unfold is_i32, i32_MIN, i32_MAX in *; lia).
    rewrite Hw. split.
    + intros i x. destruct (decide (i = Z.to_nat (nid id))) as [->|Hne].
      * rewrite list_lookup_insert_eq by (by eapply lookup_lt_Some). intros [= <-]. lia.
      * rewrite list_lookup_insert_ne by congruence. intros Hx. destruct (Hc i x Hx). lia.
    + intros i x Hx. destruct (decide (i = Z.to_nat (nid id))) as [->|Hne].
      * rewrite list_lookup_insert_eq by (by eapply lookup_lt_Some). rewrite bool_decide_eq_true_2 by done.
        congruence.
      * rewrite list_lookup_insert_ne by congruence. rewrite bool_decide_eq_false_2 by congruence.
        by rewrite Z.add_0_r.
  - intros [= <-]. split.
    + intros i x Hx. destruct (Hc i x Hx). lia.
    + intros i x Hx. by rewrite Z.add_0_r.
Qed.

(** What the two handlers leave as it is. *)
Definition is_server (p : PeerTx) : bool := match p with Server _ => true | Client _ => false end.

Definition same_peers (node node' : Node S O P) : Prop :=
  node_id node' = node_id node /\ first_cli node' = first_cli node /\ peer_addrs node' = peer_addrs node /\
  is_server (peer_tx node') = is_server (peer_tx node).

Lemma handle_tx_rest node id :
  same_peers node (handle_connected_tx node id) /\
  peer_conns (peer_tx (handle_connected_tx node id)) = {[id]} ∪ peer_conns (peer_tx node).
Proof. unfold same_peers, handle_connected_tx. by destruct (peer_tx node). Qed.

Lemma handle_rx_rest node id node' : handle_connected_rx node id = Done node' ->
  same_peers node node' /\ peer_tx node' = peer_tx node.
Proof.
  unfold handle_connected_rx. intros Hr.
  assert (E : node' = node \/ node' = mkNode (node_id node) (first_cli node) (next_state (rng node)).2 (my_key node)
    (peer_keys node) (peer_addrs node) (peer_tx node) (outbox node)); [|by destruct E as [-> | ->]].
  destruct (peer_tx node) as [|conns]; [left; congruence|]. destruct (_ && _); [|left; congruence].
  destruct (peer_addrs node !! id); [right; congruence|discriminate].
Qed.

(** A server can connect back to the client [id]. *)
Definition can_answer (node : Node S O P) (id : NodeId) : Prop :=
  is_server (peer_tx node) = true -> node_ge id (first_cli node) = true -> is_Some (peer_addrs node !! id).

Lemma can_answer_same node node' id : same_peers node node' -> can_answer node id -> can_answer node' id.
Proof. intros (_ & E1 & E2 & E3). unfold can_answer. by rewrite E1, E2, E3. Qed.

Lemma handle_rx_done node id : can_answer node id -> exists node', handle_connected_rx node id = Done node'.
Proof.
  unfold can_answer, handle_connected_rx. intros Ha. destruct (peer_tx node); [eauto|].
  destruct (node_ge id (first_cli node)); cbn [andb]; [|eauto].
  destruct (Ha eq_refl eq_refl) as [a ->]. destruct (negb _); eauto.
Qed.

(** When the loop returns a node. *)
Definition waited (node : Node S O P) (first_cli : NodeId) (c : list Z) (pre : list (Message S O P))
  (node' : Node S O P) (rogue' : list (Message S O P)) : Prop :=
  node_id node' = node_id node /\ rogue' = List.filter is_rogue pre /\
  Forall (fun m => is_disconnect m = false) pre /\
  peer_conns (peer_tx node') = peer_conns (peer_tx node) ∪ list_to_set (omap tx_of pre) /\
  forall i x, c !! i = Some x -> Z.of_nat i <> nid (node_id node) ->
    x + Z.of_nat (conn_count first_cli i pre) = 2.

Lemma waited_nil node fc c : waiting_for (node_id node) c = false -> waited node fc c [] node [].
Proof.
  intros Hw. split_and!; try done; [cbn; set_solver|].
  intros i x Hx Hne. by rewrite (proj1 (waiting_for_false _ _) Hw i x Hx Hne).
Qed.

(** One message more at the front. *)
Lemma waited_cons node node1 fc c c1 m pre node' r : waited node1 fc c1 pre node' r ->
  (forall i x, c !! i = Some x -> c1 !! i = Some (x + if counts_for fc i m then 1 else 0)) ->
  node_id node1 = node_id node -> is_disconnect m = false ->
  peer_conns (peer_tx node1) = peer_conns (peer_tx node) ∪ list_to_set (omap tx_of [m]) ->
  waited node fc c (m :: pre) node' (List.filter is_rogue [m] ++ r).
Proof.
  intros (W1 & W2 & W3 & W4 & W5) E1 Hid Hd Hp.
  split_and!; [congruence|by rewrite W2, <- List.filter_app|by apply Forall_cons| |].
  - rewrite W4, Hp. cbn. destruct (tx_of m); cbn; set_solver.
  - intros i x Hx Hne. rewrite conn_count_cons. specialize (W5 i _ (E1 i x Hx)).
    rewrite Hid in W5. specialize (W5 Hne). destruct (counts_for fc i m); lia.
Qed.

Lemma counts_for_none fc m (c : list Z) : connection_of m = None -> forall i x, c !! i = Some x ->
  c !! i = Some (x + if counts_for fc i m then 1 else 0).
Proof. intros Hm i x Hx. unfold counts_for. by rewrite Hm, Z.add_0_r. Qed.

Definition room (c : list Z) (k : nat) : Prop :=
  forall i x, c !! i = Some x -> 0 <= x /\ x + Z.of_nat k <= i32_MAX.

Lemma room_less c k : room c (Datatypes.S k) -> room c k.
Proof. intros Hc i x Hx. destruct (Hc i x Hx). lia. Qed.

Lemma wait_peers_ok rx : forall node fc c rogue node' rogue' rest, room c (length rx) ->
  wait_peers node fc c rogue rx = Done (Some (Ok (node', rogue'), rest)) ->
  exists pre r, rx = pre ++ rest /\ rogue' = rogue ++ r /\ waited node fc c pre node' r.
Proof.
  induction rx as [|m rx IH]; intros node fc c rogue node' rogue' rest Hc; cbn [wait_peers];
    destruct (waiting_for (node_id node) c) eqn:Hw; try discriminate;
    try (intros [= <- <- <-]; exists [], []; split_and!; [done|by rewrite app_nil_r|by apply waited_nil]).
  assert (Hcons : forall c1 node1, room c1 (length rx) ->
    (forall i x, c !! i = Some x -> c1 !! i = Some (x + if counts_for fc i m then 1 else 0)) ->
    node_id node1 = node_id node -> is_disconnect m = false ->
    peer_conns (peer_tx node1) = peer_conns (peer_tx node) ∪ list_to_set (omap tx_of [m]) ->
    wait_peers node1 fc c1 (rogue ++ List.filter is_rogue [m]) rx = Done (Some (Ok (node', rogue'), rest)) ->
    exists pre r, m :: rx = pre ++ rest /\ rogue' = rogue ++ r /\ waited node fc c pre node' r).
  { intros c1 node1 Hc1 E1 Hid Hd Hp Hr. destruct (IH _ _ _ _ _ _ _ Hc1 Hr) as (pre & r & -> & -> & Hwt).
    exists (m :: pre), (List.filter is_rogue [m] ++ r). rewrite app_assoc.
    split_and!; [done|done|]. by eapply waited_cons. }
  destruct m as [h m|id|id|id|[id|]|b|b a|k]; try discriminate;
    try (apply Hcons; [by apply room_less|by apply counts_for_none|done|done|cbn; set_solver]).
  - returned_as c1 eqn:Ec. intros Hr. destruct (handle_tx_rest node id) as ((T1 & _) & T2).
    destruct (count_connection_done fc (ConnectedTx id) id c c1 (length rx) eq_refl Hc Ec) as [A B].
    eapply Hcons; [exact A|exact B|exact T1|done|rewrite T2; cbn; set_solver|]. by rewrite app_nil_r.
  - returned_as node1 eqn:En. returned_as c1 eqn:Ec. intros Hr. destruct (handle_rx_rest _ _ _ En) as ((R1 & _) & R2).
    destruct (count_connection_done fc (ConnectedRx id) id c c1 (length rx) eq_refl Hc Ec) as [A B].
    eapply Hcons; [exact A|exact B|exact R1|done|rewrite R2; cbn; set_solver|]. by rewrite app_nil_r.
Qed.

(** Reports whose ids are in range, and no disconnection. *)
Definition report_ok (n : nat) (first_cli : NodeId) m : Prop :=
  is_disconnect m = false /\
  forall id, connection_of m = Some id -> node_lt id first_cli = true -> (Z.to_nat (nid id) < n)%nat.

Lemma wait_peers_completes rx : forall node fc c rogue, room c (length rx) ->
  Forall (report_ok (length c) fc) rx -> (forall id, ConnectedRx id ∈ rx -> can_answer node id) ->
  (forall i x, c !! i = Some x -> Z.of_nat i <> nid (node_id node) ->
     x + Z.of_nat (conn_count fc i rx) = 2) ->
  exists res rest, wait_peers node fc c rogue rx = Done (Some (Ok res, rest)).
Proof.
  induction rx as [|m rx IH]; intros node fc c rogue Hc Hok Hcli Hcnt; cbn [wait_peers];
    destruct (waiting_for (node_id node) c) eqn:Hw; eauto.
  { exfalso. assert (waiting_for (node_id node) c = false); [|congruence]. apply waiting_for_false.
    intros i x Hx Hne. specialize (Hcnt i x Hx Hne). cbn in Hcnt. lia. }
  apply Forall_cons in Hok as [[Hd Hid] Hok].
  assert (Hrec : forall c1 node1 rogue1, room c1 (length rx) -> length c1 = length c ->
    (forall i x, c !! i = Some x -> c1 !! i = Some (x + if counts_for fc i m then 1 else 0)) ->
    same_peers node node1 ->
    exists res rest, wait_peers node1 fc c1 rogue1 rx = Done (Some (Ok res, rest))).
  { intros c1 node1 rogue1 Hc1 Hl E1 Hn. apply IH; [done|by rewrite Hl| |].
    { intros id Hin. apply (can_answer_same node); [done|]. apply Hcli. set_solver. }
    intros i x Hx Hne. rewrite (proj1 Hn) in Hne. destruct (c !! i) as [y|] eqn:Ey.
    - specialize (Hcnt i y Ey Hne). rewrite conn_count_cons in Hcnt. rewrite (E1 i y Ey) in Hx.
      injection Hx as <-. destruct (counts_for fc i m); lia.
    - apply lookup_ge_None in Ey. apply lookup_lt_Some in Hx. lia. }
  assert (Hdone : forall id, connection_of m = Some id -> exists c1, count_connection fc id c = Done c1 /\
    length c1 = length c).
  { intros id E. unfold count_connection, usize_from_node. destruct (node_lt id fc) eqn:El; [|eauto].
    destruct (lookup_lt_is_Some_2 c _ (Hid id E El)) as [y ->]. eexists. split; [done|]. apply length_insert. }
  destruct m as [h m|id|id|id|[id|]|b|b a|k]; try discriminate;
    try (apply Hrec; [by apply room_less|done|by apply counts_for_none|done]);
    destruct (Hdone id eq_refl) as (c1 & Ec & El).
  - rewrite Ec. cbn [obind]. apply Hrec; [..|apply handle_tx_rest]; try done;
      by destruct (count_connection_done fc (ConnectedTx id) id c c1 (length rx) eq_refl Hc Ec).
  - destruct (handle_rx_done node id) as [node1 En]; [apply Hcli; set_solver|]. rewrite En. cbn [obind].
    rewrite Ec. cbn [obind]. apply Hrec; [..|by apply handle_rx_rest in En as [? _]]; try done;
      by destruct (count_connection_done fc (ConnectedRx id) id c c1 (length rx) eq_refl Hc Ec).
Qed.

(** ** [Node::bootstrap] *)

(** A configuration that passes the checks and names all addresses. *)
Definition config_ok (cfg : NodeConfig) : Prop :=
  params_ok (mkParams (cfg_n cfg) (cfg_f cfg)) /\
  (nid (cfg_id cfg) < cfg_n cfg \/ nid (cfg_first_cli cfg) <= nid (cfg_id cfg)) /\
  is_Some (cfg_addrs cfg !! cfg_id cfg) /\
  forall i, i ∈ targets_u32 (cfg_n cfg) -> is_Some (cfg_addrs cfg !! i).

Lemma connect_all_done my_id addrs peers : (forall i, i ∈ peers -> is_Some (addrs !! i)) ->
  forall rng, exists tasks rng', connect_all peers my_id addrs rng = Done (tasks, rng') /\
    map ct_peer tasks = peers.
Proof.
  intros Hp. induction peers as [|i peers IH]; intros rng; cbn; [eauto|].
  destruct (Hp i) as [a ->]; [set_solver|]. destruct (next_state rng) as [nonce rng1].
  destruct (IH ltac:(set_solver) rng1) as (tasks & rng' & -> & E). cbn. eexists _, _. split; [done|].
  cbn. by rewrite E.
Qed.

(** With such a configuration the node waits for its peers. *)
Lemma node_bootstrap_waits cfg seed : config_ok cfg -> exists node,
  node_id node = cfg_id cfg /\ peer_conns (peer_tx node) = ∅ /\
  first_cli node = cfg_first_cli cfg /\ peer_addrs node = cfg_addrs cfg /\
  is_server (peer_tx node) = node_lt (cfg_id cfg) (cfg_first_cli cfg) /\ forall rx,
  node_bootstrap cfg None seed rx =
    wait_peers node (cfg_first_cli cfg) (replicate (Z.to_nat (cfg_n cfg)) 0) [] rx.
Proof.
  intros ((Hf & Hn & Hn32) & Hid & [a Ha] & Haddr). cbn in Hf, Hn, Hn32. unfold node_bootstrap.
  assert ((cfg_n cfg <? wrap_usize (wrap_usize (3 * cfg_f cfg) + 1)) = false) as ->.
  { unfold wrap_usize, wrap_u64. rewrite (Z.mod_small (3 * cfg_f cfg)), Z.mod_small by lia. by apply Z.ltb_ge. }
  assert (Ewrap : wrap_u32 (cfg_n cfg) = cfg_n cfg) by (unfold wrap_u32; apply Z.mod_small; lia).
  assert (node_ge (cfg_id cfg) (node_from_usize (cfg_n cfg)) && node_lt (cfg_id cfg) (cfg_first_cli cfg) = false) as ->.
  { unfold node_ge, node_lt, node_from_usize. cbn [nid]. rewrite Ewrap.
    destruct Hid; [apply andb_false_iff; left; rewrite Z.geb_leb; apply Z.leb_gt|
                   apply andb_false_iff; right; apply Z.ltb_ge]; lia. }
  rewrite Ha, Ewrap. unfold tx_side_connect.
  destruct (connect_all_done (cfg_id cfg) (cfg_addrs cfg) (filter (fun id => id <> cfg_id cfg) (targets_u32 (cfg_n cfg))))
    with (rng := Prng.new seed) as (tasks & rng' & -> & _).
  { intros i [_ Hi]%list_elem_of_filter. by apply Haddr. }
  cbn [obind]. exists (mkNode (cfg_id cfg) (cfg_first_cli cfg) rng' (cfg_sk cfg) (cfg_pk cfg) (cfg_addrs cfg)
    (if node_ge (cfg_id cfg) (cfg_first_cli cfg) then Client ∅ else Server ∅) []).
  split_and!; try done; cbn; unfold node_lt, node_ge; rewrite Z.geb_leb, Z.leb_antisym; by destruct (_ <? _).
Qed.

Lemma room_start n k : Z.of_nat k <= i32_MAX -> room (replicate n 0) k.
Proof. intros Hk i x [-> _]%lookup_replicate. lia. Qed.

(** Reports of a connection, each at most once. *)
Definition reports_once (ms : list (Message S O P)) : Prop :=
  NoDup (List.filter is_report ms) /\
  forall m id, m ∈ ms -> connection_of m = Some id -> is_u32 (nid id).

(** The clients that connect to a replica are in its configuration. *)
Definition clients_known (cfg : NodeConfig) (ms : list (Message S O P)) : Prop :=
  node_lt (cfg_id cfg) (cfg_first_cli cfg) = true -> forall id, ConnectedRx id ∈ ms ->
  node_ge id (cfg_first_cli cfg) = true -> is_Some (cfg_addrs cfg !! id).

Lemma two_reports_tx fc i pre : reports_once pre -> conn_count fc i pre = 2%nat ->
  mkNodeId (Z.of_nat i) ∈ omap tx_of pre.
Proof.
  intros [Hn Hu]. unfold conn_count. intros Hl.
  destruct (List.filter (counts_for fc i) pre) as [|a [|b [|]]] eqn:E; try discriminate.
  assert (Hin : forall x, x = a \/ x = b -> x ∈ pre /\ counts_for fc i x = true).
  { intros x Hx. assert (Hx' : In x (List.filter (counts_for fc i) pre)) by (rewrite E; cbn; intuition).
    apply filter_In in Hx' as [? ?]. split; [by apply list_elem_of_In|done]. }
  assert (Hne : a <> b).
  { assert (Hnd : NoDup (List.filter (counts_for fc i) pre)).
    { assert (Hsub : List.filter (counts_for fc i) pre = List.filter (counts_for fc i)
        (List.filter is_report pre)).
      { clear. assert (Hc : forall x, counts_for fc i x = true -> is_report x = true)
          by (intros x; unfold counts_for, is_report; by destruct (connection_of x)).
        induction pre as [|x pre IH]; [done|]. cbn. destruct (counts_for fc i x) eqn:Ec.
        - rewrite (Hc x Ec). cbn. by rewrite Ec, IH.
        - destruct (is_report x); cbn; rewrite ?Ec; exact IH. }
      rewrite Hsub. apply NoDup_ListNoDup, List.NoDup_filter, NoDup_ListNoDup. exact Hn. }
    rewrite E in Hnd. apply NoDup_cons in Hnd as [Hnd _]. set_solver. }
  assert (Hid : forall x, x = a \/ x = b -> connection_of x = Some (mkNodeId (Z.of_nat i))).
  { intros x Hx. destruct (Hin x Hx) as [Hx1 Hx2]. unfold counts_for in Hx2.
    destruct (connection_of x) as [[id]|] eqn:Ec; [|discriminate]. apply andb_true_iff in Hx2 as [_ Hx2].
    apply bool_decide_eq_true in Hx2. specialize (Hu x _ Hx1 Ec). unfold is_u32 in Hu. cbn in Hu, Hx2.
    do 2 f_equal. lia. }
  pose proof (Hid a (or_introl eq_refl)) as Ia. pose proof (Hid b (or_intror eq_refl)) as Ib.
  apply list_elem_of_omap.
  destruct a; try discriminate; destruct b; try discriminate; cbn in Ia, Ib; injection Ia as ->; injection Ib as ->;
    try done; [exists (ConnectedTx (mkNodeId (Z.of_nat i)))..]; (split; [apply Hin; tauto|done]).
Qed.

Lemma waited_connected node fc n pre node' r : node_id node' = node_id node ->
  waited node fc (replicate (Z.to_nat n) 0) pre node' r -> reports_once pre -> n < 4294967296 ->
  connected node' (targets n).
Proof.
  intros Hid (_ & _ & _ & Hc & Hcnt) Ho Hn. intros j Hj Hne. rewrite Hc. apply elem_of_union. right.
  apply elem_of_list_to_set. unfold targets in Hj. apply list_elem_of_In, in_map_iff in Hj as (i & <- & Hi).
  apply in_seq in Hi.
  assert (E : node_from_usize (Z.of_nat i) = mkNodeId (Z.of_nat i)).
  { unfold node_from_usize, wrap_u32. f_equal. apply Z.mod_small. lia. }
  rewrite E in Hne |- *. apply (two_reports_tx fc); [done|].
  assert (Hx : replicate (Z.to_nat n) 0 !! i = Some 0) by (apply lookup_replicate; split; [done|lia]).
  assert (Hi' : Z.of_nat i <> nid (node_id node)).
  { rewrite <- Hid. intros Ei. apply Hne. rewrite Ei. by destruct (node_id node'). }
  specialize (Hcnt i 0 Hx Hi'). lia.
Qed.

Lemma node_bootstrap_connects cfg seed rx : config_ok cfg -> Z.of_nat (length rx) <= i32_MAX ->
  Forall (report_ok (Z.to_nat (cfg_n cfg)) (cfg_first_cli cfg)) rx -> reports_once rx -> clients_known cfg rx ->
  (forall i, Z.of_nat i < cfg_n cfg -> Z.of_nat i <> nid (cfg_id cfg) ->
     conn_count (cfg_first_cli cfg) i rx = 2%nat) ->
  exists node pre rest,
    node_bootstrap cfg None seed rx = Done (Some (Ok (node, List.filter is_rogue pre), rest)) /\
    rx = pre ++ rest /\ node_id node = cfg_id cfg /\ connected node (targets (cfg_n cfg)).
Proof.
  intros Hcfg Hlen Hok Ho Hcli Hcnt.
  destruct (node_bootstrap_waits cfg seed Hcfg) as (node & Hid & Hp & Hfc & Had & Hsv & E).
  destruct (wait_peers_completes rx node (cfg_first_cli cfg) (replicate (Z.to_nat (cfg_n cfg)) 0) [])
    as ([node' rogue] & rest & Hr); [by apply room_start|by rewrite length_replicate| | |].
  { intros id Hin. unfold can_answer. rewrite Hsv, Hfc, Had. intros H1' H2'. by apply Hcli. }
  { intros i x [-> Hi]%lookup_replicate Hne. rewrite Hid in Hne. rewrite Hcnt; [done|lia|done]. }
  destruct (wait_peers_ok _ _ _ _ _ _ _ _ (room_start _ _ Hlen) Hr) as (pre & r & -> & -> & Hw).
  exists node', pre, rest. rewrite E, Hr. pose proof Hw as (Hid' & -> & _).
  split_and!; [done|done|congruence|]. eapply waited_connected; [exact Hid'|exact Hw| |apply Hcfg].
  destruct Ho as [Ho1 Ho2]. split.
  - rewrite List.filter_app in Ho1. by apply NoDup_app in Ho1 as [? _].
  - intros m id Hm. apply Ho2. set_solver.
Qed.

(** C28: [Node::bootstrap] connects the group. Let the configuration be valid and
    name the addresses of this node and of all replicas, and let the listening
    socket be bound. Let the messages that arrive be fewer than [2^31], with no
    disconnection among them, ids that are replicas of the group or clients, each
    report of a connection at most once and, at a replica, connections only from
    clients whose addresses are configured. When exactly one connection to and one
    connection from every other replica is among them, in whatever order and
    between whatever client connections, timeouts and protocol messages,
    [bootstrap] returns a node that can send to the whole group, and hands over in
    order the messages that were not about connections. *)
Theorem bootstrap_connects_group cfg seed rx : config_ok cfg -> Z.of_nat (length rx) <= i32_MAX ->
  Forall (report_ok (Z.to_nat (cfg_n cfg)) (cfg_first_cli cfg)) rx -> reports_once rx -> clients_known cfg rx ->
  (forall i, Z.of_nat i < cfg_n cfg -> Z.of_nat i <> nid (cfg_id cfg) ->
     conn_count (cfg_first_cli cfg) i rx = 2%nat) ->
  exists node pre rest,
    node_bootstrap cfg None seed rx = Done (Some (Ok (node, List.filter is_rogue pre), rest)) /\
    rx = pre ++ rest /\ node_id node = cfg_id cfg /\ connected node (targets (cfg_n cfg)).
Proof. apply node_bootstrap_connects. Qed.

(** While the loop waits it has received everything. *)
Lemma wait_peers_none pre : forall node fc c rogue k, room c (length pre + k) ->
  wait_peers node fc c rogue pre = Done None ->
  exists node1 c1 rogue1, node_id node1 = node_id node /\ room c1 k /\
    (forall i x, c !! i = Some x -> c1 !! i = Some (x + Z.of_nat (conn_count fc i pre))) /\
    forall rx, wait_peers node fc c rogue (pre ++ rx) = wait_peers node1 fc c1 rogue1 rx.
Proof.
  induction pre as [|m pre IH]; intros node fc c rogue k Hc; cbn [wait_peers].
  { intros _. exists node, c, rogue. split_and!; try done. intros i x Hx. by rewrite Z.add_0_r. }
  destruct (waiting_for (node_id node) c) eqn:Hw; [|discriminate].
  assert (Hrec : forall c1 node1 rogue1, room c1 (length pre + k) ->
    (forall i x, c !! i = Some x -> c1 !! i = Some (x + if counts_for fc i m then 1 else 0)) ->
    node_id node1 = node_id node ->
    (forall rx, wait_peers node fc c rogue ((m :: pre) ++ rx) = wait_peers node1 fc c1 rogue1 (pre ++ rx)) ->
    wait_peers node1 fc c1 rogue1 pre = Done None ->
    exists node1 c1 rogue1, node_id node1 = node_id node /\ room c1 k /\
    (forall i x, c !! i = Some x -> c1 !! i = Some (x + Z.of_nat (conn_count fc i (m :: pre)))) /\
    forall rx, wait_peers node fc c rogue ((m :: pre) ++ rx) = wait_peers node1 fc c1 rogue1 rx).
  { intros c1 node1 rogue1 Hc1 E1 Hid Hrx Hn. destruct (IH _ _ _ _ k Hc1 Hn) as (n2 & c2 & r2 & A & B & C & D).
    exists n2, c2, r2. split_and!; [congruence|done| |].
    - intros i x Hx. rewrite (C i _ (E1 i x Hx)), conn_count_cons. f_equal. destruct (counts_for fc i m); lia.
    - intros rx. by rewrite Hrx, D. }
  destruct m as [h m|id|id|id|[id|]|b|b a|kd]; try discriminate;
    try (apply Hrec; [by apply room_less|by apply counts_for_none|done|]; intros rx;
         cbn [app wait_peers]; by rewrite Hw).
  - returned_as c1 eqn:Ec. destruct (handle_tx_rest node id) as ((T1 & _) & _).
    destruct (count_connection_done fc (ConnectedTx id) id c c1 (length pre + k) eq_refl Hc Ec) as [A B].
    apply Hrec; [done|done|done|]. intros rx. cbn [app wait_peers]. by rewrite Hw, Ec.
  - returned_as node1 eqn:En. returned_as c1 eqn:Ec. destruct (handle_rx_rest _ _ _ En) as ((R1 & _) & _).
    destruct (count_connection_done fc (ConnectedRx id) id c c1 (length pre + k) eq_refl Hc Ec) as [A B].
    apply Hrec; [done|done|done|]. intros rx. cbn [app wait_peers]. rewrite Hw, En. cbn [obind]. by rewrite Ec.
Qed.

(** A replica that is seen with three connections while [bootstrap] is
    waiting makes it wait for ever: whatever is reported afterwards, no node is
    returned, since the counter is compared with two. *)
Theorem third_connection_blocks cfg seed pre rx i : config_ok cfg ->
  Z.of_nat (length pre + length rx) <= i32_MAX -> node_bootstrap cfg None seed pre = Done None ->
  Z.of_nat i < cfg_n cfg -> Z.of_nat i <> nid (cfg_id cfg) ->
  (2 < conn_count (cfg_first_cli cfg) i pre)%nat ->
  forall node rogue rest, node_bootstrap cfg None seed (pre ++ rx) <> Done (Some (Ok (node, rogue), rest)).
Proof.
  intros Hcfg Hlen Hnone Hi Hne Hc node rogue rest Hr.
  destruct (node_bootstrap_waits cfg seed Hcfg) as (n0 & Hid & _ & _ & _ & _ & E). rewrite E in Hnone.
  destruct (wait_peers_none _ _ _ _ _ (length rx) (room_start _ _ Hlen) Hnone) 
    as (n1 & c1 & r1 & Hid1 & Hroom & Hc1 & Hrx).
  rewrite E, Hrx in Hr. destruct (wait_peers_ok _ _ _ _ _ _ _ _ Hroom Hr) as (p & r & _ & _ & Hw).
  destruct Hw as (_ & _ & _ & _ & Hcnt).
  assert (Hx : replicate (Z.to_nat (cfg_n cfg)) 0 !! i = Some 0) by (apply lookup_replicate; split; [done|lia]).
  specialize (Hcnt i _ (Hc1 i 0 Hx)). rewrite Hid1, Hid in Hcnt. specialize (Hcnt Hne). lia.
Qed.

(** At first the node waits, if there is another one. *)
Lemma bootstrap_starts_waiting my_id n : 1 < n -> waiting_for my_id (replicate (Z.to_nat n) 0) = true.
Proof.
  intros Hn. destruct (waiting_for my_id _) eqn:Hw; [done|]. exfalso. rewrite waiting_for_false in Hw.
  assert (H01 : forall i, (i < Z.to_nat n)%nat -> replicate (Z.to_nat n) 0 !! i = Some 0)
    by (intros i Hi; by apply lookup_replicate).
  destruct (Z.eq_dec (nid my_id) 0) as [E|E].
  - specialize (Hw 1%nat 0 (H01 1%nat ltac:(lia)) ltac:(lia)). lia.
  - specialize (Hw 0%nat 0 (H01 0%nat ltac:(lia)) ltac:(lia)). lia.
Qed.

(** A peer that announces itself with an id between the replicas and the clients
    ends the program: the counter of its connections is out of range. *)
Theorem unknown_id_panics cfg seed id rx : config_ok cfg -> 1 < cfg_n cfg ->
  cfg_n cfg <= nid id < nid (cfg_first_cli cfg) ->
  node_bootstrap cfg None seed (ConnectedRx id :: rx) = Panic.
Proof.
  intros Hcfg Hn Hid. destruct (node_bootstrap_waits cfg seed Hcfg) as (node & _ & _ & Hfc & _ & _ & ->).
  cbn [wait_peers]. rewrite bootstrap_starts_waiting by done.
  destruct (handle_rx_done node id) as [node' ->].
  { intros _ Hge. rewrite Hfc in Hge. unfold node_ge in Hge. apply Z.geb_le in Hge. lia. }
  cbn [obind]. unfold count_connection, node_lt, usize_from_node.
  assert ((nid id <? nid (cfg_first_cli cfg)) = true) as -> by (apply Z.ltb_lt; lia).
  assert (replicate (Z.to_nat (cfg_n cfg)) 0 !! Z.to_nat (nid id) = None) as -> by (apply lookup_replicate_None; lia).
  done.
Qed.

(** A client without an address in the configuration ends a replica it connects
    to. *)
Theorem unknown_client_panics cfg seed id rx : config_ok cfg -> 1 < cfg_n cfg ->
  nid (cfg_id cfg) < nid (cfg_first_cli cfg) <= nid id -> cfg_addrs cfg !! id = None ->
  node_bootstrap cfg None seed (ConnectedRx id :: rx) = Panic.
Proof.
  intros Hcfg Hn Hid Ha. destruct (node_bootstrap_waits cfg seed Hcfg) as (node & _ & Hp & Hfc & Had & Hsv & ->).
  cbn [wait_peers]. rewrite bootstrap_starts_waiting by done. unfold handle_connected_rx.
  assert (node_lt (cfg_id cfg) (cfg_first_cli cfg) = true) as El by (apply Z.ltb_lt; lia). rewrite El in Hsv.
  destruct (peer_tx node) as [|conns]; [done|]. cbn in Hp. subst conns.
  assert (node_ge id (first_cli node) = true) as -> by (rewrite Hfc; unfold node_ge; apply Z.geb_le; lia).
  rewrite bool_decide_eq_false_2 by set_solver. cbn [andb negb]. by rewrite Had, Ha.
Qed.

End connect.

(** ** Witnesses: four replicas, clients from 1000 on *)

#[local] Existing Instance toy_hash.
#[local] Existing Instance toy_sig.
#[local] Existing Instance toy_data.

Definition w_addrs : gmap NodeId (string * string) :=
  list_to_map (map (fun i => (i, ("127.0.0.1", "localhost"))) (targets_u32 4 ++ [mkNodeId 1001])).

Definition w_config (i : Z) : NodeConfig :=
  mkConfig 4 1 (mkNodeId i) (mkNodeId 1000) w_addrs ∅ 5.

Lemma w_config_ok : config_ok (w_config 0).
Proof.
  split_and!.
  - unfold params_ok. cbn. lia.
  - left. cbn. lia.
  - refine (bool_decide_unpack _ _). vm_compute. exact I.
  - intros i Hi. cbn in Hi. repeat (apply elem_of_cons in Hi as [->|Hi]);
      try (by apply elem_of_nil in Hi); refine (bool_decide_unpack _ _); vm_compute; exact I.
Qed.

Lemma handshake_roundtrip_witness : exists buf,
  hello (mkNodeId 1) (mkNodeId 2) 77 = Done buf /\
  rx_side_accept_task (S := Z) (O := Z) (P := Z) (mkNodeId 1000) (mkNodeId 2) (Some (buf ++ [9; 9])) =
    (ConnectedRx (mkNodeId 1), [9; 9]).
Proof.
  apply (handshake_roundtrip (S := Z) (O := Z) (P := Z) (mkNodeId 1000) (mkNodeId 1) (mkNodeId 2) 77 (mkNodeId 2) [9; 9]);
    vm_compute; split; congruence.
Defined.

Definition w_reports : list (Message Z Z Z) :=
  [ConnectedTx (mkNodeId 2); ConnectedRx (mkNodeId 1); ConnectedRx (mkNodeId 1001); Timeout (TimeoutCst ZERO);
   ConnectedTx (mkNodeId 1); ConnectedTx (mkNodeId 3); ConnectedRx (mkNodeId 3); ConnectedRx (mkNodeId 2)].

Lemma bootstrap_connects_group_witness : exists node pre rest,
  node_bootstrap (w_config 0) None (replicate 32 1) w_reports =
    Done (Some (Ok (node, List.filter is_rogue pre), rest)) /\
  w_reports = pre ++ rest /\ node_id node = mkNodeId 0 /\ connected node (targets 4).
Proof.
  apply (bootstrap_connects_group (w_config 0) (replicate 32 1) w_reports).
  - exact w_config_ok.
  - vm_compute. congruence.
  - repeat (apply Forall_cons_2; [split; [reflexivity|]; intros id Hid; try discriminate Hid;
      injection Hid as <-; vm_compute; congruence || lia|]). apply Forall_nil_2.
  - split.
    + cbn. repeat (apply NoDup_cons; split; [set_solver|]). apply NoDup_nil_2.
    + intros m id Hm Hid. cbn in Hm. repeat (apply elem_of_cons in Hm as [->|Hm]);
        try (by apply elem_of_nil in Hm); try discriminate Hid; injection Hid as <-; vm_compute; split; congruence.
  - intros _ id Hin Hge. cbn in Hin. repeat (apply elem_of_cons in Hin as [Hin|Hin]);
      try (by apply elem_of_nil in Hin); try discriminate Hin; injection Hin as ->; try (vm_compute in Hge; discriminate Hge).
    refine (bool_decide_unpack _ _). vm_compute. exact I.
  - intros i Hi Hne. cbn in Hi, Hne. destruct i as [|[|[|[|i]]]]; try lia; reflexivity.
Defined.

(** Replica 1 connects twice more, before the others have been seen. *)
Definition w_thrice : list (Message Z Z Z) :=
  [ConnectedTx (mkNodeId 1); ConnectedRx (mkNodeId 1); ConnectedRx (mkNodeId 1)].

Lemma w_thrice_waits : node_bootstrap (w_config 0) None (replicate 32 1) w_thrice = Done None.
Proof.
  assert (E : (match node_bootstrap (w_config 0) None (replicate 32 1) w_thrice with
               | Done None => true | _ => false end) = true) by (vm_compute; reflexivity).
  by destruct (node_bootstrap _ _ _ _) as [[?|]|].
Qed.

Lemma third_connection_blocks_witness : forall node rogue rest,
  node_bootstrap (w_config 0) None (replicate 32 1) (w_thrice ++ w_reports)
  <> Done (Some (Ok (node, rogue), rest)).
Proof.
  apply (third_connection_blocks (w_config 0) (replicate 32 1) w_thrice w_reports 1).
  - exact w_config_ok.
  - vm_compute. congruence.
  - exact w_thrice_waits.
  - cbn. lia.
  - cbn. lia.
  - vm_compute. lia.
Defined.

Lemma unknown_id_panics_witness :
  node_bootstrap (S := Z) (O := Z) (P := Z) (w_config 0) None (replicate 32 1) [ConnectedRx (mkNodeId 500)] = Panic.
Proof. apply (unknown_id_panics (w_config 0)); [exact w_config_ok|vm_compute; reflexivity|vm_compute; split; congruence]. Defined.

Lemma unknown_client_panics_witness :
  node_bootstrap (S := Z) (O := Z) (P := Z) (w_config 0) None (replicate 32 1) [ConnectedRx (mkNodeId 1002)] = Panic.
Proof.
  apply (unknown_client_panics (w_config 0)); [exact w_config_ok|vm_compute; reflexivity|vm_compute; split; congruence|].
  vm_compute. reflexivity.
Defined.

Definition w_deaf_reports : list (Message Z Z Z) :=
  [ConnectedRx (mkNodeId 1); ConnectedRx (mkNodeId 1); ConnectedTx (mkNodeId 2); ConnectedRx (mkNodeId 2);
   ConnectedTx (mkNodeId 3); ConnectedRx (mkNodeId 3)].

(** Two connections accepted from one replica count like one in each
    direction: [bootstrap] returns a node that is not connected to it, and the
    first message the node broadcasts to the group ends the program. *)
Theorem receive_side_counts_twice : exists node rest,
  node_bootstrap (w_config 0) None (replicate 32 1) w_deaf_reports = Done (Some (Ok (node, []), rest)) /\
  forall m, broadcast node m (targets 4) = Panic.
Proof.
  assert (E : (match node_bootstrap (w_config 0) None (replicate 32 1) w_deaf_reports with
               | Done (Some (Ok (node, []), _)) =>
                 match send_tos (node_id node) (peer_tx node) (targets 4) with Panic => true | Done _ => false end
               | _ => false
               end) = true) by (vm_compute; reflexivity).
  destruct (node_bootstrap _ _ _ _) as [[[[[node [|]]|] rest]|]|]; try discriminate.
  exists node, rest. split; [reflexivity|]. intros m. unfold broadcast.
  destruct (send_tos _ _ _); [discriminate|reflexivity].
Qed.
