(* ===== verification/Timeouts.v ===== *)
(** * Timeouts ([src/bft/timeouts/mod.rs])

    A timeout is a task that sleeps and then sends a [Timeout] message to the
    node's channel, unless it has been cancelled. The handle keeps a counter,
    the set of cancelled timeouts and the tasks that are still asleep; [fire]
    is the end of the sleep of one of them. Durations are not modelled beyond
    being recorded: any sleeping task may wake up next. *)

From S2P Require Import Prelude Ordering Message.
Local Open Scope Z_scope.

(** A sleeping task; [tk_seq] is its number when it can be cancelled. *)
Record Task := mkSleep { tk_dur : Z; tk_kind : TimeoutKind; tk_seq : option Z }.

Record TimeoutsHandle := mkTimeouts {
  current_seq_no : Z;
  canceled : gset Z;
  asleep : list Task
}.

Definition timeouts_new : TimeoutsHandle := mkTimeouts 0 ∅ [].

(** [fetch_add] on an [AtomicU64] wraps. *)
Definition gen_seq_no (self : TimeoutsHandle) : Z * TimeoutsHandle :=
  (current_seq_no self,
   mkTimeouts (wrap_u64 (current_seq_no self + 1)) (canceled self) (asleep self)).

Definition cancel (self : TimeoutsHandle) (seq : Z) : TimeoutsHandle :=
  mkTimeouts (current_seq_no self) ({[seq]} ∪ canceled self) (asleep self).

Definition was_canceled (self : TimeoutsHandle) (seq : Z) : bool * TimeoutsHandle :=
  (bool_decide (seq ∈ canceled self),
   mkTimeouts (current_seq_no self) (canceled self ∖ {[seq]}) (asleep self)).

Definition spawn_sleep (self : TimeoutsHandle) (t : Task) : TimeoutsHandle :=
  mkTimeouts (current_seq_no self) (canceled self) (asleep self ++ [t]).

Definition timeout (self : TimeoutsHandle) (dur : Z) (kind : TimeoutKind) : TimeoutsHandle :=
  spawn_sleep self (mkSleep dur kind None).

Definition timeout_with_cancel (self : TimeoutsHandle) (dur : Z) (kind : TimeoutKind)
  : Z * TimeoutsHandle :=
  let '(seq, self) := gen_seq_no self in
  (seq, spawn_sleep self (mkSleep dur kind (Some seq))).

(** The [i]-th sleeping task wakes up: the message it sends, if any. *)
Definition fire (self : TimeoutsHandle) (i : nat) : option (option TimeoutKind * TimeoutsHandle) :=
  match asleep self !! i with
  | None => None
  | Some t =>
    let self := mkTimeouts (current_seq_no self) (canceled self) (delete i (asleep self)) in
    match tk_seq t with
    | None => Some (Some (tk_kind t), self)
    | Some seq =>
      let '(c, self) := was_canceled self seq in
      Some (if c then None else Some (tk_kind t), self)
    end
  end.

(** ** Which timeouts fire *)

(** The numbers of the sleeping tasks that can be cancelled are distinct and
    already drawn. *)
Definition sleep_seqs (self : TimeoutsHandle) : list Z := omap tk_seq (asleep self).

Definition timeouts_ok (self : TimeoutsHandle) : Prop :=
  0 <= current_seq_no self /\ NoDup (sleep_seqs self) /\
  (forall s, s ∈ sleep_seqs self -> 0 <= s < current_seq_no self).

Inductive timeouts_step : TimeoutsHandle -> TimeoutsHandle -> Prop :=
| ts_timeout self dur kind : timeouts_step self (timeout self dur kind)
| ts_with_cancel self dur kind : current_seq_no self + 1 < 18446744073709551616 ->
    timeouts_step self (timeout_with_cancel self dur kind).2
| ts_cancel self seq : 0 <= seq < current_seq_no self -> timeouts_step self (cancel self seq)
| ts_fire self i k self' : fire self i = Some (k, self') -> timeouts_step self self'.

Lemma sleep_seqs_delete l i t : l !! i = Some t ->
  omap tk_seq l ≡ₚ option_list (tk_seq t) ++ omap tk_seq (delete i l).
Proof.
  intros Hi. destruct (list_elem_of_split_length l i t Hi) as (l1 & l2 & -> & ->).
  rewrite delete_middle, !omap_app. cbn. destruct (tk_seq t); [|done]. cbn.
  by rewrite <- Permutation_middle.
Qed.

Lemma omap_snoc l t : omap tk_seq (l ++ [t]) = omap tk_seq l ++ option_list (tk_seq t).
Proof. rewrite omap_app. cbn. by destruct (tk_seq t). Qed.

Lemma timeouts_step_ok s s' : timeouts_step s s' -> timeouts_ok s -> timeouts_ok s'.
Proof.
  intros Hst (H0 & Hn & Hb). destruct Hst as [s dur kind|s dur kind Hlt|s seq Hin|s i k s' Hf].
  - unfold timeouts_ok, sleep_seqs in *. cbn [timeout spawn_sleep asleep canceled current_seq_no].
    by rewrite omap_snoc, app_nil_r.
  - unfold timeouts_ok, sleep_seqs in *.
    cbn [timeout_with_cancel gen_seq_no spawn_sleep asleep canceled current_seq_no snd].
    rewrite omap_snoc. cbn [tk_seq option_list]. unfold wrap_u64. rewrite Z.mod_small by lia.
    split_and!; [lia| |].
    + apply NoDup_app. split_and!; [done| |apply NoDup_singleton].
      intros x Hx Hx'. apply list_elem_of_singleton in Hx'. apply Hb in Hx. lia.
    + intros x [Hx|Hx%list_elem_of_singleton]%elem_of_app; [apply Hb in Hx; lia|lia].
  - unfold timeouts_ok, sleep_seqs in *. by cbn.
  - unfold fire in Hf. destruct (asleep s !! i) as [t|] eqn:Ht; [|done].
    pose proof (sleep_seqs_delete _ _ _ Ht) as Hp. unfold timeouts_ok, sleep_seqs in *.
    rewrite Hp in Hn. assert (Hb' : forall x, x ∈ omap tk_seq (delete i (asleep s)) -> 0 <= x < current_seq_no s)
      by (intros x Hx; apply Hb; rewrite Hp; set_solver).
    destruct (tk_seq t) as [q|]; injection Hf as <- <-; cbn in *.
    + apply NoDup_cons in Hn as [Hq Hn]. by split_and!.
    + by split_and!.
Qed.

Lemma timeouts_steps_ok s : rtc timeouts_step timeouts_new s -> timeouts_ok s.
Proof.
  assert (Hi : timeouts_ok timeouts_new).
  { unfold timeouts_ok, sleep_seqs. cbn. split_and!; [lia|apply NoDup_nil_2|set_solver]. }
  revert Hi. generalize timeouts_new. intros s0 Hi Hr. induction Hr; eauto using timeouts_step_ok.
Qed.

(** In any history of the timeouts layer, a sleeping task that wakes up
    sends its message exactly when it was not cancelled before, and cancelling
    one task does not silence another. *)
Theorem timeout_fires_unless_canceled s i t : rtc timeouts_step timeouts_new s ->
  asleep s !! i = Some t ->
  exists s', fire s i = Some (match tk_seq t with
                              | Some seq => if bool_decide (seq ∈ canceled s) then None else Some (tk_kind t)
                              | None => Some (tk_kind t)
                              end, s') /\
    asleep s' = delete i (asleep s) /\
    (forall j u seq, asleep s' !! j = Some u -> tk_seq u = Some seq ->
       seq ∈ canceled s' <-> seq ∈ canceled s).
Proof.
  intros Hr Ht. apply timeouts_steps_ok in Hr as (_ & Hn & _). unfold fire. rewrite Ht.
  pose proof (sleep_seqs_delete _ _ _ Ht) as Hp. unfold sleep_seqs in Hn. rewrite Hp in Hn.
  destruct (tk_seq t) as [q|]; eexists; (split; [reflexivity|]); cbn; (split; [done|]); [|done].
  intros j u seq Hj Hu. cbn in Hn. apply NoDup_cons in Hn as [Hq _].
  assert (seq <> q); [|set_solver]. intros ->. apply Hq. apply list_elem_of_omap.
  exists u. split; [|done]. by apply list_elem_of_lookup_2 in Hj.
Qed.

Lemma timeout_fires_unless_canceled_witness :
  let s := cancel (timeout_with_cancel (timeout_with_cancel timeouts_new 5 (TimeoutCst ZERO)).2
                     5 (TimeoutClientRequests ZERO)).2 0 in
  (exists s', fire s 0 = Some (None, s')) /\
  (exists s', fire s 1 = Some (Some (TimeoutClientRequests ZERO), s')).
Proof.
  intros s. assert (Hr : rtc timeouts_step timeouts_new s).
  { eapply rtc_l; [apply (ts_with_cancel timeouts_new 5 (TimeoutCst ZERO)); vm_compute; reflexivity|].
    eapply rtc_l; [apply (ts_with_cancel _ 5 (TimeoutClientRequests ZERO)); vm_compute; reflexivity|].
    apply rtc_once. apply ts_cancel. vm_compute. split; congruence. }
  split.
  - destruct (timeout_fires_unless_canceled s 0 (mkSleep 5 (TimeoutCst ZERO) (Some 0)) Hr eq_refl)
      as (s' & H & _). exists s'. exact H.
  - destruct (timeout_fires_unless_canceled s 1 (mkSleep 5 (TimeoutClientRequests ZERO) (Some 1)) Hr eq_refl)
      as (s' & H & _). exists s'. exact H.
Defined.
