(* ===== verification/DecLog.v ===== *)
(** * The decision log ([DecisionLog] of [src/bft/consensus/log/mod.rs])

    The consensus messages a replica has accepted since its last checkpoint,
    and the proofs it builds from them for a view change: the incomplete proof
    of the running instance ([to_be_decided]) and the proof of the last
    decision ([last_decision]). *)

From S2P Require Import Prelude Error Ordering Crypto Params Message.
Local Open Scope Z_scope.
Local Open Scope bft_scope.

Definition declog_new : DecisionLog := mkDecisionLog None [] [] [].

Definition s_seq (s : StoredMessage ConsensusMessage) : SeqNo := c_seq (message s).
Definition s_view (s : StoredMessage ConsensusMessage) : SeqNo := c_view (message s).
Definition s_digest (s : StoredMessage ConsensusMessage) : Digest := hdr_digest (header s).

(** [u32::from(last) + 1] wraps in a release build. *)
Definition seq_plus_one (last : SeqNo) : SeqNo := seq_from_u32 (wrap_u32 (u32_from_seq last + 1)).

Definition executing (self : DecisionLog) : SeqNo :=
  match last_exec self with
  | Some last => seq_plus_one last
  | None => ZERO
  end.

(** ** The incomplete proof of the running instance *)

(** The loop over the PRE-PREPAREs, newest first. *)
Fixpoint fetch_write_set (in_exec : SeqNo) (l : list (StoredMessage ConsensusMessage))
  : outcome (list ViewDecisionPair) :=
  match l with
  | [] => Done []
  | stored :: l =>
    match cmp (s_seq stored) in_exec with
    | Eq => let! buf := fetch_write_set in_exec l in
            Done (mkVDP (s_view stored) (s_digest stored) :: buf)
    | Lt => Done []
    | Gt => Panic
    end
  end.

(** The loop over the PREPAREs, newest first. *)
Fixpoint fetch_quorum_writes (in_exec : SeqNo) (quorum : Z) (last_view : option SeqNo) (count : Z)
  (l : list (StoredMessage ConsensusMessage)) : outcome (option ViewDecisionPair) :=
  match l with
  | [] => Done None
  | stored :: l =>
    match cmp (s_seq stored) in_exec with
    | Eq =>
      let count := match last_view with
                   | None => count
                   | Some v => if decide (s_view stored = v) then count else 0
                   end in
      let last_view := Some (s_view stored) in
      let count := count + 1 in
      if count =? quorum
      then match c_kind (message stored) with
           | Prepare d => Done (Some (mkVDP (s_view stored) d))
           | _ => Panic
           end
      else fetch_quorum_writes in_exec quorum last_view count l
    | Lt => Done None
    | Gt => Panic
    end
  end.

Definition to_be_decided (self : DecisionLog) (view : ViewInfo) : outcome IncompleteProof :=
  let in_exec := executing self in
  let! write_set := fetch_write_set in_exec (rev (pre_prepares self)) in
  let quorum := wrap_usize (Z.shiftl (params_f (params view)) 1) in
  let! quorum_writes := fetch_quorum_writes in_exec quorum None 0 (rev (prepares self)) in
  Done (mkIncomplete in_exec write_set quorum_writes).

(** ** The proof of the last decision *)

Fixpoint find_pre_prepare (last_exec : SeqNo) (l : list (StoredMessage ConsensusMessage))
  : outcome (StoredMessage ConsensusMessage) :=
  match l with
  | [] => Panic
  | stored :: l => if decide (s_seq stored = last_exec) then Done stored
                   else find_pre_prepare last_exec l
  end.

(** The loop that collects the newest votes of one view for [last_exec]. *)
Fixpoint collect_votes (last_exec : SeqNo) (found : bool) (last_view : SeqNo)
  (buf : list (StoredMessage ConsensusMessage)) (l : list (StoredMessage ConsensusMessage))
  : list (StoredMessage ConsensusMessage) :=
  match l with
  | [] => buf
  | stored :: l =>
    if found then
      if decide (s_seq stored <> last_exec \/ s_view stored <> last_view) then buf
      else collect_votes last_exec found last_view (buf ++ [stored]) l
    else if decide (s_seq stored <> last_exec) then collect_votes last_exec found last_view buf l
    else collect_votes last_exec true (s_view stored) (buf ++ [stored]) l
  end.

Definition last_decision (self : DecisionLog) (view : ViewInfo) : outcome (option Proof_) :=
  match last_exec self with
  | None => Done None
  | Some last_exec =>
    let! pre_prepare := find_pre_prepare last_exec (rev (pre_prepares self)) in
    let buf := collect_votes last_exec false ZERO [] (rev (prepares self)) in
    let quorum_ := wrap_usize (Z.shiftl (params_f (params view)) 1) in
    if Z.of_nat (length buf) <? quorum_ then Done None
    else
      let prepares_ := buf in
      let buf := collect_votes last_exec false ZERO [] (rev (commits self)) in
      if Z.of_nat (length buf) <? quorum (params view) then Done None
      else Done (Some (mkProof pre_prepare prepares_ buf))
  end.

Definition collect_data (self : DecisionLog) (view : ViewInfo) : outcome CollectData :=
  let! incomplete_proof := to_be_decided self view in
  let! last_proof := last_decision self view in
  Done (mkCollect incomplete_proof last_proof).

(** ** Clearing the running instance *)

(** The indices, from the last one down, of the messages of [in_exec] at the
    end of the vector. *)
Fixpoint scan_suffix (in_exec : SeqNo) (l : list (nat * StoredMessage ConsensusMessage)) : list nat :=
  match l with
  | [] => []
  | (i, stored) :: l => if decide (s_seq stored <> in_exec) then []
                        else i :: scan_suffix in_exec l
  end.


Fixpoint swap_remove_all (scratch : list nat) (log : list (StoredMessage ConsensusMessage))
  : outcome (list (StoredMessage ConsensusMessage)) :=
  match scratch with
  | [] => Done log
  | i :: scratch => let! '(_, log) := vec_swap_remove i log in swap_remove_all scratch log
  end.

Definition clear_log (in_exec : SeqNo) (log : list (StoredMessage ConsensusMessage))
  : outcome (list (StoredMessage ConsensusMessage)) :=
  swap_remove_all (scan_suffix in_exec (rev (enumerate log))) log.

(** As [scan_suffix], also locating the newest PRE-PREPARE with digest [value]. *)
Fixpoint scan_pre_prepares (in_exec : SeqNo) (value : option Digest) (pre_prepare_i : option nat)
  (l : list (nat * StoredMessage ConsensusMessage)) : list nat * option nat :=
  match l with
  | [] => ([], pre_prepare_i)
  | (i, stored) :: l =>
    if decide (s_seq stored <> in_exec) then ([], pre_prepare_i)
    else
      let pre_prepare_i :=
        match value with
        | Some v => if decide (pre_prepare_i = None /\ s_digest stored = v) then Some i
                    else pre_prepare_i
        | None => pre_prepare_i
        end in
      let '(scratch, pre_prepare_i) := scan_pre_prepares in_exec value pre_prepare_i l in
      (i :: scratch, pre_prepare_i)
  end.

Fixpoint drain_pre_prepares (scratch : list nat) (pre_prepare_i : option nat)
  (pre_prepare : option (StoredMessage ConsensusMessage))
  (log : list (StoredMessage ConsensusMessage))
  : outcome (option (StoredMessage ConsensusMessage) * list (StoredMessage ConsensusMessage)) :=
  match scratch with
  | [] => Done (pre_prepare, log)
  | i :: scratch =>
    let! '(x, log) := vec_swap_remove i log in
    if decide (pre_prepare_i = Some i) then drain_pre_prepares scratch None (Some x) log
    else drain_pre_prepares scratch pre_prepare_i pre_prepare log
  end.

Definition clear_last_occurrences (self : DecisionLog) (in_exec : SeqNo) (value : option Digest)
  : outcome (option (StoredMessage ConsensusMessage) * DecisionLog) :=
  let '(scratch, pre_prepare_i) :=
    scan_pre_prepares in_exec value None (rev (enumerate (pre_prepares self))) in
  let! '(pre_prepare, pre_prepares_) :=
    drain_pre_prepares scratch pre_prepare_i None (pre_prepares self) in
  let! prepares_ := clear_log in_exec (prepares self) in
  let! commits_ := clear_log in_exec (commits self) in
  Done (pre_prepare, mkDecisionLog (last_exec self) pre_prepares_ prepares_ commits_).

(** ** Clearing: the loops against their specification *)

Definition of_instance (in_exec : SeqNo) (s : StoredMessage ConsensusMessage) : bool :=
  bool_decide (s_seq s = in_exec).

(** The vector without the messages of [in_exec] at its end, and those
    messages, newest first. *)
Definition strip (in_exec : SeqNo) (l : list (StoredMessage ConsensusMessage)) :=
  rev (drop_while (of_instance in_exec) (rev l)).
Definition trailing (in_exec : SeqNo) (l : list (StoredMessage ConsensusMessage)) :=
  take_while (of_instance in_exec) (rev l).

Lemma enumerate_snoc {A : Type} (l : list A) x :
  rev (enumerate (l ++ [x])) = (length l, x) :: rev (enumerate l).
Proof.
  unfold enumerate. replace (length (l ++ [x])) with (S (length l)) by (rewrite length_app; simpl; lia).
  rewrite seq_S, zip_with_app by apply length_seq. simpl. by rewrite rev_app_distr.
Qed.

Lemma swap_remove_last {A : Type} (l : list A) x :
  vec_swap_remove (length l) (l ++ [x]) = Done (x, l).
Proof.
  unfold vec_swap_remove. rewrite list_lookup_middle, last_snoc by done.
  rewrite insert_app_r_alt, Nat.sub_diag by done. simpl.
  rewrite length_app. simpl. rewrite Nat.add_sub, take_app_length. done.
Qed.

Lemma strip_snoc in_exec l x : strip in_exec (l ++ [x]) =
  if of_instance in_exec x then strip in_exec l else l ++ [x].
Proof.
  unfold strip. rewrite rev_app_distr. simpl. case_match; [done|].
  simpl. by rewrite rev_involutive.
Qed.

Lemma trailing_snoc in_exec l x : trailing in_exec (l ++ [x]) =
  if of_instance in_exec x then x :: trailing in_exec l else [].
Proof. unfold trailing. rewrite rev_app_distr. simpl. by case_match. Qed.

Lemma clear_log_spec in_exec l : clear_log in_exec l = Done (strip in_exec l).
Proof.
  unfold clear_log. induction l as [|x l IH] using rev_ind; [done|].
  rewrite enumerate_snoc, strip_snoc. unfold of_instance. simpl.
  destruct (decide (s_seq x = in_exec)) as [Heq|Hne].
  - rewrite decide_False, bool_decide_eq_true_2 by tauto. simpl.
    rewrite swap_remove_last. exact IH.
  - by rewrite decide_True, bool_decide_eq_false_2.
Qed.

Definition matches_value (value : option Digest) (s : StoredMessage ConsensusMessage) : bool :=
  match value with Some v => bool_decide (s_digest s = v) | None => false end.

(** One step of the search for the newest PRE-PREPARE with digest [value]. *)
Definition locate (value : option Digest) (i : option nat) (j : nat)
  (s : StoredMessage ConsensusMessage) : option nat :=
  match value with
  | Some v => if decide (i = None /\ s_digest s = v) then Some j else i
  | None => i
  end.

Lemma locate_spec value i j s : locate value i j s =
  match i with
  | Some k => Some k
  | None => if matches_value value s then Some j else None
  end.
Proof.
  unfold locate, matches_value. destruct value as [v|]; [|by destruct i].
  destruct i as [k|]; [by rewrite decide_False by (intros [? _]; discriminate)|].
  destruct (decide (s_digest s = v)).
  - by rewrite decide_True, bool_decide_eq_true_2.
  - by rewrite decide_False, bool_decide_eq_false_2 by tauto.
Qed.

Lemma scan_pre_prepares_cons in_exec value i j s l :
  scan_pre_prepares in_exec value i ((j, s) :: l) =
  if of_instance in_exec s
  then let r := scan_pre_prepares in_exec value (locate value i j s) l in (j :: r.1, r.2)
  else ([], i).
Proof.
  cbn [scan_pre_prepares]. unfold of_instance, locate.
  destruct (decide (s_seq s = in_exec)).
  - rewrite decide_False, bool_decide_eq_true_2 by tauto. cbn zeta.
    by destruct (scan_pre_prepares _ _ _ l).
  - by rewrite decide_True, bool_decide_eq_false_2 by done.
Qed.

Lemma scan_suffix_cons in_exec j s l : scan_suffix in_exec ((j, s) :: l) =
  if of_instance in_exec s then j :: scan_suffix in_exec l else [].
Proof.
  cbn [scan_suffix]. unfold of_instance. destruct (decide (s_seq s = in_exec)).
  - by rewrite decide_False, bool_decide_eq_true_2 by tauto.
  - by rewrite decide_True, bool_decide_eq_false_2 by done.
Qed.

(** The search index, once set, stays; the indices to remove do not depend on
    it; and it is one of the indices scanned. *)
Lemma scan_pre_prepares_set in_exec value i l :
  (scan_pre_prepares in_exec value (Some i) l).2 = Some i.
Proof.
  induction l as [|[j s] l IH]; [done|]. rewrite scan_pre_prepares_cons, locate_spec.
  by case_match.
Qed.

Lemma scan_pre_prepares_scratch in_exec value l : forall i,
  (scan_pre_prepares in_exec value i l).1 = scan_suffix in_exec l.
Proof.
  induction l as [|[j s] l IH]; intros i; [done|].
  rewrite scan_pre_prepares_cons, scan_suffix_cons. case_match; [|done]. simpl. by rewrite IH.
Qed.

Lemma scan_pre_prepares_index in_exec value l : forall k,
  (scan_pre_prepares in_exec value None l).2 = Some k -> k ∈ l.*1.
Proof.
  induction l as [|[j s] l IH]; intros k; [discriminate|].
  rewrite scan_pre_prepares_cons, locate_spec. case_match; [|discriminate]. simpl.
  case_match; [rewrite scan_pre_prepares_set; intros [= ->]; set_solver|].
  intros Hk. apply IH in Hk. set_solver.
Qed.

Lemma enumerate_index {A : Type} (l : list A) k : k ∈ (rev (enumerate l)).*1 -> (k < length l)%nat.
Proof.
  rewrite list_elem_of_fmap. intros ([j s] & -> & Hp).
  rewrite list_elem_of_In, <- in_rev in Hp. unfold enumerate in Hp.
  apply in_combine_l in Hp. apply in_seq in Hp. simpl. lia.
Qed.

Lemma drain_no_index scratch pp l r : swap_remove_all scratch l = Done r ->
  drain_pre_prepares scratch None pp l = Done (pp, r).
Proof.
  revert l. induction scratch as [|i scratch IH]; simpl; intros l; [by intros [= ->]|].
  destruct (vec_swap_remove i l) as [[x l']|]; [|discriminate]. simpl. apply IH.
Qed.

Lemma drain_spec in_exec value l :
  let r := scan_pre_prepares in_exec value None (rev (enumerate l)) in
  drain_pre_prepares r.1 r.2 None l =
  Done (List.find (matches_value value) (trailing in_exec l), strip in_exec l).
Proof.
  induction l as [|x l IH] using rev_ind; [done|]. cbn zeta.
  rewrite enumerate_snoc, strip_snoc, trailing_snoc, scan_pre_prepares_cons, locate_spec.
  case_match; [|done]. cbn [fst snd drain_pre_prepares List.find].
  rewrite swap_remove_last. cbn [obind]. destruct (matches_value value x) eqn:Em.
  - rewrite scan_pre_prepares_set, decide_True, scan_pre_prepares_scratch by done.
    apply drain_no_index. apply clear_log_spec.
  - rewrite decide_False; [exact IH|]. intros E.
    apply scan_pre_prepares_index, enumerate_index in E. lia.
Qed.

(** ** Votes of the last decision *)

Definition vote_of (last_exec view : SeqNo) (s : StoredMessage ConsensusMessage) : bool :=
  bool_decide (s_seq s = last_exec) && bool_decide (s_view s = view).

Lemma collect_votes_found last_exec view l : forall buf,
  collect_votes last_exec true view buf l = buf ++ take_while (vote_of last_exec view) l.
Proof.
  induction l as [|s l IH]; intros buf; simpl; [by rewrite app_nil_r|]. unfold vote_of at 1.
  destruct (decide (s_seq s = last_exec)) as [E1|E1], (decide (s_view s = view)) as [E2|E2].
  - rewrite decide_False, !bool_decide_eq_true_2 by tauto. simpl. rewrite IH.
    by rewrite <- app_assoc.
  - rewrite decide_True, (bool_decide_eq_false_2 (s_view s = view)), andb_false_r by tauto.
    by rewrite app_nil_r.
  - rewrite decide_True, (bool_decide_eq_false_2 (s_seq s = last_exec)) by tauto.
    by rewrite app_nil_r.
  - rewrite decide_True, (bool_decide_eq_false_2 (s_seq s = last_exec)) by tauto.
    by rewrite app_nil_r.
Qed.

Lemma take_while_elem {A : Type} (p : A -> bool) l x : x ∈ take_while p l -> x ∈ l /\ p x = true.
Proof.
  induction l as [|y l IH]; simpl; [set_solver|]. destruct (p y) eqn:E; [|set_solver].
  intros [->|Hin]%elem_of_cons; set_solver.
Qed.

(** The votes collected are votes of the log for [last_exec], of one view. *)
Lemma collect_votes_wf last_exec v0 l :
  exists view, forall s, s ∈ collect_votes last_exec false v0 [] l ->
    s ∈ l /\ s_seq s = last_exec /\ s_view s = view.
Proof.
  induction l as [|s l IH]; simpl; [exists ZERO; set_solver|].
  destruct (decide (s_seq s = last_exec)) as [E|E].
  - rewrite decide_False by tauto. exists (s_view s). rewrite collect_votes_found.
    intros t [->%list_elem_of_singleton|[Ht Hv]%take_while_elem]%elem_of_app; [set_solver|].
    unfold vote_of in Hv. apply andb_true_iff in Hv as [H1 H2].
    apply bool_decide_eq_true_1 in H1, H2. set_solver.
  - rewrite decide_True by done. destruct IH as [view Hv]. exists view. set_solver.
Qed.

Lemma find_pre_prepare_wf last_exec l s : find_pre_prepare last_exec l = Done s ->
  s ∈ l /\ s_seq s = last_exec.
Proof.
  induction l as [|x l IH]; simpl; [discriminate|]. case_decide; [intros [= ->]; set_solver|].
  intros H'. apply IH in H'. set_solver.
Qed.

Lemma find_pre_prepare_panic last_exec l : find_pre_prepare last_exec l = Panic <->
  (forall s, s ∈ l -> s_seq s <> last_exec).
Proof.
  induction l as [|x l IH]; simpl; [set_solver|]. case_decide as Hd.
  - split; [discriminate|]. intros H'. exfalso. apply (H' x); set_solver.
  - rewrite IH. set_solver.
Qed.

(** ** The incomplete proof *)

Definition not_ahead (in_exec : SeqNo) (l : list (StoredMessage ConsensusMessage)) : Prop :=
  Forall (fun s => sn (s_seq s) <= sn in_exec) l.

Lemma cmp_le_cases s e : sn (s_seq s) <= sn e ->
  (cmp (s_seq s) e = Eq /\ of_instance e s = true) \/ (cmp (s_seq s) e = Lt /\ of_instance e s = false).
Proof.
  intros H. unfold cmp, of_instance. destruct (Z.compare_spec (sn (s_seq s)) (sn e)) as [E|E|E].
  - left. split; [done|]. apply bool_decide_eq_true_2. by apply sn_inj.
  - right. split; [done|]. apply bool_decide_eq_false_2. intros E'. rewrite E' in *. lia.
  - lia.
Qed.

Lemma fetch_write_set_spec e l : not_ahead e l ->
  fetch_write_set e l = Done (map (fun s => mkVDP (s_view s) (s_digest s)) (take_while (of_instance e) l)).
Proof.
  induction 1 as [|s l Hs _ IH]; [done|]. simpl.
  destruct (cmp_le_cases s e Hs) as [[-> ->]|[-> ->]]; [|done]. by rewrite IH.
Qed.

(** A run of [q] consecutive PREPAREs of one view, the oldest of which is for
    digest [d]. *)
Definition quorum_run (e : SeqNo) (q : Z) (l : list (StoredMessage ConsensusMessage))
  (w : ViewDecisionPair) : Prop :=
  exists l1 run s l2, l = l1 ++ (run ++ [s]) ++ l2 /\ Z.of_nat (length run) + 1 = q /\
    (forall t, t ∈ run ++ [s] -> s_seq t = e /\ s_view t = vdp_view w) /\
    c_kind (message s) = Prepare (vdp_digest w).

Lemma fetch_quorum_writes_sound e q l : forall lv c w,
  (lv = None -> c = 0) -> not_ahead e l ->
  fetch_quorum_writes e q lv c l = Done (Some w) ->
  quorum_run e q l w \/
  (lv = Some (vdp_view w) /\ exists run s l2, l = (run ++ [s]) ++ l2 /\
     c + Z.of_nat (length run) + 1 = q /\
     (forall t, t ∈ run ++ [s] -> s_seq t = e /\ s_view t = vdp_view w) /\
     c_kind (message s) = Prepare (vdp_digest w)).
Proof.
  induction l as [|x l IH]; intros lv c w Hlv Hna; [discriminate|]. cbn [fetch_quorum_writes].
  apply Forall_cons in Hna as [Hx Hna].
  destruct (cmp_le_cases x e Hx) as [[-> Hi]|[-> _]]; [|discriminate].
  apply bool_decide_eq_true_1 in Hi.
  set (c' := match lv with Some v => _ | None => c end).
  assert (Hc' : (lv = Some (s_view x) /\ c' = c) \/ c' = 0).
  { subst c'. destruct lv as [v|]; [|right; by apply Hlv].
    case_decide; [left; subst; done|by right]. }
  destruct (Z.eqb_spec (c' + 1) q) as [Hq|Hq].
  - destruct (c_kind (message x)) as [|d|] eqn:Ek; try discriminate. intros [= <-].
    destruct Hc' as [[-> Hc]|Hc].
    + right. split; [done|]. exists [], x, l. simpl. split_and!; [done|lia| |done].
      intros t ->%list_elem_of_singleton. done.
    + left. exists [], [], x, l. simpl. split_and!; [done|lia| |done].
      intros t ->%list_elem_of_singleton. done.
  - intros Hf. apply IH in Hf as [(l1 & run & s & l2 & -> & Hrest)|
                                  ([= Hv] & run & s & l2 & -> & Hlen & Hall & Hk)];
      [left| |intros [=]|done].
    + exists (x :: l1), run, s, l2. done.
    + assert (Hall' : forall t, t ∈ (x :: run) ++ [s] -> s_seq t = e /\ s_view t = vdp_view w).
      { intros t [->|Ht]%elem_of_cons; [done|]. by apply Hall. }
      destruct Hc' as [[-> Hc]|Hc].
      * right. split; [by rewrite Hv|]. exists (x :: run), s, l2. cbn [length].
        split_and!; [done|lia|done|done].
      * left. exists [], (x :: run), s, l2. cbn [length]. split_and!; [done|lia|done|done].
Qed.

(** ** Properties *)

Lemma clear_last_occurrences_eq self in_exec value :
  clear_last_occurrences self in_exec value =
  Done (List.find (matches_value value) (trailing in_exec (pre_prepares self)),
        mkDecisionLog (last_exec self) (strip in_exec (pre_prepares self))
          (strip in_exec (prepares self)) (strip in_exec (commits self))).
Proof.
  unfold clear_last_occurrences. pose proof (drain_spec in_exec value (pre_prepares self)) as Hd.
  destruct (scan_pre_prepares in_exec value None (rev (enumerate (pre_prepares self)))) as [sc i].
  cbn [fst snd] in Hd. rewrite Hd. cbn [obind]. by rewrite !clear_log_spec.
Qed.

(** [clear_last_occurrences] never panics; it removes from the three
    vectors exactly the messages of [in_exec] at their end, and returns the
    newest removed PRE-PREPARE whose digest is [value], if there is one. *)
Theorem clear_last_occurrences_spec self in_exec value :
  clear_last_occurrences self in_exec value =
  Done (List.find (matches_value value) (trailing in_exec (pre_prepares self)),
        mkDecisionLog (last_exec self) (strip in_exec (pre_prepares self))
          (strip in_exec (prepares self)) (strip in_exec (commits self))).
Proof. apply clear_last_occurrences_eq. Qed.

(** C26: on a log with no message ahead of the running instance, the incomplete
    proof reports the view and digest of every trailing PRE-PREPARE, and a
    quorum write only when the log holds [2f] consecutive PREPAREs of one view
    for the running instance, one of which names the reported digest. *)
Theorem to_be_decided_sound self view w :
  params_ok (params view) ->
  not_ahead (executing self) (pre_prepares self) -> not_ahead (executing self) (prepares self) ->
  to_be_decided self view = Done w ->
  in_exec w = executing self /\
  write_set w = map (fun s => mkVDP (s_view s) (s_digest s))
                    (trailing (executing self) (pre_prepares self)) /\
  (forall vd, quorum_writes w = Some vd ->
     quorum_run (executing self) (2 * params_f (params view)) (rev (prepares self)) vd).
Proof.
  intros Hp Hpp Hpr. unfold to_be_decided. apply Forall_rev in Hpp, Hpr.
  rewrite fetch_write_set_spec by done. cbn [obind].
  rewrite double_f by done.
  returned_as qw eqn:Eq. intros [= <-]. simpl. split_and!; [done|done|]. intros vd ->.
  apply fetch_quorum_writes_sound in Eq as [Hr|[[=] _]]; done.
Qed.

(** A proof returned by [last_decision] is made of messages of the log for
    the last executed instance: its PRE-PREPARE, at least [2f] PREPAREs of one
    view and at least a quorum of COMMITs of one view. *)
Theorem last_decision_wf self view p :
  params_ok (params view) -> last_decision self view = Done (Some p) ->
  exists s, last_exec self = Some s /\
    p_pre_prepare p ∈ pre_prepares self /\ s_seq (p_pre_prepare p) = s /\
    2 * params_f (params view) <= Z.of_nat (length (p_prepares p)) /\
    2 * params_f (params view) + 1 <= Z.of_nat (length (p_commits p)) /\
    (exists v, forall m, m ∈ p_prepares p -> m ∈ prepares self /\ s_seq m = s /\ s_view m = v) /\
    (exists v, forall m, m ∈ p_commits p -> m ∈ commits self /\ s_seq m = s /\ s_view m = v).
Proof.
  intros Hp. unfold last_decision. destruct (last_exec self) as [s|]; [|discriminate].
  returned_as pp eqn:Epp.
  rewrite quorum_eq by done.
  rewrite double_f by done.
  destruct (Z.ltb_spec (Z.of_nat (length (collect_votes s false ZERO [] (rev (prepares self)))))
    (2 * params_f (params view))); [discriminate|].
  destruct (Z.ltb_spec (Z.of_nat (length (collect_votes s false ZERO [] (rev (commits self)))))
    (2 * params_f (params view) + 1)); [discriminate|].
  intros [= <-]. simpl. apply find_pre_prepare_wf in Epp as [Hin Hs].
  exists s. split_and!; try done.
  - by rewrite list_elem_of_In, in_rev, <- list_elem_of_In.
  - destruct (collect_votes_wf s ZERO (rev (prepares self))) as [v Hv]. exists v. intros m Hm.
    apply Hv in Hm as (Hm & ? & ?). by rewrite list_elem_of_In, in_rev, <- list_elem_of_In.
  - destruct (collect_votes_wf s ZERO (rev (commits self))) as [v Hv]. exists v. intros m Hm.
    apply Hv in Hm as (Hm & ? & ?). by rewrite list_elem_of_In, in_rev, <- list_elem_of_In.
Qed.

(** The number of the running instance computed by [executing] is the one
    the consensus layer moves to with [next], except after [i32::MAX], where
    [next] gives 0 and [executing] gives [i32::MIN]. *)
Theorem executing_vs_next self last : last_exec self = Some last -> seq_nonneg last ->
  (executing self = next last <-> sn last <> i32_MAX) /\
  (sn last = i32_MAX -> sn (executing self) = i32_MIN /\ sn (next last) = 0).
Proof.
  intros Hl Hn. unfold executing, seq_plus_one, u32_from_seq, seq_from_u32. rewrite Hl.
  assert (Hw : wrap_i32 (wrap_u32 (wrap_u32 (sn last) + 1)) =
               if sn last =? i32_MAX then i32_MIN else sn last + 1).
  { unfold seq_nonneg, wrap_i32, wrap_u32, i32_MAX, i32_MIN in *.
    destruct (Z.eqb_spec (sn last) 2147483647); zdm. }
  rewrite Hw. pose proof (next_sn last Hn) as Hs. revert Hs.
  destruct (Z.eqb_spec (sn last) i32_MAX) as [E|E]; intros Hs.
  - split; [|done]. split; [|done]. intros Heq. rewrite <- Heq in Hs. discriminate.
  - split; [|done]. split; [done|]. intros _. apply sn_inj. by rewrite Hs.
Qed.

(** ** Witnesses *)

Definition w_view : ViewInfo := mkView ZERO (mkParams 4 1).
Definition w_msg (seq : Z) (k : ConsensusMessageKind) : StoredMessage ConsensusMessage :=
  mkStored sample_header (mkConsensus (mkSeqNo seq) ZERO k).
Definition w_digest : Digest := mkDigest (replicate 32 9).

(** A log in the middle of instance 0, and one just after deciding it. *)
Definition w_running : DecisionLog :=
  mkDecisionLog None [w_msg 0 (PrePrepare [zero_digest])]
    [w_msg 0 (Prepare w_digest); w_msg 0 (Prepare w_digest)] [].
Definition w_decided : DecisionLog :=
  mkDecisionLog (Some (mkSeqNo 0)) [w_msg 0 (PrePrepare [zero_digest])]
    [w_msg 0 (Prepare w_digest); w_msg 0 (Prepare w_digest)]
    [w_msg 0 (Commit w_digest); w_msg 0 (Commit w_digest); w_msg 0 (Commit w_digest)].

Lemma to_be_decided_sound_witness :
  quorum_run ZERO 2 (rev (prepares w_running)) (mkVDP ZERO w_digest).
Proof.
  apply (to_be_decided_sound w_running w_view
    (mkIncomplete ZERO [mkVDP ZERO w_digest] (Some (mkVDP ZERO w_digest)))).
  - unfold params_ok; simpl; lia.
  - repeat constructor; vm_compute; discriminate.
  - repeat constructor; vm_compute; discriminate.
  - reflexivity.
  - reflexivity.
Defined.

Lemma last_decision_wf_witness :
  exists s, last_exec w_decided = Some s /\ 3 <= Z.of_nat (length (commits w_decided)).
Proof.
  destruct (last_decision_wf w_decided w_view
    (mkProof (w_msg 0 (PrePrepare [zero_digest])) (rev (prepares w_decided))
       (rev (commits w_decided)))) as (s & Hs & _ & _ & _ & Hc & _).
  - unfold params_ok; simpl; lia.
  - reflexivity.
  - exists s. split; [done|exact Hc].
Defined.

Lemma executing_vs_next_witness :
  let l := mkDecisionLog (Some (mkSeqNo i32_MAX)) [] [] [] in
  sn (executing l) = i32_MIN /\ sn (next (mkSeqNo i32_MAX)) = 0.
Proof.
  apply (executing_vs_next (mkDecisionLog (Some (mkSeqNo i32_MAX)) [] [] []) (mkSeqNo i32_MAX)).
  - reflexivity.
  - vm_compute. split; discriminate.
  - reflexivity.
Defined.
