(* ===== verification/Log.v ===== *)
(** * The message log ([Log] of [src/bft/consensus/log/mod.rs])

    Client requests wait in [requests] until they are put up for a decision
    ([deciding]); a decided batch leaves both, its operations are appended to
    [decided], and every [PERIOD] instances a checkpoint of the application
    state is taken. Operations that return a [Result] give the log after the
    call together with the result: an error leaves behind what was done before
    it. *)

From S2P Require Import Prelude Error Ordering Crypto Params Message Collections DecLog.
Local Open Scope Z_scope.

Inductive Info := Nil | BeginCheckpoint.

Inductive CheckpointState (S : Type) :=
| CpNone
| Partial (seq : SeqNo)
| PartialWithEarlier (seq : SeqNo) (earlier : Checkpoint S)
| Complete (checkpoint : Checkpoint S).
Arguments CpNone {S}.
Arguments Partial {S} seq.
Arguments PartialWithEarlier {S} seq earlier.
Arguments Complete {S} checkpoint.

Record Log (S O : Type) `{OrderedMap Digest} := mkLog {
  l_curr_seq : SeqNo;
  l_batch_size : nat;
  declog : DecisionLog;
  requests : lhm (StoredMessage (RequestMessage O));
  deciding : gmap Digest (StoredMessage (RequestMessage O));
  decided : list O;
  checkpoint : CheckpointState S
}.
Arguments mkLog {S O H} l_curr_seq l_batch_size declog requests deciding decided checkpoint.
Arguments l_curr_seq {S O H} l.
Arguments l_batch_size {S O H} l.
Arguments declog {S O H} l.
Arguments requests {S O H} l.
Arguments deciding {S O H} l.
Arguments decided {S O H} l.
Arguments checkpoint {S O H} l.

Section log.
Context {S O P : Type} `{HashFn, RandomState, OrderedMap Digest}.

Implicit Type self : Log S O.

Definition log_new (batch_size : nat) : Log S O :=
  mkLog ZERO batch_size declog_new om_new ∅ [] CpNone.

(** Field updates. *)
Definition with_declog self (d : DecisionLog) : Log S O :=
  mkLog (l_curr_seq self) (l_batch_size self) d (requests self) (deciding self) (decided self)
    (checkpoint self).
Definition with_queues self (r : lhm (StoredMessage (RequestMessage O)))
  (g : gmap Digest (StoredMessage (RequestMessage O))) : Log S O :=
  mkLog (l_curr_seq self) (l_batch_size self) (declog self) r g (decided self) (checkpoint self).
Definition with_decided self (d : list O) : Log S O :=
  mkLog (l_curr_seq self) (l_batch_size self) (declog self) (requests self) (deciding self) d
    (checkpoint self).
Definition with_checkpoint self (c : CheckpointState S) : Log S O :=
  mkLog (l_curr_seq self) (l_batch_size self) (declog self) (requests self) (deciding self)
    (decided self) c.
Definition with_curr_seq self (s : SeqNo) : Log S O :=
  mkLog s (l_batch_size self) (declog self) (requests self) (deciding self) (decided self)
    (checkpoint self).

Definition install_state self (last_seq : SeqNo) (rs : RecoveryState S O) : Log S O :=
  mkLog last_seq (l_batch_size self) (rs_declog rs) (requests self) (deciding self)
    (rs_requests rs) (Complete (rs_checkpoint rs)).

Definition snapshot self (view : ViewInfo) : result (RecoveryState S O) :=
  match checkpoint self with
  | Complete checkpoint => Ok (mkRecovery view checkpoint (decided self) (declog self))
  | _ => err_wrapped "Checkpoint to be finalized" "ConsensusLog"
  end.

Definition push_consensus (d : DecisionLog) (stored : StoredMessage ConsensusMessage) : DecisionLog :=
  match c_kind (message stored) with
  | PrePrepare _ => mkDecisionLog (last_exec d) (pre_prepares d ++ [stored]) (prepares d) (commits d)
  | Prepare _ => mkDecisionLog (last_exec d) (pre_prepares d) (prepares d ++ [stored]) (commits d)
  | Commit _ => mkDecisionLog (last_exec d) (pre_prepares d) (prepares d) (commits d ++ [stored])
  end.

Definition insert self (header : Header) (message : SystemMessage S O P) : Log S O :=
  match message with
  | Request message =>
    let digest := unique_digest header in
    let stored := mkStored header message in
    with_queues self (om_insert digest stored (requests self)) (delete digest (deciding self))
  | Message.Consensus message => with_declog self (push_consensus (declog self) (mkStored header message))
  | _ => self
  end.

Definition next_batch self : option (list Digest) * Log S O :=
  match om_pop_front (requests self) with
  | None => (None, self)
  | Some ((digest, stored), requests') =>
    let deciding' := <[digest := stored]> (deciding self) in
    let self := with_queues self requests' deciding' in
    if decide (l_batch_size self <= size deciding')%nat
    then (Some (take (l_batch_size self) (map_keys deciding')), self)
    else (None, self)
  end.

Definition view_change_propose self : list Digest :=
  take (l_batch_size self) (om_keys (requests self) ++ map_keys (deciding self)).

Definition has_request self (digest : Digest) : bool :=
  if bool_decide (is_Some (deciding self !! digest)) then true
  else if om_contains_key digest (requests self) then true
  else false.

Definition get_request self (d : Digest) : option (StoredMessage (RequestMessage O)) :=
  match deciding self !! d with
  | Some r => Some r
  | None => om_get d (requests self)
  end.

Definition clone_requests self (digests : list Digest) : list (StoredMessage (RequestMessage O)) :=
  omap (get_request self) digests.

(** [deciding.remove(digest).or_else(|| requests.remove(digest))] *)
Definition remove_request self (digest : Digest)
  : option (StoredMessage (RequestMessage O)) * Log S O :=
  match deciding self !! digest with
  | Some r => (Some r, with_queues self (requests self) (delete digest (deciding self)))
  | None =>
    let '(r, requests') := om_remove digest (requests self) in
    (r, with_queues self requests' (delete digest (deciding self)))
  end.

Fixpoint collect_batch self (digests : list Digest) (batch : UpdateBatch O)
  : Log S O * result (UpdateBatch O) :=
  match digests with
  | [] => (self, Ok batch)
  | digest :: digests =>
    match remove_request self digest with
    | (Some stored, self) =>
      collect_batch self digests
        (batch_add batch (hdr_from (header stored)) digest (operation (message stored)))
    | (None, self) => (self, Err (Errors.simple "ConsensusLog"))
    end
  end.

Definition begin_checkpoint self (seq : SeqNo) : Log S O * result Info :=
  let earlier := checkpoint self in
  let self := with_checkpoint self CpNone in
  match earlier with
  | CpNone => (with_checkpoint self (Partial seq), Ok BeginCheckpoint)
  | Complete earlier => (with_checkpoint self (PartialWithEarlier seq earlier), Ok BeginCheckpoint)
  | _ => (self, err_wrapped "Invalid checkpoint state detected" "ConsensusLog")
  end.

Definition set_last_exec (d : DecisionLog) (seq : SeqNo) : DecisionLog :=
  mkDecisionLog (Some seq) (pre_prepares d) (prepares d) (commits d).

Definition last_pre_prepare_seq self : SeqNo :=
  match last (pre_prepares (declog self)) with
  | Some stored => s_seq stored
  | None => l_curr_seq self
  end.

Definition finalize_batch self (seq : SeqNo) (digests : list Digest)
  : Log S O * result (Info * UpdateBatch O) :=
  match collect_batch self digests batch_new with
  | (self, Err e) => (self, Err e)
  | (self, Ok batch) =>
    let self := with_decided self (decided self ++ map u_operation batch) in
    let last_seq_no := last_pre_prepare_seq self in
    let last_seq_no_u32 := u32_from_seq last_seq_no in
    let '(self, info) :=
      if (last_seq_no_u32 >? 0) && (last_seq_no_u32 mod PERIOD =? 0)
      then begin_checkpoint self last_seq_no
      else (self, Ok Nil) in
    match info with
    | Err e => (self, Err e)
    | Ok info => (with_declog self (set_last_exec (declog self) seq), Ok (info, batch))
    end
  end.

(** The end of a checkpoint: the log is cleared, keeping the number of the
    last PRE-PREPARE. *)
Definition complete_checkpoint self (seq : SeqNo) (appstate : S) : Log S O :=
  let self := with_checkpoint self (Complete (mkCheckpoint seq appstate)) in
  let self := with_decided self [] in
  let self := match last (pre_prepares (declog self)) with
              | Some last_pre_prepare => with_curr_seq self (s_seq last_pre_prepare)
              | None => self
              end in
  with_declog self (mkDecisionLog (last_exec (declog self)) [] [] []).

Definition finalize_checkpoint self (appstate : S) : Log S O * result unit :=
  match checkpoint self with
  | CpNone => (self, err_wrapped "No checkpoint has been initiated yet" "ConsensusLog")
  | Complete _ => (self, err_wrapped "Checkpoint already finalized" "ConsensusLog")
  | Partial seq | PartialWithEarlier seq _ => (complete_checkpoint self seq appstate, Ok tt)
  end.

End log.

(** ** The pending requests as one map

    [requests] and [deciding] together implement one map from digests to
    requests; [get_request] reads it. *)

Section facts.
Context {S O P : Type} `{HashFn, RandomState, !OrderedMap Digest, !OrderedMapLaws Digest}.

Implicit Type self : Log S O.

(** No request waits in both containers. *)
Definition queues_disjoint self : Prop :=
  forall d, is_Some (deciding self !! d) -> om_get d (requests self) = None.

Lemma has_request_get self d : has_request self d = true <-> is_Some (get_request self d).
Proof.
  unfold has_request, get_request, om_contains_key. destruct (deciding self !! d) as [r|] eqn:E.
  - rewrite bool_decide_eq_true_2 by eauto. split; [eauto|done].
  - rewrite bool_decide_eq_false_2 by (intros [? ?]; congruence).
    destruct (om_get d (requests self)); split; try done; by intros [? ?].
Qed.

Lemma queues_disjoint_new k : queues_disjoint (log_new (S := S) k).
Proof. intros d [r Hr]. simpl in Hr. by rewrite lookup_empty in Hr. Qed.

Lemma get_request_insert self h (m : RequestMessage O) d : 
  get_request (insert self h (Request (S := S) (P := P) m)) d =
  if decide (d = unique_digest h) then Some (mkStored h m) else get_request self d.
Proof.
  unfold get_request. simpl. rewrite om_get_insert, lookup_delete.
  destruct (decide (unique_digest h = d)) as [<-|Hne].
  - by rewrite !decide_True by done.
  - by rewrite !decide_False by congruence.
Qed.

Lemma queues_disjoint_insert self h (m : SystemMessage S O P) :
  queues_disjoint self -> queues_disjoint (insert self h m).
Proof.
  intros Hd d. destruct m as [m| |m| | |]; try exact (Hd d). simpl.
  rewrite om_get_insert, lookup_delete. destruct (decide (unique_digest h = d)).
  - intros [? ?]; discriminate.
  - rewrite decide_False by congruence. apply Hd.
Qed.

Lemma next_batch_state self : snd (next_batch self) =
  match om_pop_front (requests self) with
  | None => self
  | Some ((digest, stored), requests') =>
    with_queues self requests' (<[digest := stored]> (deciding self))
  end.
Proof.
  unfold next_batch. destruct (om_pop_front (requests self)) as [[[digest stored] rq]|]; [|done].
  by case_decide.
Qed.

Lemma get_request_next_batch self d : queues_disjoint self ->
  get_request (snd (next_batch self)) d = get_request self d.
Proof.
  intros Hd. rewrite next_batch_state.
  destruct (om_pop_front (requests self)) as [[[k v] rq]|] eqn:E; [|done].
  apply om_pop_front_get in E as [Hk Hrq]. unfold get_request. simpl.
  rewrite Hrq, lookup_insert. destruct (decide (k = d)) as [->|Hne].
  - destruct (deciding self !! d) as [r|] eqn:Er; [|by rewrite Hk].
    exfalso. assert (om_get d (requests self) = None) by (apply Hd; eauto). congruence.
  - by rewrite (decide_False (P := d = k)) by congruence.
Qed.

Lemma queues_disjoint_next_batch self : queues_disjoint self ->
  queues_disjoint (snd (next_batch self)).
Proof.
  intros Hd. rewrite next_batch_state.
  destruct (om_pop_front (requests self)) as [[[k v] rq]|] eqn:E; [|done].
  apply om_pop_front_get in E as [Hk Hrq]. intros d. simpl. rewrite Hrq, lookup_insert.
  destruct (decide (k = d)) as [->|Hne]; [by rewrite decide_True|].
  rewrite (decide_False (P := d = k)) by congruence. apply Hd.
Qed.

(** ** Taking a decided batch out of the log *)

Lemma remove_request_spec self d : queues_disjoint self ->
  fst (remove_request self d) = get_request self d /\
  queues_disjoint (snd (remove_request self d)) /\
  forall d', get_request (snd (remove_request self d)) d' =
             if decide (d' = d) then None else get_request self d'.
Proof.
  intros Hd. unfold remove_request, get_request, queues_disjoint.
  destruct (deciding self !! d) as [r|] eqn:E.
  - simpl. split_and!; [done| |].
    + intros d'. rewrite lookup_delete. case_decide; [intros [? ?]; discriminate|apply Hd].
    + intros d'. rewrite lookup_delete. destruct (decide (d = d')) as [<-|].
      * rewrite decide_True by done. apply Hd. eauto.
      * by rewrite decide_False by congruence.
  - destruct (om_remove d (requests self)) as [r rq] eqn:Er.
    pose proof (om_remove_fst (requests self) d) as Er1.
    pose proof (fun k' => om_get_remove (requests self) d k') as Er2.
    rewrite Er in Er1, Er2. simpl in Er1, Er2 |- *. split_and!; [done| |].
    + intros d'. rewrite lookup_delete, Er2. destruct (decide (d = d')); [by intros [? ?]|].
      rewrite decide_False by congruence. apply Hd.
    + intros d'. rewrite lookup_delete, Er2. destruct (decide (d = d')) as [<-|].
      * by rewrite !decide_True by done.
      * by rewrite !decide_False by congruence.
Qed.

(** The untouched part of the log, as far as batches are concerned. *)
Definition same_rest (l1 l2 : Log S O) : Prop :=
  l_curr_seq l1 = l_curr_seq l2 /\ l_batch_size l1 = l_batch_size l2 /\ declog l1 = declog l2 /\
  decided l1 = decided l2 /\ checkpoint l1 = checkpoint l2.

Lemma remove_request_rest self d : same_rest (snd (remove_request self d)) self.
Proof.
  unfold remove_request, same_rest. destruct (deciding self !! d); [done|].
  by destruct (om_remove d (requests self)).
Qed.

Definition update_of self (d : Digest) : option (Update O) :=
  (fun s => mkUpdate (hdr_from (header s)) d (operation (message s))) <$> get_request self d.

Lemma omap_ext_elem {A B : Type} (f g : A -> option B) (l : list A) :
  (forall x, x ∈ l -> f x = g x) -> omap f l = omap g l.
Proof.
  induction l as [|x l IH]; intros Hl; [done|]. cbn. rewrite (Hl x) by set_solver.
  assert (E : omap f l = omap g l) by (apply IH; set_solver).
  destruct (g x); [f_equal|]; exact E.
Qed.

(** [r] is a request that the log holds under [d]; [batch] are the operations of
    the requests with the digests [ds], in this order. *)
Definition holds self (d : Digest) (r : StoredMessage (RequestMessage O)) : Prop :=
  deciding self !! d = Some r \/ om_get d (requests self) = Some r.

Definition batch_for self (ds : list Digest) (batch : UpdateBatch O) : Prop :=
  Forall2 (fun d u => exists r, holds self d r /\
    u = mkUpdate (hdr_from (header r)) d (operation (message r))) ds batch.

Lemma remove_request_holds self d r self' : remove_request self d = (r, self') ->
  (forall x, r = Some x -> holds self d x) /\ forall d' x, holds self' d' x -> holds self d' x.
Proof.
  unfold remove_request, holds. destruct (deciding self !! d) as [y|] eqn:E.
  - intros [= <- <-]. split; [intros x [= <-]; by left|]. cbn. intros d' x [Hx|Hx]; [left|by right].
    by apply lookup_delete_Some in Hx as [_ Hx].
  - pose proof (om_remove_fst (requests self) d) as E1.
    pose proof (fun k' => om_get_remove (requests self) d k') as E2.
    destruct (om_remove d (requests self)) as [y rq]. cbn in E1, E2. intros [= <- <-]. cbn. split.
    + intros x ->. right. done.
    + intros d' x. rewrite E2. intros [Hx|Hx]; [left; by apply lookup_delete_Some in Hx as [_ Hx]|right].
      by destruct (decide _).
Qed.

Lemma collect_batch_holds ds : forall self batch self' b, collect_batch self ds batch = (self', Ok b) ->
  exists us, b = batch ++ us /\ batch_for self ds us.
Proof.
  induction ds as [|d ds IH]; intros self batch self' b; cbn [collect_batch].
  { intros [= _ <-]. exists []. rewrite app_nil_r. split; [done|]. apply Forall2_nil_2. }
  destruct (remove_request self d) as [[r|] self1] eqn:Er; [|discriminate].
  apply remove_request_holds in Er as [Hr Hsub]. intros Hc.
  destruct (IH _ _ _ _ Hc) as (us & -> & Hus). unfold batch_add.
  exists (mkUpdate (hdr_from (header r)) d (operation (message r)) :: us). rewrite <- app_assoc. split; [done|].
  apply Forall2_cons_2; [by eauto|]. eapply Forall2_impl; [exact Hus|]. intros d' u (x & Hx & ->). by eauto.
Qed.

Lemma finalize_batch_for self seq ds self' info batch :
  finalize_batch self seq ds = (self', Ok (info, batch)) ->
  batch_for self ds batch /\ last_exec (declog self') = Some seq.
Proof.
  unfold finalize_batch. destruct (collect_batch self ds batch_new) as [l1 [b|e]] eqn:Ec; [|discriminate].
  apply collect_batch_holds in Ec as (us & -> & Hus).
  cbv zeta. match goal with |- context [if ?b then ?x else ?y] => destruct (if b then x else y) as [l2 [i|e]] end;
    [|discriminate]. by intros [= <- <- <-].
Qed.

Lemma collect_batch_spec digests : forall self batch, queues_disjoint self ->
  let '(self', r) := collect_batch self digests batch in
  queues_disjoint self' /\ same_rest self' self /\
  match r with
  | Ok b => NoDup digests /\ (forall d, d ∈ digests -> is_Some (get_request self d)) /\
            b = batch ++ omap (update_of self) digests /\
            (forall d, get_request self' d = if decide (d ∈ digests) then None else get_request self d)
  | Err _ => ~ (NoDup digests /\ (forall d, d ∈ digests -> is_Some (get_request self d)))
  end.
Proof.
  induction digests as [|d ds IH]; intros self batch Hd; cbn [collect_batch].
  { split_and!; try done; try apply NoDup_nil_2; [set_solver|by rewrite app_nil_r]. }
  destruct (remove_request_spec self d Hd) as (Er1 & Er2 & Er3).
  pose proof (remove_request_rest self d) as Hr.
  destruct (remove_request self d) as [[stored|] self1]; cbn [fst snd] in *.
  2: { split_and!; [done|done|]. intros [_ Hall]. destruct (Hall d) as [x Hx]; [set_solver|].
       congruence. }
  assert (Hds : (d ∉ ds -> forall d', d' ∈ ds -> get_request self1 d' = get_request self d') /\
                (d ∈ ds -> get_request self1 d = None)).
  { split; [|by rewrite Er3, decide_True]. intros Hnin d' Hin. rewrite Er3. case_decide; [|done].
    subst. done. }
  specialize (IH self1 (batch ++ [mkUpdate (hdr_from (header stored)) d (operation (message stored))]) Er2).
  destruct (collect_batch self1 ds _) as [self' [b|e]].
  - destruct IH as (Hd' & (R1 & R2 & R3 & R4 & R5) & Hn & Hall & -> & Hg).
    destruct Hr as (Q1 & Q2 & Q3 & Q4 & Q5).
    assert (Hnin : d ∉ ds).
    { intros Hin. destruct (Hall d Hin) as [x Hx]. rewrite (proj2 Hds Hin) in Hx. discriminate. }
    split_and!; [done|unfold same_rest; split_and!; congruence|by apply NoDup_cons| | |].
    + intros d' [->|Hin]%elem_of_cons; [eauto|]. rewrite <- (proj1 Hds Hnin) by done. by apply Hall.
    + rewrite <- app_assoc. f_equal. simpl.
      assert (update_of self d =
        Some (mkUpdate (hdr_from (header stored)) d (operation (message stored)))) as ->
        by (unfold update_of; by rewrite <- Er1).
      f_equal. apply omap_ext_elem. intros x Hx. unfold update_of. by rewrite (proj1 Hds Hnin x).
    + intros d'. rewrite Hg, Er3. repeat case_decide; set_solver.
  - destruct IH as (Hd' & (R1 & R2 & R3 & R4 & R5) & Hbad).
    destruct Hr as (Q1 & Q2 & Q3 & Q4 & Q5).
    split_and!; [done|unfold same_rest; split_and!; congruence|].
    intros [[Hnin Hn]%NoDup_cons Hall]. apply Hbad. split; [done|]. intros d' Hin.
    rewrite (proj1 Hds Hnin) by done. apply Hall. set_solver.
Qed.

(** A checkpoint is due when the instance number recorded in the log is a
    positive multiple of [PERIOD]. *)
Definition checkpoint_due self : bool :=
  (u32_from_seq (last_pre_prepare_seq self) >? 0) &&
  (u32_from_seq (last_pre_prepare_seq self) mod PERIOD =? 0).

Definition in_progress (c : CheckpointState S) : bool :=
  match c with
  | Partial _ | PartialWithEarlier _ _ => true
  | _ => false
  end.

Lemma last_pre_prepare_seq_rest l1 l2 : same_rest l1 l2 ->
  last_pre_prepare_seq l1 = last_pre_prepare_seq l2.
Proof. intros (E1 & _ & E2 & _). unfold last_pre_prepare_seq. by rewrite E1, E2. Qed.

Lemma begin_checkpoint_spec self seq :
  let '(self', r) := begin_checkpoint self seq in
  (forall d, get_request self' d = get_request self d) /\ decided self' = decided self /\
  (queues_disjoint self -> queues_disjoint self') /\ declog self' = declog self /\
  if in_progress (checkpoint self) then is_ok r = false /\ checkpoint self' = CpNone
  else r = Ok BeginCheckpoint /\ in_progress (checkpoint self') = true.
Proof. unfold begin_checkpoint. destruct (checkpoint self); by split_and!. Qed.

(** What a successful [finalize_batch] leaves behind. *)
Definition batch_finalized self (seq : SeqNo) (digests : list Digest) self' (info : Info)
  (batch : UpdateBatch O) : Prop :=
  batch = omap (update_of self) digests /\
  decided self' = decided self ++ map u_operation batch /\
  (forall d, get_request self' d = if decide (d ∈ digests) then None else get_request self d) /\
  queues_disjoint self' /\ last_exec (declog self') = Some seq /\
  pre_prepares (declog self') = pre_prepares (declog self) /\
  (if checkpoint_due self then info = BeginCheckpoint /\ in_progress (checkpoint self') = true
   else info = Nil /\ checkpoint self' = checkpoint self).

Lemma finalize_batch_spec self seq digests : queues_disjoint self ->
  match finalize_batch self seq digests with
  | (self', Ok (info, batch)) =>
    (NoDup digests /\ (forall d, d ∈ digests -> has_request self d = true) /\
     checkpoint_due self && in_progress (checkpoint self) = false) /\
    batch_finalized self seq digests self' info batch
  | (_, Err _) =>
    ~ (NoDup digests /\ (forall d, d ∈ digests -> has_request self d = true) /\
       checkpoint_due self && in_progress (checkpoint self) = false)
  end.
Proof.
  intros Hd. unfold finalize_batch.
  assert (HP : (forall d, d ∈ digests -> has_request self d = true) <->
               (forall d, d ∈ digests -> is_Some (get_request self d)))
    by (split; intros Hx d Hin; apply has_request_get; auto).
  pose proof (collect_batch_spec digests self batch_new Hd) as Hc.
  destruct (collect_batch self digests batch_new) as [l1 [batch|e]]; destruct Hc as (Hd1 & Hr & Hc);
    [|rewrite HP; tauto].
  destruct Hc as (Hn & Hall & -> & Hg). cbn [batch_new app] in *.
  set (b := omap (update_of self) digests) in *.
  set (l2 := with_decided l1 (decided l1 ++ map u_operation b)).
  assert (E : last_pre_prepare_seq l2 = last_pre_prepare_seq self)
    by exact (last_pre_prepare_seq_rest l1 self Hr).
  rewrite E. fold (checkpoint_due self). destruct Hr as (_ & _ & R3 & R4 & R5).
  unfold batch_finalized. destruct (checkpoint_due self).
  2: { split; [rewrite HP; by split_and!|]. split_and!; try done; cbn; congruence. }
  pose proof (begin_checkpoint_spec l2 (last_pre_prepare_seq self)) as Hb.
  destruct (begin_checkpoint l2 _) as [l3 r]. destruct Hb as (B1 & B2 & B3 & B4 & B5).
  change (checkpoint l2) with (checkpoint l1) in B5. rewrite R5 in B5.
  destruct (in_progress (checkpoint self)).
  - destruct B5 as [B5 _]. destruct r; [discriminate|]. intros (_ & _ & ?). discriminate.
  - destruct B5 as [-> B5]. split; [rewrite HP; by split_and!|]. split_and!; try done; cbn.
    + rewrite B2. cbn. congruence.
    + intros d. etransitivity; [apply B1|apply Hg].
    + by apply B3.
    + rewrite B4. cbn. congruence.
Qed.

(** ** Properties of the request queues *)

(** C20: [requests] and [deciding] implement one map of pending requests: a
    received request is added under its unique digest, [next_batch] moves
    requests between the two containers without changing the map, consensus
    messages leave it alone, and no operation puts a request in both. *)
Theorem pending_requests_refine_map self : queues_disjoint self ->
  (forall h (m : SystemMessage S O P) d,
     get_request (insert self h m) d =
       match m with
       | Request r => if decide (d = unique_digest h) then Some (mkStored h r) else get_request self d
       | _ => get_request self d
       end) /\
  (forall d, get_request (snd (next_batch self)) d = get_request self d) /\
  (forall h (m : SystemMessage S O P), queues_disjoint (insert self h m)) /\
  queues_disjoint (snd (next_batch self)) /\
  (forall d, has_request self d = true <-> is_Some (get_request self d)).
Proof.
  intros Hd. split_and!.
  - intros h m d. destruct m; try done. apply get_request_insert.
  - intros d. by apply get_request_next_batch.
  - intros h m. by apply queues_disjoint_insert.
  - by apply queues_disjoint_next_batch.
  - apply has_request_get.
Qed.

Lemma map_keys_elem {V : Type} (m : gmap Digest V) d : d ∈ map_keys m <-> is_Some (m !! d).
Proof.
  unfold map_keys. rewrite map_iter_perm, list_elem_of_fmap. split.
  - intros ([k v] & -> & Hin). apply elem_of_map_to_list in Hin. eauto.
  - intros [v Hv]. exists (d, v). split; [done|]. by apply elem_of_map_to_list.
Qed.

Lemma map_keys_nodup {V : Type} (m : gmap Digest V) : NoDup (map_keys m).
Proof. unfold map_keys. rewrite map_iter_perm. apply NoDup_fst_map_to_list. Qed.

Lemma map_keys_length {V : Type} (m : gmap Digest V) : length (map_keys m) = size m.
Proof. unfold map_keys. rewrite length_fmap, map_iter_perm. apply length_map_to_list. Qed.

(** A batch taken from the log has exactly [batch_size] digests, all
    different, and the log has a request for each of them. *)
Theorem next_batch_proposable self ds self' : next_batch self = (Some ds, self') ->
  length ds = l_batch_size self /\ NoDup ds /\ (forall d, d ∈ ds -> has_request self' d = true).
Proof.
  unfold next_batch. destruct (om_pop_front (requests self)) as [[[k v] rq]|]; [|discriminate].
  cbn [l_batch_size with_queues]. case_decide as Hsz; [|discriminate]. intros [= <- <-].
  set (g := <[k := v]> (deciding self)) in *. split_and!.
  - rewrite length_take, map_keys_length. lia.
  - apply NoDup_take, map_keys_nodup.
  - intros d Hin. apply has_request_get. unfold get_request. cbn.
    assert (Hk : d ∈ map_keys g).
    { rewrite <- (take_drop (l_batch_size self) (map_keys g)). set_solver. }
    apply map_keys_elem in Hk as [x Hx]. fold g. rewrite Hx. eauto.
Qed.

(** C21: a decided batch is finalized exactly when its digests are all
    different and all known, and no checkpoint is still in progress when a new
    one is due; then the batch lists the operations in the decided order, the
    requests leave the log, the operations are recorded, and the checkpoint
    starts if it is due. A digest repeated in one batch is an error. *)
Theorem finalize_batch_exact self seq digests : queues_disjoint self ->
  let '(self', r) := finalize_batch self seq digests in
  (is_ok r = true <->
     NoDup digests /\ (forall d, d ∈ digests -> has_request self d = true) /\
     checkpoint_due self && in_progress (checkpoint self) = false) /\
  (forall info batch, r = Ok (info, batch) -> batch_finalized self seq digests self' info batch).
Proof.
  intros Hd. pose proof (finalize_batch_spec self seq digests Hd) as H'.
  destruct (finalize_batch self seq digests) as [self' [[info batch]|e]].
  - destruct H' as [Ha Hb]. split; [by split|]. by intros ? ? [= <- <-].
  - split; [|discriminate]. split; [discriminate|tauto].
Qed.

(** Finishing a checkpoint empties the decision log but keeps the number of
    the last executed instance: the proof of the last decision cannot be built
    from the log it leaves, and collecting it for a view change panics. *)
Theorem checkpoint_breaks_collect self self' appstate view seq_last :
  finalize_checkpoint self appstate = (self', Ok tt) -> last_exec (declog self) = Some seq_last ->
  collect_data (declog self') view = Panic.
Proof.
  intros Hf Hl. unfold finalize_checkpoint in Hf.
  destruct (checkpoint self) as [|seq|seq c|c]; try discriminate; injection Hf as <-;
    unfold complete_checkpoint; destruct (last _); cbn in *; unfold collect_data, to_be_decided,
    last_decision; cbn; by rewrite Hl.
Qed.

(** ** Operations decided so far and the recovery state *)

Section history.
Context (upd : S -> O -> S) (init : S).

(** A log with the history of its replica: every operation decided, or in the
    state it has received from others since, those decided when the last checkpoint
    was started, and those decided while the last finished checkpoint was in
    progress. *)
Record Ghost := mkGhost { g_log : Log S O; g_hist : list O; g_begun : list O; g_lost : list O }.

Definition replay (s : S) (ops : list O) : S := foldl upd s ops.

(** The steps of the log in a running replica. The execution layer hands over
    the state it had after the operations decided when the checkpoint began. A
    received state has a checkpoint after some operations [b1]; with the requests
    that come with it, they are the history of the replica from then on. The view
    change changes the decision log. *)
Inductive hist_step : Ghost -> Ghost -> Prop :=
| hist_insert l h b k hd (m : SystemMessage S O P) :
    hist_step (mkGhost l h b k) (mkGhost (insert l hd m) h b k)
| hist_next_batch l h b k : hist_step (mkGhost l h b k) (mkGhost (snd (next_batch l)) h b k)
| hist_decide l h b k seq ds l' info batch :
    finalize_batch l seq ds = (l', Ok (info, batch)) ->
    hist_step (mkGhost l h b k)
      (mkGhost l' (h ++ map u_operation batch)
         (match info with BeginCheckpoint => h ++ map u_operation batch | Nil => b end) k)
| hist_checkpoint l h b k l' :
    finalize_checkpoint l (replay init b) = (l', Ok tt) ->
    hist_step (mkGhost l h b k) (mkGhost l' h b (drop (length b) h))
| hist_install l h b k last_seq rs b1 : appstate (rs_checkpoint rs) = replay init b1 ->
    hist_step (mkGhost l h b k) (mkGhost (install_state l last_seq rs) (b1 ++ rs_requests rs) b1 [])
| hist_declog l h b k d : hist_step (mkGhost l h b k) (mkGhost (with_declog l d) h b k).

Definition ghost_new (batch_size : nat) : Ghost := mkGhost (log_new batch_size) [] [] [].

Definition hist_ok (g : Ghost) : Prop :=
  queues_disjoint (g_log g) /\
  (in_progress (checkpoint (g_log g)) = true -> g_begun g `prefix_of` g_hist g) /\
  (forall c, checkpoint (g_log g) = Complete c ->
     appstate c = replay init (g_begun g) /\
     g_hist g = g_begun g ++ g_lost g ++ decided (g_log g)).

Lemma insert_rest self h (m : SystemMessage S O P) :
  checkpoint (insert self h m) = checkpoint self /\ decided (insert self h m) = decided self.
Proof. by destruct m. Qed.

Lemma hist_step_ok g g' : hist_step g g' -> hist_ok g -> hist_ok g'.
Proof.
  intros Hst (Hd & Hp & Hc).
  destruct Hst as [l h b k hd m|l h b k|l h b k seq ds l' info batch Hf|l h b k l' Hf|l h b k last rs b1 Ha|l h b k d];
    unfold hist_ok; cbn [g_log g_hist g_begun g_lost] in *.
  - destruct (insert_rest l hd m) as [-> ->]. split; [by apply queues_disjoint_insert|done].
  - split; [by apply queues_disjoint_next_batch|]. rewrite next_batch_state.
    by destruct (om_pop_front (requests l)) as [[[k1 v1] rq]|].
  - pose proof (finalize_batch_spec l seq ds Hd) as Hs. rewrite Hf in Hs.
    destruct Hs as (_ & _ & Hdec & _ & Hd' & _ & _ & Hcp). split; [done|].
    destruct (checkpoint_due l); destruct Hcp as [-> Hcp].
    + split; [done|]. intros c Ec. rewrite Ec in Hcp. discriminate.
    + rewrite Hcp, Hdec. split.
      * intros Hi. by apply prefix_app_r, Hp.
      * intros c Ec. destruct (Hc c Ec) as [-> ->]. split; [done|]. by rewrite <- !app_assoc.
  - unfold finalize_checkpoint in Hf. destruct (checkpoint l) as [|s|s c|c] eqn:Ec; try discriminate;
      injection Hf as <-; unfold complete_checkpoint; destruct (Hp eq_refl) as [suf ->];
      (split; [destruct (last _); exact Hd|]; split;
       [destruct (last _); discriminate|]; intros c' Ec'; split;
       [destruct (last _); cbn in Ec'; injection Ec' as <-; done|];
       rewrite drop_app_length; destruct (last _); cbn; by rewrite app_nil_r).
  - split_and!; [done|done|]. intros c [= <-]. done.
  - by split_and!.
Qed.

(** C12: along any run of the log (messages are logged, batches taken and
    finalized, checkpoints finished with the state of the execution layer after
    the operations decided when they began, states of others installed, whose
    checkpoints are the state after some operations, the decision log changed), a
    snapshot (the state sent to a recovering replica) replays to the effect of all
    operations decided so far, less those decided while its checkpoint was being
    taken. After a state has been installed, the operations decided so far are
    those behind its checkpoint, those that came with it, and those decided since.
    *)
Theorem snapshot_replays_history k g view rs : rtc hist_step (ghost_new k) g ->
  snapshot (g_log g) view = Ok rs ->
  g_hist g = g_begun g ++ g_lost g ++ rs_requests rs /\
  replay (appstate (rs_checkpoint rs)) (rs_requests rs) = replay init (g_begun g ++ rs_requests rs) /\
  (g_lost g = [] -> replay (appstate (rs_checkpoint rs)) (rs_requests rs) = replay init (g_hist g)).
Proof.
  intros Hr Hs. assert (Hok : hist_ok g).
  { assert (Hi : hist_ok (ghost_new k)) by (split; [apply queues_disjoint_new|by split]).
    revert Hi. clear Hs. induction Hr as [|x y z Hst _ IH]; [done|].
    intros Hx. apply IH. by eapply hist_step_ok. }
  destruct Hok as (_ & _ & Hc). unfold snapshot in Hs.
  destruct (checkpoint (g_log g)) as [| | |c] eqn:Ec; try discriminate. injection Hs as <-. cbn.
  destruct (Hc c eq_refl) as [Ha Hh]. unfold replay in *. rewrite Ha, <- foldl_app.
  split_and!; try done. intros El. rewrite Hh, El. done.
Qed.

End history.

End facts.

(** ** Witnesses

    Two requests with different nonces, and the PRE-PREPARE of the instance
    at which a checkpoint is due. *)

#[local] Existing Instance toy_hash.
#[local] Existing Instance key_order.
Definition w_map : OrderedMap Digest := assoc_map Digest.
#[local] Existing Instance w_map.

Definition w_map_laws : OrderedMapLaws Digest := assoc_map_laws Digest.
#[local] Existing Instance w_map_laws.

Definition w_header (nonce : Z) : Header :=
  mkHeader 0 0 7 3 nonce 65536 (replicate 32 9) (replicate 64 1).

Definition w_request (op : Z) : SystemMessage Z Z Z := Request (mkRequest op).
Definition w_d (nonce : Z) : Digest := unique_digest (w_header nonce).

Definition w_log : Log Z Z := insert (insert (log_new 1) (w_header 1) (w_request 10))
  (w_header 2) (w_request 20).

Lemma w_log_disjoint : queues_disjoint w_log.
Proof. do 2 apply queues_disjoint_insert. apply queues_disjoint_new. Qed.

Lemma pending_requests_refine_map_witness :
  is_Some (get_request (snd (next_batch w_log)) (w_d 2)).
Proof.
  rewrite (proj1 (proj2 (pending_requests_refine_map (P := Z) w_log w_log_disjoint))).
  apply has_request_get. vm_compute. reflexivity.
Defined.

Lemma next_batch_proposable_witness :
  exists d, (next_batch w_log).1 = Some [d] /\ has_request (next_batch w_log).2 d = true.
Proof.
  exists (w_d 1). split; [vm_compute; reflexivity|].
  apply (next_batch_proposable w_log [w_d 1] (next_batch w_log).2).
  - vm_compute. reflexivity.
  - set_solver.
Defined.

Lemma finalize_batch_exact_witness :
  is_ok (finalize_batch w_log (mkSeqNo 1) [w_d 1; w_d 2]).2 = true /\
  is_ok (finalize_batch w_log (mkSeqNo 1) [w_d 1; w_d 1]).2 = false.
Proof.
  pose proof (finalize_batch_exact w_log (mkSeqNo 1) [w_d 1; w_d 1] w_log_disjoint) as H.
  split; [vm_compute; reflexivity|].
  destruct (finalize_batch w_log (mkSeqNo 1) [w_d 1; w_d 1]) as [l r].
  destruct H as [[H _] _]. cbn [snd]. destruct (is_ok r); [|done].
  exfalso. destruct (H eq_refl) as [Hn _]. inversion Hn. set_solver.
Defined.

Definition w_due : SystemMessage Z Z Z :=
  Message.Consensus (mkConsensus (mkSeqNo PERIOD) ZERO (PrePrepare [w_d 1])).
Definition w_after : SystemMessage Z Z Z :=
  Message.Consensus (mkConsensus (mkSeqNo (PERIOD + 1)) ZERO (PrePrepare [w_d 2])).

Definition w_log1 : Log Z Z := (finalize_batch (insert w_log sample_header w_due)
  (mkSeqNo PERIOD) [w_d 1]).1.
Definition w_log2 : Log Z Z := (finalize_batch (insert w_log1 sample_header w_after)
  (mkSeqNo (PERIOD + 1)) [w_d 2]).1.
Definition w_log3 : Log Z Z := (finalize_checkpoint w_log2 10).1.
Definition w_log3' : Log Z Z := (finalize_checkpoint w_log1 10).1.

Lemma checkpoint_breaks_collect_witness : collect_data (declog w_log3') w_view = Panic.
Proof.
  apply (checkpoint_breaks_collect w_log1 w_log3' 10 w_view (mkSeqNo PERIOD)); reflexivity.
Defined.

Lemma w_run1 : rtc (hist_step (P := Z) Z.add 0) (ghost_new 1) (mkGhost w_log1 [10] [10] []).
Proof.
  eapply rtc_l; [apply (hist_insert Z.add 0 _ _ _ _ (w_header 1) (w_request 10))|].
  eapply rtc_l; [apply (hist_insert Z.add 0 _ _ _ _ (w_header 2) (w_request 20))|].
  eapply rtc_l; [apply (hist_insert Z.add 0 _ _ _ _ sample_header w_due)|].
  apply rtc_once.
  apply (hist_decide Z.add 0 (insert w_log sample_header w_due) [] [] [] (mkSeqNo PERIOD) [w_d 1]
    w_log1 BeginCheckpoint [mkUpdate (mkNodeId 7) (w_d 1) 10]).
  vm_compute. reflexivity.
Qed.

Lemma snapshot_replays_history_witness :
  exists rs, snapshot w_log3' w_view = Ok rs /\
    replay Z.add (appstate (rs_checkpoint rs)) (rs_requests rs) = 10.
Proof.
  eexists. split; [vm_compute; reflexivity|].
  apply (snapshot_replays_history (P := Z) Z.add 0 1 (mkGhost w_log3' [10] [10] []) w_view).
  - eapply rtc_r; [apply w_run1|].
    apply (hist_checkpoint Z.add 0 w_log1 [10] [10] []). vm_compute. reflexivity.
  - vm_compute. reflexivity.
  - reflexivity.
Defined.

(** An operation decided while a checkpoint is being taken is in neither
    the checkpoint nor the list of operations after it: there is a run in
    which a snapshot replays to a state without its effect. *)
Theorem checkpoint_can_lose_operations : exists g rs,
  rtc (hist_step (P := Z) Z.add 0) (ghost_new 1) g /\ snapshot (g_log g) w_view = Ok rs /\
  replay Z.add 0 (g_hist g) = 30 /\
  replay Z.add (appstate (rs_checkpoint rs)) (rs_requests rs) = 10.
Proof.
  exists (mkGhost w_log3 [10; 20] [10] [20]). eexists. split; [|by vm_compute].
  etransitivity; [apply w_run1|].
  eapply rtc_l; [apply (hist_insert Z.add 0 _ _ _ _ sample_header w_after)|].
  eapply rtc_l.
  - apply (hist_decide Z.add 0 (insert w_log1 sample_header w_after) [10] [10] []
      (mkSeqNo (PERIOD + 1)) [w_d 2] w_log2 Nil [mkUpdate (mkNodeId 7) (w_d 2) 20]).
    vm_compute. reflexivity.
  - apply rtc_once. apply (hist_checkpoint Z.add 0 w_log2 [10; 20] [10] []).
    vm_compute. reflexivity.
Qed.
