(* ===== verification/Consensus.v ===== *)
(** * The consensus protocol ([src/bft/consensus/mod.rs])

    One three-phase instance at a time: PRE-PREPARE, PREPARE, COMMIT. The
    state machine counts the votes that match the accepted proposal, logs
    them, and queues what belongs to another phase or instance in a
    [TboQueue]. The synchronizer is only asked for the current view
    ([ViewSource]). Vote counters are natural [usize] values that stay below
    the quorum size, so their increment is written without wrap-around. *)

From S2P Require Import Prelude Error Ordering Prng Crypto Params Message Tbo Collections Node.
From S2P Require Import DecLog Log.
Local Open Scope Z_scope.
Local Open Scope bft_scope.

Inductive ConsensusPollStatus :=
| Recv
| TryProposeAndRecv
| NextMessage (h : Header) (m : ConsensusMessage).

Inductive ConsensusStatus :=
| VotedTwice (id : NodeId)
| Deciding
| Decided (digests : list Digest).

(** ** The queue of messages to be ordered *)

Record TboQueue := mkTbo {
  curr_seq : SeqNo;
  get_queue : bool;
  q_pre_prepares : list (list (StoredMessage ConsensusMessage));
  q_prepares : list (list (StoredMessage ConsensusMessage));
  q_commits : list (list (StoredMessage ConsensusMessage))
}.

#[export] Instance TboQueue_orderable : Orderable TboQueue := {| sequence_number := curr_seq |}.

Definition tboq_new (curr_seq : SeqNo) : TboQueue := mkTbo curr_seq false [] [] [].

Definition tboq_signal (self : TboQueue) : TboQueue :=
  mkTbo (curr_seq self) true (q_pre_prepares self) (q_prepares self) (q_commits self).

Definition next_instance_queue (self : TboQueue) : TboQueue :=
  mkTbo (next (curr_seq self)) (get_queue self)
    (tbo_advance_message_queue (q_pre_prepares self))
    (tbo_advance_message_queue (q_prepares self))
    (tbo_advance_message_queue (q_commits self)).

Definition queue_pre_prepare (self : TboQueue) (h : Header) (m : ConsensusMessage) : TboQueue :=
  mkTbo (curr_seq self) (get_queue self)
    (tbo_queue_message (curr_seq self) (q_pre_prepares self) (mkStored h m))
    (q_prepares self) (q_commits self).

Definition queue_prepare (self : TboQueue) (h : Header) (m : ConsensusMessage) : TboQueue :=
  mkTbo (curr_seq self) (get_queue self) (q_pre_prepares self)
    (tbo_queue_message (curr_seq self) (q_prepares self) (mkStored h m)) (q_commits self).

Definition queue_commit (self : TboQueue) (h : Header) (m : ConsensusMessage) : TboQueue :=
  mkTbo (curr_seq self) (get_queue self) (q_pre_prepares self) (q_prepares self)
    (tbo_queue_message (curr_seq self) (q_commits self) (mkStored h m)).

Definition tboq_queue (self : TboQueue) (h : Header) (m : ConsensusMessage) : TboQueue :=
  match c_kind m with
  | PrePrepare _ => queue_pre_prepare self h m
  | Prepare _ => queue_prepare self h m
  | Commit _ => queue_commit self h m
  end.

(** ** The state of the protocol *)

Inductive ProtoPhase :=
| Init
| PrePreparing
| PreparingRequests
| Preparing (i : Z)
| Committing (i : Z).

Record Consensus := mkCons {
  batch_size : nat;
  phase : ProtoPhase;
  tbo : TboQueue;
  current : list Digest;
  current_digest : Digest;
  missing_requests : list Digest;
  missing_swapbuf : list nat
}.

#[export] Instance Consensus_orderable : Orderable Consensus :=
  {| sequence_number := fun self => curr_seq (tbo self) |}.

Definition with_phase (self : Consensus) (p : ProtoPhase) : Consensus :=
  mkCons (batch_size self) p (tbo self) (current self) (current_digest self)
    (missing_requests self) (missing_swapbuf self).
Definition with_tbo (self : Consensus) (t : TboQueue) : Consensus :=
  mkCons (batch_size self) (phase self) t (current self) (current_digest self)
    (missing_requests self) (missing_swapbuf self).
Definition with_missing (self : Consensus) (m : list Digest) (b : list nat) : Consensus :=
  mkCons (batch_size self) (phase self) (tbo self) (current self) (current_digest self) m b.

(** The proposal of the instance: its digest and those of its requests, which
    overwrite the front of [current]. *)
Definition accept_proposal (self : Consensus) (digest : Digest) (digests : list Digest)
  : outcome Consensus :=
  let! current := copy_prefix digests (current self) in
  Done (mkCons (length digests) (phase self) (tbo self) current digest
          (missing_requests self) (missing_swapbuf self)).

Definition cons_new (initial_seq_no : SeqNo) (batch_size : nat) : Consensus :=
  mkCons 0 Init (tboq_new initial_seq_no) (replicate batch_size zero_digest) zero_digest [] [].

Definition cons_signal (self : Consensus) : Consensus := with_tbo self (tboq_signal (tbo self)).

(** [DerefMut] to the [TboQueue]. *)
Definition cons_queue (self : Consensus) (h : Header) (m : ConsensusMessage) : Consensus :=
  with_tbo self (tboq_queue (tbo self) h m).

Definition is_deciding (self : Consensus) : bool :=
  match phase self with
  | Init => false
  | _ => true
  end.

Definition next_instance (self : Consensus) : Consensus :=
  with_tbo self (next_instance_queue (tbo self)).

(** [VecDeque::drain(..limit)] panics when the deque is shorter. *)
Definition drain_to {A : Type} (limit : nat) (q : list A) : outcome (list A) :=
  if decide (limit <= length q)%nat then Done (drop limit q) else Panic.

Definition install_sequence_number (self : Consensus) (seq : SeqNo) : outcome Consensus :=
  let t := tbo self in
  let finish pre_prepares prepares commits :=
    Done (with_phase (with_tbo self (mkTbo seq true pre_prepares prepares commits)) Init) in
  match index seq (curr_seq t) with
  | inr 0%nat => Done self
  | inr limit =>
    if decide (length (q_pre_prepares t) <= limit)%nat then finish [] [] []
    else
      let! pre_prepares := drain_to limit (q_pre_prepares t) in
      let! prepares := drain_to limit (q_prepares t) in
      let! commits := drain_to limit (q_commits t) in
      finish pre_prepares prepares commits
  | inl _ => finish [] [] []
  end.

(** ** Polling the queue *)

(** The second part of [poll] in the phase [PreparingRequests]: the requests
    that have arrived are removed by index from the list of missing ones. *)
Definition refresh_missing (self : Consensus) (has_request : Digest -> bool) : Consensus :=
  let found := (filter (fun ix => has_request ix.2 = true) (enumerate (missing_requests self))).*1 in
  let swapbuf := missing_swapbuf self ++ found in
  with_missing self (foldl (fun q i => deque_swap_remove_back i q) (missing_requests self) swapbuf) [].

(** [extract_msg!]: the queue it reads, how to put back what is left, the
    phase change on success and the answer otherwise. *)
Definition extract_msg (self : Consensus) (on_msg : ProtoPhase) (rsp : ConsensusPollStatus)
  (q : list (list (StoredMessage ConsensusMessage)))
  (put : list (list (StoredMessage ConsensusMessage)) -> bool -> TboQueue)
  : ConsensusPollStatus * Consensus :=
  match tbo_pop_message q with
  | (Some stored, q') =>
    (NextMessage (header stored) (message stored),
     with_phase (with_tbo self (put q' (get_queue (tbo self)))) on_msg)
  | (None, q') => (rsp, with_tbo self (put q' false))
  end.

Definition extract_pre_prepare (self : Consensus) (on_msg : ProtoPhase) (rsp : ConsensusPollStatus)
  : ConsensusPollStatus * Consensus :=
  let t := tbo self in
  extract_msg self on_msg rsp (q_pre_prepares t)
    (fun q g => mkTbo (curr_seq t) g q (q_prepares t) (q_commits t)).

Definition extract_prepare (self : Consensus) (on_msg : ProtoPhase) (rsp : ConsensusPollStatus)
  : ConsensusPollStatus * Consensus :=
  let t := tbo self in
  extract_msg self on_msg rsp (q_prepares t)
    (fun q g => mkTbo (curr_seq t) g (q_pre_prepares t) q (q_commits t)).

Definition extract_commit (self : Consensus) (on_msg : ProtoPhase) (rsp : ConsensusPollStatus)
  : ConsensusPollStatus * Consensus :=
  let t := tbo self in
  extract_msg self on_msg rsp (q_commits t)
    (fun q g => mkTbo (curr_seq t) g (q_pre_prepares t) (q_prepares t) q).

Section protocol.
Context {S O P Sy : Type} `{HashFn, SigScheme, RandomState, !OrderedMap Digest, !SharedData S O P,
  !ViewSource Sy}.

Implicit Type self : Consensus.
Implicit Type synchronizer : Sy.

Definition install_new_phase self (recovery_state : RecoveryState S O) : outcome Consensus :=
  let pre_prepares := pre_prepares (rs_declog recovery_state) in
  let seq_no := match last pre_prepares with
                | None => curr_seq (tbo self)
                | Some stored => s_seq stored
                end in
  let! self := install_sequence_number self seq_no in
  Done (cons_signal self).

(** A consensus message of the current instance and view. *)
Definition forge self synchronizer (kind : ConsensusMessageKind) : SystemMessage S O P :=
  Message.Consensus (mkConsensus (curr_seq (tbo self)) (view_seq (view synchronizer)) kind).

Definition propose self (digests : list Digest) synchronizer (node : Node S O P)
  : outcome (Consensus * Node S O P) :=
  match phase self with
  | Init =>
    let self := with_phase self PrePreparing in
    if decide (node_id node <> leader (view synchronizer)) then Done (self, node)
    else
      let! '(node, _) := broadcast node (forge self synchronizer (PrePrepare digests))
                           (targets (params_n (params (view synchronizer)))) in
      Done (self, node)
  | _ => Done (self, node)
  end.

Definition forge_propose self (requests : list Digest) synchronizer : SystemMessage S O P :=
  forge self synchronizer (PrePrepare requests).

(** The PREPARE of a replica that is not the leader. *)
Definition vote_prepare self synchronizer (node : Node S O P) : outcome (Node S O P) :=
  if decide (node_id node <> leader (view synchronizer)) then
    let! '(node, _) := broadcast node (forge self synchronizer (Prepare (current_digest self)))
                         (targets (params_n (params (view synchronizer)))) in
    Done node
  else Done node.

Definition finalize_view_change self (digest : Digest) synchronizer (log : Log S O)
  (node : Node S O P) : outcome (Consensus * Node S O P) :=
  let self := with_phase self (Preparing 1) in
  match last (pre_prepares (declog log)) with
  | None => Panic
  | Some last =>
    match c_kind (message last) with
    | PrePrepare digests =>
      let! self := accept_proposal self digest digests in
      let! node := vote_prepare self synchronizer node in
      Done (self, node)
    | _ => Panic
    end
  end.

Definition poll self (log : Log S O) : ConsensusPollStatus * Consensus :=
  match phase self with
  | Init =>
    if get_queue (tbo self) then extract_pre_prepare self PrePreparing TryProposeAndRecv
    else (TryProposeAndRecv, self)
  | PrePreparing =>
    if get_queue (tbo self) then extract_pre_prepare self (phase self) Recv else (Recv, self)
  | PreparingRequests =>
    let self := refresh_missing self (has_request log) in
    match missing_requests self with
    | [] => extract_prepare self (Preparing 1) Recv
    | _ => (Recv, self)
    end
  | Preparing _ =>
    if get_queue (tbo self) then extract_prepare self (phase self) Recv else (Recv, self)
  | Committing _ =>
    if get_queue (tbo self) then extract_commit self (phase self) Recv else (Recv, self)
  end.

(** ** Processing a message, phase by phase *)

Definition StepResult : Type := outcome (ConsensusStatus * Consensus * Log S O * Node S O P).

(** A message that is kept for later. *)
Definition defer self (h : Header) (m : ConsensusMessage) (log : Log S O) (node : Node S O P)
  : StepResult := Done (Deciding, cons_queue self h m, log, node).

Definition log_consensus (log : Log S O) (h : Header) (m : ConsensusMessage) : Log S O :=
  insert (P := P) log h (Message.Consensus m).

Definition process_pre_preparing self (h : Header) (m : ConsensusMessage) synchronizer
  (log : Log S O) (node : Node S O P) : StepResult :=
  match c_kind m with
  | PrePrepare digests =>
    if decide (c_view m <> view_seq (view synchronizer)) then Done (Deciding, self, log, node)
    else if decide (c_seq m <> curr_seq (tbo self)) then defer self h m log node
    else
      let! self := accept_proposal self (hdr_digest h) digests in
      let! node := vote_prepare self synchronizer node in
      let log := log_consensus log h m in
      let missing := missing_requests self ++
                     List.filter (fun d => negb (has_request log d)) (current self) in
      let self := with_missing self missing (missing_swapbuf self) in
      let self := with_phase self (match missing with [] => Preparing 1 | _ => PreparingRequests end) in
      Done (Deciding, self, log, node)
  | _ => defer self h m log node
  end.

Definition process_preparing self (i : Z) (h : Header) (m : ConsensusMessage) synchronizer
  (log : Log S O) (node : Node S O P) : StepResult :=
  match c_kind m with
  | Prepare d =>
    if decide (c_view m <> view_seq (view synchronizer)) then Done (Deciding, self, log, node)
    else if decide (d <> current_digest self) then Done (Deciding, self, log, node)
    else if decide (c_seq m <> curr_seq (tbo self)) then defer self h m log node
    else
      let i := i + 1 in
      let log := log_consensus log h m in
      if i =? quorum (params (view synchronizer)) then
        let! '(node, _) := broadcast node (forge self synchronizer (Commit (current_digest self)))
                             (targets (params_n (params (view synchronizer)))) in
        Done (Deciding, with_phase self (Committing 0), log, node)
      else Done (Deciding, with_phase self (Preparing i), log, node)
  | _ => defer self h m log node
  end.

(** [&self.current[..self.batch_size]] *)
Definition decision self : outcome (list Digest) :=
  if decide (batch_size self <= length (current self))%nat
  then Done (take (batch_size self) (current self)) else Panic.

Definition process_committing self (i : Z) (h : Header) (m : ConsensusMessage) synchronizer
  (log : Log S O) (node : Node S O P) : StepResult :=
  match c_kind m with
  | Commit d =>
    if decide (c_view m <> view_seq (view synchronizer)) then Done (Deciding, self, log, node)
    else if decide (d <> current_digest self) then Done (Deciding, self, log, node)
    else if decide (c_seq m <> curr_seq (tbo self)) then defer self h m log node
    else
      let i := i + 1 in
      let log := log_consensus log h m in
      if i =? quorum (params (view synchronizer)) then
        let self := with_phase self Init in
        let! digests := decision self in
        Done (Decided digests, self, log, node)
      else Done (Deciding, with_phase self (Committing i), log, node)
  | _ => defer self h m log node
  end.

Definition process_message self (h : Header) (m : ConsensusMessage) synchronizer
  (log : Log S O) (node : Node S O P) : StepResult :=
  match phase self with
  | Init | PreparingRequests => defer self h m log node
  | PrePreparing => process_pre_preparing self h m synchronizer log node
  | Preparing i => process_preparing self i h m synchronizer log node
  | Committing i => process_committing self i h m synchronizer log node
  end.

End protocol.

(** ** One instance of a replica

    What a replica does with its consensus state between entering an instance
    and deciding it: it processes messages, polls its queue, proposes, queues
    messages and receives client requests. The message a [poll] hands out is
    processed by a later step. Finishing a checkpoint or a view change and
    installing a state are not steps here: the first empties the log, the second
    starts to vote in another view. [Stable] follows a replica through its whole
    loop, with checkpoints. *)

Section instance.
Context {S O P Sy : Type} `{HashFn, SigScheme, RandomState, !OrderedMap Digest, !SharedData S O P,
  !ViewSource Sy}.

Record Local := mkLocal { r_cons : Consensus; r_log : Log S O; r_node : Node S O P }.

(** [net] tells which messages can be received. *)
Inductive local_step (sy : Sy) (net : Header -> ConsensusMessage -> Prop) : Local -> Local -> Prop :=
| local_process c l n h m c' l' n' : net h m ->
    process_message c h m sy l n = Done (Deciding, c', l', n') ->
    local_step sy net (mkLocal c l n) (mkLocal c' l' n')
| local_poll c l n : local_step sy net (mkLocal c l n) (mkLocal (snd (poll c l)) l n)
| local_propose c l n ds c' n' :
    propose c ds sy n = Done (c', n') -> local_step sy net (mkLocal c l n) (mkLocal c' l n')
| local_queue c l n h m : local_step sy net (mkLocal c l n) (mkLocal (cons_queue c h m) l n)
| local_signal c l n : local_step sy net (mkLocal c l n) (mkLocal (cons_signal c) l n)
| local_request c l n h (r : RequestMessage O) :
    local_step sy net (mkLocal c l n) (mkLocal c (insert (P := P) l h (Request r)) n).

(** The consensus messages among the tasks of a node, and the votes among
    those. *)
Definition consensus_of (t : SendTask S O P) : option ConsensusMessage :=
  match t_message t with Message.Consensus m => Some m | _ => None end.
Definition is_vote (m : ConsensusMessage) : bool :=
  match c_kind m with PrePrepare _ => false | _ => true end.
Definition ballots (ts : list (SendTask S O P)) : list ConsensusMessage :=
  List.filter is_vote (omap consensus_of ts).

(** [m] is a message of instance [s] in view [v]. *)
Definition in_instance (s v : SeqNo) (m : StoredMessage ConsensusMessage) : Prop :=
  s_seq m = s /\ s_view m = v.
Definition prepare_for (s v : SeqNo) (d : Digest) (m : StoredMessage ConsensusMessage) : Prop :=
  in_instance s v m /\ c_kind (message m) = Prepare d.
Definition commit_for (s v : SeqNo) (d : Digest) (m : StoredMessage ConsensusMessage) : Prop :=
  in_instance s v m /\ c_kind (message m) = Commit d.

(** The PRE-PREPARE the state [c] was loaded from. *)
Definition accepted (s v : SeqNo) (c : Consensus) (pp : StoredMessage ConsensusMessage) : Prop :=
  in_instance s v pp /\ s_digest pp = current_digest c /\
  c_kind (message pp) = PrePrepare (take (batch_size c) (current c)) /\
  (batch_size c <= length (current c))%nat.

(** [l] is [l0] with messages appended to its decision log. *)
Definition log_extends (l0 l : Log S O) (pp ps cs : list (StoredMessage ConsensusMessage)) : Prop :=
  pre_prepares (declog l) = pre_prepares (declog l0) ++ pp /\
  prepares (declog l) = prepares (declog l0) ++ ps /\
  commits (declog l) = commits (declog l0) ++ cs.

(** The vote of a replica for the accepted proposal: the leader sends none. *)
Definition own_prepare (sy : Sy) (n : Node S O P) (s : SeqNo) (d : Digest) : list ConsensusMessage :=
  if decide (node_id n <> leader (view sy)) then [mkConsensus s (view_seq (view sy)) (Prepare d)] else [].

(** The state of the instance is a function of what was logged and sent since
    its start: [i - 1] PREPAREs for the accepted proposal in phase
    [Preparing i], a quorum less one of PREPAREs and [i] COMMITs in phase
    [Committing i]; one PREPARE sent on acceptance, one COMMIT on entering the
    commit phase. *)
Definition phase_inv (sy : Sy) (s : SeqNo) (l0 : Log S O) (own : list (SendTask S O P)) (x : Local)
  : Prop :=
  let v := view_seq (view sy) in
  let q := quorum (params (view sy)) in
  let c := r_cons x in
  let d := current_digest c in
  match phase c with
  | Init | PrePreparing => log_extends l0 (r_log x) [] [] [] /\ ballots own = []
  | PreparingRequests => exists pp,
      accepted s v c pp /\ log_extends l0 (r_log x) [pp] [] [] /\
      ballots own = own_prepare sy (r_node x) s d
  | Preparing i => exists pp ps,
      accepted s v c pp /\ log_extends l0 (r_log x) [pp] ps [] /\
      Forall (prepare_for s v d) ps /\ Z.of_nat (length ps) = i - 1 /\
      ballots own = own_prepare sy (r_node x) s d
  | Committing i => exists pp ps cs,
      accepted s v c pp /\ log_extends l0 (r_log x) [pp] ps cs /\
      Forall (prepare_for s v d) ps /\ Z.of_nat (length ps) = q - 1 /\
      Forall (commit_for s v d) cs /\ Z.of_nat (length cs) = i /\
      ballots own = own_prepare sy (r_node x) s d ++ [mkConsensus s v (Commit d)]
  end.

Definition inst_inv (sy : Sy) (s : SeqNo) (l0 : Log S O) (n0 : Node S O P) (x : Local) : Prop :=
  curr_seq (tbo (r_cons x)) = s /\ node_id (r_node x) = node_id n0 /\
  exists own, outbox (r_node x) = outbox n0 ++ own /\ phase_inv sy s l0 own x.

(** Where an instance starts. *)
Definition starts (s : SeqNo) (x : Local) : Prop :=
  curr_seq (tbo (r_cons x)) = s /\ (phase (r_cons x) = Init \/ phase (r_cons x) = PrePreparing).

Lemma log_extends_refl l : log_extends l l [] [] [].
Proof. unfold log_extends. by rewrite !app_nil_r. Qed.

Lemma starts_inv sy s x : starts s x -> inst_inv sy s (r_log x) (r_node x) x.
Proof.
  intros [Hs Hp]. split; [done|]. split; [done|]. exists []. split; [by rewrite app_nil_r|].
  unfold phase_inv. destruct Hp as [-> | ->]; split; try done; apply log_extends_refl.
Qed.

(** *** Steps that only touch the queue *)

Lemma cons_queue_rest c h m : exists t, cons_queue c h m = with_tbo c t /\
  curr_seq t = curr_seq (tbo c) /\ get_queue t = get_queue (tbo c).
Proof. unfold cons_queue, tboq_queue. eexists. split; [done|]. by destruct (c_kind m). Qed.

Lemma phase_inv_tbo sy s l0 own c t l n :
  phase_inv sy s l0 own (mkLocal c l n) -> phase_inv sy s l0 own (mkLocal (with_tbo c t) l n).
Proof. done. Qed.

Lemma extract_cases c on_msg rsp q put : (forall q' g, curr_seq (put q' g) = curr_seq (tbo c)) ->
  exists t, curr_seq t = curr_seq (tbo c) /\
    (snd (extract_msg c on_msg rsp q put) = with_tbo c t \/
     snd (extract_msg c on_msg rsp q put) = with_phase (with_tbo c t) on_msg).
Proof.
  intros Hput. unfold extract_msg. destruct (tbo_pop_message q) as [[m|] q']; eexists; split;
    [apply Hput|by right|apply Hput|by left].
Qed.

(** A poll leaves the state, clears the missing requests, or moves one phase
    on: [Init] to [PrePreparing], [PreparingRequests] to [Preparing 1]. *)
Lemma poll_cases c (l : Log S O) : exists t b k, curr_seq t = curr_seq (tbo c) /\
  exists ph, snd (poll c l) = mkCons (batch_size c) ph t (current c) (current_digest c) b k /\
    (ph = phase c \/ (phase c = Init /\ ph = PrePreparing) \/
     (phase c = PreparingRequests /\ ph = Preparing 1)).
Proof.
  assert (Hx : forall c' on_msg rsp q put,
    (forall q' g, curr_seq (put q' g) = curr_seq (tbo c')) ->
    tbo c' = tbo c -> batch_size c' = batch_size c -> current c' = current c ->
    current_digest c' = current_digest c -> phase c' = phase c ->
    (on_msg = phase c \/ (phase c = Init /\ on_msg = PrePreparing) \/
     (phase c = PreparingRequests /\ on_msg = Preparing 1)) ->
    exists t b k, curr_seq t = curr_seq (tbo c) /\
    exists ph, snd (extract_msg c' on_msg rsp q put) =
      mkCons (batch_size c) ph t (current c) (current_digest c) b k /\
    (ph = phase c \/ (phase c = Init /\ ph = PrePreparing) \/
     (phase c = PreparingRequests /\ ph = Preparing 1))).
  { intros c' on_msg rsp q put Hput E1 E2 E3 E4 E5 Hm.
    destruct (extract_cases c' on_msg rsp q put Hput) as (t & Ht & [E|E]); rewrite E;
      exists t, (missing_requests c'), (missing_swapbuf c'); (split; [congruence|]);
      eexists; (split; [unfold with_tbo, with_phase; cbn; by rewrite E2, E3, E4|]); auto. }
  assert (Hid : exists t b k, curr_seq t = curr_seq (tbo c) /\
    exists ph, c = mkCons (batch_size c) ph t (current c) (current_digest c) b k /\
    (ph = phase c \/ (phase c = Init /\ ph = PrePreparing) \/
     (phase c = PreparingRequests /\ ph = Preparing 1))).
  { exists (tbo c), (missing_requests c), (missing_swapbuf c). split; [done|].
    exists (phase c). split; [by destruct c|by left]. }
  unfold poll. destruct (phase c) eqn:Ep; try (destruct (get_queue (tbo c)); [|exact Hid]);
    try (apply Hx; [done..|tauto]).
  destruct (missing_requests (refresh_missing c (has_request l))) eqn:Em.
  - apply Hx; [done..|tauto].
  - exists (tbo c). eexists _, _. split; [done|]. exists (phase c). split; [|by left].
    unfold refresh_missing, with_missing. reflexivity.
Qed.

(** *** Sending *)

Lemma ballots_app ts1 ts2 : ballots (ts1 ++ ts2) = ballots ts1 ++ ballots ts2.
Proof. unfold ballots. by rewrite omap_app, List.filter_app. Qed.

Lemma broadcast_ballots n m targets n' d : broadcast n (Message.Consensus m) targets = Done (n', d) ->
  node_id n' = node_id n /\ exists own, outbox n' = outbox n ++ own /\
    ballots own = if is_vote m then [m] else [].
Proof.
  intros Hb. apply broadcast_inv in Hb as (task & -> & Ht). split; [done|]. exists [task].
  split; [done|]. unfold ballots. cbn. unfold consensus_of. rewrite Ht. cbn. by destruct (is_vote m).
Qed.

Lemma vote_prepare_ballots c sy n n' : vote_prepare c sy n = Done n' ->
  node_id n' = node_id n /\ exists own, outbox n' = outbox n ++ own /\
    ballots own = own_prepare sy n (curr_seq (tbo c)) (current_digest c).
Proof.
  unfold vote_prepare, own_prepare. case_decide.
  - destruct (broadcast n _ _) as [[n1 d]|] eqn:Hb; [|discriminate]. cbn. intros [= <-].
    by apply broadcast_ballots in Hb.
  - intros [= <-]. split; [done|]. exists []. by rewrite app_nil_r.
Qed.

Lemma propose_inv c ds sy n c' n' : propose c ds sy n = Done (c', n') ->
  node_id n' = node_id n /\ exists own, outbox n' = outbox n ++ own /\ ballots own = [] /\
    ((phase c = Init /\ c' = with_phase c PrePreparing) \/ (c' = c)).
Proof.
  unfold propose. destruct (phase c) eqn:Ep;
    try (intros [= <- <-]; split; [done|]; exists []; rewrite app_nil_r; tauto).
  case_decide.
  - intros [= <- <-]. split; [done|]. exists []. rewrite app_nil_r. tauto.
  - destruct (broadcast n _ _) as [[n1 d]|] eqn:Hb; [|discriminate]. cbn. intros [= <- <-].
    apply broadcast_ballots in Hb as (E & own & Ho & Hv). split; [done|]. exists own. tauto.
Qed.

(** *** Processing a message keeps the invariant *)

Lemma accept_proposal_inv c d ds c' : accept_proposal c d ds = Done c' ->
  phase c' = phase c /\ tbo c' = tbo c /\ current_digest c' = d /\ batch_size c' = length ds /\
  missing_requests c' = missing_requests c /\
  take (batch_size c') (current c') = ds /\ (batch_size c' <= length (current c'))%nat.
Proof.
  unfold accept_proposal, copy_prefix. case_decide; [|discriminate]. cbn. intros [= <-]. cbn.
  split_and!; try done; [by rewrite take_app_length|]. rewrite length_app. lia.
Qed.

Lemma log_consensus_extends l0 l h m pp ps cs : log_extends l0 l pp ps cs ->
  let stored := mkStored h m in
  match c_kind m with
  | PrePrepare _ => log_extends l0 (log_consensus (P := P) l h m) (pp ++ [stored]) ps cs
  | Prepare _ => log_extends l0 (log_consensus (P := P) l h m) pp (ps ++ [stored]) cs
  | Commit _ => log_extends l0 (log_consensus (P := P) l h m) pp ps (cs ++ [stored])
  end.
Proof.
  intros (E1 & E2 & E3) stored. unfold log_extends, log_consensus. cbn [insert with_declog declog].
  unfold push_consensus. cbn [message]. destruct (c_kind m); cbn; rewrite ?E1, ?E2, ?E3, ?app_assoc; done.
Qed.

Lemma phase_inv_node sy s l0 own c l n n' : node_id n' = node_id n ->
  phase_inv sy s l0 own (mkLocal c l n) -> phase_inv sy s l0 own (mkLocal c l n').
Proof. intros E. unfold phase_inv, own_prepare. cbn. by rewrite E. Qed.

Lemma inst_inv_queue sy s l0 n0 c l n h m :
  inst_inv sy s l0 n0 (mkLocal c l n) -> inst_inv sy s l0 n0 (mkLocal (cons_queue c h m) l n).
Proof.
  intros (Hs & Hn & own & Ho & Hi). destruct (cons_queue_rest c h m) as (t & -> & Et & _).
  split; [cbn in *; congruence|]. split; [done|]. exists own. by split.
Qed.

Lemma process_pre_preparing_inv sy s l0 n0 c l n h m c' l' n' st :
  inst_inv sy s l0 n0 (mkLocal c l n) -> phase c = PrePreparing ->
  process_pre_preparing c h m sy l n = Done (st, c', l', n') ->
  st = Deciding /\ inst_inv sy s l0 n0 (mkLocal c' l' n').
Proof.
  intros Hinv Hph. pose proof (fun h m => inst_inv_queue _ _ _ _ _ _ _ h m Hinv) as Hq.
  unfold process_pre_preparing.
  destruct (c_kind m) as [ds|d|d] eqn:Ek; try (intros [= <- <- <- <-]; split; [done|apply Hq]).
  case_decide as Hv; [by intros [= <- <- <- <-]|].
  case_decide as Hsq; [intros [= <- <- <- <-]; split; [done|apply Hq]|]. clear Hq.
  destruct Hinv as (Hs & Hn & own & Ho & Hi). cbn in Hs.
  destruct (accept_proposal c (hdr_digest h) ds) as [c1|] eqn:Ha; [|discriminate].
  apply accept_proposal_inv in Ha as (A1 & A2 & A3 & A4 & A5 & A6 & A7). cbn [obind].
  returned_as n1 eqn:Hvp.
  apply vote_prepare_ballots in Hvp as (V1 & own1 & V2 & V3).
  intros [= <- <- <- <-]. split; [done|]. split; [cbn; congruence|]. split; [cbn in *; congruence|].
  exists (own ++ own1). split; [cbn in *; by rewrite V2, Ho, app_assoc|].
  unfold phase_inv in Hi. cbn [r_cons r_log r_node] in *. rewrite Hph in Hi. destruct Hi as [Hl Hb].
  apply (log_consensus_extends l0 l h m) in Hl. rewrite Ek in Hl.
  assert (Hacc : forall ph mi sb, accepted s (view_seq (view sy))
    (mkCons (batch_size c1) ph (tbo c1) (current c1) (current_digest c1) mi sb) (mkStored h m)).
  { intros ph mi sb. unfold accepted, in_instance, s_seq, s_view, s_digest. cbn. rewrite A6. split_and!; try done; congruence. }
  assert (Hbal : ballots (own ++ own1) = own_prepare sy n1 s (current_digest c1)).
  { rewrite ballots_app, Hb, V3. cbn. unfold own_prepare. rewrite V1, A2, Hs. done. }
  unfold phase_inv. cbn [r_cons r_log r_node phase with_phase with_missing current_digest].
  destruct (missing_requests c1 ++ _).
  - exists (mkStored h m), []. split_and!; try done; apply Hacc.
  - exists (mkStored h m). split_and!; try done; apply Hacc.
Qed.

Lemma process_preparing_inv sy s l0 n0 c i l n h m c' l' n' st :
  inst_inv sy s l0 n0 (mkLocal c l n) -> phase c = Preparing i ->
  process_preparing c i h m sy l n = Done (st, c', l', n') ->
  st = Deciding /\ inst_inv sy s l0 n0 (mkLocal c' l' n').
Proof.
  intros Hinv Hph. pose proof (fun h m => inst_inv_queue _ _ _ _ _ _ _ h m Hinv) as Hq.
  unfold process_preparing.
  destruct (c_kind m) as [ds|d|d] eqn:Ek; try (intros [= <- <- <- <-]; split; [done|apply Hq]).
  do 2 (case_decide; [by intros [= <- <- <- <-]|]).
  case_decide; [intros [= <- <- <- <-]; split; [done|apply Hq]|]. clear Hq. subst d.
  destruct Hinv as (Hs & Hn & own & Ho & Hi). cbn in Hs, Hn, Ho.
  unfold phase_inv in Hi. cbn [r_cons r_log r_node] in Hi. rewrite Hph in Hi.
  destruct Hi as (pp & ps & Hacc & Hl & Hps & Hlen & Hb).
  apply (log_consensus_extends l0 l h m) in Hl. rewrite Ek in Hl.
  assert (Hps' : Forall (prepare_for s (view_seq (view sy)) (current_digest c)) (ps ++ [mkStored h m])).
  { apply Forall_app. split; [done|]. apply Forall_singleton. unfold prepare_for, in_instance,
      s_seq, s_view. cbn. split_and!; congruence. }
  assert (Hlen' : Z.of_nat (length (ps ++ [mkStored h m])) = i).
  { rewrite length_app. cbn [length]. lia. }
  destruct (Z.eqb_spec (i + 1) (quorum (params (view sy)))) as [Hqm|Hqm].
  - returned_as [n1 dg] eqn:Hbr.
    apply broadcast_ballots in Hbr as (V1 & own1 & V2 & V3). intros [= <- <- <- <-].
    split; [done|]. split; [done|]. split; [cbn; congruence|].
    exists (own ++ own1). split; [cbn; by rewrite V2, Ho, app_assoc|].
    exists pp, (ps ++ [mkStored h m]), []. cbn [r_cons r_log r_node] in *.
    split_and!; try done; [lia|]. rewrite ballots_app, Hb, V3. cbn.
    unfold own_prepare. by rewrite V1, Hs.
  - intros [= <- <- <- <-]. split; [done|]. split; [done|]. split; [done|].
    exists own. split; [done|]. exists pp, (ps ++ [mkStored h m]).
    cbn [r_cons r_log r_node] in *. split_and!; try done. lia.
Qed.

(** What is known of a decision: the accepted proposal was decided, and the
    log holds a quorum less one of PREPAREs and a quorum of COMMITs for it. *)
Definition certified (sy : Sy) (s : SeqNo) (l0 l : Log S O) (d : Digest) (ds : list Digest)
  (cs : list (StoredMessage ConsensusMessage)) : Prop :=
  let v := view_seq (view sy) in
  let q := quorum (params (view sy)) in
  exists pp ps, log_extends l0 l [pp] ps cs /\
    in_instance s v pp /\ c_kind (message pp) = PrePrepare ds /\ s_digest pp = d /\
    Forall (prepare_for s v d) ps /\ Z.of_nat (length ps) = q - 1 /\
    Forall (commit_for s v d) cs /\ Z.of_nat (length cs) = q.

Lemma process_committing_inv sy s l0 n0 c i l n h m c' l' n' st :
  inst_inv sy s l0 n0 (mkLocal c l n) -> phase c = Committing i ->
  process_committing c i h m sy l n = Done (st, c', l', n') ->
  (st = Deciding /\ inst_inv sy s l0 n0 (mkLocal c' l' n')) \/
  (exists ds cs, st = Decided ds /\ n' = n /\ c' = with_phase c Init /\
     certified sy s l0 l' (current_digest c) ds cs).
Proof.
  intros Hinv Hph. pose proof (fun h m => inst_inv_queue _ _ _ _ _ _ _ h m Hinv) as Hq.
  unfold process_committing.
  destruct (c_kind m) as [ds|d|d] eqn:Ek; try (intros [= <- <- <- <-]; left; split; [done|apply Hq]).
  do 2 (case_decide; [intros [= <- <- <- <-]; by left|]).
  case_decide; [intros [= <- <- <- <-]; left; split; [done|apply Hq]|]. clear Hq. subst d.
  destruct Hinv as (Hs & Hn & own & Ho & Hi). cbn in Hs, Hn, Ho.
  unfold phase_inv in Hi. cbn [r_cons r_log r_node] in Hi. rewrite Hph in Hi.
  destruct Hi as (pp & ps & cs & (Hacc & Hdg & Hkd & Hbs) & Hl & Hps & Hlen & Hcs & Hlc & Hb).
  apply (log_consensus_extends l0 l h m) in Hl. rewrite Ek in Hl.
  assert (Hcs' : Forall (commit_for s (view_seq (view sy)) (current_digest c)) (cs ++ [mkStored h m])).
  { apply Forall_app. split; [done|]. apply Forall_singleton. unfold commit_for, in_instance,
      s_seq, s_view. cbn. split_and!; congruence. }
  assert (Hlen' : Z.of_nat (length (cs ++ [mkStored h m])) = i + 1).
  { rewrite length_app. cbn [length]. lia. }
  destruct (Z.eqb_spec (i + 1) (quorum (params (view sy)))) as [Hqm|Hqm].
  - unfold decision. cbn [batch_size current with_phase]. rewrite decide_True by done. cbn [obind].
    intros [= <- <- <- <-]. right. eexists _, (cs ++ [mkStored h m]). split_and!; try done.
    exists pp, ps. split_and!; try done. lia.
  - intros [= <- <- <- <-]. left. split; [done|]. split; [done|]. split; [done|].
    exists own. split; [done|]. exists pp, ps, (cs ++ [mkStored h m]).
    cbn [r_cons r_log r_node] in *. split_and!; done.
Qed.

Lemma process_message_inv sy s l0 n0 c l n h m c' l' n' st :
  inst_inv sy s l0 n0 (mkLocal c l n) ->
  process_message c h m sy l n = Done (st, c', l', n') ->
  (st = Deciding /\ inst_inv sy s l0 n0 (mkLocal c' l' n')) \/
  (exists i ds cs, phase c = Committing i /\ st = Decided ds /\ n' = n /\ c' = with_phase c Init /\
     certified sy s l0 l' (current_digest c) ds cs).
Proof.
  intros Hinv. unfold process_message. destruct (phase c) as [| | |i|i] eqn:Ep.
  - intros [= <- <- <- <-]. left. split; [done|]. by apply inst_inv_queue.
  - intros Hp. left. by eapply process_pre_preparing_inv.
  - intros [= <- <- <- <-]. left. split; [done|]. by apply inst_inv_queue.
  - intros Hp. left. by eapply process_preparing_inv.
  - intros Hp. eapply process_committing_inv in Hp as [?|(ds & cs & ?)]; [by left| |done..].
    right. exists i, ds, cs. tauto.
Qed.

Lemma local_step_inv sy net s l0 n0 x y :
  local_step sy net x y -> inst_inv sy s l0 n0 x -> inst_inv sy s l0 n0 y.
Proof.
  intros Hst Hinv. destruct Hst as [c l n h m c' l' n' _ Hp|c l n|c l n ds c' n' Hp|c l n h m|c l n|c l n h r].
  - destruct (process_message_inv _ _ _ _ _ _ _ _ _ _ _ _ _ Hinv Hp) as [[_ ?]|(? & ? & ? & _ & ? & _)];
      [done|discriminate].
  - destruct Hinv as (Hs & Hn & own & Ho & Hi). cbn in Hs, Hn, Ho.
    destruct (poll_cases c l) as (t & b & k & Ht & ph & -> & Hph).
    split; [cbn; congruence|]. split; [done|]. exists own. split; [done|].
    unfold phase_inv in *. cbn [r_cons r_log r_node] in *. cbn [phase current_digest].
    destruct Hph as [->|[[Ep ->]|[Ep ->]]].
    + destruct (phase c); exact Hi.
    + by rewrite Ep in Hi.
    + rewrite Ep in Hi. destruct Hi as (pp & Hacc & Hl & Hb). exists pp, []. split_and!; done.
  - destruct Hinv as (Hs & Hn & own & Ho & Hi). cbn in Hs, Hn, Ho.
    apply propose_inv in Hp as (E & own1 & Ho1 & Hb & Hc). split; [|split; [cbn; congruence|]].
    + destruct Hc as [[_ ->]| ->]; done.
    + exists (own ++ own1). split; [cbn; by rewrite Ho1, Ho, app_assoc|].
      apply (phase_inv_node sy s l0 own c l n n' E) in Hi. unfold phase_inv in *. rewrite ballots_app, Hb, app_nil_r.
      destruct Hc as [[Ep ->]| ->]; [|exact Hi]. cbn in *. by rewrite Ep in Hi.
  - by apply inst_inv_queue.
  - destruct Hinv as (Hs & Hn & own & Ho & Hi). split; [done|]. split; [done|]. by exists own.
  - destruct Hinv as (Hs & Hn & own & Ho & Hi). split; [done|]. split; [done|]. by exists own.
Qed.

Lemma local_steps_inv sy net s l0 n0 x y :
  rtc (local_step sy net) x y -> inst_inv sy s l0 n0 x -> inst_inv sy s l0 n0 y.
Proof. induction 1; eauto using local_step_inv. Qed.

(** A processed message is appended to the log or not at all, and sending
    only appends to the outbox. *)
Lemma process_message_frame c h m sy l n st c' l' n' :
  process_message c h m sy l n = Done (st, c', l', n') ->
  (commits (declog l') = commits (declog l) \/
   commits (declog l') = commits (declog l) ++ [mkStored h m]) /\
  exists new, outbox n' = outbox n ++ new.
Proof.
  assert (Hnil : exists new, outbox n = outbox n ++ new) by (exists []; by rewrite app_nil_r).
  assert (Hlog : commits (declog (log_consensus (P := P) l h m)) = commits (declog l) \/
    commits (declog (log_consensus (P := P) l h m)) = commits (declog l) ++ [mkStored h m]).
  { unfold log_consensus, insert, push_consensus. cbn. destruct (c_kind m); cbn; tauto. }
  assert (Hid : commits (declog l) = commits (declog l) \/
    commits (declog l) = commits (declog l) ++ [mkStored h m]) by tauto.
  unfold process_message, process_pre_preparing, process_preparing, process_committing, defer.
  destruct (phase c), (c_kind m) as [ds|d|d] eqn:Ek; try (by intros [= <- <- <- <-]);
    repeat (case_decide; [by intros [= <- <- <- <-]|]).
  - returned_as c1.
    returned_as n1 eqn:Hv.
    apply vote_prepare_ballots in Hv as (_ & own & Ho & _). intros [= <- <- <- <-]. eauto.
  - case_match; [|by intros [= <- <- <- <-]].
    returned_as [n1 dg] eqn:Hb.
    apply broadcast_ballots in Hb as (_ & own & Ho & _). intros [= <- <- <- <-]. eauto.
  - case_match; [|by intros [= <- <- <- <-]].
    destruct (decision _) as [ds|]; [|discriminate]. by intros [= <- <- <- <-].
Qed.

Lemma local_step_frame sy net x y : local_step sy net x y ->
  (commits (declog (r_log y)) = commits (declog (r_log x)) \/
   exists h m, net h m /\ commits (declog (r_log y)) = commits (declog (r_log x)) ++ [mkStored h m]) /\
  exists new, outbox (r_node y) = outbox (r_node x) ++ new.
Proof.
  assert (Hnil : forall n : Node S O P, exists new, outbox n = outbox n ++ new)
    by (intros n; exists []; by rewrite app_nil_r).
  intros Hst. destruct Hst as [c l n h m c' l' n' Hn Hp|c l n|c l n ds c' n' Hp|c l n h m|c l n|c l n h r];
    cbn [r_cons r_log r_node]; auto.
  - apply process_message_frame in Hp as [[Hp|Hp] Ho]; split; eauto 6.
  - apply propose_inv in Hp as (_ & own & Ho & _). eauto.
Qed.

Definition any_message (h : Header) (m : ConsensusMessage) : Prop := True.

(** What the invariant says about the votes sent since the start. *)
Lemma inst_inv_ballots sy s l0 n0 x : inst_inv sy s l0 n0 x ->
  exists own d k, outbox (r_node x) = outbox n0 ++ own /\
    ballots own = take k (own_prepare sy n0 s d ++ [mkConsensus s (view_seq (view sy)) (Commit d)]).
Proof.
  intros (_ & Hn & own & Ho & Hi). exists own, (current_digest (r_cons x)).
  assert (E : forall d, own_prepare sy (r_node x) s d = own_prepare sy n0 s d)
    by (intros d; unfold own_prepare; by rewrite Hn).
  set (pre := own_prepare sy n0 s (current_digest (r_cons x))).
  unfold phase_inv in Hi. destruct (phase (r_cons x)).
  - exists 0%nat. split; [done|]. destruct Hi as [_ ->]. done.
  - exists 0%nat. split; [done|]. destruct Hi as [_ ->]. done.
  - exists (length pre). split; [done|]. destruct Hi as (pp & _ & _ & ->).
    by rewrite E, take_app_length.
  - exists (length pre). split; [done|]. destruct Hi as (pp & ps & _ & _ & _ & _ & ->).
    by rewrite E, take_app_length.
  - exists (length pre + 1)%nat. split; [done|]. destruct Hi as (pp & ps & cs & _ & _ & _ & _ & _ & _ & ->).
    rewrite E. fold pre. rewrite take_ge by (rewrite length_app; cbn; lia). done.
Qed.

(** C5: a decision of an instance has a certificate in the log. Let a replica,
    since it entered the instance, have processed messages, polled its queues,
    proposed, queued messages and received requests, all in one view, with no
    checkpoint finished (which empties the log), no state installed and no view
    change finished in between. When [process_message] then reports [Decided ds],
    the log has gained exactly one PRE-PREPARE, which proposed [ds] in this view
    and instance, a quorum less one of PREPAREs and a quorum of COMMITs, all for
    the digest of that PRE-PREPARE, in this view and instance, whatever the
    messages processed were. Votes are counted whoever sent them. *)
Theorem decision_has_certificate sy net s x c l n h m ds c' l' n' :
  starts s x -> rtc (local_step sy net) x (mkLocal c l n) ->
  process_message c h m sy l n = Done (Decided ds, c', l', n') ->
  phase c' = Init /\ exists d cs, certified sy s (r_log x) l' d ds cs.
Proof.
  intros Hs Hr Hp. pose proof (local_steps_inv _ _ _ _ _ _ _ Hr (starts_inv sy s x Hs)) as Hi.
  destruct (process_message_inv _ _ _ _ _ _ _ _ _ _ _ _ _ Hi Hp)
    as [[? _]|(i & ds' & cs & _ & [= <-] & _ & -> & Hc)]; [discriminate|].
  split; [done|]. eauto.
Qed.

(** C6: within one instance and one view a replica sends at most one PREPARE and
    at most one COMMIT, in that order and for the same digest; the leader sends no
    PREPARE. This is for what the replica does between entering the instance and
    deciding it (processing messages, polling, proposing, queueing, receiving
    requests) with no checkpoint, state transfer or view change finished in
    between: one that finishes makes the replica vote once more, in the new view.
    *)
Theorem one_vote_per_instance sy net s x y : starts s x -> rtc (local_step sy net) x y ->
  exists own d k, outbox (r_node y) = outbox (r_node x) ++ own /\
    ballots own = take k (own_prepare sy (r_node x) s d ++
                          [mkConsensus s (view_seq (view sy)) (Commit d)]).
Proof.
  intros Hs Hr. eapply inst_inv_ballots, local_steps_inv; [exact Hr|by apply starts_inv].
Qed.

End instance.

(** ** Waiting for requests *)

Section missing.
Context (has : Digest -> bool).

Lemma deque_swap_remove_back_spec {A : Type} (r : list A) i x : r !! i = Some x ->
  r ≡ₚ x :: deque_swap_remove_back i r /\
  forall k, (i < k)%nat -> (k < length (deque_swap_remove_back i r))%nat ->
    deque_swap_remove_back i r !! k = r !! k.
Proof.
  intros Hx. destruct (list_elem_of_split_length r i x Hx) as (l1 & l2 & -> & ->).
  unfold deque_swap_remove_back. rewrite Hx. destruct l2 as [|y l2 _] using rev_ind.
  - rewrite last_snoc, insert_app_r_alt, Nat.sub_diag by done. cbn [insert list_insert].
    rewrite length_app. cbn [length]. rewrite Nat.add_sub, take_app_length.
    split; [by rewrite Permutation_app_comm|]. intros k Hk Hk'. rewrite !lookup_app_l; [done|lia].
  - assert (E : last (l1 ++ x :: l2 ++ [y]) = Some y).
    { rewrite app_comm_cons, app_assoc. apply last_snoc. }
    assert (I : <[length l1 := y]> (l1 ++ x :: l2 ++ [y]) = l1 ++ y :: l2 ++ [y])
      by (by rewrite insert_app_r_alt, Nat.sub_diag).
    assert (T : take (length (l1 ++ x :: l2 ++ [y]) - 1) (l1 ++ y :: l2 ++ [y]) = l1 ++ y :: l2).
    { replace (l1 ++ y :: l2 ++ [y]) with ((l1 ++ y :: l2) ++ [y]) by (by rewrite <- app_assoc).
      apply take_app_length'. rewrite !length_app. cbn. rewrite length_app. cbn. lia. }
    rewrite E, I, T. split.
    + rewrite (Permutation_app_comm l2 [y]). cbn. by rewrite (Permutation_middle l1 (y :: l2) x).
    + intros k Hk Hk'. rewrite length_app in Hk'. cbn in Hk'. rewrite !lookup_app_r by lia.
      destruct (k - length l1)%nat as [|k'] eqn:Ek; [lia|].
      symmetry. apply (lookup_app_l l2 [y] k'). lia.
Qed.

Definition found_from (off : nat) (tail : list Digest) : list nat :=
  (filter (fun ix => has ix.2 = true) (zip (seq off (length tail)) tail)).*1.

Definition remove_all (r : list Digest) (ixs : list nat) : list Digest :=
  foldl (fun q i => deque_swap_remove_back i q) r ixs.

(** The indices are removed in increasing order: the elements still to be
    examined have not been moved, so only digests that were found go. *)
Lemma remove_all_spec q tail : forall pre r, q = pre ++ tail ->
  (forall k, (length pre <= k < length r)%nat -> r !! k = q !! k) ->
  exists removed, r ≡ₚ remove_all r (found_from (length pre) tail) ++ removed /\
    Forall (fun d => has d = true) removed /\
    (length r = length q -> (exists d, d ∈ tail /\ has d = true) -> removed <> []).
Proof.
  induction tail as [|t tail IH]; intros pre r Hq Hsame.
  { exists []. rewrite app_nil_r. split_and!; [done|done|]. intros _ (d & Hd & _). set_solver. }
  assert (Hq' : q = (pre ++ [t]) ++ tail) by (by rewrite <- app_assoc).
  assert (Hlen : length (pre ++ [t]) = S (length pre)) by (rewrite length_app; cbn; lia).
  unfold found_from. cbn [length seq zip zip_with]. rewrite filter_cons. cbn [snd].
  destruct (decide (has t = true)) as [Ht|Ht].
  - cbn [fmap list_fmap fst remove_all foldl].
    destruct (decide (length pre < length r)%nat) as [Hr|Hr].
    + assert (Hx : r !! length pre = Some t) by (rewrite Hsame by lia; subst q; by rewrite list_lookup_middle).
      destruct (deque_swap_remove_back_spec r (length pre) t Hx) as [Hp Hk].
      set (r1 := deque_swap_remove_back (length pre) r) in *.
      destruct (IH (pre ++ [t]) r1 Hq') as (removed & R1 & R2 & _).
      { rewrite Hlen. intros k Hk'. rewrite Hk by lia. apply Hsame.
        apply Permutation_length in Hp. cbn in Hp. lia. }
      rewrite Hlen in R1. exists (t :: removed). split_and!; [|by constructor|done].
      etransitivity; [exact Hp|]. etransitivity; [apply perm_skip, R1|apply Permutation_middle].
    + destruct (IH (pre ++ [t]) r Hq') as (removed & R1 & R2 & R3); [rewrite Hlen; intros; lia|].
      rewrite Hlen in R1. exists removed.
      assert (deque_swap_remove_back (length pre) r = r) as ->.
      { unfold deque_swap_remove_back. by rewrite lookup_ge_None_2 by lia. }
      split_and!; [done|done|]. intros El. subst q. rewrite El, length_app in Hr. cbn in Hr. lia.
  - destruct (IH (pre ++ [t]) r Hq') as (removed & R1 & R2 & R3).
    { rewrite Hlen. intros k Hk. apply Hsame. lia. }
    rewrite Hlen in R1. exists removed. split_and!; [done|done|].
    intros El (d & [->|Hd]%elem_of_cons & Hh); [done|]. apply R3; eauto.
Qed.

Lemma refresh_missing_spec c : missing_swapbuf c = [] ->
  missing_swapbuf (refresh_missing c has) = [] /\
  exists removed, missing_requests c ≡ₚ missing_requests (refresh_missing c has) ++ removed /\
    Forall (fun d => has d = true) removed /\
    ((exists d, d ∈ missing_requests c /\ has d = true) -> removed <> []).
Proof.
  intros Hb. split; [done|].
  destruct (remove_all_spec (missing_requests c) (missing_requests c) [] (missing_requests c) eq_refl)
    as (removed & R1 & R2 & R3); [done|].
  exists removed. unfold refresh_missing. cbn [missing_requests with_missing]. rewrite Hb. cbn [app].
  split_and!; [exact R1|done|auto].
Qed.

(** [poll] never gives up on a request that has not arrived: what it
    removes from the missing requests is in the log, and it removes at least
    one of those that are. *)
Theorem refresh_keeps_missing c : missing_swapbuf c = [] ->
  exists removed, missing_requests c ≡ₚ missing_requests (refresh_missing c has) ++ removed /\
    Forall (fun d => has d = true) removed /\
    ((exists d, d ∈ missing_requests c /\ has d = true) -> removed <> []).
Proof. intros Hb. by apply refresh_missing_spec. Qed.

Lemma refresh_all_shrinks c k : missing_swapbuf c = [] ->
  Forall (fun d => has d = true) (missing_requests c) -> (length (missing_requests c) <= k)%nat ->
  missing_requests (Nat.iter k (fun c => refresh_missing c has) c) = [].
Proof.
  revert c. induction k as [|k IH]; intros c Hb Hall Hk.
  { destruct (missing_requests c) eqn:E; [done|cbn in Hk; lia]. }
  rewrite Nat.iter_succ_r. destruct (refresh_missing_spec c Hb) as (Hb' & removed & R1 & R2 & R3).
  apply IH; [done|..].
  - rewrite R1 in Hall. by apply Forall_app in Hall as [? _].
  - apply Permutation_length in R1. rewrite length_app in R1.
    destruct (missing_requests c) as [|d l] eqn:E; [cbn [length] in R1; lia|].
    assert (removed <> []) by (apply R3; exists d; split; [set_solver|by apply Forall_cons in Hall as [? _]]).
    destruct removed; [done|]. cbn [length] in *. lia.
Qed.

(** Once all requests of the proposal have arrived, at most as many polls
    as there were missing requests empty the list. *)
Theorem refresh_terminates c : missing_swapbuf c = [] ->
  Forall (fun d => has d = true) (missing_requests c) ->
  missing_requests (Nat.iter (length (missing_requests c)) (fun c => refresh_missing c has) c) = [].
Proof. intros Hb Hall. by apply refresh_all_shrinks. Qed.

End missing.

(** ** The queues follow the instance *)

Section queues.
Context {S O P Sy : Type} `{HashFn, SigScheme, RandomState, !OrderedMap Digest, !SharedData S O P,
  !ViewSource Sy}.

(** Every queued message is in the slot of its instance. *)
Definition cons_ok (c : Consensus) : Prop :=
  let t := tbo c in
  seq_nonneg (curr_seq t) /\ tbo_ok (curr_seq t) (q_pre_prepares t) /\
  tbo_ok (curr_seq t) (q_prepares t) /\ tbo_ok (curr_seq t) (q_commits t).

Lemma cons_ok_new s k : seq_nonneg s -> cons_ok (cons_new s k).
Proof. intros Hs. split_and!; [done|apply tbo_ok_empty..]. Qed.

Lemma cons_ok_tbo c c' : tbo c' = tbo c -> cons_ok c -> cons_ok c'.
Proof. unfold cons_ok. by intros ->. Qed.

Lemma cons_ok_queue c h m : seq_ok (c_seq m) -> cons_ok c -> cons_ok (cons_queue c h m).
Proof.
  intros Hm (Hs & H1' & H2' & H3'). pose proof (seq_nonneg_ok _ Hs) as Hso.
  unfold cons_ok, cons_queue, tboq_queue. destruct (c_kind m); cbn; split_and!; try done;
    by apply tbo_ok_queue.
Qed.

Lemma cons_ok_next c : cons_ok c -> cons_ok (next_instance c).
Proof.
  intros (Hs & H1' & H2' & H3'). split_and!; cbn; [by apply next_nonneg|by apply tbo_ok_advance..].
Qed.

Lemma drain_to_done {A : Type} k (q q' : list A) : drain_to k q = Done q' -> q' = drop k q.
Proof. unfold drain_to. case_decide; [by intros [= <-]|discriminate]. Qed.

Lemma cons_ok_install c s c' : seq_nonneg s -> install_sequence_number c s = Done c' ->
  cons_ok c -> curr_seq (tbo c') = s /\ cons_ok c' /\ (s <> curr_seq (tbo c) -> phase c' = Init).
Proof.
  intros Hs Hi Hok. pose proof Hok as (Hc & H1' & H2' & H3'). unfold install_sequence_number in Hi.
  pose proof (seq_nonneg_ok _ Hs) as Hso. pose proof (seq_nonneg_ok _ Hc) as Hco.
  assert (Hemp : cons_ok (with_phase (with_tbo c (mkTbo s true [] [] [])) Init))
    by (split_and!; [done|apply tbo_ok_empty..]).
  destruct (index s (curr_seq (tbo c))) as [e|[|k]] eqn:Ek; [by injection Hi as <-|..].
  - injection Hi as <-. apply index_spec in Ek as [Ek _]; [|done..].
    assert (s = curr_seq (tbo c)) by (by apply seq_dist_zero). done.
  - case_decide; [by injection Hi as <-|].
    destruct (drain_to _ (q_pre_prepares _)) as [q1|] eqn:D1; [|discriminate].
    destruct (drain_to _ (q_prepares _)) as [q2|] eqn:D2; [|discriminate].
    destruct (drain_to _ (q_commits _)) as [q3|] eqn:D3; [|discriminate].
    apply drain_to_done in D1, D2, D3. subst. injection Hi as <-.
    split; [done|]. split; [|done]. split_and!; [done|by eapply tbo_ok_drop..].
Qed.

Lemma tbo_ok_popped curr q m q' : tbo_ok curr q -> tbo_pop_message q = (m, q') ->
  tbo_ok curr q' /\ forall x : StoredMessage ConsensusMessage, m = Some x ->
    seq_ok (s_seq x) /\ seq_dist (s_seq x) curr = 0.
Proof.
  intros Hq Hp. destruct m as [x|].
  - destruct (tbo_ok_pop _ _ _ _ Hp Hq) as (? & ? & ?). split; [done|]. by intros ? [= <-].
  - apply tbo_pop_none in Hp as [-> _]. by split.
Qed.

Lemma cons_ok_extract c on_msg rsp q put : cons_ok c -> tbo_ok (curr_seq (tbo c)) q ->
  (forall q' g, tbo_ok (curr_seq (tbo c)) q' ->
     let t := put q' g in curr_seq t = curr_seq (tbo c) /\ cons_ok (with_tbo c t)) ->
  cons_ok (extract_msg c on_msg rsp q put).2 /\
  forall h m, (extract_msg c on_msg rsp q put).1 = NextMessage h m ->
    rsp <> NextMessage h m -> seq_ok (c_seq m) /\ seq_dist (c_seq m) (curr_seq (tbo c)) = 0.
Proof.
  intros Hc Hq Hput. unfold extract_msg. destruct (tbo_pop_message q) as [[x|] q'] eqn:Hp;
    destruct (tbo_ok_popped _ _ _ _ Hq Hp) as [Hq' Hx]; cbn [fst snd].
  - split; [apply (Hput q' (get_queue (tbo c)) Hq')|]. intros h m [= <- <-] _. by apply Hx.
  - split; [apply (Hput q' false Hq')|]. intros h m -> ?. done.
Qed.

Lemma cons_ok_extract_pre_prepare c on_msg rsp : cons_ok c ->
  cons_ok (extract_pre_prepare c on_msg rsp).2 /\
  forall h m, (extract_pre_prepare c on_msg rsp).1 = NextMessage h m ->
    rsp <> NextMessage h m -> seq_ok (c_seq m) /\ seq_dist (c_seq m) (curr_seq (tbo c)) = 0.
Proof. intros Hc. pose proof Hc as (? & ? & ? & ?). by apply cons_ok_extract. Qed.

Lemma cons_ok_extract_prepare c on_msg rsp : cons_ok c ->
  cons_ok (extract_prepare c on_msg rsp).2 /\
  forall h m, (extract_prepare c on_msg rsp).1 = NextMessage h m ->
    rsp <> NextMessage h m -> seq_ok (c_seq m) /\ seq_dist (c_seq m) (curr_seq (tbo c)) = 0.
Proof. intros Hc. pose proof Hc as (? & ? & ? & ?). by apply cons_ok_extract. Qed.

Lemma cons_ok_extract_commit c on_msg rsp : cons_ok c ->
  cons_ok (extract_commit c on_msg rsp).2 /\
  forall h m, (extract_commit c on_msg rsp).1 = NextMessage h m ->
    rsp <> NextMessage h m -> seq_ok (c_seq m) /\ seq_dist (c_seq m) (curr_seq (tbo c)) = 0.
Proof. intros Hc. pose proof Hc as (? & ? & ? & ?). by apply cons_ok_extract. Qed.

Lemma poll_ok c (l : Log S O) : cons_ok c ->
  cons_ok (poll c l).2 /\ forall h m, (poll c l).1 = NextMessage h m ->
    seq_ok (c_seq m) /\ seq_dist (c_seq m) (curr_seq (tbo c)) = 0.
Proof.
  intros Hc. unfold poll.
  destruct (phase c); try (destruct (get_queue (tbo c)); [|by split]).
  - destruct (cons_ok_extract_pre_prepare c PrePreparing TryProposeAndRecv Hc) as [? Hx].
    split; [done|]. intros h m E. by apply (Hx h m E).
  - destruct (cons_ok_extract_pre_prepare c PrePreparing Recv Hc) as [? Hx].
    split; [done|]. intros h m E. by apply (Hx h m E).
  - assert (Hr : cons_ok (refresh_missing c (has_request l))) by (by apply (cons_ok_tbo c)).
    destruct (missing_requests _); [|by split].
    destruct (cons_ok_extract_prepare _ (Preparing 1) Recv Hr) as [? Hx].
    split; [done|]. intros h m E. by apply (Hx h m E).
  - destruct (cons_ok_extract_prepare c (Preparing i) Recv Hc) as [? Hx].
    split; [done|]. intros h m E. by apply (Hx h m E).
  - destruct (cons_ok_extract_commit c (Committing i) Recv Hc) as [? Hx].
    split; [done|]. intros h m E. by apply (Hx h m E).
Qed.

Lemma process_message_tbo c h m (sy : Sy) l n st c' l' n' :
  process_message c h m sy l n = Done (st, c', l', n') ->
  tbo c' = tbo c \/ tbo c' = tbo (cons_queue c h m).
Proof.
  unfold process_message, process_pre_preparing, process_preparing, process_committing, defer.
  destruct (phase c), (c_kind m) as [ds|d|d]; try (intros [= <- <- <- <-]; tauto);
    repeat (case_decide; [intros [= <- <- <- <-]; tauto|]).
  - returned_as c1 eqn:Ha.
    apply accept_proposal_inv in Ha as (_ & Ht & _).
    destruct (vote_prepare c1 sy n); [|discriminate]. intros [= <- <- <- <-]. by left.
  - case_match; [|intros [= <- <- <- <-]; by left].
    destruct (broadcast n _ _) as [[n1 dg]|]; [|discriminate]. intros [= <- <- <- <-]. by left.
  - case_match; [|intros [= <- <- <- <-]; by left].
    destruct (decision _); [|discriminate]. intros [= <- <- <- <-]. by left.
Qed.

(** C19: the queues of the consensus layer stay aligned with the running instance
    through [process_message], [poll] and [queue] of messages whose numbers are
    32-bit integers, [next_instance], and [install_sequence_number] of a number
    that is not negative; and a message handed out by [poll] whose number is not
    negative belongs to the running instance. (A negative number can be an alias
    of the running one.) *)
Theorem queues_follow_instance c : cons_ok c ->
  (forall (sy : Sy) l n h m st c' l' n', seq_ok (c_seq m) ->
     process_message c h m sy l n = Done (st, c', l', n') -> cons_ok c') /\
  (forall (l : Log S O), cons_ok (poll c l).2) /\
  (forall h m, seq_ok (c_seq m) -> cons_ok (cons_queue c h m)) /\
  cons_ok (next_instance c) /\
  (forall s c', seq_nonneg s -> install_sequence_number c s = Done c' -> cons_ok c') /\
  (forall (l : Log S O) h m, (poll c l).1 = NextMessage h m -> seq_nonneg (c_seq m) ->
     c_seq m = curr_seq (tbo c)).
Proof.
  intros Hc. split_and!.
  - intros sy l n h m st c' l' n' Hm Hp. apply process_message_tbo in Hp as [E|E].
    + by apply (cons_ok_tbo c).
    + apply (cons_ok_tbo (cons_queue c h m)); [done|]. by apply cons_ok_queue.
  - intros l. by apply poll_ok.
  - intros h m Hm. by apply cons_ok_queue.
  - by apply cons_ok_next.
  - intros s c' Hs Hi. by apply (cons_ok_install c s c').
  - intros l h m E Hn. destruct (proj2 (poll_ok c l Hc) h m E) as [_ Hd].
    apply seq_dist_zero; [done|apply Hc|done].
Qed.

(** [install_sequence_number] moves to the given instance, except that it
    panics when the PRE-PREPARE queue reaches past that instance and the
    PREPARE or the COMMIT queue does not. *)
Theorem install_sequence_number_spec c s : cons_ok c -> seq_nonneg s ->
  let limit := seq_dist s (curr_seq (tbo c)) in
  let len {A} (q : list A) := Z.of_nat (length q) in
  match install_sequence_number c s with
  | Done c' => curr_seq (tbo c') = s /\ cons_ok c' /\ (s <> curr_seq (tbo c) -> phase c' = Init)
  | Panic => 0 < limit < len (q_pre_prepares (tbo c)) /\
             (len (q_prepares (tbo c)) < limit \/ len (q_commits (tbo c)) < limit)
  end.
Proof.
  intros Hc Hs limit len. destruct (install_sequence_number c s) as [c'|] eqn:Hi.
  - by apply cons_ok_install.
  - unfold install_sequence_number in Hi. destruct Hc as (Hc & _).
    destruct (index s (curr_seq (tbo c))) as [e|[|k]] eqn:Ek; [discriminate..|].
    apply index_spec in Ek as [Ek _]; [|by apply seq_nonneg_ok..]. fold limit in Ek.
    case_decide as Hlen; [discriminate|]. unfold drain_to in Hi.
    rewrite decide_True in Hi by lia. cbn [obind] in Hi. unfold len. split; [lia|].
    case_decide; [|left; lia]. case_decide; [discriminate|]. right. lia.
Qed.

(** A vote for a later instance is not kept when the replica is in the
    voting phase for a proposal with another digest, although it would be
    queued in any other phase: the digest is compared first. *)
Theorem later_vote_dropped c h m (sy : Sy) (l : Log S O) (n : Node S O P) d :
  c_view m = view_seq (view sy) -> d <> current_digest c ->
  (exists i, phase c = Preparing i /\ c_kind m = Prepare d) \/
  (exists i, phase c = Committing i /\ c_kind m = Commit d) ->
  process_message c h m sy l n = Done (Deciding, c, l, n).
Proof.
  intros Hv Hd [(i & Hp & Hk)|(i & Hp & Hk)]; unfold process_message, process_preparing,
    process_committing; rewrite Hp, Hk; rewrite decide_False by (by intros ?);
    by rewrite decide_True by done.
Qed.

End queues.

(** ** Witnesses *)

#[local] Existing Instance toy_hash.
#[local] Existing Instance toy_sig.
#[local] Existing Instance toy_data.
#[local] Existing Instance key_order.
#[local] Existing Instance w_map.

(** Replica [i] at the start of instance 0 with batches of one request. *)
Definition w_start (i : NodeId) : Local (S := Z) (O := Z) (P := Z) :=
  mkLocal (cons_new ZERO 1) w_log (w_node i).

Definition node (i : Z) : NodeId := mkNodeId i.

(** A header from node [i] whose digest field is made of [d]s, and messages of
    instance 0 in view 0. *)
Definition w_head (i d : Z) : Header :=
  mkHeader 0 0 i 0 0 0 (replicate 32 d) (replicate 64 1).
Definition w_pp (b : Z) : ConsensusMessage := mkConsensus ZERO ZERO (PrePrepare [w_d b]).
Definition w_vote (d : Z) : ConsensusMessage :=
  mkConsensus ZERO ZERO (Prepare (mkDigest (replicate 32 d))).
Definition w_commit (d : Z) : ConsensusMessage :=
  mkConsensus ZERO ZERO (Commit (mkDigest (replicate 32 d))).

(** Process a list of messages none of which decides. *)
Fixpoint feed (x : Local (S := Z) (O := Z) (P := Z)) (ms : list (Header * ConsensusMessage))
  : option (Local (S := Z) (O := Z) (P := Z)) :=
  match ms with
  | [] => Some x
  | (h, m) :: ms =>
    match process_message (r_cons x) h m w_view (r_log x) (r_node x) with
    | Done (Deciding, c, l, n) => feed (mkLocal c l n) ms
    | _ => None
    end
  end.

Lemma feed_steps ms : forall x y, feed x ms = Some y -> rtc (local_step w_view any_message) x y.
Proof.
  induction ms as [|[h m] ms IH]; intros x y; simpl; [by intros [= ->]|].
  destruct (process_message _ _ _ _ _ _) as [[[[[| |] c] l] n]|] eqn:Hp; try discriminate.
  intros Hf. apply rtc_l with (mkLocal c l n); [|by apply IH].
  destruct x. by eapply local_process.
Qed.

Definition w_begin : Local (S := Z) (O := Z) (P := Z) :=
  mkLocal (with_phase (r_cons (w_start (node 1))) PrePreparing) w_log (w_node (node 1)).
Definition w_almost : Local (S := Z) (O := Z) (P := Z) :=
  default w_begin (feed w_begin [(w_head 0 7, w_pp 1); (w_head 1 7, w_vote 7); (w_head 2 7, w_vote 7);
    (w_head 0 7, w_commit 7); (w_head 1 7, w_commit 7)]).

Lemma w_almost_reached : rtc (local_step w_view any_message) w_begin w_almost.
Proof.
  unfold w_almost. set (ms := [_; _; _; _; _]).
  assert (E : (if feed w_begin ms then true else false) = true) by (vm_compute; reflexivity).
  apply (feed_steps ms). by destruct (feed w_begin ms).
Qed.

Definition w_result : StepResult (S := Z) (O := Z) (P := Z) :=
  process_message (r_cons w_almost) (w_head 2 7) (w_commit 7) w_view (r_log w_almost) (r_node w_almost).
Definition w_final : Local (S := Z) (O := Z) (P := Z) :=
  match w_result with
  | Done (_, c, l, n) => mkLocal c l n
  | Panic => w_almost
  end.

Lemma w_final_decided :
  w_result = Done (Decided [w_d 1], r_cons w_final, r_log w_final, r_node w_final).
Proof.
  assert (E : match w_result with Done (Decided ds, _, _, _) => Some ds | _ => None end = Some [w_d 1])
    by (vm_compute; reflexivity).
  unfold w_final. destruct w_result as [[[[[| |ds] c] l] n]|]; try discriminate.
  by injection E as ->.
Qed.

Lemma local_eta (x : Local (S := Z) (O := Z) (P := Z)) : mkLocal (r_cons x) (r_log x) (r_node x) = x.
Proof. by destruct x. Qed.

Lemma decision_has_certificate_witness : exists d cs,
  certified w_view ZERO w_log (r_log w_final) d [w_d 1] cs.
Proof.
  apply (decision_has_certificate w_view any_message ZERO w_begin (r_cons w_almost)
    (r_log w_almost) (r_node w_almost) (w_head 2 7) (w_commit 7) [w_d 1]
    (r_cons w_final) (r_log w_final) (r_node w_final)).
  - split; [done|by right].
  - rewrite (local_eta w_almost). exact w_almost_reached.
  - exact w_final_decided.
Defined.

Lemma one_vote_per_instance_witness : exists own d k,
  outbox (r_node w_almost) = outbox (r_node w_begin) ++ own /\
  ballots own = take k (own_prepare w_view (r_node w_begin) ZERO d ++
                        [mkConsensus ZERO (view_seq (view w_view)) (Commit d)]).
Proof.
  apply (one_vote_per_instance w_view any_message ZERO w_begin w_almost).
  - split; [done|by right].
  - exact w_almost_reached.
Defined.

Definition w_waiting : Consensus :=
  with_missing (cons_new ZERO 3) [w_d 1; w_d 5; w_d 2] [].

Lemma refresh_keeps_missing_witness : exists removed,
  [w_d 1; w_d 5; w_d 2] ≡ₚ missing_requests (refresh_missing w_waiting (has_request w_log)) ++ removed
  /\ removed <> [].
Proof.
  destruct (refresh_keeps_missing (has_request w_log) w_waiting eq_refl) as (r & H1 & _ & H3).
  exists r. split; [exact H1|]. apply H3. exists (w_d 1). split; [cbn; set_solver|].
  vm_compute. reflexivity.
Defined.

Lemma refresh_terminates_witness :
  missing_requests (Nat.iter 2 (fun c => refresh_missing c (has_request w_log))
    (with_missing (cons_new ZERO 2) [w_d 1; w_d 2] [])) = [].
Proof.
  apply (refresh_terminates (has_request w_log) (with_missing (cons_new ZERO 2) [w_d 1; w_d 2] [])).
  - reflexivity.
  - repeat constructor.
Defined.

Lemma queues_follow_instance_witness :
  cons_ok (next_instance (cons_queue (cons_new ZERO 1) (w_head 0 7) (w_commit 7))).
Proof.
  apply (queues_follow_instance (S := Z) (O := Z) (P := Z) (Sy := ViewInfo)).
  apply cons_ok_queue; [vm_compute; split; discriminate|].
  apply cons_ok_new. vm_compute. split; discriminate.
Defined.

(** Two PRE-PREPAREs ahead of everything else. *)
Definition w_ahead : Consensus :=
  cons_queue (cons_new ZERO 1) (w_head 0 7) (mkConsensus (mkSeqNo 2) ZERO (PrePrepare [])).

Lemma install_sequence_number_spec_witness :
  install_sequence_number w_ahead (mkSeqNo 1) = Panic /\
  0 < seq_dist (mkSeqNo 1) (curr_seq (tbo w_ahead)).
Proof.
  assert (E : install_sequence_number w_ahead (mkSeqNo 1) = Panic) by (vm_compute; reflexivity).
  split; [exact E|]. pose proof (install_sequence_number_spec w_ahead (mkSeqNo 1)) as H.
  cbn zeta in H. rewrite E in H. apply H.
  - apply cons_ok_queue; [vm_compute; split; discriminate|].
    apply cons_ok_new. vm_compute. split; discriminate.
  - vm_compute. split; discriminate.
Defined.

Lemma later_vote_dropped_witness :
  process_message (with_phase (cons_new ZERO 1) (Preparing 1)) (w_head 1 7)
    (mkConsensus (mkSeqNo 1) ZERO (Prepare (mkDigest (replicate 32 7)))) w_view w_log (w_node (node 1)) =
  Done (Deciding, with_phase (cons_new ZERO 1) (Preparing 1), w_log, w_node (node 1)).
Proof.
  apply (later_vote_dropped _ _ _ w_view w_log (w_node (node 1)) (mkDigest (replicate 32 7))).
  - reflexivity.
  - vm_compute. congruence.
  - left. by exists 1.
Defined.
