(* ===== verification/Progress.v ===== *)
(** * Progress of an instance ([src/bft/consensus/mod.rs])

    That an instance is decided when enough messages are processed: a proposal
    whose requests are known, a quorum less one of PREPAREs for it, then a quorum
    of COMMITs, whatever other messages are processed in between. *)

From S2P Require Import Prelude Error Ordering Prng Crypto Params Message Tbo Collections Node.
From S2P Require Import DecLog Log Consensus.
Local Open Scope Z_scope.
Local Open Scope bft_scope.

Section progress.
Context {S O P Sy : Type} `{HashFn, SigScheme, RandomState, !OrderedMap Digest, !SharedData S O P,
  !ViewSource Sy}.

Implicit Type x : Local (S := S) (O := O) (P := P).

(** Process messages in order, up to a decision. *)
Fixpoint process_all (sy : Sy) x (ms : list (StoredMessage ConsensusMessage))
  : outcome (ConsensusStatus * Local) :=
  match ms with
  | [] => Done (Deciding, x)
  | m :: ms =>
    match process_message (r_cons x) (header m) (message m) sy (r_log x) (r_node x) with
    | Done (Deciding, c, l, n) => process_all sy (mkLocal c l n) ms
    | Done (st, c, l, n) => Done (st, mkLocal c l n)
    | Panic => Panic
    end
  end.

(** The instance [s], and the proposal [ds] with digest [d] in it. *)
Context (sy : Sy) (s : SeqNo) (d : Digest) (ds : list Digest).

Let v : SeqNo := view_seq (view sy).
Let q : Z := quorum (params (view sy)).
Let group_targets : list NodeId := targets (params_n (params (view sy))).

Definition is_prepare (m : StoredMessage ConsensusMessage) : bool :=
  bool_decide (message m = mkConsensus s v (Prepare d)).
Definition is_commit_vote (m : StoredMessage ConsensusMessage) : bool :=
  bool_decide (message m = mkConsensus s v (Commit d)).

(** The consensus messages a node has sent. *)
Definition sent_consensus (n : Node S O P) : list ConsensusMessage := omap consensus_of (outbox n).

(** A node has voted for the proposal in the first round: the leader need not. *)
Definition has_prepared (n : Node S O P) : Prop :=
  node_id n = leader (view sy) \/ mkConsensus s v (Prepare d) ∈ sent_consensus n.
Definition has_committed (n : Node S O P) : Prop := mkConsensus s v (Commit d) ∈ sent_consensus n.

(** The replica votes for the proposal in phase [ph], and can reach the group. *)
Record voting (ph : ProtoPhase) x : Prop := mkVoting {
  vt_phase : phase (r_cons x) = ph;
  vt_seq : curr_seq (tbo (r_cons x)) = s;
  vt_digest : current_digest (r_cons x) = d;
  vt_batch : decision (r_cons x) = Done ds;
  vt_connected : connected (r_node x) group_targets;
  vt_prepared : has_prepared (r_node x);
  vt_committed : match ph with Committing _ => has_committed (r_node x) | _ => True end
}.

Context (Hser : forall kind, serializable (Message.Consensus (mkConsensus s v kind) : SystemMessage S O P)).

(** A message that is put aside or dropped, or a new phase. *)
Lemma voting_phase ph ph' c l n l' n' : voting ph (mkLocal c l n) -> connected n' group_targets ->
  has_prepared n' -> match ph' with Committing _ => has_committed n' | _ => True end ->
  voting ph' (mkLocal (with_phase c ph') l' n').
Proof. by intros [A B C D E F G] Hn Hp Hc; split. Qed.

Lemma voting_queue ph c l n h m l' : voting ph (mkLocal c l n) ->
  voting ph (mkLocal (cons_queue c h m) l' n).
Proof.
  intros [A B C D E F G]. destruct (cons_queue_rest c h m) as (t & -> & Ht & _).
  split; try done. cbn in *. congruence.
Qed.

Lemma voting_log ph c l n l' : voting ph (mkLocal c l n) -> voting ph (mkLocal c l' n).
Proof. by intros [A B C D E F G]; split. Qed.

(** A broadcast to the group: the message is sent, and nothing is unsent. *)
Lemma broadcast_group (n : Node S O P) kind : connected n group_targets -> exists n' dg,
  broadcast n (Message.Consensus (mkConsensus s v kind)) group_targets = Done (n', dg) /\
  connected n' group_targets /\ node_id n' = node_id n /\
  sent_consensus n' = sent_consensus n ++ [mkConsensus s v kind].
Proof.
  intros Hc. destruct (broadcast_done n _ group_targets Hc (Hser kind)) as (task & dg & E & Hm & _).
  eexists _, dg. split; [exact E|]. split_and!; [exact Hc|done|].
  unfold sent_consensus. cbn. rewrite omap_app. cbn. unfold consensus_of at 2. by rewrite Hm.
Qed.

Lemma has_prepared_more n n' new : node_id n' = node_id n ->
  sent_consensus n' = sent_consensus n ++ new -> has_prepared n -> has_prepared n'.
Proof. unfold has_prepared. intros -> ->. set_solver. Qed.

(** What one message does to a replica that collects PREPAREs. *)
Lemma preparing_step i x m : voting (Preparing i) x ->
  exists x', process_message (r_cons x) (header m) (message m) sy (r_log x) (r_node x)
             = Done (Deciding, r_cons x', r_log x', r_node x') /\
    voting (if is_prepare m then if i + 1 =? q then Committing 0 else Preparing (i + 1)
            else Preparing i) x'.
Proof.
  destruct x as [c l n], m as [h [sq vw kind]]. cbn [r_cons r_log r_node header message].
  intros Hx. pose proof Hx as [Hph Hs Hd Hb Hc Hp Hk]. cbn in Hph, Hs, Hd, Hb, Hc, Hp, Hk. unfold is_prepare. cbn [message].
  unfold process_message. rewrite Hph. unfold process_preparing. cbn [c_kind c_view c_seq].
  destruct kind as [ps|d'|d'].
  1, 3: (rewrite bool_decide_eq_false_2 by congruence; eexists (mkLocal _ _ _);
         split; [reflexivity|by eapply voting_queue]).
  case_decide as Hv.
  { rewrite bool_decide_eq_false_2 by (unfold v; congruence). by exists (mkLocal c l n). }
  case_decide as Hd'.
  { rewrite bool_decide_eq_false_2 by congruence. by exists (mkLocal c l n). }
  case_decide as Hsq.
  { rewrite bool_decide_eq_false_2 by congruence. eexists (mkLocal _ _ _).
    split; [reflexivity|by eapply voting_queue]. }
  rewrite bool_decide_eq_true_2 by (unfold v; congruence). fold q.
  destruct (i + 1 =? q).
  - unfold forge. rewrite Hs.
    destruct (broadcast_group n (Commit (current_digest c)) Hc) as (n' & dg & E & N1 & N2 & N3).
    fold group_targets v. rewrite E. cbn [obind]. eexists (mkLocal _ _ _). split; [reflexivity|].
    eapply voting_phase; [exact Hx|done|by eapply has_prepared_more|].
    unfold has_committed. rewrite N3, Hd. set_solver.
  - eexists (mkLocal _ _ _). split; [reflexivity|]. by eapply voting_phase.
Qed.

(** What one message does to a replica that collects COMMITs. *)
Lemma committing_step j x m : voting (Committing j) x ->
  exists st x', process_message (r_cons x) (header m) (message m) sy (r_log x) (r_node x)
                = Done (st, r_cons x', r_log x', r_node x') /\
    if is_commit_vote m && (j + 1 =? q) then st = Decided ds /\ has_prepared (r_node x') /\ has_committed (r_node x')
    else st = Deciding /\ voting (Committing (if is_commit_vote m then j + 1 else j)) x'.
Proof.
  destruct x as [c l n], m as [h [sq vw kind]]. cbn [r_cons r_log r_node header message].
  intros Hx. pose proof Hx as [Hph Hs Hd Hb Hc Hp Hk]. cbn in Hph, Hs, Hd, Hb, Hc, Hp, Hk. unfold is_commit_vote. cbn [message].
  unfold process_message. rewrite Hph. unfold process_committing. cbn [c_kind c_view c_seq].
  destruct kind as [ps|d'|d'].
  1, 2: (rewrite bool_decide_eq_false_2 by congruence; eexists _, (mkLocal _ _ _);
         split; [reflexivity|split; [reflexivity|by eapply voting_queue]]).
  case_decide as Hv.
  { rewrite bool_decide_eq_false_2 by (unfold v; congruence). by exists Deciding, (mkLocal c l n). }
  case_decide as Hd'.
  { rewrite bool_decide_eq_false_2 by congruence. by exists Deciding, (mkLocal c l n). }
  case_decide as Hsq.
  { rewrite bool_decide_eq_false_2 by congruence. eexists _, (mkLocal _ _ _).
    split; [reflexivity|split; [reflexivity|by eapply voting_queue]]. }
  rewrite bool_decide_eq_true_2 by (unfold v; congruence). fold q.
  cbn [andb]. destruct (j + 1 =? q).
  - change (decision (with_phase c Init)) with (decision c). rewrite Hb. cbn [obind].
    by eexists _, (mkLocal _ _ _).
  - eexists _, (mkLocal _ _ _). split; [reflexivity|]. split; [reflexivity|]. by eapply voting_phase.
Qed.

Lemma process_all_deciding x m ms x' :
  process_message (r_cons x) (header m) (message m) sy (r_log x) (r_node x)
    = Done (Deciding, r_cons x', r_log x', r_node x') ->
  process_all sy x (m :: ms) = process_all sy x' ms.
Proof. intros E. cbn [process_all]. rewrite E. by destruct x'. Qed.

(** Enough PREPAREs take the replica to the commit phase. *)
Lemma prepares_suffice ms : forall i x rest, voting (Preparing i) x -> i < q ->
  q - i <= Z.of_nat (count_if is_prepare ms) ->
  exists x' ms', voting (Committing 0) x' /\
    process_all sy x (ms ++ rest) = process_all sy x' (ms' ++ rest).
Proof.
  induction ms as [|m ms IH]; intros i x rest Hx Hi Hq; [cbn in Hq; lia|].
  destruct (preparing_step i x m Hx) as (x1 & E & H1'). cbn [app].
  rewrite (process_all_deciding x m _ x1 E).
  unfold count_if in *. cbn [List.filter] in Hq. destruct (is_prepare m); cbn [length] in Hq.
  - destruct (Z.eqb_spec (i + 1) q); [by exists x1, ms|]. apply (IH (i + 1)); [done|lia|lia].
  - by apply (IH i).
Qed.

(** Enough COMMITs decide the proposal. *)
Lemma commits_suffice ms : forall j x, voting (Committing j) x -> j < q ->
  q - j <= Z.of_nat (count_if is_commit_vote ms) ->
  exists x', process_all sy x ms = Done (Decided ds, x').
Proof.
  induction ms as [|m ms IH]; intros j x Hx Hj Hq; [cbn in Hq; lia|].
  destruct (committing_step j x m Hx) as (st & x1 & E & H1').
  unfold count_if in *. cbn [List.filter] in Hq. destruct (is_commit_vote m); cbn [andb length] in H1', Hq.
  - destruct (Z.eqb_spec (j + 1) q) as [|Hne].
    + destruct H1' as [-> _]. exists x1. cbn [process_all]. rewrite E. by destruct x1.
    + destruct H1' as [-> H1']. rewrite (process_all_deciding x m ms x1 E).
      apply (IH (j + 1)); [done|lia|lia].
  - destruct H1' as [-> H1']. rewrite (process_all_deciding x m ms x1 E). by apply (IH j).
Qed.

(** A replica that waits for a proposal, knows the requests it refers to, and
    can reach the group, accepts it: from whatever node the proposal comes. *)
Lemma proposal_accepted x h :
  phase (r_cons x) = PrePreparing -> curr_seq (tbo (r_cons x)) = s -> missing_requests (r_cons x) = [] ->
  (length ds <= length (current (r_cons x)))%nat -> hdr_digest h = d ->
  (forall e, e ∈ ds ++ drop (length ds) (current (r_cons x)) -> has_request (r_log x) e = true) ->
  connected (r_node x) group_targets ->
  exists x', process_message (r_cons x) h (mkConsensus s v (PrePrepare ds)) sy (r_log x) (r_node x)
             = Done (Deciding, r_cons x', r_log x', r_node x') /\ voting (Preparing 1) x'.
Proof.
  destruct x as [c l n]. cbn [r_cons r_log r_node]. intros Hph Hs Hm Hl Hd Hreq Hc.
  unfold process_message. rewrite Hph. unfold process_pre_preparing. cbn [c_kind c_view c_seq].
  rewrite decide_False by (unfold v; tauto). rewrite decide_False by (rewrite Hs; tauto).
  unfold accept_proposal, copy_prefix. rewrite decide_True by done. cbn [obind].
  set (c1 := mkCons _ _ _ _ _ _ _).
  assert (exists n', vote_prepare c1 sy n = Done n' /\ connected n' group_targets /\ has_prepared n')
    as (n' & -> & Hn' & Hpn).
  { unfold vote_prepare. case_decide; [|exists n; split_and!; [done..|by left]].
    unfold forge. cbn [tbo c1]. rewrite Hs.
    destruct (broadcast_group n (Prepare (current_digest c1)) Hc) as (n' & dg & E & N1 & N2 & N3).
    fold group_targets v. rewrite E. cbn [obind]. eexists. split; [reflexivity|]. split; [done|].
    right. rewrite N3. cbn [current_digest c1]. rewrite Hd. set_solver. }
  cbn [obind].
  assert (missing_requests c1 ++
    List.filter (fun d => negb (has_request (log_consensus (P := P) l h (mkConsensus s v (PrePrepare ds))) d))
      (current c1) = []) as ->.
  { cbn [missing_requests c1 current]. rewrite Hm. cbn [app].
    induction (ds ++ drop (length ds) (current c)) as [|e es IH]; [done|]. cbn [List.filter].
    change (has_request (log_consensus (P := P) l h _) e) with (has_request l e).
    rewrite (Hreq e) by left. apply IH. intros e' He'. apply Hreq. by right. }
  eexists (mkLocal _ _ _). split; [reflexivity|]. split; try done.
  unfold decision. cbn. rewrite decide_True by (rewrite length_app; lia). by rewrite take_app_length.
Qed.

(** The normal case makes progress. A replica that waits for a proposal in
    instance [s], is connected to the group and has the requests the proposal
    refers to decides exactly the proposed batch, without panicking, when it
    processes the proposal, then a quorum less one of PREPAREs (its own
    acceptance is the first vote), then a quorum of COMMITs for its digest,
    whatever other messages come in between. *)
Theorem normal_case_decides x h ms1 ms2 :
  phase (r_cons x) = PrePreparing -> curr_seq (tbo (r_cons x)) = s -> missing_requests (r_cons x) = [] ->
  (length ds <= length (current (r_cons x)))%nat -> hdr_digest h = d ->
  (forall e, e ∈ ds ++ drop (length ds) (current (r_cons x)) -> has_request (r_log x) e = true) ->
  connected (r_node x) group_targets -> 1 < q ->
  q - 1 <= Z.of_nat (count_if is_prepare ms1) -> q <= Z.of_nat (count_if is_commit_vote ms2) ->
  exists x', process_all sy x (mkStored h (mkConsensus s v (PrePrepare ds)) :: ms1 ++ ms2)
             = Done (Decided ds, x').
Proof.
  intros Hph Hs Hm Hl Hd Hreq Hc Hq Hms1 Hms2.
  destruct (proposal_accepted x h Hph Hs Hm Hl Hd Hreq Hc) as (x1 & E & H1').
  rewrite (process_all_deciding x (mkStored h _) _ x1 E).
  destruct (prepares_suffice ms1 1 x1 ms2 H1') as (x2 & ms' & H2' & ->); [lia|lia|].
  apply (commits_suffice (ms' ++ ms2) 0 x2); [done|lia|].
  unfold count_if in *. rewrite List.filter_app, length_app. lia.
Qed.

End progress.

(** ** Witness: replica 1 of four, with votes for another proposal in between. *)

#[local] Existing Instance toy_hash.
#[local] Existing Instance toy_sig.
#[local] Existing Instance toy_data.
#[local] Existing Instance key_order.
#[local] Existing Instance w_map.

Definition w_votes1 : list (StoredMessage ConsensusMessage) :=
  [mkStored (w_head 3 9) (w_vote 9); mkStored (w_head 1 7) (w_vote 7); mkStored (w_head 0 7) (w_commit 7);
   mkStored (w_head 2 7) (w_vote 7)].
Definition w_votes2 : list (StoredMessage ConsensusMessage) :=
  [mkStored (w_head 0 7) (w_commit 7); mkStored (w_head 3 9) (w_commit 9);
   mkStored (w_head 1 7) (w_commit 7); mkStored (w_head 2 7) (w_commit 7)].

Lemma w_serializable m : serializable (m : SystemMessage Z Z Z).
Proof. eexists. reflexivity. Qed.

Lemma w_known e : e ∈ [w_d 1] ++ drop 1 (current (r_cons w_begin)) -> has_request (r_log w_begin) e = true.
Proof.
  change (e ∈ [w_d 1] -> has_request w_log e = true).
  intros ->%list_elem_of_singleton. vm_compute. reflexivity.
Qed.

Lemma normal_case_decides_witness : exists x',
  process_all w_view w_begin
    (mkStored (w_head 0 7) (mkConsensus ZERO (view_seq (view w_view)) (PrePrepare [w_d 1]))
     :: w_votes1 ++ w_votes2)
  = Done (Decided [w_d 1], x').
Proof.
  exact (normal_case_decides w_view ZERO (mkDigest (replicate 32 7)) [w_d 1]
    (fun kind => w_serializable _) w_begin (w_head 0 7) w_votes1 w_votes2
    eq_refl eq_refl eq_refl (le_n 1) eq_refl w_known
    (fun i Hi _ => proj2 (elem_of_list_to_set i (targets 4)) Hi)
    ltac:(vm_compute; reflexivity) ltac:(vm_compute; congruence) ltac:(vm_compute; congruence)).
Defined.
