(* ===== verification/Agreement.v ===== *)
(** * Agreement of the replicas on one instance

    A group of replicas running the consensus state machine of
    [src/bft/consensus/mod.rs] in one view and one instance, against faulty
    nodes that may send anything under their own names. What the correct
    replicas broadcast goes into a [soup] of messages from which any of them
    may be received, in any order and any number of times, under any header
    that names the sender. A replica that decides leaves the instance. *)

From S2P Require Import Prelude Error Ordering Prng Crypto Params Message Tbo Collections Node.
From S2P Require Import DecLog Log Consensus.
Local Open Scope Z_scope.

Section network.
Context {S O P Sy : Type} `{HashFn, SigScheme, RandomState, !OrderedMap Digest, !SharedData S O P,
  !ViewSource Sy}.

Abbreviation Rep := (Local (S := S) (O := O) (P := P)).

(** A decision: who decided, the digest of the proposal, the batch, and the
    COMMITs the decision rests on. *)
Record Decision := mkDecision {
  dec_by : NodeId;
  dec_digest : Digest;
  dec_batch : list Digest;
  dec_votes : list (StoredMessage ConsensusMessage)
}.

Record Net := mkNet {
  reps : NodeId -> Rep;
  soup : list (NodeId * ConsensusMessage);
  decs : list Decision
}.

Context (sy : Sy) (s : SeqNo) (faulty : gset NodeId) (start : NodeId -> Rep).

Abbreviation v := (view_seq (view sy)).

Definition update (i : NodeId) (x : Rep) (r : NodeId -> Rep) : NodeId -> Rep :=
  fun j => if decide (j = i) then x else r j.

Definition in_soup (msgs : list (NodeId * ConsensusMessage)) (h : Header) (m : ConsensusMessage)
  : Prop := (hdr_from h, m) ∈ msgs.

(** What [i] has sent between two states. *)
Definition newly_sent (i : NodeId) (x y : Rep)
  : list (NodeId * ConsensusMessage) :=
  map (pair i) (omap consensus_of (drop (length (outbox (r_node x))) (outbox (r_node y)))).

Definition running (net : Net) (i : NodeId) : Prop :=
  i ∉ faulty /\ forall d, d ∈ decs net -> dec_by d <> i.

Inductive net_step : Net -> Net -> Prop :=
| net_local net i x : running net i ->
    local_step sy (in_soup (soup net)) (reps net i) x ->
    net_step net (mkNet (update i x (reps net)) (soup net ++ newly_sent i (reps net i) x) (decs net))
| net_decide net i h m ds c l n : running net i -> in_soup (soup net) h m ->
    process_message (r_cons (reps net i)) h m sy (r_log (reps net i)) (r_node (reps net i)) =
      Done (Decided ds, c, l, n) ->
    net_step net (mkNet (update i (mkLocal c l n) (reps net)) (soup net)
      (mkDecision i (current_digest c) ds
         (drop (length (commits (declog (r_log (start i))))) (commits (declog l))) :: decs net))
| net_faulty net i m : i ∈ faulty ->
    net_step net (mkNet (reps net) (soup net ++ [(i, m)]) (decs net)).

Definition net_start : Net := mkNet start [] [].

Definition well_started : Prop :=
  forall i, i ∉ faulty -> starts s (start i) /\ node_id (r_node (start i)) = i.

(** ** Invariant *)

(** The votes a correct replica has sent are those of one [take k]. *)
Definition votes_ok (i : NodeId) (x : Rep)
  (msgs : list (NodeId * ConsensusMessage)) : Prop :=
  exists own d k, outbox (r_node x) = outbox (r_node (start i)) ++ own /\
    ballots own = take k (own_prepare sy (r_node (start i)) s d ++ [mkConsensus s v (Commit d)]) /\
    (forall m, (i, m) ∈ msgs -> is_vote m = true -> m ∈ ballots own).

(** The COMMITs a replica has logged since the start were in the soup. *)
Definition logged_ok (i : NodeId) (x : Rep)
  (msgs : list (NodeId * ConsensusMessage)) : Prop :=
  exists cs, commits (declog (r_log x)) = commits (declog (r_log (start i))) ++ cs /\
    Forall (fun m => in_soup msgs (header m) (message m)) cs.

Definition decision_ok (msgs : list (NodeId * ConsensusMessage)) (d : Decision) : Prop :=
  Forall (commit_for s v (dec_digest d)) (dec_votes d) /\
  Z.of_nat (length (dec_votes d)) = quorum (params (view sy)) /\
  Forall (fun m => in_soup msgs (header m) (message m)) (dec_votes d).

Definition net_inv (net : Net) : Prop :=
  (forall i, i ∉ faulty -> votes_ok i (reps net i) (soup net)) /\
  (forall i, running net i ->
     inst_inv sy s (r_log (start i)) (r_node (start i)) (reps net i) /\
     logged_ok i (reps net i) (soup net)) /\
  (forall d, d ∈ decs net -> decision_ok (soup net) d).

Lemma net_start_inv : well_started -> net_inv net_start.
Proof.
  intros Hw. split_and!.
  - intros i Hi. exists [], zero_digest, 0%nat. cbn. split_and!; [by rewrite app_nil_r|done|set_solver].
  - intros i [Hi _]. split; [by apply starts_inv, Hw|]. exists []. by rewrite app_nil_r.
  - cbn. set_solver.
Qed.

(** *** The soup only grows *)

Lemma in_soup_mono msgs new cs :
  Forall (fun m => in_soup msgs (header m) (message m)) cs ->
  Forall (fun m => in_soup (msgs ++ new) (header m) (message m)) cs.
Proof. rewrite !Forall_forall. unfold in_soup. set_solver. Qed.

Lemma logged_ok_mono i x msgs new : logged_ok i x msgs -> logged_ok i x (msgs ++ new).
Proof. intros (cs & E & Hf). exists cs. split; [done|]. by apply in_soup_mono. Qed.

Lemma decision_ok_mono msgs new d : decision_ok msgs d -> decision_ok (msgs ++ new) d.
Proof. intros (? & ? & ?). split_and!; try done. by apply in_soup_mono. Qed.

(** Messages of others do not count as votes of [i]. *)
Lemma votes_ok_others i x msgs new : (forall m, (i, m) ∉ new) ->
  votes_ok i x msgs -> votes_ok i x (msgs ++ new).
Proof.
  intros Hnew (own & d & k & Ho & Hb & Hm). exists own, d, k. split_and!; try done.
  intros m [Hin|Hin]%elem_of_app; [by apply Hm|]. by apply Hnew in Hin.
Qed.

Lemma newly_sent_other i j x y m : i <> j -> (i, m) ∉ newly_sent j x y.
Proof.
  unfold newly_sent. rewrite list_elem_of_In, in_map_iff. intros Hne (? & [= ? ?] & _). congruence.
Qed.

Lemma update_same i x r : update i x r i = x.
Proof. unfold update. by rewrite decide_True. Qed.
Lemma update_other i j x r : j <> i -> update i x r j = r j.
Proof. intros Hne. unfold update. by rewrite decide_False. Qed.

(** *** A step of a correct replica *)

Lemma elem_of_ballots ts m : is_vote m = true -> m ∈ omap consensus_of ts -> m ∈ ballots (S := S) (O := O) (P := P) ts.
Proof.
  intros Hv Hm. unfold ballots. rewrite list_elem_of_In, filter_In, <- list_elem_of_In. done.
Qed.

Lemma local_step_votes net i x msgs :
  inst_inv sy s (r_log (start i)) (r_node (start i)) x ->
  local_step sy net (reps msgs i) x -> votes_ok i (reps msgs i) (soup msgs) ->
  votes_ok i x (soup msgs ++ newly_sent i (reps msgs i) x).
Proof.
  intros Hi Hst (own0 & d0 & k0 & Ho0 & _ & Hm0).
  apply inst_inv_ballots in Hi as (own & d & k & Ho & Hb).
  apply local_step_frame in Hst as [_ [new Hnew]].
  exists own, d, k. split_and!; try done.
  assert (own = own0 ++ new) as ->.
  { apply (app_inv_head (outbox (r_node (start i)))). by rewrite <- Ho, app_assoc, <- Ho0. }
  intros m Hin Hv. rewrite ballots_app. apply elem_of_app in Hin as [Hin|Hin].
  - apply elem_of_app. left. by apply Hm0.
  - apply elem_of_app. right. unfold newly_sent in Hin. rewrite Hnew, drop_app_length in Hin.
    apply elem_of_ballots; [done|]. apply list_elem_of_In, in_map_iff in Hin as (? & [= ->] & Hin).
    by apply list_elem_of_In.
Qed.

Lemma local_step_logged i x y msgs new :
  local_step sy (in_soup msgs) x y -> logged_ok i x msgs -> logged_ok i y (msgs ++ new).
Proof.
  intros Hst Hl. apply (logged_ok_mono i x msgs new) in Hl. destruct Hl as (cs & E & Hf).
  apply local_step_frame in Hst as [[Hc|(h & m & Hin & Hc)] _].
  - exists cs. by rewrite Hc.
  - exists (cs ++ [mkStored h m]). rewrite Hc, E, app_assoc. split; [done|].
    apply Forall_app. split; [done|]. apply Forall_singleton. unfold in_soup in *. cbn. set_solver.
Qed.

Lemma net_step_inv net net' : net_step net net' -> net_inv net -> net_inv net'.
Proof.
  intros Hst (Hv & Hr & Hd). destruct Hst as [net i x Hrun Hst|net i h m ds c l n Hrun Hin Hp|net i m Hi].
  - destruct (Hr i Hrun) as [Hi Hl].
    assert (Hi' : inst_inv sy s (r_log (start i)) (r_node (start i)) x) by (by eapply local_step_inv).
    split_and!; cbn [reps soup decs].
    + intros j Hj. destruct (decide (j = i)) as [->|Hne].
      * rewrite update_same. eapply local_step_votes; [done|exact Hst|by apply Hv].
      * rewrite update_other by done. apply votes_ok_others; [|by apply Hv].
        intros m'. by apply newly_sent_other.
    + intros j Hj. destruct (decide (j = i)) as [->|Hne].
      * rewrite update_same. split; [done|]. by eapply local_step_logged.
      * rewrite update_other by done. destruct (Hr j Hj). split; [done|]. by apply logged_ok_mono.
    + intros d Hd'. by apply decision_ok_mono, Hd.
  - destruct (Hr i Hrun) as [Hi (cs0 & E0 & Hf)].
    destruct (process_message_inv _ _ _ _ _ _ _ _ _ _ _ _ _ Hi Hp)
      as [[? _]|(k & ds' & cs & _ & [= <-] & -> & -> & Hc)]; [discriminate|].
    split_and!; cbn [reps soup decs].
    + intros j Hj. destruct (decide (j = i)) as [->|Hne]; [|rewrite update_other by done; by apply Hv].
      rewrite update_same. exact (Hv i Hj).
    + intros j [Hj Hdec]. destruct (decide (j = i)) as [->|Hne].
      * exfalso. eapply (Hdec (mkDecision i _ _ _)); [left|done].
      * rewrite update_other by done. apply Hr. split; [done|]. set_solver.
    + intros d [->|Hd']%elem_of_cons; [|by apply Hd]. cbn.
      destruct Hc as (pp & ps & (_ & _ & L3) & _ & _ & _ & _ & _ & Hcs & Hlen).
      unfold decision_ok. cbn [dec_votes dec_digest current_digest with_phase].
      rewrite L3, drop_app_length. split_and!; try done.
      apply process_message_frame in Hp as [[Hp|Hp] _].
      * assert (cs = cs0) as -> by (apply (app_inv_head (commits (declog (r_log (start i))))); congruence).
        done.
      * assert (cs = cs0 ++ [mkStored h m]) as ->.
        { apply (app_inv_head (commits (declog (r_log (start i))))). by rewrite <- L3, Hp, E0, app_assoc. }
        apply Forall_app. split; [done|]. by apply Forall_singleton.
  - split_and!; cbn [reps soup decs].
    + intros j Hj. apply votes_ok_others; [|by apply Hv]. set_solver.
    + intros j Hj. destruct (Hr j Hj). split; [done|]. by apply logged_ok_mono.
    + intros d Hd'. by apply decision_ok_mono, Hd.
Qed.

Lemma net_steps_inv net : well_started -> rtc net_step net_start net -> net_inv net.
Proof.
  intros Hw Hr. assert (Hi : net_inv net_start) by (by apply net_start_inv). revert Hi.
  clear Hw. induction Hr as [|x y z Hst _ IH]; [done|]. intros Hx. apply IH. by eapply net_step_inv.
Qed.

(** ** Agreement *)

(** The senders of a list of votes. *)
Definition senders (votes : list (StoredMessage ConsensusMessage)) : list NodeId :=
  map (fun m => hdr_from (header m)) votes.

(** All COMMITs of a correct replica are for one digest. *)
Lemma correct_commits_agree net i m1 m2 d1 d2 : net_inv net -> i ∉ faulty ->
  (i, m1) ∈ soup net -> (i, m2) ∈ soup net -> c_kind m1 = Commit d1 -> c_kind m2 = Commit d2 ->
  d1 = d2.
Proof.
  intros (Hv & _) Hi H1' H2' K1 K2. destruct (Hv i Hi) as (own & d & k & _ & Hb & Hm).
  assert (Hone : forall m e, (i, m) ∈ soup net -> c_kind m = Commit e -> e = d).
  { intros m e Hin K. specialize (Hm m Hin). unfold is_vote in Hm. rewrite K in Hm.
    specialize (Hm eq_refl). rewrite Hb in Hm. apply list_elem_of_In in Hm.
    rewrite <- (take_drop k) in Hm.
    assert (Hm' : In m (own_prepare sy (r_node (start i)) s d ++ [mkConsensus s v (Commit d)])).
    { rewrite <- (take_drop k). apply in_app_iff. left. by rewrite take_drop in Hm. }
    apply in_app_iff in Hm' as [Hm'|[<-|[]]]; [|by injection K].
    unfold own_prepare in Hm'. case_decide; [|done]. destruct Hm' as [<-|[]]. discriminate. }
  rewrite (Hone m1 d1), (Hone m2 d2); done.
Qed.

(** C4: agreement. In a group of [3f + 1] replicas of which at most [f] are
    faulty, two correct replicas that decide the instance in the same view
    decide proposals with the same digest, provided the votes each of them
    counted come from different members of the group. *)
Theorem agreement net a b :
  well_started -> params_ok (params (view sy)) ->
  params_n (params (view sy)) = 3 * params_f (params (view sy)) + 1 ->
  Z.of_nat (size faulty) <= params_f (params (view sy)) ->
  rtc net_step net_start net -> a ∈ decs net -> b ∈ decs net ->
  (forall d, d = a \/ d = b -> NoDup (senders (dec_votes d)) /\
     list_to_set (senders (dec_votes d)) ⊆ group (params (view sy))) ->
  dec_digest a = dec_digest b.
Proof.
  intros Hw Hp Hn Hf Hr Ha Hb Hs. pose proof (net_steps_inv net Hw Hr) as Hinv.
  destruct (proj2 (proj2 Hinv) a Ha) as (A1 & A2 & A3).
  destruct (proj2 (proj2 Hinv) b Hb) as (B1 & B2 & B3).
  assert (Hsz : forall d, d = a \/ d = b ->
    Z.of_nat (size (list_to_set (C := gset NodeId) (senders (dec_votes d)))) =
    Z.of_nat (length (dec_votes d))).
  { intros d Hd. rewrite size_list_to_set by (by apply Hs). unfold senders. by rewrite length_map. }
  destruct (quorum_intersection (params (view sy)) (list_to_set (senders (dec_votes a)))
    (list_to_set (senders (dec_votes b))) faulty) as (i & Hia & Hib & Hif); try done.
  - by apply Hs; left.
  - by apply Hs; right.
  - rewrite Hsz by (by left). lia.
  - rewrite Hsz by (by right). lia.
  - apply elem_of_list_to_set, list_elem_of_In, in_map_iff in Hia as (ma & Ea & Hma).
    apply elem_of_list_to_set, list_elem_of_In, in_map_iff in Hib as (mb & Eb & Hmb).
    apply list_elem_of_In in Hma, Hmb. rewrite Forall_forall in A1, A3, B1, B3.
    destruct (A1 ma Hma) as [_ Ka]. destruct (B1 mb Hmb) as [_ Kb].
    specialize (A3 ma Hma). specialize (B3 mb Hmb). unfold in_soup in A3, B3.
    rewrite Ea in A3. rewrite Eb in B3. exact (correct_commits_agree net i _ _ _ _ Hinv Hif A3 B3 Ka Kb).
Qed.

(** ** Executing a schedule *)

Inductive Event :=
| EPropose (i : NodeId) (ds : list Digest)
| EReceive (i : NodeId) (h : Header) (m : ConsensusMessage)
| EFaulty (i : NodeId) (m : ConsensusMessage).

Definition is_running (net : Net) (i : NodeId) : bool :=
  bool_decide (i ∉ faulty) && forallb (fun d => bool_decide (dec_by d <> i)) (decs net).

Definition moved (net : Net) (i : NodeId) (x : Rep) : Net :=
  mkNet (update i x (reps net)) (soup net ++ newly_sent i (reps net i) x) (decs net).

Definition exec (net : Net) (e : Event) : option Net :=
  match e with
  | EPropose i ds =>
    let x := reps net i in
    if is_running net i then
      match propose (r_cons x) ds sy (r_node x) with
      | Done (c, n) => Some (moved net i (mkLocal c (r_log x) n))
      | Panic => None
      end
    else None
  | EReceive i h m =>
    let x := reps net i in
    if is_running net i && bool_decide ((hdr_from h, m) ∈ soup net) then
      match process_message (r_cons x) h m sy (r_log x) (r_node x) with
      | Done (Deciding, c, l, n) => Some (moved net i (mkLocal c l n))
      | Done (Decided ds, c, l, n) =>
        Some (mkNet (update i (mkLocal c l n) (reps net)) (soup net)
          (mkDecision i (current_digest c) ds
             (drop (length (commits (declog (r_log (start i))))) (commits (declog l))) :: decs net))
      | _ => None
      end
    else None
  | EFaulty i m =>
    if decide (i ∈ faulty) then Some (mkNet (reps net) (soup net ++ [(i, m)]) (decs net)) else None
  end.

Fixpoint exec_all (net : Net) (es : list Event) : option Net :=
  match es with
  | [] => Some net
  | e :: es => match exec net e with Some net => exec_all net es | None => None end
  end.

Lemma is_running_ok net i : is_running net i = true -> running net i.
Proof.
  unfold is_running. rewrite andb_true_iff, forallb_forall. intros [Hi Hd].
  apply bool_decide_eq_true_1 in Hi. split; [done|]. intros d Hin. apply list_elem_of_In in Hin.
  by apply Hd, bool_decide_eq_true_1 in Hin.
Qed.

Lemma exec_step net e net' : exec net e = Some net' -> net_step net net'.
Proof.
  unfold exec, moved. destruct e as [i ds|i h m|i m].
  - destruct (is_running net i) eqn:E; [|discriminate]. apply is_running_ok in E.
    destruct (propose _ _ _ _) as [[c n]|] eqn:Hp; [|discriminate]. intros [= <-].
    apply net_local; [done|]. destruct (reps net i) as [c0 l0 n0]. by eapply local_propose.
  - destruct (is_running net i) eqn:E; [|discriminate]. apply is_running_ok in E.
    case_bool_decide as Hin; [|discriminate]. cbn [andb].
    destruct (process_message _ _ _ _ _ _) as [[[[st c] l] n]|] eqn:Hp; [|discriminate].
    destruct st as [|ds|ds]; try discriminate; intros [= <-].
    + apply net_local; [done|]. destruct (reps net i) as [c0 l0 n0]. by eapply local_process.
    + by eapply net_decide.
  - case_decide; [|discriminate]. intros [= <-]. by apply net_faulty.
Qed.

Lemma exec_all_steps es : forall net net', exec_all net es = Some net' -> rtc net_step net net'.
Proof.
  induction es as [|e es IH]; intros net net'; simpl; [by intros [= ->]|].
  destruct (exec net e) as [net1|] eqn:E; [|discriminate]. intros Hx.
  eapply rtc_l; [by apply exec_step in E|by apply IH].
Qed.

End network.

(** ** Concrete schedules

    Four replicas, view 0 (leader 0), instance 0, batches of one request; each
    log knows the requests [w_d 1] and [w_d 2]. *)

#[local] Existing Instance toy_hash.
#[local] Existing Instance toy_sig.
#[local] Existing Instance key_order.
#[local] Existing Instance w_map.

#[local] Existing Instance toy_data.

Lemma w_start_ok faulty : well_started ZERO faulty w_start.
Proof. intros i _. split; [|done]. split; [done|by left]. Qed.

(** Replica [i] receives message [m] of [j] with header digest [d]. *)
Definition recv (i j d : Z) (m : ConsensusMessage) : Event := EReceive (node i) (w_head j d) m.

(** Node 3 is faulty and silent; the others run the protocol for [w_d 1], and
    0 and 1 decide. *)
Definition w_good : list Event :=
  [EPropose (node 0) [w_d 1]; EPropose (node 1) [w_d 1]; EPropose (node 2) [w_d 1];
   recv 0 0 7 (w_pp 1); recv 1 0 7 (w_pp 1); recv 2 0 7 (w_pp 1);
   recv 0 1 7 (w_vote 7); recv 0 2 7 (w_vote 7); recv 1 1 7 (w_vote 7); recv 1 2 7 (w_vote 7);
   recv 2 1 7 (w_vote 7); recv 2 2 7 (w_vote 7);
   recv 0 0 7 (w_commit 7); recv 0 1 7 (w_commit 7); recv 0 2 7 (w_commit 7);
   recv 1 2 7 (w_commit 7); recv 1 1 7 (w_commit 7); recv 1 0 7 (w_commit 7)].

Definition w_votes (d : Z) (l : list Z) : list (StoredMessage ConsensusMessage) :=
  map (fun i => mkStored (w_head i d) (w_commit d)) l.
Definition w_decision (i d b : Z) (l : list Z) : Decision :=
  mkDecision (node i) (mkDigest (replicate 32 d)) [w_d b] (w_votes d l).

Definition w_faulty : gset NodeId := {[node 3]}.

(** The decisions of a schedule that can be executed are those of a reachable
    network. *)
Lemma schedule_reaches faulty es ds :
  decs <$> exec_all w_view faulty w_start (net_start w_start) es = Some ds ->
  exists net, rtc (net_step w_view faulty w_start) (net_start w_start) net /\ decs net = ds.
Proof.
  destruct (exec_all _ _ _ _ _) as [net|] eqn:E; [|discriminate]. intros [= <-].
  exists net. split; [|done]. by eapply exec_all_steps.
Qed.

Lemma agreement_witness : exists net,
  rtc (net_step w_view w_faulty w_start) (net_start w_start) net /\
  decs net = [w_decision 1 7 1 [2; 1; 0]; w_decision 0 7 1 [0; 1; 2]] /\
  dec_digest (w_decision 1 7 1 [2; 1; 0]) = dec_digest (w_decision 0 7 1 [0; 1; 2]).
Proof.
  destruct (schedule_reaches w_faulty w_good
    [w_decision 1 7 1 [2; 1; 0]; w_decision 0 7 1 [0; 1; 2]]) as (net & Hr & Hd).
  { vm_compute. reflexivity. }
  exists net. split; [done|]. split; [done|].
  apply (agreement w_view ZERO w_faulty w_start net).
  - apply w_start_ok.
  - unfold params_ok. split_and!; vm_compute; congruence.
  - reflexivity.
  - vm_compute. congruence.
  - exact Hr.
  - rewrite Hd. set_solver.
  - rewrite Hd. set_solver.
  - intros d [-> | ->]; split; refine (bool_decide_unpack _ _); vm_compute; exact I.
Defined.

(** Node 0, the leader of view 0, is faulty: it sends two proposals, and
    repeats its own votes for each. *)
Definition w_leader : gset NodeId := {[node 0]}.

Definition w_equivocate : list Event :=
  map (EFaulty (node 0)) [w_pp 1; w_pp 2; w_vote 7; w_vote 8; w_commit 7; w_commit 8] ++
  [EPropose (node 1) []; EPropose (node 2) [];
   recv 1 0 7 (w_pp 1); recv 1 0 7 (w_vote 7); recv 1 0 7 (w_vote 7);
   recv 1 0 7 (w_commit 7); recv 1 0 7 (w_commit 7); recv 1 0 7 (w_commit 7);
   recv 2 0 8 (w_pp 2); recv 2 0 8 (w_vote 8); recv 2 0 8 (w_vote 8);
   recv 2 0 8 (w_commit 8); recv 2 0 8 (w_commit 8); recv 2 0 8 (w_commit 8)].

(** C38: votes are counted, not voters. With four replicas and only the leader
    faulty, two correct replicas decide different batches: the faulty node
    sends each of them one proposal and enough copies of its own votes. *)
Theorem repeated_votes_break_agreement : exists net,
  rtc (net_step w_view w_leader w_start) (net_start w_start) net /\
  decs net = [w_decision 2 8 2 [0; 0; 0]; w_decision 1 7 1 [0; 0; 0]] /\
  dec_digest (w_decision 2 8 2 [0; 0; 0]) <> dec_digest (w_decision 1 7 1 [0; 0; 0]) /\
  dec_batch (w_decision 2 8 2 [0; 0; 0]) <> dec_batch (w_decision 1 7 1 [0; 0; 0]).
Proof.
  destruct (schedule_reaches w_leader w_equivocate
    [w_decision 2 8 2 [0; 0; 0]; w_decision 1 7 1 [0; 0; 0]]) as (net & Hr & Hd).
  { vm_compute. reflexivity. }
  exists net. split_and!; [done|done|..]; vm_compute; congruence.
Qed.

(** The faulty leader puts the same digest in the headers of two different
    proposals; all votes are from different nodes. *)
Definition w_same_digest : list Event :=
  map (EFaulty (node 0)) [w_pp 1; w_pp 2; w_commit 7] ++
  [EPropose (node 1) []; EPropose (node 2) []; EPropose (node 3) [];
   recv 1 0 7 (w_pp 1); recv 2 0 7 (w_pp 2); recv 3 0 7 (w_pp 2);
   recv 1 1 7 (w_vote 7); recv 1 2 7 (w_vote 7); recv 2 1 7 (w_vote 7); recv 2 2 7 (w_vote 7);
   recv 1 0 7 (w_commit 7); recv 1 1 7 (w_commit 7); recv 1 2 7 (w_commit 7);
   recv 2 0 7 (w_commit 7); recv 2 1 7 (w_commit 7); recv 2 2 7 (w_commit 7)].

(** The digest the replicas vote on is a header field that no receiver
    compares with the proposal: a faulty leader can make two correct replicas
    decide different batches under one digest, with votes of different nodes
    only. *)
Theorem digest_does_not_bind_batch : exists net,
  rtc (net_step w_view w_leader w_start) (net_start w_start) net /\
  decs net = [w_decision 2 7 2 [0; 1; 2]; w_decision 1 7 1 [0; 1; 2]] /\
  dec_digest (w_decision 2 7 2 [0; 1; 2]) = dec_digest (w_decision 1 7 1 [0; 1; 2]) /\
  dec_batch (w_decision 2 7 2 [0; 1; 2]) <> dec_batch (w_decision 1 7 1 [0; 1; 2]).
Proof.
  destruct (schedule_reaches w_leader w_same_digest
    [w_decision 2 7 2 [0; 1; 2]; w_decision 1 7 1 [0; 1; 2]]) as (net & Hr & Hd).
  { vm_compute. reflexivity. }
  exists net. split_and!; [done|done|done|]. vm_compute. congruence.
Qed.
