(* ===== verification/Sync.v ===== *)
(** * The view change protocol ([src/bft/sync/mod.rs])

    The synchronization phase of Mod-SMaRt: replicas watch client requests for
    timeouts, broadcast STOP, install the next view on a quorum of STOPs, send
    STOP-DATA to its leader, which picks a value ([sound]) and announces it in
    a SYNC message; every replica repeats the leader's computation and goes on
    with a PRE-PREPARE it forges itself. The current time is an argument of the
    operations that read the clock, and [seed] is what the operating system
    gives to [prng::State::new]. *)

From S2P Require Import Prelude Error Ordering Prng Crypto Params Message Tbo Collections Node.
From S2P Require Import Timeouts DecLog Log Consensus.
Local Open Scope Z_scope.
Local Open Scope bft_scope.

(** ** The predicates on collected proofs *)

Inductive Sound :=
| Unbound (ok : bool)
| Bound (d : Digest).

Definition sound_value (self : Sound) : option Digest :=
  match self with
  | Bound d => Some d
  | _ => None
  end.

Definition sound_test (self : Sound) : bool :=
  match self with
  | Unbound ok => ok
  | _ => true
  end.

Definition unbound (curr_view : ViewInfo) (normalized_collects : list (option CollectData)) : bool :=
  if Z.of_nat (length normalized_collects) <? quorum (params curr_view) then false
  else
    let count := count_if (fun maybe_collect =>
      match maybe_collect with
      | Some collect =>
        match quorum_writes (incomplete_proof collect) with
        | Some w => bool_decide (vdp_view w = ZERO)
        | None => true
        end
      | None => true
      end) normalized_collects in
    Z.of_nat count >=? quorum (params curr_view).

(** [filter_map(Option::as_ref)] *)
Definition flatten {A : Type} (l : list (option A)) : list A := omap id l.

Definition quorum_highest (curr_view : ViewInfo) (ts : SeqNo) (value : Digest)
  (normalized_collects : list (option CollectData)) : bool :=
  let appears := any (fun collect =>
    match quorum_writes (incomplete_proof collect) with
    | Some w => bool_decide (vdp_view w = ts) && bool_decide (vdp_digest w = value)
    | None => false
    end) (flatten normalized_collects) in
  let count := count_if (fun collect =>
    match quorum_writes (incomplete_proof collect) with
    | Some w =>
      match cmp (vdp_view w) ts with
      | Lt => true
      | Eq => bool_decide (vdp_digest w = value)
      | Gt => false
      end
    | None => false
    end) (flatten normalized_collects) in
  appears && (Z.of_nat count >=? quorum (params curr_view)).

Definition certified_value (curr_view : ViewInfo) (ts : SeqNo) (value : Digest)
  (normalized_collects : list (option CollectData)) : bool :=
  let count := sum_list (map (fun collect =>
    count_if (fun w => seq_ge (vdp_view w) ts && bool_decide (vdp_digest w = value))
      (write_set (incomplete_proof collect))) (flatten normalized_collects)) in
  Z.of_nat count >? params_f (params curr_view).

Definition binds (curr_view : ViewInfo) (ts : SeqNo) (value : Digest)
  (normalized_collects : list (option CollectData)) : bool :=
  if Z.of_nat (length normalized_collects) <? quorum (params curr_view) then false
  else quorum_highest curr_view ts value normalized_collects &&
       certified_value curr_view ts value normalized_collects.

(** The two sets the loop of [sound] fills. *)
Definition timestamps (normalized_collects : list (option CollectData)) : gset SeqNo :=
  foldl (fun acc maybe_collect =>
    match maybe_collect with
    | None => {[ZERO]} ∪ acc
    | Some c =>
      let acc := {[match quorum_writes (incomplete_proof c) with
                   | Some w => vdp_view w
                   | None => ZERO
                   end]} ∪ acc in
      foldl (fun acc w => {[vdp_view w]} ∪ acc) acc (write_set (incomplete_proof c))
    end) ∅ normalized_collects.

Definition values (normalized_collects : list (option CollectData)) : gset Digest :=
  foldl (fun acc maybe_collect =>
    match maybe_collect with
    | None => acc
    | Some c => foldl (fun acc w => {[vdp_digest w]} ∪ acc) acc (write_set (incomplete_proof c))
    end) ∅ normalized_collects.

(** The nested loop over timestamps and values, left at the first match. *)
Definition sound `{RandomState} (curr_view : ViewInfo)
  (normalized_collects : list (option CollectData)) : Sound :=
  let candidates := flat_map (fun ts => map (pair ts) (set_iter (values normalized_collects)))
                      (set_iter (timestamps normalized_collects)) in
  match List.find (fun tv => binds curr_view tv.1 tv.2 normalized_collects) candidates with
  | Some (_, value) => Bound value
  | None => Unbound (unbound curr_view normalized_collects)
  end.

(** ** Collected proofs *)

Definition collect_data {O : Type} (collects : list (StoredMessage (ViewChangeMessage O)))
  : list CollectData :=
  omap (fun stored => match vc_kind (message stored) with
                      | StopData collects => Some collects
                      | _ => None
                      end) collects.

Definition normalized_collects (in_exec_ : SeqNo) (collects : list CollectData)
  : list (option CollectData) :=
  map (fun collect => if decide (in_exec (incomplete_proof collect) = in_exec_)
                      then Some collect else None) collects.

Section proofs.
Context {S O P : Type} `{HashFn, SigScheme}.

Definition validate_signature {M : Type} (node : Node S O P) (stored : StoredMessage M) : bool :=
  match from_parts (header stored) [] with
  | Err _ => false
  | Ok wm =>
    match get_public_key node (hdr_from (header stored)) with
    | None => false
    | Some key => is_valid wm (Some key)
    end
  end.

Definition signed_collects (node : Node S O P) (collects : list (StoredMessage (ViewChangeMessage O)))
  : list (StoredMessage (ViewChangeMessage O)) := List.filter (validate_signature node) collects.

(** Is the proof backed by a quorum of signed COMMITs for its PRE-PREPARE? *)
Definition proof_valid (view : ViewInfo) (node : Node S O P) (proof : Proof_) : bool :=
  let digest := hdr_digest (header (p_pre_prepare proof)) in
  let count := count_if (validate_signature node)
    (List.filter (fun stored => match has_proposed_digest (message stored) digest with
                                | Some b => b
                                | None => false
                                end) (p_commits proof)) in
  Z.of_nat count >=? quorum (params view).

Definition highest_proof (view : ViewInfo) (node : Node S O P)
  (collects : list (StoredMessage (ViewChangeMessage O))) : option Proof_ :=
  max_by_key (fun proof => sn (s_seq (p_pre_prepare proof)))
    (List.filter (proof_valid view node) (omap last_proof (collect_data collects))).

End proofs.

(** ** State *)

Record FinalizeState := mkFinalize { curr_cid : SeqNo; proposed : list Digest; fs_sound : Sound }.

Inductive FinalizeStatus :=
| NoValue
| FinRunCst (state : FinalizeState)
| FinCommit (state : FinalizeState).

Inductive TimeoutPhase :=
| TInit (i : Z)
| TimedOutOnce (i : Z)
| TimedOut.

Inductive SyncPhase :=
| SInit
| Stopping (i : Z)
| Stopping2 (i : Z)
| StoppingData (i : Z)
| Syncing
| SyncingState.

Inductive SynchronizerStatus :=
| SNil
| Running
| NewView
| RunCst
| RequestsTimedOut (forwarded stopped : list Digest).

Inductive SynchronizerPollStatus (O : Type) :=
| SRecv
| SNextMessage (h : Header) (m : ViewChangeMessage O)
| ResumeViewChange.
Arguments SRecv {O}.
Arguments SNextMessage {O} h m.
Arguments ResumeViewChange {O}.

(** Its [TboQueue]. *)
Record SyncTbo (O : Type) := mkSyncTbo {
  s_view_info : ViewInfo;
  s_get_queue : bool;
  q_stop : list (list (StoredMessage (ViewChangeMessage O)));
  q_stop_data : list (list (StoredMessage (ViewChangeMessage O)));
  q_sync : list (list (StoredMessage (ViewChangeMessage O)))
}.
Arguments mkSyncTbo {O} s_view_info s_get_queue q_stop q_stop_data q_sync.
Arguments s_view_info {O} s.
Arguments s_get_queue {O} s.
Arguments q_stop {O} s.
Arguments q_stop_data {O} s.
Arguments q_sync {O} s.

Record Synchronizer (O : Type) := mkSync {
  watching_timeouts : bool;
  s_phase : SyncPhase;
  timeout_seq : SeqNo;
  timeout_dur : Z;
  stopped : gmap NodeId (list (StoredMessage (RequestMessage O)));
  collects : gmap NodeId (StoredMessage (ViewChangeMessage O));
  watching : gmap Digest TimeoutPhase;
  s_tbo : SyncTbo O;
  finalize_state : option FinalizeState
}.
Arguments mkSync {O} watching_timeouts s_phase timeout_seq timeout_dur stopped collects watching
  s_tbo finalize_state.
Arguments watching_timeouts {O} s.
Arguments s_phase {O} s.
Arguments timeout_seq {O} s.
Arguments timeout_dur {O} s.
Arguments stopped {O} s.
Arguments collects {O} s.
Arguments watching {O} s.
Arguments s_tbo {O} s.
Arguments finalize_state {O} s.

(** [Synchronizer::view] *)
#[export] Instance Synchronizer_view O : ViewSource (Synchronizer O) :=
  {| view := fun self => s_view_info (s_tbo self) |}.

Section queue.
Context {O : Type}.
Implicit Type self : SyncTbo O.

Definition stbo_new (view : ViewInfo) : SyncTbo O := mkSyncTbo view false [] [] [].

Definition stbo_signal self : SyncTbo O :=
  mkSyncTbo (s_view_info self) true (q_stop self) (q_stop_data self) (q_sync self).

Definition stbo_next_instance_queue self : SyncTbo O :=
  mkSyncTbo (s_view_info self) (s_get_queue self) (tbo_advance_message_queue (q_stop self))
    (tbo_advance_message_queue (q_stop_data self)) (tbo_advance_message_queue (q_sync self)).

Definition queue_stop self (h : Header) (m : ViewChangeMessage O) : SyncTbo O :=
  let seq := next (view_seq (s_view_info self)) in
  mkSyncTbo (s_view_info self) (s_get_queue self)
    (tbo_queue_message seq (q_stop self) (mkStored h m)) (q_stop_data self) (q_sync self).

Definition queue_stop_data self (h : Header) (m : ViewChangeMessage O) : SyncTbo O :=
  let seq := view_seq (s_view_info self) in
  mkSyncTbo (s_view_info self) (s_get_queue self) (q_stop self)
    (tbo_queue_message seq (q_stop_data self) (mkStored h m)) (q_sync self).

Definition queue_sync self (h : Header) (m : ViewChangeMessage O) : SyncTbo O :=
  let seq := view_seq (s_view_info self) in
  mkSyncTbo (s_view_info self) (s_get_queue self) (q_stop self) (q_stop_data self)
    (tbo_queue_message seq (q_sync self) (mkStored h m)).

Definition stbo_queue self (h : Header) (m : ViewChangeMessage O) : SyncTbo O :=
  match vc_kind m with
  | Stop _ => queue_stop self h m
  | StopData _ => queue_stop_data self h m
  | Sync _ => queue_sync self h m
  end.

Definition can_process_stops self : bool :=
  match q_stop self with
  | [] => false
  | deque :: _ => (0 <? length deque)%nat
  end.

End queue.

Section fields.
Context {O : Type}.
Implicit Type self : Synchronizer O.

(** Field updates. *)
Definition set_s_phase self (p : SyncPhase) : Synchronizer O :=
  mkSync (watching_timeouts self) p (timeout_seq self) (timeout_dur self) (stopped self)
    (collects self) (watching self) (s_tbo self) (finalize_state self).
Definition set_s_tbo self (t : SyncTbo O) : Synchronizer O :=
  mkSync (watching_timeouts self) (s_phase self) (timeout_seq self) (timeout_dur self) (stopped self)
    (collects self) (watching self) t (finalize_state self).
Definition set_timeout_seq self (s : SeqNo) : Synchronizer O :=
  mkSync (watching_timeouts self) (s_phase self) s (timeout_dur self) (stopped self)
    (collects self) (watching self) (s_tbo self) (finalize_state self).
Definition set_stopped self (m : gmap NodeId (list (StoredMessage (RequestMessage O))))
  : Synchronizer O :=
  mkSync (watching_timeouts self) (s_phase self) (timeout_seq self) (timeout_dur self) m
    (collects self) (watching self) (s_tbo self) (finalize_state self).
Definition set_collects self (m : gmap NodeId (StoredMessage (ViewChangeMessage O)))
  : Synchronizer O :=
  mkSync (watching_timeouts self) (s_phase self) (timeout_seq self) (timeout_dur self) (stopped self)
    m (watching self) (s_tbo self) (finalize_state self).
Definition set_watching self (b : bool) (m : gmap Digest TimeoutPhase) : Synchronizer O :=
  mkSync b (s_phase self) (timeout_seq self) (timeout_dur self) (stopped self)
    (collects self) m (s_tbo self) (finalize_state self).
Definition set_finalize_state self (s : option FinalizeState) : Synchronizer O :=
  mkSync (watching_timeouts self) (s_phase self) (timeout_seq self) (timeout_dur self) (stopped self)
    (collects self) (watching self) (s_tbo self) s.

Definition sync_new (timeout_dur : Z) (view : ViewInfo) : Synchronizer O :=
  mkSync false SInit ZERO timeout_dur ∅ ∅ ∅ (stbo_new view) None.

Definition sync_signal self : Synchronizer O := set_s_tbo self (stbo_signal (s_tbo self)).

(** [DerefMut] to the [TboQueue]. *)
Definition sync_queue self (h : Header) (m : ViewChangeMessage O) : Synchronizer O :=
  set_s_tbo self (stbo_queue (s_tbo self) h m).

Definition install_view self (view : ViewInfo) : Synchronizer O :=
  let t := s_tbo self in
  set_s_tbo self (mkSyncTbo view (s_get_queue t) (q_stop t) (q_stop_data t) (q_sync t)).

End fields.

(** ** Watching client requests *)

Section watch.
Context {S O P : Type} `{HashFn, RandomState, !OrderedMap Digest}.
Implicit Type self : Synchronizer O.

Definition next_timeout self : SeqNo * Synchronizer O :=
  (timeout_seq self, set_timeout_seq self (next (timeout_seq self))).

Definition watch_request_impl self (phase : TimeoutPhase) (digest : Digest)
  (timeouts : TimeoutsHandle) : Synchronizer O * TimeoutsHandle :=
  let '(self, timeouts) :=
    if watching_timeouts self then (self, timeouts)
    else
      let '(seq, self) := next_timeout self in
      (set_watching self true (watching self),
       timeout timeouts (timeout_dur self) (TimeoutClientRequests seq)) in
  (set_watching self (watching_timeouts self) (<[digest := phase]> (watching self)), timeouts).

Definition watch_request self (now : Z) (digest : Digest) (timeouts : TimeoutsHandle)
  : Synchronizer O * TimeoutsHandle :=
  watch_request_impl self (TInit now) digest timeouts.

Definition watch_forwarded_requests self (now : Z) (requests : ForwardedRequestsMessage O)
  (timeouts : TimeoutsHandle) (log : Log S O) : Synchronizer O * TimeoutsHandle * Log S O :=
  foldl (fun '(self, timeouts, log) forwarded =>
    let '(self, timeouts) :=
      watch_request_impl self (TimedOutOnce now) (unique_digest (header forwarded)) timeouts in
    (self, timeouts, insert (P := P) log (header forwarded) (Request (message forwarded))))
    (self, timeouts, log) requests.

Definition unwatch_request self (digest : Digest) : Synchronizer O :=
  let watching := delete digest (watching self) in
  set_watching self (negb (bool_decide (watching = ∅))) watching.

Definition unwatch_all_requests self : Synchronizer O := (next_timeout self).2.

Definition watch_all_requests self (now : Z) (timeouts : TimeoutsHandle)
  : Synchronizer O * TimeoutsHandle :=
  let watching := (fun _ => TInit now) <$> watching self in
  let self := set_watching self (negb (bool_decide (watching = ∅))) watching in
  if watching_timeouts self then
    let '(seq, self) := next_timeout self in
    (self, timeout timeouts (timeout_dur self) (TimeoutClientRequests seq))
  else (self, timeouts).

(** What happens to one watched request when the timer goes off at [now]. *)
Definition expired (dur now i : Z) : bool := now - i >? dur.

Definition forwards (dur now : Z) (ph : TimeoutPhase) : bool :=
  match ph with TInit i => expired dur now i | _ => false end.
Definition stops (dur now : Z) (ph : TimeoutPhase) : bool :=
  match ph with TimedOutOnce i => expired dur now i | _ => false end.

Definition client_requests_timed_out self (now : Z) (seq : SeqNo) (timeouts : TimeoutsHandle)
  : SynchronizerStatus * Synchronizer O * TimeoutsHandle :=
  let ignore_timeout := negb (watching_timeouts self) || negb (bool_decide (next seq = timeout_seq self)) in
  if ignore_timeout then (SNil, self, timeouts)
  else
    let dur := timeout_dur self in
    let entries := map_iter (watching self) in
    let forwarded := (List.filter (fun e => forwards dur now e.2) entries).*1 in
    let stopped := (List.filter (fun e => stops dur now e.2) entries).*1 in
    let self := set_watching self (watching_timeouts self)
                  ((fun ph => if stops dur now ph then TimedOut else ph) <$> watching self) in
    let '(seq, self) := next_timeout self in
    (RequestsTimedOut forwarded stopped, self,
     timeout timeouts (timeout_dur self) (TimeoutClientRequests seq)).

(** ** The requests carried by STOP messages *)

Definition or_insert (m : gmap Digest (StoredMessage (RequestMessage O)))
  (r : StoredMessage (RequestMessage O)) : gmap Digest (StoredMessage (RequestMessage O)) :=
  let d := unique_digest (header r) in
  match m !! d with
  | Some _ => m
  | None => <[d := r]> m
  end.

Definition stopped_requests self (timed_out : option (list (StoredMessage (RequestMessage O))))
  : list (StoredMessage (RequestMessage O)) * Synchronizer O :=
  let all_reqs := match timed_out with
                  | Some requests =>
                    foldl (fun m r => <[unique_digest (header r) := r]> m) ∅ requests
                  | None => ∅
                  end in
  let all_reqs := foldl (fun m stopped => foldl or_insert m stopped) all_reqs
                    (map_values (stopped self)) in
  let self := match timed_out with
              | Some _ => self
              | None => set_stopped self ∅
              end in
  (map_values all_reqs, self).

Definition add_stopped_requests self (log : Log S O) : Synchronizer O * Log S O :=
  let '(requests, self) := stopped_requests self None in
  foldl (fun '(self, log) stopped =>
    (set_watching self (watching_timeouts self)
       (<[unique_digest (header stopped) := TimedOut]> (watching self)),
     insert (P := P) log (header stopped) (Request (message stopped)))) (self, log) requests.

End watch.

(** ** Polling *)

Section poll.
Context {O : Type}.
Implicit Type self : Synchronizer O.

Definition sync_extract self (on_msg : SyncPhase)
  (q : list (list (StoredMessage (ViewChangeMessage O))))
  (put : list (list (StoredMessage (ViewChangeMessage O))) -> bool -> SyncTbo O)
  : SynchronizerPollStatus O * Synchronizer O :=
  match tbo_pop_message q with
  | (Some stored, q') =>
    (SNextMessage (header stored) (message stored),
     set_s_phase (set_s_tbo self (put q' (s_get_queue (s_tbo self)))) on_msg)
  | (None, q') => (SRecv, set_s_tbo self (put q' false))
  end.

Definition sync_poll self : SynchronizerPollStatus O * Synchronizer O :=
  let t := s_tbo self in
  if negb (s_get_queue t) then (SRecv, self)
  else
    match s_phase self with
    | SInit =>
      sync_extract self (Stopping 0) (q_stop t)
        (fun q g => mkSyncTbo (s_view_info t) g q (q_stop_data t) (q_sync t))
    | Stopping _ | Stopping2 _ =>
      sync_extract self (s_phase self) (q_stop t)
        (fun q g => mkSyncTbo (s_view_info t) g q (q_stop_data t) (q_sync t))
    | StoppingData _ =>
      sync_extract self (s_phase self) (q_stop_data t)
        (fun q g => mkSyncTbo (s_view_info t) g (q_stop t) q (q_sync t))
    | Syncing =>
      sync_extract self (s_phase self) (q_sync t)
        (fun q g => mkSyncTbo (s_view_info t) g (q_stop t) (q_stop_data t) q)
    | SyncingState => (ResumeViewChange, self)
    end.

End poll.

(** ** The protocol *)

Section protocol.
Context {S O P : Type} `{HashFn, SigScheme, RandomState, !OrderedMap Digest, !SharedData S O P}.
Implicit Type self : Synchronizer O.

Definition view_group self : list NodeId := targets (params_n (params (view self))).

Definition forward_requests self (timed_out : list (StoredMessage (RequestMessage O)))
  (node : Node S O P) : outcome (Node S O P) :=
  let! '(node, _) := broadcast node (ForwardedRequests timed_out) (view_group self) in Done node.

(** The new phase: STOPs already counted are kept, a new attempt starts over. *)
Definition enter_stopping self (timed_out : option (list (StoredMessage (RequestMessage O))))
  : Synchronizer O :=
  match s_phase self, timed_out with
  | Stopping i, None => set_s_phase self (Stopping2 (i + 1))
  | Stopping i, _ => set_s_phase self (Stopping2 i)
  | _, _ => set_s_phase (set_collects (set_stopped self ∅) ∅) (Stopping2 0)
  end.

Definition begin_view_change self (timed_out : option (list (StoredMessage (RequestMessage O))))
  (node : Node S O P) : outcome (Synchronizer O * Node S O P) :=
  let self := enter_stopping self timed_out in
  let self := unwatch_all_requests self in
  let '(requests, self) := stopped_requests self timed_out in
  let message := ViewChange (mkViewChange (next (view_seq (view self))) (Stop requests)) in
  let! '(node, _) := broadcast node message (view_group self) in
  Done (self, node).

(** [stop_status!] *)
Definition stop_status self (i : Z) : SynchronizerStatus :=
  if i >? params_f (params (view self)) then Running else SNil.

Definition pre_finalize self (state : FinalizeState) (log : Log S O) : FinalizeStatus :=
  let behind := match s_phase self with
                | Syncing => negb (bool_decide (executing (declog log) = curr_cid state))
                | _ => false
                end in
  if behind then FinRunCst state
  else if bool_decide (proposed state = []) && negb (sound_test (fs_sound state)) then NoValue
  else FinCommit state.

(** The state the protocol works on, besides the synchronizer. *)
Record Env := mkEnv {
  e_timeouts : TimeoutsHandle;
  e_log : Log S O;
  e_consensus : Consensus;
  e_node : Node S O P
}.

Definition StatusResult : Type := outcome (SynchronizerStatus * Synchronizer O * Env).

Definition finalize self (state : FinalizeState) (seed : list Z) (env : Env) : StatusResult :=
  let log := e_log env in
  let! '(stored, declog') := clear_last_occurrences (declog log) (curr_cid state)
                               (sound_value (fs_sound state)) in
  let log := with_declog log declog' in
  let proposed := match stored with
                  | Some stored => default (proposed state) (take_proposed_requests (message stored)).1
                  | None => proposed state
                  end in
  let m := forge_propose (S := S) (O := O) (P := P) (e_consensus env) proposed self in
  match serialize_digest m with
  | Err _ => Panic
  | Ok (digest, buf) =>
    let nonce := (next_state (Prng.new seed)).1 in
    let h := wm_header (wire_new (leader (view self)) (node_id (e_node env)) buf nonce
                          (Some digest) None) in
    let log := insert log h m in
    let! '(consensus, node) :=
      Consensus.finalize_view_change (e_consensus env) digest self log (e_node env) in
    let self := set_s_phase (set_s_tbo self (stbo_next_instance_queue (s_tbo self))) SInit in
    Done (NewView, self, mkEnv (e_timeouts env) log consensus node)
  end.

(** [finalize_view_change!] *)
Definition finalize_view_change self (state : FinalizeState) (seed : list Z) (env : Env)
  : StatusResult :=
  match pre_finalize self state (e_log env) with
  | NoValue => Done (Running, set_collects self ∅, env)
  | FinRunCst state =>
    let self := set_finalize_state (set_collects self ∅) (Some state) in
    Done (RunCst, set_s_phase self SyncingState, env)
  | FinCommit state => finalize (set_collects self ∅) state seed env
  end.

(** The instance after the one of the highest proof. *)
Definition next_cid (proof : option Proof_) : SeqNo :=
  match proof with
  | Some p => seq_plus_one (s_seq (p_pre_prepare p))
  | None => ZERO
  end.

(** Enough STOPs: the requests they carry are added to the log, the next view
    is installed and its leader is sent the collected proofs. *)
Definition stop_quorum self (now : Z) (env : Env) : StatusResult :=
  let '(self, log) := add_stopped_requests (P := P) self (e_log env) in
  let '(self, timeouts) := watch_all_requests self now (e_timeouts env) in
  let self := install_view self (next_view (view self)) in
  let self := set_s_phase self (if decide (node_id (e_node env) <> leader (view self))
                                then Syncing else StoppingData 0) in
  let! collect := DecLog.collect_data (declog log) (view self) in
  let message := ViewChange (mkViewChange (view_seq (view self)) (StopData collect)) in
  let! '(node, _) := send (e_node env) message (leader (view self)) in
  Done (Running, self, mkEnv timeouts log (e_consensus env) node).

Definition process_stopping self (i : Z) (h : Header) (m : ViewChangeMessage O) (now : Z) (env : Env)
  : StatusResult :=
  match vc_kind m with
  | Stop requests =>
    if decide (vc_view m <> next (view_seq (view self)))
    then Done (stop_status self i, sync_queue self h m, env)
    else if decide (is_Some (stopped self !! hdr_from h)) then Done (stop_status self i, self, env)
    else
      let i := i + 1 in
      let self := set_stopped self (<[hdr_from h := requests]> (stopped self)) in
      match s_phase self with
      | Stopping _ =>
        if i >? params_f (params (view self)) then
          let! '(self, node) := begin_view_change self None (e_node env) in
          Done (Running, self, mkEnv (e_timeouts env) (e_log env) (e_consensus env) node)
        else Done (SNil, set_s_phase self (Stopping i), env)
      | _ =>
        if i =? quorum (params (view self)) then stop_quorum self now env
        else Done (Running, set_s_phase self (Stopping2 i), env)
      end
  | _ => Done (stop_status self i, sync_queue self h m, env)
  end.

Definition process_stopping_data self (i : Z) (h : Header) (m : ViewChangeMessage O) (seed : list Z)
  (env : Env) : StatusResult :=
  match vc_kind m with
  | StopData _ =>
    let node := e_node env in
    if decide (vc_view m <> view_seq (view self)) then
      if decide (leader (peek (view self) (vc_view m)) = node_id node)
      then Done (Running, sync_queue self h m, env) else Done (Running, self, env)
    else if decide (leader (view self) <> node_id node) then Done (Running, self, env)
    else if decide (is_Some (collects self !! hdr_from h)) then Done (Running, self, env)
    else
      let i := i + 1 in
      let self := set_collects self (<[hdr_from h := mkStored h m]> (collects self)) in
      if negb (i =? quorum (params (view self)))
      then Done (Running, set_s_phase self (StoppingData i), env)
      else
        let proof := highest_proof (view self) node (map_values (collects self)) in
        let cid := next_cid proof in
        let ncs := normalized_collects cid (collect_data (map_values (collects self))) in
        let snd_ := sound (view self) ncs in
        if negb (sound_test snd_) then Done (Running, set_collects self ∅, env)
        else
          let p := view_change_propose (e_log env) in
          let message := ViewChange (mkViewChange (view_seq (view self))
                           (Sync (mkLeaderCollects p (map_values (collects self))))) in
          let targets := filter (fun id => id <> node_id node) (view_group self) in
          let! '(node, _) := broadcast node message targets in
          finalize_view_change self (mkFinalize cid p snd_) seed
            (mkEnv (e_timeouts env) (e_log env) (e_consensus env) node)
  | _ => Done (Running, sync_queue self h m, env)
  end.

Definition process_syncing self (h : Header) (m : ViewChangeMessage O) (seed : list Z) (env : Env)
  : StatusResult :=
  match vc_kind m with
  | Sync lc =>
    if decide (vc_view m <> view_seq (view self)) then Done (Running, sync_queue self h m, env)
    else if decide (hdr_from h <> leader (view self)) then Done (Running, self, env)
    else
      let signed := signed_collects (e_node env) (lc_collects lc) in
      let cid := next_cid (highest_proof (view self) (e_node env) signed) in
      let snd_ := sound (view self) (normalized_collects cid (collect_data signed)) in
      if negb (sound_test snd_) then Done (Running, self, env)
      else finalize_view_change self (mkFinalize cid (lc_proposed lc) snd_) seed env
  | _ => Done (Running, sync_queue self h m, env)
  end.

Definition sync_process_message self (h : Header) (m : ViewChangeMessage O) (now : Z) (seed : list Z)
  (env : Env) : StatusResult :=
  match s_phase self with
  | SInit => Done (SNil, sync_queue self h m, env)
  | Stopping i | Stopping2 i => process_stopping self i h m now env
  | StoppingData i => process_stopping_data self i h m seed env
  | Syncing => process_syncing self h m seed env
  | SyncingState => Panic
  end.

Definition resume_view_change self (seed : list Z) (env : Env)
  : outcome (option unit * Synchronizer O * Env) :=
  match finalize_state self with
  | None => Done (None, self, env)
  | Some state =>
    let self := set_finalize_state self None in
    let! '(_, self, env) := finalize_view_change self state seed env in
    Done (Some tt, self, env)
  end.

End protocol.

(** ** The chosen value *)

Section sound.

Implicit Type ncs : list (option CollectData).

(** The quorum write of a collect. *)
Definition write_of (c : CollectData) : option ViewDecisionPair :=
  quorum_writes (incomplete_proof c).

Definition below (ts : SeqNo) (value : Digest) (c : CollectData) : bool :=
  match write_of c with
  | Some w =>
    match cmp (vdp_view w) ts with
    | Lt => true
    | Eq => bool_decide (vdp_digest w = value)
    | Gt => false
    end
  | None => false
  end.

Lemma flatten_length ncs : (length (flatten ncs) <= length ncs)%nat.
Proof. induction ncs as [|[c|] ncs IH]; cbn in *; unfold flatten in *; cbn in *; lia. Qed.

Lemma count_if_all {A : Type} (p : A -> bool) l : (length l <= count_if p l)%nat ->
  forall x, x ∈ l -> p x = true.
Proof.
  unfold count_if. induction l as [|y l IH]; cbn; [set_solver|]. intros Hl.
  pose proof (List.filter_length_le p l). destruct (p y) eqn:E; cbn in Hl.
  - intros x [->|Hx]%elem_of_cons; [done|]. apply IH; [lia|done].
  - lia.
Qed.

Lemma any_elem {A : Type} (p : A -> bool) l : any p l = true -> exists x, x ∈ l /\ p x = true.
Proof.
  unfold any. rewrite existsb_exists. intros (x & Hx & Hp). exists x. by rewrite list_elem_of_In.
Qed.

(** With exactly a quorum of collects, a highest quorum write bounds all. *)
Lemma quorum_highest_spec v ts value ncs :
  Z.of_nat (length ncs) = quorum (params v) -> quorum_highest v ts value ncs = true ->
  (exists c, c ∈ flatten ncs /\ write_of c = Some (mkVDP ts value)) /\
  forall c w, c ∈ flatten ncs -> write_of c = Some w ->
    sn (vdp_view w) < sn ts \/ w = mkVDP ts value.
Proof.
  intros Hlen. unfold quorum_highest. rewrite andb_true_iff, Z.geb_le. intros [Ha Hc]. split.
  - apply any_elem in Ha as (c & Hin & Hc'). exists c. split; [done|]. unfold write_of.
    destruct (quorum_writes (incomplete_proof c)) as [[t x]|]; [|discriminate]. cbn in Hc'.
    apply andb_true_iff in Hc' as [E1 E2]. apply bool_decide_eq_true_1 in E1, E2. by subst.
  - intros c w Hin Hw. fold (below ts value) in Hc.
    assert (Hall : below ts value c = true).
    { apply (count_if_all (below ts value) (flatten ncs)); [|done].
      pose proof (flatten_length ncs). change (count_if _ (flatten ncs)) with
        (count_if (below ts value) (flatten ncs)) in Hc. lia. }
    unfold below in Hall. rewrite Hw in Hall. unfold cmp in Hall.
    destruct (Z.compare_spec (sn (vdp_view w)) (sn ts)) as [E|E|E]; [|by left|discriminate].
    right. apply sn_inj in E. apply bool_decide_eq_true_1 in Hall. destruct w. cbn in *. by subst.
Qed.

Lemma binds_unique v ts1 x1 ts2 x2 ncs : Z.of_nat (length ncs) = quorum (params v) ->
  binds v ts1 x1 ncs = true -> binds v ts2 x2 ncs = true -> x1 = x2.
Proof.
  intros Hlen. unfold binds. case_match; [discriminate|].
  rewrite !andb_true_iff. intros [B1 _] [B2 _].
  apply quorum_highest_spec in B1 as [(c1 & I1 & W1) A1]; [|done].
  apply quorum_highest_spec in B2 as [(c2 & I2 & W2) A2]; [|done].
  destruct (A1 c2 _ I2 W2) as [L1|E]; [|congruence].
  destruct (A2 c1 _ I1 W1) as [L2|E]; [|congruence]. cbn in *. lia.
Qed.

Lemma find_none_perm {A : Type} (p : A -> bool) l1 l2 : (forall x, x ∈ l1 <-> x ∈ l2) ->
  List.find p l1 = None -> List.find p l2 = None.
Proof.
  intros Hl Hn. destruct (List.find p l2) as [x|] eqn:E; [|done].
  apply List.find_some in E as [Hx Hp]. apply list_elem_of_In, Hl, list_elem_of_In in Hx.
  pose proof (List.find_none p l1 Hn x Hx). congruence.
Qed.

Lemma candidates_elem `{RandomState} (tss : gset SeqNo) (vals : gset Digest) ts x :
  (ts, x) ∈ flat_map (fun ts => map (pair ts) (set_iter vals)) (set_iter tss) <->
  ts ∈ tss /\ x ∈ vals.
Proof.
  rewrite list_elem_of_In, in_flat_map. setoid_rewrite in_map_iff. split.
  - intros (t & Ht & y & [= -> ->] & Hy). apply list_elem_of_In in Ht, Hy.
    rewrite set_iter_perm, elem_of_elements in Ht.
    by rewrite set_iter_perm, elem_of_elements in Hy.
  - intros [Ht Hx]. exists ts. rewrite <- list_elem_of_In, set_iter_perm, elem_of_elements.
    split; [done|]. exists x. by rewrite <- list_elem_of_In, set_iter_perm, elem_of_elements.
Qed.

(** C23: with the proofs of exactly a quorum of replicas, the value picked for
    the new view is the same whatever the iteration order of the hash sets: it
    does not depend on which replica computes it. *)
Theorem sound_order_independent (r1 r2 : RandomState) v ncs :
  Z.of_nat (length ncs) = quorum (params v) -> @sound r1 v ncs = @sound r2 v ncs.
Proof.
  intros Hlen. unfold sound.
  set (c1 := flat_map _ (@set_iter r1 _ _ _ (timestamps ncs))).
  set (c2 := flat_map _ (@set_iter r2 _ _ _ (timestamps ncs))).
  assert (Hc : forall y, y ∈ c1 <-> y ∈ c2).
  { intros [t x]. unfold c1, c2. by rewrite !candidates_elem. }
  destruct (List.find _ c1) as [[t1 x1]|] eqn:E1, (List.find _ c2) as [[t2 x2]|] eqn:E2.
  - apply List.find_some in E1 as [_ B1], E2 as [_ B2]. cbn in B1, B2. f_equal.
    by eapply binds_unique.
  - apply (find_none_perm _ _ c1) in E2; [congruence|]. intros y. by rewrite Hc.
  - apply (find_none_perm _ _ c2) in E1; [congruence|]. intros y. by rewrite Hc.
  - done.
Qed.

(** C22: among the collects of exactly a quorum of replicas, a value is bound only
    if some replica reported a quorum of PREPAREs for it and no reported quorum of
    PREPAREs is more recent. (With more collects than a quorum, which
    [process_syncing] lets through, this is not so.) *)
Theorem bound_value_is_highest `{RandomState} v ncs x : Z.of_nat (length ncs) = quorum (params v) ->
  sound v ncs = Bound x ->
  exists ts, (exists c, c ∈ flatten ncs /\ write_of c = Some (mkVDP ts x)) /\
    forall c w, c ∈ flatten ncs -> write_of c = Some w ->
      sn (vdp_view w) < sn ts \/ w = mkVDP ts x.
Proof.
  intros Hlen. unfold sound. destruct (List.find _ _) as [[ts y]|] eqn:E; [|discriminate].
  intros [= <-]. apply List.find_some in E as [_ B]. cbn in B. unfold binds in B.
  case_match; [discriminate|]. apply andb_true_iff in B as [B _]. exists ts.
  by apply (quorum_highest_spec v).
Qed.

Lemma count_if_none {A : Type} (p : A -> bool) l : (forall x, x ∈ l -> p x = false) ->
  count_if p l = 0%nat.
Proof.
  unfold count_if. induction l as [|y l IH]; intros Hl; [done|]. cbn.
  rewrite (Hl y) by set_solver. apply IH. set_solver.
Qed.

Lemma count_if_full {A : Type} (p : A -> bool) l : (forall x, x ∈ l -> p x = true) ->
  count_if p l = length l.
Proof.
  unfold count_if. induction l as [|y l IH]; intros Hl; [done|]. cbn.
  rewrite (Hl y) by set_solver. cbn. f_equal. apply IH. set_solver.
Qed.

Lemma count_if_le {A : Type} (p : A -> bool) l : (count_if p l <= length l)%nat.
Proof. apply List.filter_length_le. Qed.

Lemma flatten_some (l : list CollectData) : flatten (map Some l) = l.
Proof. unfold flatten. induction l as [|c l IH]; [done|]. cbn. f_equal. exact IH. Qed.

(** A value that may have been decided need not be bound. When [f + 1]
    replicas report a quorum of PREPAREs for a value in view 0, as they do
    after it was decided, and the other [f] report none, the new leader is told
    that no value is bound and may propose another one. *)
Theorem decided_value_not_bound `{RandomState} v (voters others : list CollectData) x :
  params_ok (params v) -> 1 <= params_f (params v) ->
  Z.of_nat (length voters) = params_f (params v) + 1 ->
  Z.of_nat (length others) = params_f (params v) ->
  (forall c, c ∈ voters -> write_of c = Some (mkVDP ZERO x)) ->
  (forall c, c ∈ others -> write_of c = None) ->
  sound v (map Some (voters ++ others)) = Unbound true.
Proof.
  intros Hp Hf Hv Ho HV HO. pose proof (quorum_eq _ Hp) as Hq.
  set (ncs := map Some (voters ++ others)).
  assert (Hlen : Z.of_nat (length ncs) = quorum (params v))
    by (unfold ncs; rewrite length_map, length_app; lia).
  assert (Hnb : forall ts y, binds v ts y ncs = false).
  { intros ts y. unfold binds. case_match; [done|]. apply andb_false_iff. left.
    unfold quorum_highest. apply andb_false_iff. right. unfold ncs. rewrite flatten_some, count_if_app.
    rewrite (count_if_none _ others) by (intros c Hc; specialize (HO c Hc); unfold write_of in HO; by rewrite HO).
    rewrite Z.geb_leb. apply Z.leb_gt.
    match goal with |- context [count_if ?p voters] => pose proof (count_if_le p voters) end. lia. }
  unfold sound. destruct (List.find _ _) as [[ts y]|] eqn:E.
  { apply List.find_some in E as [_ E]. cbn in E. by rewrite Hnb in E. }
  f_equal. unfold unbound. rewrite Hlen, Z.ltb_irrefl. rewrite count_if_full; [apply Z.geb_le; lia|].
  intros c Hc. unfold ncs in Hc. apply list_elem_of_In, in_map_iff in Hc as (c' & <- & Hc').
  apply list_elem_of_In, elem_of_app in Hc' as [Hc'|Hc'].
  - specialize (HV c' Hc'). unfold write_of in HV. by rewrite HV.
  - specialize (HO c' Hc'). unfold write_of in HO. by rewrite HO.
Qed.

Lemma count_if_replicate {A : Type} (p : A -> bool) k x : p x = true -> count_if p (replicate k x) = k.
Proof.
  intros Hp. rewrite count_if_full; [by rewrite length_replicate|].
  intros y Hy. apply elem_of_replicate in Hy as [-> _]. done.
Qed.

(** [certified_value] counts entries and not replicas: one collect whose
    write set repeats a value [f + 1] times certifies it on its own. *)
Theorem one_collect_certifies v c x ncs : params_ok (params v) -> Some c ∈ ncs ->
  write_set (incomplete_proof c) = replicate (Z.to_nat (params_f (params v) + 1)) (mkVDP ZERO x) ->
  certified_value v ZERO x ncs = true.
Proof.
  intros (Hf & _ & _) Hin Hw. unfold certified_value. rewrite Z.gtb_ltb. apply Z.ltb_lt.
  set (cnt := fun c => count_if _ (write_set (incomplete_proof c))).
  assert (Hc : Z.of_nat (cnt c) = params_f (params v) + 1).
  { unfold cnt. rewrite Hw, count_if_replicate; [lia|]. cbn. rewrite bool_decide_eq_true_2 by done. done. }
  assert (Hsum : (cnt c <= sum_list (map cnt (flatten ncs)))%nat); [|lia].
  assert (Hfl : c ∈ flatten ncs).
  { unfold flatten. apply list_elem_of_omap. by exists (Some c). }
  induction (flatten ncs) as [|y l IH]; [set_solver|]. cbn. apply elem_of_cons in Hfl as [<-|Hfl]; [lia|].
  specialize (IH Hfl). lia.
Qed.

End sound.

(** ** The invariant of the collected proofs *)

Section invariant.
Context {S O P : Type} `{HashFn, SigScheme, RandomState, !OrderedMap Digest, !SharedData S O P}.
Implicit Type self : Synchronizer O.

Definition collected (m : gmap NodeId (StoredMessage (ViewChangeMessage O))) : Prop :=
  map_Forall (fun k s => hdr_from (header s) = k /\ exists c, vc_kind (message s) = StopData c) m.

(** Proofs are only kept while the leader collects them, at most one for each
    sender and at most as many as were counted. *)
Definition collects_ok self : Prop :=
  collected (collects self) /\
  match s_phase self with
  | StoppingData i => Z.of_nat (size (collects self)) <= i
  | _ => collects self = ∅
  end.

(** A SYNC message carries the STOP-DATAs of exactly a quorum of replicas. *)
Definition sync_message_ok (q : Z) (m : SystemMessage S O P) : Prop :=
  match m with
  | ViewChange vm =>
    match vc_kind vm with
    | Sync lc => Z.of_nat (length (lc_collects lc)) = q /\
                 NoDup (map (fun s => hdr_from (header s)) (lc_collects lc)) /\
                 forall s, s ∈ lc_collects lc -> exists c, vc_kind (message s) = StopData c
    | _ => True
    end
  | _ => True
  end.

(** The node has sent some more messages, each satisfying [Q]. *)
Definition sent_more (Q : SystemMessage S O P -> Prop) (n n' : Node S O P) : Prop :=
  exists new, outbox n' = outbox n ++ new /\ Forall (fun t => Q (t_message t)) new.

Lemma sent_more_refl Q n : sent_more Q n n.
Proof. exists []. by rewrite app_nil_r. Qed.

Lemma sent_more_trans Q n1 n2 n3 : sent_more Q n1 n2 -> sent_more Q n2 n3 -> sent_more Q n1 n3.
Proof.
  intros (l1 & E1 & F1) (l2 & E2 & F2). exists (l1 ++ l2). rewrite E2, E1, app_assoc.
  split; [done|]. by apply Forall_app.
Qed.

Lemma broadcast_sent (Q : SystemMessage S O P -> Prop) n m ts n' d :
  broadcast n m ts = Done (n', d) -> Q m -> sent_more Q n n'.
Proof.
  intros Hb HQ. apply broadcast_inv in Hb as (task & -> & Ht). exists [task]. split; [done|].
  apply Forall_singleton. by rewrite Ht.
Qed.

Lemma send_sent (Q : SystemMessage S O P -> Prop) n m t n' d :
  send n m t = Done (n', d) -> Q m -> sent_more Q n n'.
Proof.
  intros Hb HQ. apply send_inv in Hb as (task & -> & Ht). exists [task]. split; [done|].
  apply Forall_singleton. by rewrite Ht.
Qed.

Lemma collected_empty : collected ∅.
Proof. apply map_Forall_empty. Qed.

Lemma collects_ok_empty self : collects self = ∅ -> (forall i, s_phase self = StoppingData i -> 0 <= i) ->
  collects_ok self.
Proof.
  intros E Hp. unfold collects_ok. rewrite E. split; [apply collected_empty|].
  destruct (s_phase self) eqn:Ep; try done. cbn. rewrite map_size_empty. by apply Hp.
Qed.

Lemma stopped_requests_rest self timed_out :
  let self' := snd (stopped_requests self timed_out) in
  s_phase self' = s_phase self /\ collects self' = collects self /\ view self' = view self /\
  watching self' = watching self /\ timeout_seq self' = timeout_seq self.
Proof. unfold stopped_requests. by destruct timed_out. Qed.

Lemma begin_view_change_inv Q self timed_out (n : Node S O P) self' n' :
  (forall v requests, Q (ViewChange (mkViewChange v (Stop requests)))) ->
  begin_view_change self timed_out n = Done (self', n') -> collects_ok self ->
  collects_ok self' /\ collects self' = ∅ /\ sent_more Q n n'.
Proof.
  intros HQ Hb [Hc Hp]. unfold begin_view_change in Hb.
  assert (E1 : collects (enter_stopping self timed_out) = ∅ /\
    forall i, s_phase (enter_stopping self timed_out) <> StoppingData i).
  { unfold enter_stopping. destruct (s_phase self), timed_out; by split. }
  destruct E1 as [E1 E2]. set (self1 := enter_stopping self timed_out) in *.
  pose proof (stopped_requests_rest (unwatch_all_requests self1) timed_out) as (R1 & R2 & R3 & _).
  destruct (stopped_requests (unwatch_all_requests self1) timed_out) as [rq self2].
  cbn [snd] in R1, R2, R3. destruct (broadcast n _ _) as [[n1 d]|] eqn:Eb; [|discriminate].
  injection Hb as <- <-. assert (E : collects self2 = ∅) by (rewrite R2; exact E1).
  split_and!; [|done|].
  - apply collects_ok_empty; [done|]. intros i Hi. rewrite R1 in Hi. by apply E2 in Hi.
  - eapply broadcast_sent; [exact Eb|]. apply HQ.
Qed.

Lemma finalize_sent Q self state seed (env env' : Env) st self' :
  (forall m, Q (Message.Consensus m)) ->
  finalize self state seed env = Done (st, self', env') ->
  collects self' = collects self /\ s_phase self' = SInit /\ st = NewView /\
  view self' = view self /\ sent_more Q (e_node env) (e_node env').
Proof.
  intros HQ. unfold finalize.
  returned_as [stored dl].
  destruct (serialize_digest _) as [[digest buf]|]; [|discriminate].
  unfold Consensus.finalize_view_change. destruct (last _) as [lastm|]; [|discriminate].
  destruct (c_kind (message lastm)) as [ds| |]; try discriminate.
  returned_as c.
  unfold vote_prepare. case_decide.
  - returned_as [n1 d] eqn:Hb. intros Hd.
    apply done_inj3 in Hd as (<- & <- & <-).
    split_and!; try done. eapply broadcast_sent; [exact Hb|]. apply HQ.
  - cbn [obind]. intros Hd. apply done_inj3 in Hd as (<- & <- & <-). split_and!; try done. apply sent_more_refl.
Qed.

Lemma finalize_view_change_inv Q self state seed (env env' : Env) st self' :
  (forall m, Q (Message.Consensus m)) ->
  finalize_view_change self state seed env = Done (st, self', env') ->
  (forall i, s_phase self = StoppingData i -> 0 <= i) ->
  collects_ok self' /\ sent_more Q (e_node env) (e_node env').
Proof.
  intros HQ Hf Hp. unfold finalize_view_change in Hf.
  destruct (pre_finalize self state (e_log env)) as [|st'|st'].
  - injection Hf as <- <- <-. split; [by apply collects_ok_empty|apply sent_more_refl].
  - injection Hf as <- <- <-. split; [by apply collects_ok_empty|apply sent_more_refl].
  - apply (finalize_sent Q) in Hf as (E1 & E2 & _ & _ & Hs); [|done]. split; [|done].
    apply collects_ok_empty; [by rewrite E1|]. rewrite E2. discriminate.
Qed.

Lemma add_stopped_rest self (log : Log S O) :
  let self' := fst (add_stopped_requests (P := P) self log) in
  s_phase self' = s_phase self /\ collects self' = collects self /\ view self' = view self.
Proof.
  unfold add_stopped_requests. pose proof (stopped_requests_rest self None) as (R1 & R2 & R3 & _).
  destruct (stopped_requests self None) as [rq self1]. cbn [snd] in R1, R2, R3.
  rewrite <- R1, <- R2, <- R3. clear R1 R2 R3. revert self1 log.
  induction rq as [|r rq IH]; intros self1 log; [done|]. cbn [foldl].
  destruct (IH (set_watching self1 (watching_timeouts self1)
    (<[unique_digest (header r) := TimedOut]> (watching self1)))
    (insert (P := P) log (header r) (Request (message r)))) as (E1 & E2 & E3). cbn in E1, E2, E3 |- *.
  by rewrite E1, E2, E3.
Qed.

Lemma watch_all_rest self now ts :
  let self' := fst (watch_all_requests self now ts) in
  s_phase self' = s_phase self /\ collects self' = collects self /\ view self' = view self.
Proof. unfold watch_all_requests. by case_match. Qed.

Lemma stop_quorum_inv Q self now (env env' : Env) st self' :
  (forall v c, Q (ViewChange (mkViewChange v (StopData c)))) ->
  stop_quorum self now env = Done (st, self', env') -> collects self = ∅ ->
  st = Running /\ collects_ok self' /\ view self' = next_view (view self) /\
  sent_more Q (e_node env) (e_node env').
Proof.
  intros HQ Hs Hc. unfold stop_quorum in Hs.
  pose proof (add_stopped_rest self (e_log env)) as (A1 & A2 & A3).
  destruct (add_stopped_requests self (e_log env)) as [s1 log]. cbn [fst] in A1, A2, A3.
  pose proof (watch_all_rest s1 now (e_timeouts env)) as (W1 & W2 & W3).
  destruct (watch_all_requests s1 now (e_timeouts env)) as [s2 ts]. cbn [fst] in W1, W2, W3.
  destruct (DecLog.collect_data _ _) as [cd|]; [|discriminate]. cbn [obind] in Hs.
  destruct (send _ _ _) as [[n1 d]|] eqn:Hn; [|discriminate]. injection Hs as <- <- <-.
  split_and!; [done| | |].
  - apply collects_ok_empty; [cbn; congruence|]. cbn. intros i Hi. case_decide; [done|].
    injection Hi as <-. lia.
  - cbn. cbn in A3, W3. congruence.
  - eapply send_sent; [exact Hn|]. apply HQ.
Qed.

Lemma map_values_length {V : Type} (m : gmap NodeId V) : length (map_values m) = size m.
Proof. unfold map_values. rewrite length_fmap, map_iter_perm. apply length_map_to_list. Qed.

Lemma map_values_elem {V : Type} (m : gmap NodeId V) x :
  x ∈ map_values m <-> exists k, m !! k = Some x.
Proof.
  unfold map_values. rewrite list_elem_of_fmap. setoid_rewrite map_iter_perm. split.
  - intros ([k y] & -> & Hin). apply elem_of_map_to_list in Hin. by exists k.
  - intros [k Hk]. exists (k, x). split; [done|]. by apply elem_of_map_to_list.
Qed.

(** The senders of the kept STOP-DATAs are the keys of the map. *)
Lemma collected_senders m : collected m ->
  NoDup (map (fun s => hdr_from (header s)) (map_values m)).
Proof.
  intros Hc. unfold map_values.
  assert (E : forall l : list (NodeId * StoredMessage (ViewChangeMessage O)),
    (forall k s, (k, s) ∈ l -> hdr_from (header s) = k) ->
    map (fun s => hdr_from (header s)) l.*2 = l.*1).
  { induction l as [|[k s] l IH]; intros Hl; [done|]. cbn. rewrite (Hl k s) by set_solver.
    f_equal. apply IH. set_solver. }
  rewrite E.
  - rewrite map_iter_perm. apply NoDup_fst_map_to_list.
  - intros k s' Hin. rewrite map_iter_perm in Hin. apply elem_of_map_to_list in Hin.
    apply (Hc k s' Hin).
Qed.

Lemma sound_needs_quorum v ncs : sound_test (sound v ncs) = true ->
  quorum (params v) <= Z.of_nat (length ncs).
Proof.
  unfold sound. intros Ht. destruct (Z.ltb_spec (Z.of_nat (length ncs)) (quorum (params v))) as [Hl|]; [|done].
  exfalso. apply Z.ltb_lt in Hl. destruct (List.find _ _) as [[t x]|] eqn:E.
  - apply List.find_some in E as [_ E]. cbn in E. unfold binds in E. by rewrite Hl in E.
  - cbn in Ht. unfold unbound in Ht. by rewrite Hl in Ht.
Qed.

Lemma collect_data_length (l : list (StoredMessage (ViewChangeMessage O))) :
  (length (collect_data l) <= length l)%nat.
Proof.
  unfold collect_data. induction l as [|x l IH]; cbn; [lia|]. destruct (vc_kind (message x)); cbn; lia.
Qed.

Lemma sync_queue_ok self h m : collects_ok self -> collects_ok (sync_queue self h m).
Proof. done. Qed.

(** A branch that returns the state as it was, or with a message queued. *)
Ltac unchanged :=
  let Hd := fresh in
  intros Hd; apply done_inj3 in Hd as (<- & <- & <-); split; [done|apply sent_more_refl].

Lemma process_stopping_inv self i h m now (env env' : Env) st self' :
  collects_ok self -> s_phase self = Stopping i \/ s_phase self = Stopping2 i ->
  process_stopping self i h m now env = Done (st, self', env') ->
  collects_ok self' /\
  sent_more (sync_message_ok (quorum (params (view self)))) (e_node env) (e_node env').
Proof.
  intros Hok Hph. unfold process_stopping.
  assert (He : collects self = ∅) by (destruct Hok as [_ Hok], Hph as [E|E]; by rewrite E in Hok).
  destruct (vc_kind m) as [rq|c|lc];
    try (unchanged).
  case_decide; [unchanged|].
  case_decide; [unchanged|].
  set (self1 := set_stopped self _). cbv zeta.
  assert (Hok1 : collects_ok self1) by exact Hok.
  assert (Hph1 : s_phase self1 = s_phase self) by done. rewrite Hph1.
  destruct Hph as [E|E]; rewrite E.
  - case_match.
    + returned_as [s2 n2] eqn:Hb. intros Hd. apply done_inj3 in Hd as (<- & <- & <-).
      apply (begin_view_change_inv (sync_message_ok (quorum (params (view self))))) in Hb
        as (B1 & _ & B2); [|done..]. by split.
    + intros Hd. apply done_inj3 in Hd as (<- & <- & <-).
      split; [by apply collects_ok_empty|apply sent_more_refl].
  - case_match.
    + intros Hd. apply (stop_quorum_inv (sync_message_ok (quorum (params (view self))))) in Hd
        as (_ & Q1 & _ & Q2); [|done..]. by split.
    + intros Hd. apply done_inj3 in Hd as (<- & <- & <-).
      split; [by apply collects_ok_empty|apply sent_more_refl].
Qed.

Lemma collected_insert k h m c (cs : gmap NodeId (StoredMessage (ViewChangeMessage O))) :
  hdr_from h = k -> vc_kind m = StopData c -> collected cs ->
  collected (<[k := mkStored h m]> cs).
Proof. intros <- Hk Hc. apply map_Forall_insert_2; [|done]. split; [done|by exists c]. Qed.

Lemma process_stopping_data_inv self i h m seed (env env' : Env) st self' :
  collects_ok self -> s_phase self = StoppingData i ->
  process_stopping_data self i h m seed env = Done (st, self', env') ->
  collects_ok self' /\
  sent_more (sync_message_ok (quorum (params (view self)))) (e_node env) (e_node env').
Proof.
  intros Hok Hph. unfold process_stopping_data. pose proof Hok as [Hc Hsz]. rewrite Hph in Hsz.
  assert (Hi : 0 <= i) by lia.
  destruct (vc_kind m) as [rq|c|lc] eqn:Ek;
    try (unchanged).
  cbv zeta. case_decide.
  { case_decide; unchanged. }
  case_decide; [unchanged|].
  case_decide as Hnew; [unchanged|].
  set (cs := <[hdr_from h := mkStored h m]> (collects self)).
  assert (Hc' : collected cs) by (by eapply collected_insert).
  assert (Hsz' : Z.of_nat (size cs) <= i + 1).
  { unfold cs. rewrite map_size_insert_None; [lia|]. by apply eq_None_not_Some. }
  set (self1 := set_collects self cs).
  assert (Hv : view self1 = view self) by done. rewrite !Hv.
  destruct (Z.eqb_spec (i + 1) (quorum (params (view self)))) as [Hq|Hq]; cbn [negb].
  2: { intros Hd. apply done_inj3 in Hd as (<- & <- & <-).
       split; [by split|apply sent_more_refl]. }
  change (collects self1) with cs.
  destruct (sound_test (sound _ _)) eqn:Hs; cbn [negb].
  2: { intros Hd. apply done_inj3 in Hd as (<- & <- & <-).
       split; [|apply sent_more_refl]. apply collects_ok_empty; [done|]. cbn. rewrite Hph. by intros ? [= <-]. }
  apply sound_needs_quorum in Hs. unfold normalized_collects in Hs. rewrite length_map in Hs.
  pose proof (collect_data_length (map_values cs)) as Hcd. rewrite map_values_length in Hcd.
  returned_as [n2 d] eqn:Hb. intros Hf.
  apply (finalize_view_change_inv (sync_message_ok (quorum (params (view self))))) in Hf as [F1 F2].
  2: { done. }
  2: { cbn. rewrite Hph. by intros ? [= <-]. }
  split; [done|]. eapply sent_more_trans; [|exact F2]. eapply broadcast_sent; [exact Hb|].
  unfold sync_message_ok. cbn [vc_kind lc_collects]. rewrite map_values_length. split_and!; [lia|by apply collected_senders|].
  intros x Hx. apply map_values_elem in Hx as [k Hk]. by destruct (Hc' k x Hk).
Qed.

Lemma process_syncing_inv Q self h m seed (env env' : Env) st self' :
  (forall m, Q (Message.Consensus m)) -> collects_ok self -> s_phase self = Syncing ->
  process_syncing self h m seed env = Done (st, self', env') ->
  collects_ok self' /\ sent_more Q (e_node env) (e_node env').
Proof.
  intros HQ Hok Hph. unfold process_syncing.
  destruct (vc_kind m) as [rq|c|lc];
    try (unchanged).
  case_decide; [unchanged|].
  case_decide; [unchanged|].
  case_match; [unchanged|].
  intros Hf. apply (finalize_view_change_inv Q) in Hf; [done|done|]. rewrite Hph. discriminate.
Qed.

(** C24: the view change keeps at most one STOP-DATA for each sender, through
    every message and every local trigger, and the SYNC message a new leader
    broadcasts carries the STOP-DATAs of exactly a quorum of different
    replicas. *)
Theorem sync_carries_quorum self h m now seed timed_out (env : Env) : collects_ok self ->
  (forall st self' env', sync_process_message self h m now seed env = Done (st, self', env') ->
     collects_ok self' /\
     sent_more (sync_message_ok (quorum (params (view self)))) (e_node env) (e_node env')) /\
  (forall self' n', begin_view_change self timed_out (e_node env) = Done (self', n') ->
     collects_ok self' /\ sent_more (sync_message_ok (quorum (params (view self)))) (e_node env) n') /\
  collects_ok (sync_poll self).2.
Proof.
  intros Hok. split_and!.
  - intros st self' env'. unfold sync_process_message. destruct (s_phase self) as [|i|i|i| |] eqn:Ep.
    + unchanged.
    + apply process_stopping_inv; [done|by left].
    + apply process_stopping_inv; [done|by right].
    + by apply process_stopping_data_inv.
    + by apply process_syncing_inv.
    + discriminate.
  - intros self' n' Hb.
    apply (begin_view_change_inv (sync_message_ok (quorum (params (view self))))) in Hb
      as (B1 & _ & B2); [|done..]. by split.
  - unfold sync_poll. destruct (negb _); [done|]. destruct Hok as [Hc Hp].
    unfold sync_extract.
    destruct (s_phase self) as [|i|i|i| |] eqn:Ep; try (cbn [snd]; by split; [|rewrite Ep]);
      destruct (tbo_pop_message _) as [[x|] q]; split; cbn; rewrite ?Ep; done.
Qed.

End invariant.

(** ** Signatures, finalization and timers *)

Section outcomes.
Context {S O P : Type} `{HashFn, SigScheme, RandomState, !OrderedMap Digest, !SharedData S O P}.
Implicit Type self : Synchronizer O.

Lemma validate_signature_empty {M : Type} (n : Node S O P) (stored : StoredMessage M) :
  validate_signature n stored = true -> h_length (header stored) = 0.
Proof.
  unfold validate_signature, from_parts. destruct (is_valid (mkWire (header stored) []) None) eqn:E;
    [|discriminate]. intros _. unfold is_valid in E. cbn [wm_header wm_payload length] in E.
  change (Z.of_nat 0) with 0 in E.
  destruct (Z.eqb_spec (h_length (header stored)) 0) as [|Hne]; [done|].
  cbn [negb] in E. rewrite orb_true_r in E. discriminate.
Qed.

Lemma signed_collects_none (n : Node S O P) l :
  (forall s, s ∈ l -> h_length (header s) <> 0) -> signed_collects n l = [].
Proof.
  intros Hl. unfold signed_collects. induction l as [|x l IH]; [done|]. cbn.
  destruct (validate_signature n x) eqn:E; [|apply IH; set_solver].
  apply validate_signature_empty in E. exfalso. apply (Hl x); [set_solver|done].
Qed.

(** Signatures of forwarded messages are checked against an empty payload,
    so that every message with a payload fails the check: no STOP-DATA with a
    payload survives it, and a SYNC made of such messages is ignored by every
    replica but the leader. *)
Theorem sync_with_payload_ignored self h m lc now seed (env : Env) :
  s_phase self = Syncing -> vc_kind m = Sync lc -> vc_view m = view_seq (view self) ->
  0 < quorum (params (view self)) ->
  (forall s, s ∈ lc_collects lc -> h_length (header s) <> 0) ->
  sync_process_message self h m now seed env = Done (Running, self, env).
Proof.
  intros Hp Hk Hv Hq Hl. unfold sync_process_message, process_syncing. rewrite Hp, Hk.
  rewrite decide_False by (by intros ?). case_decide; [done|].
  rewrite signed_collects_none by done. cbn [collect_data omap list_omap normalized_collects map].
  destruct (sound_test (sound (view self) _)) eqn:E; [|done].
  apply sound_needs_quorum in E. cbn in E. cbn in Hq. lia.
Qed.

(** The batch [finalize] proposes: that of the newest PRE-PREPARE of the
    running instance with the bound digest, or the one the leader sent. *)
Definition chosen_batch (state : FinalizeState) (pps : list (StoredMessage ConsensusMessage))
  : list Digest :=
  match List.find (matches_value (sound_value (fs_sound state))) (trailing (curr_cid state) pps) with
  | Some stored => match c_kind (message stored) with
                   | PrePrepare ds => ds
                   | _ => proposed state
                   end
  | None => proposed state
  end.

(** C25: when the view change finishes, the votes and proposals at the end of each
    list of the log that are of the instance named by the view change ([curr_cid],
    which is the running instance only if the two agree) are gone, and the log
    ends with one new PRE-PREPARE of the new view and the running instance for the
    chosen batch; the consensus layer is in the PREPARE phase for exactly that
    batch and digest, and a replica that is not the leader has sent its PREPARE
    for it. *)
Theorem finalize_installs_proposal self state seed (env env' : Env) st self' :
  finalize self state seed env = Done (st, self', env') ->
  let ds := chosen_batch state (pre_prepares (declog (e_log env))) in
  let c := e_consensus env' in
  st = NewView /\ s_phase self' = SInit /\
  phase c = Preparing 1 /\ take (batch_size c) (current c) = ds /\
  (exists pp, pre_prepares (declog (e_log env')) =
       strip (curr_cid state) (pre_prepares (declog (e_log env))) ++ [pp] /\
     s_seq pp = curr_seq (tbo (e_consensus env)) /\ s_view pp = view_seq (view self) /\
     s_digest pp = current_digest c /\ c_kind (message pp) = PrePrepare ds) /\
  prepares (declog (e_log env')) = strip (curr_cid state) (prepares (declog (e_log env))) /\
  commits (declog (e_log env')) = strip (curr_cid state) (commits (declog (e_log env))) /\
  exists own, outbox (e_node env') = outbox (e_node env) ++ own /\
    ballots own = own_prepare self (e_node env) (curr_seq (tbo (e_consensus env))) (current_digest c).
Proof.
  unfold finalize. rewrite clear_last_occurrences_eq. cbn [obind].
  set (prop := match List.find _ _ with Some _ => _ | None => _ end).
  assert (Hprop : prop = chosen_batch state (pre_prepares (declog (e_log env)))).
  { unfold prop, chosen_batch. destruct (List.find _ _) as [stored|]; [|done].
    unfold take_proposed_requests. by destruct (c_kind (message stored)). }
  rewrite <- Hprop. clearbody prop. clear Hprop.
  destruct (serialize_digest _) as [[digest buf]|]; [|discriminate].
  set (hd := wm_header _). unfold Consensus.finalize_view_change, forge_propose, forge.
  cbn [insert declog with_declog push_consensus c_kind message pre_prepares]. rewrite last_snoc.
  cbn [c_kind message]. destruct (accept_proposal _ digest prop) as [c|] eqn:Ha; [|discriminate].
  apply accept_proposal_inv in Ha as (A1 & A2 & A3 & _ & _ & A6 & _). cbn [obind].
  returned_as n1 eqn:Hv.
  apply vote_prepare_ballots in Hv as (V1 & own & V2 & V3).
  intros Hd. apply done_inj3 in Hd as (<- & <- & <-). cbn [e_consensus e_log e_node declog].
  split_and!; try done.
  - eexists. split; [reflexivity|]. split_and!; try done. rewrite A3. by destruct digest.
  - exists own. split; [done|]. rewrite V3, A2. done.
Qed.

(** A STOP that brings the count above [f] makes the replica send its own
    STOP and forget who has sent one: the count is kept, but the same senders
    can be counted again towards the quorum. *)
Theorem stop_senders_forgotten self i h m requests now (env env' : Env) st self' :
  s_phase self = Stopping i -> vc_kind m = Stop requests ->
  vc_view m = next (view_seq (view self)) -> stopped self !! hdr_from h = None ->
  params_f (params (view self)) < i + 1 ->
  sync_process_message self h m now [] env = Done (st, self', env') ->
  st = Running /\ s_phase self' = Stopping2 (i + 1) /\ stopped self' = ∅ /\ view self' = view self.
Proof.
  intros Hp Hk Hv Hs Hf. unfold sync_process_message, process_stopping. rewrite Hp, Hk.
  rewrite decide_False by (by intros ?). rewrite Hs.
  rewrite decide_False by (by intros [? ?]). cbv zeta.
  change (s_phase (set_stopped self _)) with (s_phase self). rewrite Hp.
  change (view (set_stopped self _)) with (view self). rewrite Z.gtb_ltb, (proj2 (Z.ltb_lt _ _) Hf).
  unfold begin_view_change, enter_stopping. change (s_phase (set_stopped self _)) with (s_phase self).
  rewrite Hp. unfold stopped_requests at 1. cbn [obind].
  returned_as [n1 d].
  intros Hd. by apply done_inj3 in Hd as (<- & <- & <-).
Qed.

(** The watched requests in a phase that satisfies [p]. *)
Definition select (p : TimeoutPhase -> bool) (m : gmap Digest TimeoutPhase) : list Digest :=
  (List.filter (fun e => p e.2) (map_iter m)).*1.

Lemma select_elem p m d : d ∈ select p m <-> exists ph, m !! d = Some ph /\ p ph = true.
Proof.
  unfold select. rewrite list_elem_of_fmap. split.
  - intros ([k ph] & -> & Hin). rewrite list_elem_of_In, filter_In, <- list_elem_of_In in Hin.
    destruct Hin as [Hin Hp]. rewrite map_iter_perm in Hin. apply elem_of_map_to_list in Hin. by exists ph.
  - intros (ph & Hph & Hp). exists (d, ph). split; [done|].
    rewrite list_elem_of_In, filter_In, <- list_elem_of_In. split; [|done].
    rewrite map_iter_perm. by apply elem_of_map_to_list.
Qed.

Lemma select_nodup p m : NoDup (select p m).
Proof.
  unfold select. assert (Hk : NoDup (map_iter m).*1) by (rewrite map_iter_perm; apply NoDup_fst_map_to_list).
  induction (map_iter m) as [|[k ph] l IH]; cbn; [apply NoDup_nil_2|].
  cbn in Hk. apply NoDup_cons in Hk as [Hk Hl]. destruct (p ph); cbn; [|by apply IH].
  apply NoDup_cons. split; [|by apply IH]. intros Hin. apply Hk.
  apply list_elem_of_fmap in Hin as (e & -> & Hin). apply list_elem_of_fmap. exists e. split; [done|].
  rewrite list_elem_of_In, filter_In in Hin. destruct Hin. by apply list_elem_of_In.
Qed.

(** A timer reports each expired request once: a request seen for the
    first time is reported for forwarding, one that was already forwarded is
    reported as stopped and marked so, and is not reported again; a stale timer
    reports nothing. *)
Theorem timer_reports_expired self now seq ts : 
  let '(st, self', ts') := client_requests_timed_out self now seq ts in
  if watching_timeouts self && bool_decide (next seq = timeout_seq self) then
    exists forwarded stopped_, st = RequestsTimedOut forwarded stopped_ /\
      NoDup forwarded /\ NoDup stopped_ /\
      (forall d, d ∈ forwarded <->
         exists i, watching self !! d = Some (TInit i) /\ timeout_dur self < now - i) /\
      (forall d, d ∈ stopped_ <->
         exists i, watching self !! d = Some (TimedOutOnce i) /\ timeout_dur self < now - i) /\
      (forall d, watching self' !! d =
         if decide (d ∈ stopped_) then Some TimedOut else watching self !! d) /\
      timeout_seq self' = next (timeout_seq self) /\
      asleep ts' = asleep ts ++ [mkSleep (timeout_dur self) (TimeoutClientRequests (timeout_seq self)) None]
  else st = SNil /\ self' = self /\ ts' = ts.
Proof.
  unfold client_requests_timed_out.
  destruct (watching_timeouts self), (decide (next seq = timeout_seq self)) as [E|E]; cbn [negb orb andb];
    rewrite ?(bool_decide_eq_true_2 _ E), ?(bool_decide_eq_false_2 _ E); cbn [negb orb andb]; try done.
  set (dur := timeout_dur self).
  pose proof (fun p => select_elem p (watching self)) as Hmem.
  eexists _, _. split; [reflexivity|]. split_and!; try done; try apply select_nodup.
  - intros d. etransitivity; [apply Hmem|]. unfold forwards, expired. split.
    + intros ([i|i|] & Hw & Hp); try discriminate. exists i. split; [done|]. apply Z.gtb_lt in Hp. lia.
    + intros (i & Hw & Hp). exists (TInit i). split; [done|]. apply Z.gtb_lt. lia.
  - intros d. etransitivity; [apply Hmem|]. unfold stops, expired. split.
    + intros ([i|i|] & Hw & Hp); try discriminate. exists i. split; [done|]. apply Z.gtb_lt in Hp. lia.
    + intros (i & Hw & Hp). exists (TimedOutOnce i). split; [done|]. apply Z.gtb_lt. lia.
  - intros d. cbn. rewrite lookup_fmap. case_decide as Hd.
    + apply Hmem in Hd as (ph & -> & Hp). cbn. by rewrite Hp.
    + destruct (watching self !! d) as [ph|] eqn:Ew; [|done]. cbn.
      destruct (stops dur now ph) eqn:Hp; [|done]. exfalso. apply Hd, Hmem. by exists ph.
Qed.

End outcomes.

(** ** Witnesses *)

#[local] Existing Instance toy_hash.
#[local] Existing Instance toy_sig.
#[local] Existing Instance toy_data.
#[local] Existing Instance key_order.
#[local] Existing Instance w_map.

(** A collect of instance 0 with the given write set and quorum write. *)
Definition w_collect (ws : list ViewDecisionPair) (q : option ViewDecisionPair) : CollectData :=
  mkCollect (mkIncomplete ZERO ws q) None.
Definition w_pair (v d : Z) : ViewDecisionPair := mkVDP (mkSeqNo v) (mkDigest (replicate 32 d)).

(** Another iteration order: everything backwards. *)
Definition rev_order : RandomState := {|
  map_iter := fun K V _ _ m => rev (map_to_list m);
  set_iter := fun K _ _ s => rev (elements s);
  map_iter_perm := fun K V _ _ m => Permutation_sym (Permutation_rev _);
  set_iter_perm := fun K _ _ s => Permutation_sym (Permutation_rev _)
|}.

Definition w_bound : list (option CollectData) :=
  replicate 3 (Some (w_collect [w_pair 1 7] (Some (w_pair 1 7)))).

Lemma sound_order_independent_witness : @sound key_order w_view w_bound = @sound rev_order w_view w_bound.
Proof. apply (sound_order_independent key_order rev_order w_view w_bound). reflexivity. Defined.

Lemma bound_value_is_highest_witness : exists ts c,
  write_of c = Some (mkVDP ts (mkDigest (replicate 32 7))).
Proof.
  destruct (bound_value_is_highest w_view w_bound (mkDigest (replicate 32 7))) as (ts & (c & _ & Hc) & _).
  - reflexivity.
  - vm_compute. reflexivity.
  - by exists ts, c.
Defined.

Lemma decided_value_not_bound_witness :
  sound w_view (map Some (replicate 2 (w_collect [w_pair 0 7] (Some (w_pair 0 7))) ++
                          [w_collect [w_pair 0 7] None])) = Unbound true.
Proof.
  apply (decided_value_not_bound w_view _ _ (mkDigest (replicate 32 7))).
  - unfold params_ok. cbn. lia.
  - cbn. lia.
  - reflexivity.
  - reflexivity.
  - intros c Hc. apply elem_of_replicate in Hc as [-> _]. reflexivity.
  - intros c Hc. apply list_elem_of_singleton in Hc as ->. reflexivity.
Defined.

Lemma one_collect_certifies_witness :
  certified_value w_view ZERO (mkDigest (replicate 32 7))
    [Some (w_collect (replicate 2 (w_pair 0 7)) None)] = true.
Proof.
  apply (one_collect_certifies w_view (w_collect (replicate 2 (w_pair 0 7)) None)).
  - unfold params_ok. cbn. lia.
  - set_solver.
  - reflexivity.
Defined.

(** With more than a quorum of proofs the iteration order does matter: on
    four proofs, one of them with a repeated write, two different values are
    bound, and each is picked under some order. *)
Theorem sound_order_dependent : exists ncs, length ncs = 4%nat /\
  @sound key_order w_view ncs <> @sound rev_order w_view ncs.
Proof.
  exists [Some (w_collect [w_pair 1 7; w_pair 1 7] (Some (w_pair 1 7)));
          Some (w_collect [w_pair 1 8; w_pair 1 8] (Some (w_pair 1 8)));
          Some (w_collect [] (Some (w_pair 0 7))); Some (w_collect [] (Some (w_pair 0 7)))].
  split; [done|]. vm_compute. congruence.
Qed.

(** With more than a quorum of proofs a value can be bound although one of them
    reports a more recent quorum of PREPAREs. *)
Theorem more_collects_bind_older : exists ncs c, length ncs = 4%nat /\ c ∈ flatten ncs /\
  write_of c = Some (w_pair 5 8) /\ sound w_view ncs = Bound (mkDigest (replicate 32 7)).
Proof.
  set (c := w_collect [] (Some (w_pair 5 8))).
  exists [Some (w_collect [w_pair 1 7; w_pair 1 7] (Some (w_pair 1 7)));
          Some c; Some (w_collect [] (Some (w_pair 0 7))); Some (w_collect [] (Some (w_pair 0 7)))], c.
  split_and!; [done|set_solver|done|vm_compute; reflexivity].
Qed.

Definition w_env (i : Z) : Env (S := Z) (O := Z) (P := Z) :=
  mkEnv timeouts_new w_log (cons_new ZERO 1) (w_node (node i)).
Definition w_sync (p : SyncPhase) : Synchronizer Z := set_s_phase (sync_new 10 w_view) p.
Definition w_stop : ViewChangeMessage Z := mkViewChange (mkSeqNo 1) (Stop []).

Lemma sync_carries_quorum_witness : exists st self' env',
  sync_process_message (w_sync (Stopping 1)) (w_head 2 0) w_stop 0 [] (w_env 1) = Done (st, self', env')
  /\ collects_ok self'.
Proof.
  destruct (sync_carries_quorum (w_sync (Stopping 1)) (w_head 2 0) w_stop 0 [] None (w_env 1))
    as (H & _ & _).
  { apply collects_ok_empty; [done|]. discriminate. }
  destruct (sync_process_message (w_sync (Stopping 1)) (w_head 2 0) w_stop 0 [] (w_env 1))
    as [[[st self'] env']|] eqn:E.
  - exists st, self', env'. split; [done|]. by apply (H st self' env').
  - exfalso. assert (B : match sync_process_message (w_sync (Stopping 1)) (w_head 2 0) w_stop 0 []
      (w_env 1) with Done _ => true | Panic => false end = true) by (vm_compute; reflexivity).
    rewrite E in B. discriminate.
Defined.

Lemma sync_with_payload_ignored_witness :
  sync_process_message (w_sync Syncing) (w_head 0 0)
    (mkViewChange ZERO (Sync (mkLeaderCollects [] [mkStored sample_header w_stop]))) 0 [] (w_env 1) =
  Done (Running, w_sync Syncing, w_env 1).
Proof.
  apply (sync_with_payload_ignored (w_sync Syncing) (w_head 0 0) _
    (mkLeaderCollects [] [mkStored sample_header w_stop])).
  - reflexivity.
  - reflexivity.
  - reflexivity.
  - vm_compute. reflexivity.
  - intros s Hs. apply list_elem_of_singleton in Hs as ->. vm_compute. congruence.
Defined.

(** Node 2 is the second sender of a STOP; its next STOP completes the quorum
    of three although only two replicas have sent one. *)
Lemma stop_senders_forgotten_witness : exists st1 s1 e1,
  sync_process_message (set_stopped (w_sync (Stopping 1)) {[node 1 := []]}) (w_head 2 0) w_stop 0 []
    (w_env 1) = Done (st1, s1, e1) /\ s_phase s1 = Stopping2 2 /\ stopped s1 = ∅ /\
  match sync_process_message s1 (w_head 2 0) w_stop 0 [] e1 with
  | Done (_, s2, _) => view_seq (view s2) = mkSeqNo 1
  | Panic => False
  end.
Proof.
  pose proof (fun st self' env' => stop_senders_forgotten
    (set_stopped (w_sync (Stopping 1)) {[node 1 := []]}) 1 (w_head 2 0) w_stop [] 0 (w_env 1) env' st self'
    eq_refl eq_refl eq_refl eq_refl ltac:(vm_compute; reflexivity)) as H.
  set (r := sync_process_message _ (w_head 2 0) w_stop 0 [] (w_env 1)) in *.
  assert (B : match r with
    | Done (_, s1, e1) => match sync_process_message s1 (w_head 2 0) w_stop 0 [] e1 with
                          | Done (_, s2, _) => bool_decide (view_seq (view s2) = mkSeqNo 1)
                          | Panic => false end
    | Panic => false end = true) by (vm_compute; reflexivity).
  clearbody r. destruct r as [[[st1 s1] e1]|]; [|discriminate].
  exists st1, s1, e1. destruct (H st1 s1 e1 eq_refl) as (_ & H1 & H2 & _). split_and!; [done..|].
  destruct (sync_process_message s1 _ _ _ _ _) as [[[st2 s2] e2]|]; [|discriminate].
  by apply bool_decide_eq_true_1 in B.
Defined.

Lemma finalize_installs_proposal_witness : exists st s' e',
  finalize (w_sync Syncing) (mkFinalize ZERO [w_d 1] (Unbound true)) (replicate 32 1) (w_env 1) =
    Done (st, s', e') /\ phase (e_consensus e') = Preparing 1.
Proof.
  pose proof (fun st s' e' => finalize_installs_proposal (w_sync Syncing)
    (mkFinalize ZERO [w_d 1] (Unbound true)) (replicate 32 1) (w_env 1) e' st s') as H.
  set (r := finalize _ _ _ _) in *.
  assert (B : match r with Done _ => true | Panic => false end = true) by (vm_compute; reflexivity).
  clearbody r. destruct r as [[[st s'] e']|]; [|discriminate].
  exists st, s', e'. split; [done|]. by apply (H st s' e').
Defined.
