(* ===== verification/Executor.v ===== *)
(** * The execution layer ([src/bft/executable/mod.rs])

    The application is a [Service]: its own state, a way to make an initial
    application state, and an update. One thread takes execution requests from
    a queue, in order, and spawns a task per batch that sends the replies to
    the replica's channel; [spawned] is the list of what those tasks send. *)

From S2P Require Import Prelude Error Ordering Crypto Params Message.
Local Open Scope Z_scope.

Class Service (Sv S O P : Type) := {
  initial_state : Sv -> Sv * result S;
  update : Sv -> S -> O -> Sv * S * P
}.

Inductive ExecutionRequest (S O : Type) :=
| InstallState (state : S) (after : list O)
| ExecUpdate (batch : UpdateBatch O)
| UpdateAndGetAppstate (batch : UpdateBatch O)
| Read (id : NodeId).
Arguments InstallState {S O} state after.
Arguments ExecUpdate {S O} batch.
Arguments UpdateAndGetAppstate {S O} batch.
Arguments Read {S O} id.

(** The sending side of the queue: [e_open] until the thread has ended. *)
Record ExecutorHandle (S O : Type) := mkHandle {
  e_open : bool;
  e_queue : list (ExecutionRequest S O)
}.
Arguments mkHandle {S O} e_open e_queue.
Arguments e_open {S O} e.
Arguments e_queue {S O} e.

Section handle.
Context {S O : Type}.
Implicit Type self : ExecutorHandle S O.

Definition e_send self (r : ExecutionRequest S O) : ExecutorHandle S O * result unit :=
  if e_open self then (mkHandle true (e_queue self ++ [r]), Ok tt)
  else (self, Err (Errors.simple "Executable")).

Definition exec_install_state self (state : S) (after : list O) : ExecutorHandle S O * result unit :=
  e_send self (InstallState state after).

Definition queue_update self (batch : UpdateBatch O) : ExecutorHandle S O * result unit :=
  e_send self (ExecUpdate batch).

Definition queue_update_and_get_appstate self (batch : UpdateBatch O)
  : ExecutorHandle S O * result unit := e_send self (UpdateAndGetAppstate batch).

End handle.

Record Executor (Sv S O P : Type) := mkExec {
  service : Sv;
  exec_state : S;
  spawned : list (Message S O P)
}.
Arguments mkExec {Sv S O P} service exec_state spawned.
Arguments service {Sv S O P} e.
Arguments exec_state {Sv S O P} e.
Arguments spawned {Sv S O P} e.

Section executor.
Context {Sv S O P : Type} `{Service Sv S O P}.
Implicit Type self : Executor Sv S O P.

Definition executor_new (sv : Sv) : result (Executor Sv S O P) :=
  let '(sv, r) := initial_state sv in
  match r with
  | Ok state => Ok (mkExec sv state [])
  | Err e => Err e
  end.

(** The loop over the operations of a recovery state. *)
Fixpoint replay_ops (sv : Sv) (state : S) (after : list O) : Sv * S :=
  match after with
  | [] => (sv, state)
  | req :: after =>
    let '(sv, state, _) := update sv state req in
    replay_ops sv state after
  end.

(** The loop over a batch. *)
Fixpoint run_batch (sv : Sv) (state : S) (batch : UpdateBatch O) (reply_batch : UpdateBatchReplies P)
  : Sv * S * UpdateBatchReplies P :=
  match batch with
  | [] => (sv, state, reply_batch)
  | u :: batch =>
    let '(sv, state, reply) := update sv state (u_operation u) in
    run_batch sv state batch (replies_add reply_batch (u_from u) (u_digest u) reply)
  end.

(** One turn of the thread's loop; [Read] is a [todo!()]. *)
Definition exec_one self (exec_req : ExecutionRequest S O) : outcome (Executor Sv S O P) :=
  match exec_req with
  | InstallState checkpoint after =>
    let '(sv, state) := replay_ops (service self) checkpoint after in
    Done (mkExec sv state (spawned self))
  | ExecUpdate batch =>
    let '(sv, state, replies) := run_batch (service self) (exec_state self) batch
                                  (replies_with_capacity (length batch)) in
    Done (mkExec sv state (spawned self ++ [ExecutionFinished replies]))
  | UpdateAndGetAppstate batch =>
    let '(sv, state, replies) := run_batch (service self) (exec_state self) batch
                                  (replies_with_capacity (length batch)) in
    Done (mkExec sv state (spawned self ++ [ExecutionFinishedWithAppstate replies state]))
  | Read _ => Panic
  end.

Fixpoint exec_loop self (e_rx : list (ExecutionRequest S O)) : outcome (Executor Sv S O P) :=
  match e_rx with
  | [] => Done self
  | r :: e_rx => obind (exec_one self r) (fun self => exec_loop self e_rx)
  end.

(** ** Specification: the operations as one sequence *)

(** The state after a sequence of operations, and the replies to them. *)
Fixpoint apply_ops (sv : Sv) (state : S) (ops : list O) : Sv * S * list P :=
  match ops with
  | [] => (sv, state, [])
  | o :: ops =>
    let '(sv, state, p) := update sv state o in
    let '(sv, state, ps) := apply_ops sv state ops in
    (sv, state, p :: ps)
  end.

Definition batch_ops (b : UpdateBatch O) : list O := map u_operation b.

Lemma run_batch_spec batch : forall sv state acc,
  run_batch sv state batch acc =
  let '(sv', state', ps) := apply_ops sv state (batch_ops batch) in
  (sv', state', acc ++ zip_with (fun u p => mkUpdateReply (u_from u) (u_digest u) p) batch ps).
Proof.
  unfold batch_ops. induction batch as [|u batch IH]; intros sv state acc; cbn; [by rewrite app_nil_r|].
  destruct (update sv state (u_operation u)) as [[sv1 state1] p]. rewrite IH.
  destruct (apply_ops sv1 state1 (map u_operation batch)) as [[sv2 state2] ps].
  unfold replies_add. by rewrite <- app_assoc.
Qed.

Lemma replay_ops_spec ops : forall sv state, replay_ops sv state ops = (apply_ops sv state ops).1.
Proof.
  induction ops as [|o ops IH]; intros sv state; cbn; [done|].
  destruct (update sv state o) as [[sv1 state1] p]. rewrite IH.
  by destruct (apply_ops sv1 state1 ops) as [[sv2 state2] ps].
Qed.

Lemma apply_ops_app o1 : forall sv state o2,
  apply_ops sv state (o1 ++ o2) =
  let '(sv1, state1, p1) := apply_ops sv state o1 in
  let '(sv2, state2, p2) := apply_ops sv1 state1 o2 in (sv2, state2, p1 ++ p2).
Proof.
  induction o1 as [|o o1 IH]; intros sv state o2; cbn.
  - by destruct (apply_ops sv state o2) as [[? ?] ?].
  - destruct (update sv state o) as [[sv1 state1] p]. rewrite IH.
    destruct (apply_ops sv1 state1 o1) as [[sv2 state2] ps].
    by destruct (apply_ops sv2 state2 o2) as [[? ?] ?].
Qed.

(** The requests of a queue that carry batches. *)
Definition request_batch (r : ExecutionRequest S O) : option (UpdateBatch O) :=
  match r with
  | ExecUpdate b | UpdateAndGetAppstate b => Some b
  | _ => None
  end.

(** The replies of a message of the executor. *)
Definition message_replies (m : Message S O P) : UpdateBatchReplies P :=
  match m with
  | ExecutionFinished r | ExecutionFinishedWithAppstate r _ => r
  | _ => []
  end.

Definition only_batches (rs : list (ExecutionRequest S O)) : Prop :=
  Forall (fun r => is_Some (request_batch r)) rs.

Lemma exec_one_batch self r b : request_batch r = Some b ->
  let '(sv, state, ps) := apply_ops (service self) (exec_state self) (batch_ops b) in
  exists m, exec_one self r = Done (mkExec sv state (spawned self ++ [m])) /\
    message_replies m = zip_with (fun u p => mkUpdateReply (u_from u) (u_digest u) p) b ps /\
    (forall rp st, m = ExecutionFinishedWithAppstate rp st -> st = state).
Proof.
  intros Hr. destruct (apply_ops (service self) (exec_state self) (batch_ops b)) as [[sv state] ps] eqn:E.
  destruct r; try discriminate; injection Hr as ->; cbn; rewrite run_batch_spec, E; cbn;
    eexists; (split; [reflexivity|]); split; try done; by intros ? ? [= <- <-].
Qed.

Lemma apply_ops_length ops : forall sv state, length (apply_ops sv state ops).2 = length ops.
Proof.
  induction ops as [|o ops IH]; intros sv state; cbn; [done|].
  destruct (update sv state o) as [[sv1 state1] p]. specialize (IH sv1 state1).
  destruct (apply_ops sv1 state1 ops) as [[sv2 state2] ps]. cbn in *. congruence.
Qed.

(** A queue of batches, whatever mix of plain and checkpointing ones. *)
Lemma exec_loop_batches rs : forall self, only_batches rs ->
  let updates := concat (omap request_batch rs) in
  let '(sv, state, ps) := apply_ops (service self) (exec_state self) (batch_ops updates) in
  exists ms, exec_loop self rs = Done (mkExec sv state (spawned self ++ ms)) /\
    length ms = length rs /\
    concat (map message_replies ms) =
      zip_with (fun u p => mkUpdateReply (u_from u) (u_digest u) p) updates ps.
Proof.
  induction rs as [|r rs IH]; intros self Hall; cbn.
  { exists []. rewrite app_nil_r. by destruct self. }
  apply Forall_cons in Hall as [[b Hb] Hall]. rewrite Hb. cbn. unfold batch_ops.
  rewrite map_app. fold (batch_ops b). rewrite apply_ops_app.
  pose proof (exec_one_batch self r b Hb) as Hone.
  pose proof (apply_ops_length (batch_ops b) (service self) (exec_state self)) as Hlen.
  destruct (apply_ops (service self) (exec_state self) (batch_ops b)) as [[sv1 state1] p1].
  destruct Hone as (m & -> & Hm & _). cbn [obind]. unfold batch_ops in Hlen. rewrite length_map in Hlen.
  cbn in Hlen. specialize (IH (mkExec sv1 state1 (spawned self ++ [m])) Hall).
  cbn [service exec_state spawned] in IH. unfold batch_ops in IH.
  destruct (apply_ops sv1 state1 _) as [[sv2 state2] p2]. destruct IH as (ms & E & L & R).
  exists (m :: ms). rewrite E, <- app_assoc. split; [done|]. cbn. rewrite L, Hm, R. split; [done|].
  rewrite <- zip_with_app; [done|]. by rewrite Hlen.
Qed.

(** *** Services that answer alike *)

(** The services of two replicas may differ, as long as the difference shows
    neither in the state nor in the replies. *)
Class SameAnswers (R : Sv -> Sv -> Prop) : Prop := {
  update_alike sv1 sv2 state o : R sv1 sv2 ->
    R (update sv1 state o).1.1 (update sv2 state o).1.1 /\
    (update sv1 state o).1.2 = (update sv2 state o).1.2 /\ (update sv1 state o).2 = (update sv2 state o).2
}.

#[export] Instance eq_same_answers : SameAnswers eq.
Proof. split. by intros sv1 sv2 state o ->. Qed.

Lemma apply_ops_alike `{!SameAnswers R} ops : forall sv1 sv2 state, R sv1 sv2 ->
  let '(sv1', state1, ps1) := apply_ops sv1 state ops in
  let '(sv2', state2, ps2) := apply_ops sv2 state ops in
  R sv1' sv2' /\ state1 = state2 /\ ps1 = ps2.
Proof.
  induction ops as [|o ops IH]; intros sv1 sv2 state HR; cbn; [done|].
  pose proof (update_alike sv1 sv2 state o HR) as (A & B & C).
  destruct (update sv1 state o) as [[s1 st1] p1], (update sv2 state o) as [[s2 st2] p2]. cbn in A, B, C. subst.
  specialize (IH s1 s2 st2 A). destruct (apply_ops s1 st2 ops) as [[? ?] ?], (apply_ops s2 st2 ops) as [[? ?] ?].
  destruct IH as (? & -> & ->). done.
Qed.

(** Queues with the same batches lead to the same state and the same replies. *)
Lemma exec_loop_same `{!SameAnswers R} ex1 ex2 rs1 rs2 : R (service ex1) (service ex2) ->
  exec_state ex1 = exec_state ex2 -> only_batches rs1 -> only_batches rs2 ->
  omap request_batch rs1 = omap request_batch rs2 ->
  exists sv1 sv2 state ms1 ms2, exec_loop ex1 rs1 = Done (mkExec sv1 state (spawned ex1 ++ ms1)) /\
    exec_loop ex2 rs2 = Done (mkExec sv2 state (spawned ex2 ++ ms2)) /\ R sv1 sv2 /\
    concat (map message_replies ms1) = concat (map message_replies ms2).
Proof.
  intros HR Hst H1 H2 E. pose proof (exec_loop_batches rs1 ex1 H1) as A.
  pose proof (exec_loop_batches rs2 ex2 H2) as B. rewrite E in A. cbv zeta in A, B. rewrite Hst in A.
  pose proof (apply_ops_alike (batch_ops (concat (omap request_batch rs2))) _ _ (exec_state ex2) HR) as Ha.
  destruct (apply_ops (service ex1) _ _) as [[sv1 state1] ps1], (apply_ops (service ex2) _ _) as [[sv2 state2] ps2].
  destruct Ha as (HR' & -> & ->). destruct A as (ms1 & A1 & _ & A2), B as (ms2 & B1 & _ & B2).
  exists sv1, sv2, state2, ms1, ms2. split_and!; [done..|congruence].
Qed.

(** C9: the execution layer is the sequential application: for a queue of
    batches the thread does not panic, ends in the state obtained by applying
    all operations in the order decided, and spawns one message per batch, in
    order; all replies together are the results of the operations, each under
    the client and digest of its request. *)
Theorem executor_is_sequential rs : forall self, only_batches rs ->
  let updates := concat (omap request_batch rs) in
  let '(sv, state, ps) := apply_ops (service self) (exec_state self) (batch_ops updates) in
  exists ms, exec_loop self rs = Done (mkExec sv state (spawned self ++ ms)) /\
    length ms = length rs /\
    concat (map message_replies ms) =
      zip_with (fun u p => mkUpdateReply (u_from u) (u_digest u) p) updates ps.
Proof. intros self Hall. by apply exec_loop_batches. Qed.

(** Installing a recovery state puts the executor in the state obtained
    from the checkpoint by the operations decided after it, and sends nothing. *)
Theorem install_state_replays self checkpoint after :
  exec_one self (InstallState checkpoint after) =
  let '(sv, state, _) := apply_ops (service self) checkpoint after in
  Done (mkExec sv state (spawned self)).
Proof.
  cbn. rewrite replay_ops_spec. by destruct (apply_ops (service self) checkpoint after) as [[sv state] ps].
Qed.

End executor.

(** ** Witness: a counter service. *)

Definition counter : Service unit Z Z Z :=
  {| initial_state := fun _ => (tt, Ok 0); update := fun _ s o => (tt, s + o, s + o) |}.

Lemma executor_is_sequential_witness :
  let u i o := mkUpdate (mkNodeId i) zero_digest o in
  exists ms, @exec_loop unit Z Z Z counter (mkExec tt 0 [])
      [ExecUpdate [u 1 5; u 2 6]; UpdateAndGetAppstate [u 3 7]] = Done (mkExec tt 18 ms) /\
    concat (map message_replies ms) =
      [mkUpdateReply (mkNodeId 1) zero_digest 5; mkUpdateReply (mkNodeId 2) zero_digest 11;
       mkUpdateReply (mkNodeId 3) zero_digest 18].
Proof.
  intros u. pose proof (@executor_is_sequential unit Z Z Z counter
    [ExecUpdate [u 1 5; u 2 6]; UpdateAndGetAppstate [u 3 7]] (mkExec tt 0 [])) as H.
  destruct H as (ms & E & _ & R).
  - repeat constructor; cbn; eauto.
  - exists ms. split; [exact E|exact R].
Defined.
