(* ===== verification/Cst.v ===== *)
(** * Collaborative state transfer ([src/bft/cst/mod.rs])

    A recovering replica asks its peers for the latest instance number and then
    for a recovery state; a replica in normal operation answers such requests.
    The synchronizer is only asked for the current view. *)

From S2P Require Import Prelude Error Ordering Prng Crypto Params Message Tbo Collections Node.
From S2P Require Import Timeouts DecLog Log Consensus Sync Executor.
Local Open Scope Z_scope.
Local Open Scope bft_scope.

Inductive CstPhase (S O : Type) :=
| CInit
| WaitingCheckpoint (h : Header) (m : CstMessage S O)
| ReceivingCid (i : Z)
| ReceivingState (i : Z).
Arguments CInit {S O}.
Arguments WaitingCheckpoint {S O} h m.
Arguments ReceivingCid {S O} i.
Arguments ReceivingState {S O} i.

Record ReceivedState (S O : Type) := mkReceived { rcv_count : Z; rcv_state : RecoveryState S O }.
Arguments mkReceived {S O} rcv_count rcv_state.
Arguments rcv_count {S O} r.
Arguments rcv_state {S O} r.

Record CollabStateTransfer (S O : Type) := mkCstate {
  latest_cid : SeqNo;
  cst_seq : SeqNo;
  latest_cid_count : Z;
  base_timeout : Z;
  curr_timeout : Z;
  received_states : gmap Digest (ReceivedState S O);
  cst_phase : CstPhase S O
}.
Arguments mkCstate {S O} latest_cid cst_seq latest_cid_count base_timeout curr_timeout
  received_states cst_phase.
Arguments latest_cid {S O} c.
Arguments cst_seq {S O} c.
Arguments latest_cid_count {S O} c.
Arguments base_timeout {S O} c.
Arguments curr_timeout {S O} c.
Arguments received_states {S O} c.
Arguments cst_phase {S O} c.

Inductive CstStatus (S O : Type) :=
| CNil
| CRunning
| CRequestLatestCid
| CRequestState
| CSeqNo (seq : SeqNo)
| CState (state : RecoveryState S O).
Arguments CNil {S O}.
Arguments CRunning {S O}.
Arguments CRequestLatestCid {S O}.
Arguments CRequestState {S O}.
Arguments CSeqNo {S O} seq.
Arguments CState {S O} state.

Inductive CstProgress (S O : Type) :=
| PNil
| PMessage (h : Header) (m : CstMessage S O).
Arguments PNil {S O}.
Arguments PMessage {S O} h m.

Section cst.
Context {S O P Sy : Type} `{HashFn, SigScheme, RandomState, !OrderedMap Digest, !SharedData S O P,
  !ViewSource Sy}.
Implicit Type self : CollabStateTransfer S O.

(** Field updates. *)
Definition set_cst_phase self (p : CstPhase S O) : CollabStateTransfer S O :=
  mkCstate (latest_cid self) (cst_seq self) (latest_cid_count self) (base_timeout self)
    (curr_timeout self) (received_states self) p.
Definition set_latest self (cid : SeqNo) (count : Z) : CollabStateTransfer S O :=
  mkCstate cid (cst_seq self) count (base_timeout self) (curr_timeout self) (received_states self)
    (cst_phase self).
Definition set_curr_timeout self (t : Z) : CollabStateTransfer S O :=
  mkCstate (latest_cid self) (cst_seq self) (latest_cid_count self) (base_timeout self) t
    (received_states self) (cst_phase self).
Definition set_received self (r : gmap Digest (ReceivedState S O)) : CollabStateTransfer S O :=
  mkCstate (latest_cid self) (cst_seq self) (latest_cid_count self) (base_timeout self)
    (curr_timeout self) r (cst_phase self).
Definition set_cst_seq self (s : SeqNo) : CollabStateTransfer S O :=
  mkCstate (latest_cid self) s (latest_cid_count self) (base_timeout self) (curr_timeout self)
    (received_states self) (cst_phase self).

Definition cst_new (base_timeout : Z) : CollabStateTransfer S O :=
  mkCstate ZERO ZERO 0 base_timeout base_timeout ∅ CInit.

Definition needs_checkpoint self : bool :=
  match cst_phase self with
  | WaitingCheckpoint _ _ => true
  | _ => false
  end.

Definition process_reply_state self (h : Header) (m : CstMessage S O) (synchronizer : Sy)
  (log : Log S O) (node : Node S O P) : outcome (CollabStateTransfer S O * Node S O P) :=
  match snapshot log (view synchronizer) with
  | Err _ => Done (set_cst_phase self (WaitingCheckpoint h m), node)
  | Ok snapshot =>
    let reply := Message.Cst (mkCst (cst_mseq m) (ReplyState snapshot)) in
    let! '(node, _) := send node reply (hdr_from h) in
    Done (self, node)
  end.

Definition CstResult : Type := outcome (CstStatus S O * CollabStateTransfer S O * Node S O P).

Definition process_init self (h : Header) (m : CstMessage S O) (synchronizer : Sy)
  (consensus : Consensus) (log : Log S O) (node : Node S O P) : CstResult :=
  match cst_kind m with
  | RequestLatestConsensusSeq =>
    let reply := Message.Cst (mkCst (cst_mseq m)
                   (ReplyLatestConsensusSeq (curr_seq (tbo consensus)))) in
    let! '(node, _) := send node reply (hdr_from h) in
    Done (CNil, self, node)
  | RequestState =>
    let! '(self, node) := process_reply_state self h m synchronizer log node in
    Done (CNil, self, node)
  | _ => Done (CNil, self, node)
  end.

Definition process_receiving_cid self (i : Z) (m : CstMessage S O) (synchronizer : Sy)
  (node : Node S O P) : CstResult :=
  if decide (cst_mseq m <> cst_seq self) then Done (CRunning, self, node)
  else
    match cst_kind m with
    | ReplyLatestConsensusSeq seq =>
      let self := match cmp seq (latest_cid self) with
                  | Gt => set_latest self seq 1
                  | Eq => set_latest self (latest_cid self) (latest_cid_count self + 1)
                  | Lt => self
                  end in
      let i := i + 1 in
      if i =? quorum (params (view synchronizer)) then
        let self := set_cst_phase self CInit in
        if latest_cid_count self >? params_f (params (view synchronizer))
        then Done (CSeqNo (latest_cid self), set_curr_timeout self (base_timeout self), node)
        else Done (CRequestLatestCid, self, node)
      else Done (CRunning, set_cst_phase self (ReceivingCid i), node)
    | _ => Done (CRunning, self, node)
    end.

Definition process_receiving_state self (i : Z) (h : Header) (m : CstMessage S O) (synchronizer : Sy)
  (node : Node S O P) : CstResult :=
  if decide (cst_mseq m <> cst_seq self) then Done (CRunning, self, node)
  else
    match (take_state m).1 with
    | None => Done (CRunning, self, node)
    | Some state =>
      let received_state := default (mkReceived 0 state) (received_states self !! hdr_digest h) in
      let received_state := mkReceived (rcv_count received_state + 1) (rcv_state received_state) in
      let self := set_received self (<[hdr_digest h := received_state]> (received_states self)) in
      let i := i + 1 in
      if negb (i =? quorum (params (view synchronizer)))
      then Done (CRunning, set_cst_phase self (ReceivingState i), node)
      else
        match max_by_key (fun kv => rcv_count kv.2) (map_iter (received_states self)) with
        | None => Done (CRequestState, set_received self ∅, node)
        | Some (digest, _) =>
          let received_state := received_states self !! digest in
          let self := set_received self ∅ in
          let self := set_curr_timeout self (base_timeout self) in
          match received_state with
          | Some r => if rcv_count r >? params_f (params (view synchronizer))
                      then Done (CState (rcv_state r), self, node)
                      else Done (CRequestState, self, node)
          | None => Done (CRequestState, self, node)
          end
        end
    end.

Definition cst_process_message self (progress : CstProgress S O) (synchronizer : Sy)
  (consensus : Consensus) (log : Log S O) (node : Node S O P) : CstResult :=
  match cst_phase self with
  | WaitingCheckpoint h m =>
    let self := set_cst_phase self CInit in
    let! '(self, node) := process_reply_state self h m synchronizer log node in
    Done (CNil, self, node)
  | CInit =>
    match progress with
    | PNil => Done (CNil, self, node)
    | PMessage h m => process_init self h m synchronizer consensus log node
    end
  | ReceivingCid i =>
    match progress with
    | PNil => Done (CRequestLatestCid, self, node)
    | PMessage _ m => process_receiving_cid self i m synchronizer node
    end
  | ReceivingState i =>
    match progress with
    | PNil => Done (CRequestState, self, node)
    | PMessage h m => process_receiving_state self i h m synchronizer node
    end
  end.

Definition next_seq self : SeqNo * CollabStateTransfer S O :=
  (cst_seq self, set_cst_seq self (next (cst_seq self))).

Definition timed_out self (seq : SeqNo) : CstStatus S O * CollabStateTransfer S O :=
  if decide (next seq <> cst_seq self) then (CNil, self)
  else
    match cst_phase self with
    | ReceivingCid _ => (CRequestLatestCid, set_curr_timeout self (curr_timeout self * 2))
    | ReceivingState _ => (CRequestState, set_curr_timeout self (curr_timeout self * 2))
    | _ => (CNil, self)
    end.

Definition request_latest_consensus_seq_no self (synchronizer : Sy) (timeouts : TimeoutsHandle)
  (node : Node S O P) : outcome (CollabStateTransfer S O * TimeoutsHandle * Node S O P) :=
  let self := set_latest self ZERO 0 in
  let '(cst_seq, self) := next_seq self in
  let timeouts := timeout timeouts (curr_timeout self) (TimeoutCst cst_seq) in
  let self := set_cst_phase self (ReceivingCid 0) in
  let message := Message.Cst (mkCst cst_seq RequestLatestConsensusSeq) in
  let! '(node, _) := broadcast node message (targets (params_n (params (view synchronizer)))) in
  Done (self, timeouts, node).

Definition request_latest_state self (synchronizer : Sy) (timeouts : TimeoutsHandle)
  (node : Node S O P) : outcome (CollabStateTransfer S O * TimeoutsHandle * Node S O P) :=
  let self := set_received self ∅ in
  let '(cst_seq, self) := next_seq self in
  let timeouts := timeout timeouts (curr_timeout self) (TimeoutCst cst_seq) in
  let self := set_cst_phase self (ReceivingState 0) in
  let message := Message.Cst (mkCst cst_seq RequestState) in
  let! '(node, _) := broadcast node message (targets (params_n (params (view synchronizer)))) in
  Done (self, timeouts, node).

End cst.

(** [install_recovery_state] *)
Definition install_recovery_state {S O : Type} `{OrderedMap Digest} (rs : RecoveryState S O)
  (synchronizer : Synchronizer O) (log : Log S O) (executor : ExecutorHandle S O) (consensus : Consensus)
  : outcome (Synchronizer O * Log S O * ExecutorHandle S O * Consensus * result unit) :=
  let synchronizer := install_view synchronizer (rs_view rs) in
  let! consensus := install_new_phase consensus rs in
  match exec_install_state executor (appstate (rs_checkpoint rs)) (rs_requests rs) with
  | (executor, Err e) => Done (synchronizer, log, executor, consensus, Err e)
  | (executor, Ok _) =>
    Done (synchronizer, install_state log (curr_seq (tbo consensus)) rs, executor, consensus, Ok tt)
  end.

(** ** Properties *)

Section facts.
Context {S O P Sy : Type} `{HashFn, SigScheme, RandomState, !OrderedMap Digest, !SharedData S O P,
  !ViewSource Sy}.
Implicit Type self : CollabStateTransfer S O.

Lemma next_neq s : seq_nonneg s -> next s <> s.
Proof.
  intros Hs E. pose proof (next_sn s Hs) as Hn. rewrite E in Hn. unfold i32_MAX in *.
  destruct (Z.eqb_spec (sn s) 2147483647); lia.
Qed.

(** The request a recovering replica broadcasts. *)
Definition requests_cid (n n' : Node S O P) (m : CstMessage S O) : Prop :=
  exists t, outbox n' = outbox n ++ [t] /\ t_message t = Message.Cst m.

(** State transfer cannot make progress: a peer answers a request under the
    number the request carries, but the replica that sent it has already moved
    to the next number and drops the answer. *)
Theorem cst_answers_dropped self (sy : Sy) ts (n : Node S O P) self1 ts1 n1 req
    (peer : CollabStateTransfer S O) h sy' c l (np np' : Node S O P) st peer' rep h' :
  seq_nonneg (cst_seq self) ->
  request_latest_consensus_seq_no self sy ts n = Done (self1, ts1, n1) \/
  request_latest_state self sy ts n = Done (self1, ts1, n1) ->
  requests_cid n n1 req -> cst_phase peer = CInit ->
  cst_process_message peer (PMessage h req) (sy' : Sy) c l np = Done (st, peer', np') ->
  requests_cid np np' rep ->
  forall n2 c2 l2, cst_process_message self1 (PMessage h' rep) sy c2 l2 n2 = Done (CRunning, self1, n2).
Proof.
  intros Hs Hreq (t & Et & Hm) Hp Hpeer (t' & Et' & Hm') n2 c2 l2.
  assert (Hseq : cst_mseq req = cst_seq self /\ cst_seq self1 = next (cst_seq self) /\
    exists i, cst_phase self1 = ReceivingCid i \/ cst_phase self1 = ReceivingState i).
  { destruct Hreq as [Hr|Hr]; unfold request_latest_consensus_seq_no, request_latest_state in Hr;
      cbn [next_seq] in Hr; destruct (broadcast n _ _) as [[n1' d]|] eqn:Hb; try discriminate;
      cbn [obind] in Hr; apply done_inj3 in Hr as (<- & <- & <-);
      apply broadcast_inv in Hb as (task & -> & Hk); cbn in Et; apply app_inv_head in Et;
      injection Et as ->; rewrite Hk in Hm; injection Hm as <-; cbn; eauto. }
  destruct Hseq as (Hq & Hn & i & Hph).
  assert (Hrep : cst_mseq rep = cst_mseq req).
  { unfold cst_process_message in Hpeer. rewrite Hp in Hpeer. unfold process_init, process_reply_state in Hpeer.
    assert (Hnil : np' = np -> False).
    { intros ->. apply (f_equal length) in Et'. rewrite length_app in Et'. cbn in Et'. lia. }
    destruct (cst_kind req); try (apply done_inj3 in Hpeer as (_ & _ & <-); by destruct Hnil).
    - destruct (send np _ _) as [[n3 d]|] eqn:Hsd; [|discriminate]. cbn [obind] in Hpeer.
      apply done_inj3 in Hpeer as (_ & _ & <-). apply send_inv in Hsd as (task & -> & Hk).
      cbn in Et'. apply app_inv_head in Et'. injection Et' as ->. rewrite Hk in Hm'. by injection Hm' as <-.
    - destruct (snapshot l _) as [snap|e]; [|apply done_inj3 in Hpeer as (_ & _ & <-); by destruct Hnil].
      destruct (send np _ _) as [[n3 d]|] eqn:Hsd; [|discriminate]. cbn [obind] in Hpeer.
      apply done_inj3 in Hpeer as (_ & _ & <-). apply send_inv in Hsd as (task & -> & Hk).
      cbn in Et'. apply app_inv_head in Et'. injection Et' as ->. rewrite Hk in Hm'. by injection Hm' as <-. }
  assert (Hne : cst_mseq rep <> cst_seq self1).
  { rewrite Hrep, Hq, Hn. intros E. by apply (next_neq (cst_seq self)). }
  unfold cst_process_message, process_receiving_cid, process_receiving_state.
  destruct Hph as [-> | ->]; by rewrite decide_True.
Qed.

(** *** Counting the instance numbers reported by peers *)

Definition highest (l : list SeqNo) : Z := foldr Z.max 0 (map sn l).
Definition votes_for (x : Z) (l : list SeqNo) : Z := Z.of_nat (count_if (fun s => sn s =? x) l).

Definition cid_inv self (l : list SeqNo) : Prop :=
  cst_phase self = ReceivingCid (Z.of_nat (length l)) /\
  sn (latest_cid self) = highest l /\ latest_cid_count self = votes_for (highest l) l.

Lemma highest_snoc l s : highest (l ++ [s]) = Z.max (highest l) (sn s).
Proof. unfold highest. induction l as [|x l IH]; cbn in *; lia. Qed.

Lemma highest_bound l s : s ∈ l -> sn s <= highest l.
Proof. unfold highest. induction l as [|x l IH]; [set_solver|]. intros [->|Hs]%elem_of_cons; cbn in *; [lia|]. specialize (IH Hs). lia. Qed.

Lemma votes_snoc x l s : votes_for x (l ++ [s]) = votes_for x l + (if sn s =? x then 1 else 0).
Proof. unfold votes_for. rewrite count_if_app. unfold count_if at 2. cbn. destruct (sn s =? x); cbn; lia. Qed.

Lemma votes_above x l : highest l < x -> votes_for x l = 0.
Proof.
  intros Hx. unfold votes_for. rewrite count_if_none; [done|]. intros s Hs.
  apply highest_bound in Hs. apply Z.eqb_neq. lia.
Qed.

(** C35: the instance number a recovering replica ends up with is the highest
    one reported by a quorum of answers (zero, if no number above it was
    reported), and is accepted exactly when more than [f] of them reported it;
    otherwise the replica asks again. *)
Theorem latest_cid_counted self l (sy : Sy) (n : Node S O P) m s : cid_inv self l ->
  cst_mseq m = cst_seq self -> cst_kind m = ReplyLatestConsensusSeq s ->
  let l' := l ++ [s] in
  exists st self', (forall h c lg, cst_process_message self (PMessage h m) sy c lg n = Done (st, self', n)) /\
    if Z.of_nat (length l') =? quorum (params (view sy)) then
      cst_phase self' = CInit /\
      if votes_for (highest l') l' >? params_f (params (view sy))
      then exists r, st = CSeqNo r /\ sn r = highest l' else st = CRequestLatestCid
    else st = CRunning /\ cid_inv self' l'.
Proof.
  intros (Hp & Hl & Hc) Hm Hk l'. unfold cst_process_message. rewrite Hp.
  unfold process_receiving_cid. rewrite decide_False by (by intros ?). rewrite Hk.
  set (self1 := match cmp s (latest_cid self) with Eq => _ | Lt => _ | Gt => _ end).
  assert (H1' : sn (latest_cid self1) = highest l' /\ latest_cid_count self1 = votes_for (highest l') l').
  { unfold self1, l', cmp. rewrite highest_snoc, Hl.
    destruct (Z.compare_spec (sn s) (highest l)) as [E|E|E].
    - rewrite Z.max_l by lia. rewrite votes_snoc, E, Z.eqb_refl. cbn. split; [done|lia].
    - rewrite Z.max_l by lia. rewrite votes_snoc. destruct (Z.eqb_spec (sn s) (highest l)); [lia|].
      split; [done|lia].
    - rewrite Z.max_r by lia. rewrite votes_snoc, Z.eqb_refl, votes_above by lia. done. }
  destruct H1' as [L1 L2]. assert (Hlen : Z.of_nat (length l) + 1 = Z.of_nat (length l'))
    by (unfold l'; rewrite length_app; cbn; lia).
  rewrite Hlen. clearbody self1. cbv zeta.
  destruct (Z.of_nat (length l') =? quorum (params (view sy))).
  - change (latest_cid_count (set_cst_phase self1 CInit)) with (latest_cid_count self1). rewrite L2.
    destruct (votes_for (highest l') l' >? params_f (params (view sy))).
    + eexists _, _. split; [done|]. split; [done|]. by exists (latest_cid self1).
    + eexists _, _. split; [done|]. by split.
  - eexists _, _. split; [done|]. split; [done|]. by split_and!.
Qed.

(** *** Counting the states sent by peers *)

(** The answers among the messages received: states under the number the replica
    waits for, each with the digest in its header. *)
Definition answer_of (seq : SeqNo) (x : Header * CstMessage S O) : option (Digest * RecoveryState S O) :=
  if decide (cst_mseq x.2 <> seq) then None else pair (hdr_digest x.1) <$> (take_state x.2).1.
Definition answers (seq : SeqNo) (ms : list (Header * CstMessage S O)) : list (Digest * RecoveryState S O) :=
  omap (answer_of seq) ms.

(** The states received under the digest [d], in the order of their arrival. *)
Definition states_under (d : Digest) (a : list (Digest * RecoveryState S O)) : list (RecoveryState S O) :=
  map snd (List.filter (fun x => bool_decide (x.1 = d)) a).

(** The table of received states counts the answers. *)
Definition tallied (m : gmap Digest (ReceivedState S O)) (a : list (Digest * RecoveryState S O)) : Prop :=
  forall d, m !! d = match states_under d a with
                     | [] => None
                     | s :: r => Some (mkReceived (Z.of_nat (length (s :: r))) s)
                     end.

(** The messages that a replica receives while it waits, in whatever state the
    other components are. *)
Inductive receives (sy : Sy) self : list (Header * CstMessage S O) -> CollabStateTransfer S O -> Prop :=
| receives_nil : receives sy self [] self
| receives_snoc ms s1 h m c l (n n' : Node S O P) s2 : receives sy self ms s1 ->
    cst_process_message s1 (PMessage h m) sy c l n = Done (CRunning, s2, n') ->
    receives sy self (ms ++ [(h, m)]) s2.

Lemma states_under_snoc d a x : states_under d (a ++ [x]) =
  states_under d a ++ (if decide (x.1 = d) then [x.2] else []).
Proof.
  unfold states_under. rewrite List.filter_app, map_app. cbn. case_decide as Hd.
  - by rewrite bool_decide_eq_true_2.
  - by rewrite bool_decide_eq_false_2.
Qed.

Lemma tallied_snoc m a d s : tallied m a ->
  let r := default (mkReceived 0 s) (m !! d) in
  tallied (<[d := mkReceived (rcv_count r + 1) (rcv_state r)]> m) (a ++ [(d, s)]).
Proof.
  intros Ht r d'. rewrite states_under_snoc. cbn [fst snd]. unfold r. rewrite (Ht d).
  destruct (decide (d = d')) as [<-|Hne].
  - rewrite lookup_insert_eq. destruct (states_under d a) as [|x l]; cbn; [done|].
    rewrite length_app. cbn. do 2 f_equal. lia.
  - rewrite lookup_insert_ne, app_nil_r by done. apply Ht.
Qed.

Lemma max_by_key_spec {A : Type} (key : A -> Z) (l : list A) :
  match max_by_key key l with
  | None => l = []
  | Some x => x ∈ l /\ forall y, y ∈ l -> key y <= key x
  end.
Proof.
  induction l as [|x l IH]; [done|]. cbn. destruct (max_by_key key l) as [y|].
  - destruct IH as [Hy Hm]. destruct (key x >? key y) eqn:E; rewrite ?Z.gtb_lt, ?Z.gtb_ltb, ?Z.ltb_ge in E.
    + split; [set_solver|]. intros z [->|Hz]%elem_of_cons; [lia|]. specialize (Hm z Hz). lia.
    + split; [set_solver|]. intros z [->|Hz]%elem_of_cons; [lia|]. by apply Hm.
  - subst l. split; [set_solver|]. intros y ->%list_elem_of_singleton. lia.
Qed.

(** The state of a replica that waits for states and has received [a]. *)
Definition waiting (seq : SeqNo) (a : list (Digest * RecoveryState S O)) self : Prop :=
  cst_phase self = ReceivingState (Z.of_nat (length a)) /\ cst_seq self = seq /\ tallied (received_states self) a.

(** What is chosen among the answers [a] of a quorum. *)
Definition chosen (f : Z) (a : list (Digest * RecoveryState S O)) (st : CstStatus S O) : Prop :=
  (exists d s r, states_under d a = s :: r /\ st = CState s /\ f < Z.of_nat (length (states_under d a)) /\
     forall d', (length (states_under d' a) <= length (states_under d a))%nat) \/
  (st = CRequestState /\ forall d, Z.of_nat (length (states_under d a)) <= f).

Lemma chosen_max f m a : tallied m a -> a <> [] ->
  exists d r, max_by_key (fun kv => rcv_count kv.2) (map_iter m) = Some (d, r) /\ m !! d = Some r /\
    chosen f a (if rcv_count r >? f then CState (rcv_state r) else CRequestState).
Proof.
  intros Ht Hne. pose proof (max_by_key_spec (fun kv : Digest * ReceivedState S O => rcv_count kv.2) (map_iter m)) as Hm.
  assert (Hin : forall d r, (d, r) ∈ map_iter m <-> m !! d = Some r).
  { intros d r. rewrite map_iter_perm. apply elem_of_map_to_list. }
  destruct (max_by_key _ _) as [[d r]|].
  2: { destruct a as [|[d s] a]; [done|]. specialize (Ht d). unfold states_under in Ht. cbn in Ht.
       rewrite bool_decide_eq_true_2 in Ht by done. apply Hin in Ht. rewrite Hm in Ht. by apply elem_of_nil in Ht. }
  destruct Hm as [Hd%Hin Hmax]. exists d, r. split_and!; [done|done|].
  pose proof (Ht d) as Hr. rewrite Hd in Hr. destruct (states_under d a) as [|s l] eqn:Ed; [discriminate|].
  injection Hr as ->. cbn [rcv_count rcv_state].
  assert (Hlen : forall d', (length (states_under d' a) <= Datatypes.S (length l))%nat).
  { intros d'. specialize (Ht d'). destruct (states_under d' a) as [|s' l'] eqn:E; [cbn; lia|].
    apply Hin, Hmax in Ht. apply Nat2Z.inj_le. exact Ht. }
  destruct (Z.gtb_spec (Z.of_nat (Datatypes.S (length l))) f) as [Ef|Ef].
  - left. exists d, s, l. rewrite Ed. split_and!; [done|done|exact Ef|exact Hlen].
  - right. split; [done|]. intros d'. specialize (Hlen d'). lia.
Qed.

(** What comes of one more message, when [a] have been received. *)
Definition progresses (sy : Sy) (seq : SeqNo) (a : list (Digest * RecoveryState S O)) self
    (x : option (Digest * RecoveryState S O)) (st : CstStatus S O) self' : Prop :=
  match x with
  | None => st = CRunning /\ self' = self
  | Some x =>
    if Z.of_nat (length (a ++ [x])) =? quorum (params (view sy))
    then chosen (params_f (params (view sy))) (a ++ [x]) st /\ received_states self' = ∅ /\ cst_phase self' = cst_phase self
    else st = CRunning /\ waiting seq (a ++ [x]) self'
  end.

Lemma waiting_message seq a self (sy : Sy) h m c l (n : Node S O P) : waiting seq a self ->
  exists st self', cst_process_message self (PMessage h m) sy c l n = Done (st, self', n) /\
    progresses sy seq a self (answer_of seq (h, m)) st self'.
Proof.
  intros (Hp & Hs & Ht). unfold cst_process_message. rewrite Hp. unfold process_receiving_state, answer_of.
  cbn [fst snd]. rewrite Hs. case_decide as Hd; [eexists _, _; by split|].
  destruct ((take_state m).1) as [s|]; cbn [fmap option_fmap option_map progresses]; [|eexists _, _; by split].
  set (a' := a ++ [(hdr_digest h, s)]). cbv zeta.
  assert (Ha' : Z.of_nat (length a) + 1 = Z.of_nat (length a')) by (unfold a'; rewrite length_app; cbn; lia).
  pose proof (tallied_snoc _ _ (hdr_digest h) s Ht) as Ht'. cbv zeta in Ht'. fold a' in Ht'.
  rewrite Ha'. destruct (Z.of_nat (length a') =? _); cbn [negb].
  2: { eexists _, _. split; [reflexivity|]. split; [done|]. by split_and!. }
  destruct (chosen_max (params_f (params (view sy))) _ a' Ht') as (d & r & Em & Ed & Hc); [by destruct a|].
  cbn [received_states set_received set_curr_timeout]. rewrite Em. cbv iota beta. rewrite Ed.
  destruct (rcv_count r >? _); eexists _, _; (split; [reflexivity|]); by split.
Qed.

Lemma receives_waiting seq (sy : Sy) self ms self' : receives sy self ms self' -> waiting seq [] self ->
  waiting seq (answers seq ms) self'.
Proof.
  intros Hr Hw. induction Hr as [|ms s1 h m c l n n' s2 Hr IH Hp]; [done|].
  destruct (waiting_message seq (answers seq ms) s1 sy h m c l n IH) as (st & self1 & E & Hx).
  rewrite Hp in E. apply done_inj3 in E as (<- & <- & _). unfold answers. rewrite omap_app. fold (answers seq ms).
  cbn [omap list_omap]. unfold progresses in Hx. destruct (answer_of seq (h, m)) as [x|];
    [|rewrite app_nil_r; by destruct Hx as [_ ->]].
  destruct (_ =? _); [|by destruct Hx].
  destruct Hx as [[(d & s & r & _ & [=] & _)|[[=] _]] _].
Qed.

(** C36: a recovery state is backed by answers. Let a replica ask for the state
    with [request_latest_state], and let it receive state transfer messages [ms]
    and go on waiting after each of them. One more message that is not an answer
    changes nothing. An answer that does not complete a quorum of answers makes it
    wait on. With the answer that completes a quorum, it chooses a state only if
    more than [f] of the answers came under one header digest and no other digest
    had more; the state is then the first that came under that digest. If it asks
    again instead, no digest had more than [f]; in both cases the states received
    are forgotten, and the protocol stays in the phase of receiving states. Answers
    are states under the number that the replica has after its request; they are
    counted by the digest in the header as received, and those of one sender are
    not told apart. *)
Theorem state_backed_by_answers self (sy : Sy) ts (n : Node S O P) self1 ts1 n1 ms self2 h m c l (n2 n3 : Node S O P)
    st self3 :
  request_latest_state self sy ts n = Done (self1, ts1, n1) -> receives sy self1 ms self2 ->
  cst_process_message self2 (PMessage h m) sy c l n2 = Done (st, self3, n3) ->
  n3 = n2 /\ progresses sy (cst_seq self1) (answers (cst_seq self1) ms) self2 (answer_of (cst_seq self1) (h, m)) st self3.
Proof.
  intros Hq Hr Hp. unfold request_latest_state in Hq. cbn [next_seq] in Hq.
  destruct (broadcast n _ _) as [[nb d]|]; [|discriminate]. cbn [obind] in Hq. apply done_inj3 in Hq as (<- & _ & _).
  set (self1 := set_cst_phase _ _) in *.
  assert (Hw : waiting (cst_seq self1) [] self1) by (split_and!; done).
  apply (receives_waiting (cst_seq self1)) in Hr; [|done].
  destruct (waiting_message (cst_seq self1) _ self2 sy h m c l n2 Hr) as (st' & s' & E & Hx).
  rewrite Hp in E. by apply done_inj3 in E as (<- & <- & ->).
Qed.

(** Installing a recovery state sets the view, hands the checkpoint and the
    operations after it to the executor, replaces the log, and moves the
    consensus layer to the number of the last logged PRE-PREPARE, even when
    that instance is already among the executed ones. *)
Theorem install_recovery_state_spec (rs : RecoveryState S O) sy (lg : Log S O) ex c sy' lg' ex' c' :
  cons_ok c -> (forall pp, pp ∈ pre_prepares (rs_declog rs) -> seq_nonneg (s_seq pp)) ->
  install_recovery_state rs sy lg ex c = Done (sy', lg', ex', c', Ok tt) ->
  view sy' = rs_view rs /\
  e_queue ex' = e_queue ex ++ [InstallState (appstate (rs_checkpoint rs)) (rs_requests rs)] /\
  decided lg' = rs_requests rs /\ declog lg' = rs_declog rs /\
  checkpoint lg' = Complete (rs_checkpoint rs) /\
  curr_seq (tbo c') = from_option s_seq (curr_seq (tbo c)) (last (pre_prepares (rs_declog rs))) /\
  l_curr_seq lg' = curr_seq (tbo c').
Proof.
  intros Hok Hpp. unfold install_recovery_state, install_new_phase.
  set (sq := match last _ with Some _ => _ | None => _ end).
  assert (Hsq : sq = from_option s_seq (curr_seq (tbo c)) (last (pre_prepares (rs_declog rs))))
    by (unfold sq; by destruct (last _)).
  assert (Hnn : seq_nonneg sq).
  { unfold sq. destruct (last (pre_prepares (rs_declog rs))) as [pp|] eqn:El; [|apply Hok].
    apply Hpp. apply last_Some_elem_of in El. done. }
  returned_as c1 eqn:Hi.
  destruct (cons_ok_install c sq c1 Hnn Hi Hok) as (Hcur & _ & _).
  unfold exec_install_state, e_send. destruct (e_open ex); [|discriminate].
  intros Hd. injection Hd as <- <- <- <-. cbn. rewrite <- Hsq, Hcur. by split_and!.
Qed.

End facts.

(** ** Witnesses *)

#[local] Existing Instance toy_hash.
#[local] Existing Instance toy_sig.
#[local] Existing Instance toy_data.
#[local] Existing Instance key_order.
#[local] Existing Instance w_map.

Definition w_cst : CollabStateTransfer Z Z := cst_new 30.

(** Replica 1 asks, replica 2 answers. *)
Definition w_asked := returned (w_cst, timeouts_new, w_node (node 1))
  (request_latest_consensus_seq_no w_cst w_view timeouts_new (w_node (node 1))).
Definition w_question : CstMessage Z Z := mkCst ZERO RequestLatestConsensusSeq.
Definition w_answer : CstMessage Z Z := mkCst ZERO (ReplyLatestConsensusSeq ZERO).
Definition w_answered := returned (CNil, w_cst, w_node (node 2))
  (cst_process_message w_cst (PMessage (w_head 1 0) w_question) w_view (cons_new ZERO 1) w_log
     (w_node (node 2))).

Lemma sent_single (n n' : Node Z Z Z) m :
  outbox n = [] -> map t_message (outbox n') = [Message.Cst m] -> requests_cid n n' m.
Proof.
  intros E1 E2. destruct (outbox n') as [|t [|]] eqn:E; try discriminate. injection E2 as E2.
  exists t. by rewrite E1, E.
Qed.

Lemma cst_answers_dropped_witness :
  cst_process_message w_asked.1.1 (PMessage (w_head 2 0) w_answer) w_view (cons_new ZERO 1) w_log
    (w_node (node 1)) = Done (CRunning, w_asked.1.1, w_node (node 1)).
Proof.
  apply (cst_answers_dropped w_cst w_view timeouts_new (w_node (node 1)) w_asked.1.1 w_asked.1.2 w_asked.2
    w_question w_cst (w_head 1 0) w_view (cons_new ZERO 1) w_log (w_node (node 2)) w_answered.2
    w_answered.1.1 w_answered.1.2 w_answer (w_head 2 0)).
  - vm_compute. split; discriminate.
  - left. rewrite <- !surjective_pairing. apply returned_done. vm_compute. reflexivity.
  - apply sent_single; vm_compute; reflexivity.
  - reflexivity.
  - rewrite <- !surjective_pairing. apply returned_done. vm_compute. reflexivity.
  - apply sent_single; vm_compute; reflexivity.
Defined.

Definition w_receiving : CollabStateTransfer Z Z :=
  mkCstate (mkSeqNo 5) (mkSeqNo 1) 2 30 30 ∅ (ReceivingCid 2).

Lemma latest_cid_counted_witness : exists st self',
  cst_process_message w_receiving (PMessage (w_head 3 0) (mkCst (mkSeqNo 1)
    (ReplyLatestConsensusSeq (mkSeqNo 4)))) w_view (cons_new ZERO 1) w_log (w_node (node 1)) =
    Done (st, self', w_node (node 1)) /\ exists r, st = CSeqNo r /\ sn r = 5.
Proof.
  destruct (latest_cid_counted w_receiving [mkSeqNo 5; mkSeqNo 5] w_view (w_node (node 1))
    (mkCst (mkSeqNo 1) (ReplyLatestConsensusSeq (mkSeqNo 4))) (mkSeqNo 4)) as (st & self' & E & Hr).
  - split_and!; reflexivity.
  - reflexivity.
  - reflexivity.
  - exists st, self'. split; [apply E|]. exact (proj2 Hr).
Defined.

Definition w_recovery : RecoveryState Z Z := mkRecovery w_view (mkCheckpoint ZERO 7) [1; 2]
  (mkDecisionLog (Some (mkSeqNo 3)) [w_msg 3 (PrePrepare [])] [] []).

(** Replica 1 asks for a state and receives three answers, two of them alike. *)
Definition w_state_asked := returned (w_cst, timeouts_new, w_node (node 1))
  (request_latest_state w_cst w_view timeouts_new (w_node (node 1))).
Definition rs_of (i : Z) : RecoveryState Z Z :=
  mkRecovery w_view (mkCheckpoint ZERO i) [] (mkDecisionLog None [] [] []).
Definition w_state (i : Z) : CstMessage Z Z := mkCst (next ZERO) (ReplyState (rs_of i)).
Definition w_take (self : CollabStateTransfer Z Z) (i d x : Z) :=
  returned (CNil, self, w_node (node 1))
    (cst_process_message self (PMessage (w_head i d) (w_state x)) w_view (cons_new ZERO 1) w_log (w_node (node 1))).
Definition w_first := w_take w_state_asked.1.1 2 7 7.
Definition w_second := w_take w_first.1.2 3 8 8.
Definition w_third := w_take w_second.1.2 0 7 7.

Lemma returned_status {A B C : Type} (d : A * B * C) m st :
  match m with Done _ => true | Panic => false end = true -> (returned d m).1.1 = st ->
  m = Done (st, (returned d m).1.2, (returned d m).2).
Proof. destruct m as [[[a b] c]|]; [|discriminate]. cbn. by intros _ ->. Qed.

Lemma state_backed_by_answers_witness : exists d s r,
  states_under d [(mkDigest (replicate 32 7), rs_of 7); (mkDigest (replicate 32 8), rs_of 8);
                  (mkDigest (replicate 32 7), rs_of 7)] = s :: r /\
  w_third.1.1 = CState s /\ 1 < Z.of_nat (length (s :: r)).
Proof.
  destruct (state_backed_by_answers w_cst w_view timeouts_new (w_node (node 1)) w_state_asked.1.1 w_state_asked.1.2
    w_state_asked.2 [(w_head 2 7, w_state 7); (w_head 3 8, w_state 8)] w_second.1.2 (w_head 0 7) (w_state 7)
    (cons_new ZERO 1) w_log (w_node (node 1)) w_third.2 w_third.1.1 w_third.1.2) as [_ Hx].
  - rewrite <- !surjective_pairing. apply returned_done. vm_compute. reflexivity.
  - apply (receives_snoc w_view w_state_asked.1.1 [(w_head 2 7, w_state 7)] w_first.1.2 (w_head 3 8) (w_state 8)
      (cons_new ZERO 1) w_log (w_node (node 1)) w_second.2);
      [|apply returned_status; vm_compute; reflexivity].
    apply (receives_snoc w_view w_state_asked.1.1 [] w_state_asked.1.1 (w_head 2 7) (w_state 7)
      (cons_new ZERO 1) w_log (w_node (node 1)) w_first.2);
      [apply receives_nil|apply returned_status; vm_compute; reflexivity].
  - apply returned_status; vm_compute; reflexivity.
  - assert (Ea : answers (cst_seq w_state_asked.1.1) [(w_head 2 7, w_state 7); (w_head 3 8, w_state 8)] =
      [(mkDigest (replicate 32 7), rs_of 7); (mkDigest (replicate 32 8), rs_of 8)]) by (vm_compute; reflexivity).
    assert (Eo : answer_of (cst_seq w_state_asked.1.1) (w_head 0 7, w_state 7) = Some (mkDigest (replicate 32 7), rs_of 7))
      by (vm_compute; reflexivity).
    rewrite Ea, Eo in Hx. cbn [progresses app] in Hx.
    assert (Eq : (Z.of_nat (length [(mkDigest (replicate 32 7), rs_of 7); (mkDigest (replicate 32 8), rs_of 8);
      (mkDigest (replicate 32 7), rs_of 7)]) =? quorum (params (view w_view))) = true) by (vm_compute; reflexivity).
    rewrite Eq in Hx. destruct Hx as [Hx _].
    destruct Hx as [(d & s & r & E1 & E2 & E3 & _)|[E _]].
    + exists d, s, r. rewrite E1 in E3. split; [exact E1|]. split; [exact E2|exact E3].
    + exfalso. assert (En : match w_third.1.1 with CRequestState => false | _ => true end = true) by (vm_compute; reflexivity).
      rewrite E in En. discriminate En.
Defined.

Definition w_installed := returned (sync_new 10 w_view, w_log, mkHandle true [], cons_new ZERO 1, Ok tt)
  (install_recovery_state w_recovery (sync_new 10 w_view) w_log (mkHandle true []) (cons_new ZERO 1)).

Lemma install_recovery_state_spec_witness :
  curr_seq (tbo w_installed.1.2) = mkSeqNo 3 /\ last_exec (declog w_installed.1.1.1.2) = Some (mkSeqNo 3).
Proof.
  destruct (install_recovery_state_spec w_recovery (sync_new 10 w_view) w_log (mkHandle true [])
    (cons_new ZERO 1) w_installed.1.1.1.1 w_installed.1.1.1.2 w_installed.1.1.2 w_installed.1.2)
    as (_ & _ & _ & Hd & _ & Hc & _).
  - apply cons_ok_new. vm_compute. split; discriminate.
  - intros pp Hpp. apply list_elem_of_singleton in Hpp as ->. vm_compute. split; discriminate.
  - assert (E : w_installed.2 = Ok tt) by (vm_compute; reflexivity).
    rewrite <- E, <- !surjective_pairing. apply returned_done. vm_compute. reflexivity.
  - split; [exact Hc|]. rewrite Hd. reflexivity.
Defined.
