(* ===== verification/Server.v ===== *)
(** * The replica ([src/bft/core/server/mod.rs])

    A replica owns one of each component and runs a loop: take the next message
    from a component's queue or from the network, hand it to the component it
    is for, act on the status that comes back. One turn of the loop is
    [run_once]. The message that [node.receive()] would return is an argument
    ([rx]), as are the clock ([now]) and the operating system's randomness
    ([seed]). An operation returns the replica after the call and its [Result];
    an [Err] ends the loop. *)

From S2P Require Import Prelude Error Ordering Prng Crypto Params Message Tbo Collections Node.
From S2P Require Import Timeouts DecLog Log Consensus Sync Executor Cst.
Local Open Scope Z_scope.
Local Open Scope bft_scope.

Inductive ReplicaPhase := RetrievingState | SyncPhase | NormalPhase.

Record Replica (S O P : Type) `{SigScheme, OrderedMap Digest} := mkReplica {
  r_phase : ReplicaPhase;
  phase_stack : option ReplicaPhase;
  timeouts : TimeoutsHandle;
  executor : ExecutorHandle S O;
  synchronizer : Synchronizer O;
  consensus : Consensus;
  cst : CollabStateTransfer S O;
  log : Log S O;
  r_peer : Node S O P
}.
Arguments mkReplica {S O P H H0} r_phase phase_stack timeouts executor synchronizer consensus cst
  log r_peer.
Arguments r_phase {S O P H H0} r.
Arguments phase_stack {S O P H H0} r.
Arguments timeouts {S O P H H0} r.
Arguments executor {S O P H H0} r.
Arguments synchronizer {S O P H H0} r.
Arguments consensus {S O P H H0} r.
Arguments cst {S O P H H0} r.
Arguments log {S O P H H0} r.
Arguments r_peer {S O P H H0} r.

Section replica.
Context {S O P : Type} `{HashFn, SigScheme, RandomState, !OrderedMap Digest, !SharedData S O P}.
Implicit Type self : Replica S O P.

(** Field updates. *)
Definition set_phase self (p : ReplicaPhase) : Replica S O P :=
  mkReplica p (phase_stack self) (timeouts self) (executor self) (synchronizer self)
    (consensus self) (cst self) (log self) (r_peer self).
Definition set_stack self (p : option ReplicaPhase) : Replica S O P :=
  mkReplica (r_phase self) p (timeouts self) (executor self) (synchronizer self)
    (consensus self) (cst self) (log self) (r_peer self).
Definition set_timeouts self (t : TimeoutsHandle) : Replica S O P :=
  mkReplica (r_phase self) (phase_stack self) t (executor self) (synchronizer self)
    (consensus self) (cst self) (log self) (r_peer self).
Definition set_executor self (e : ExecutorHandle S O) : Replica S O P :=
  mkReplica (r_phase self) (phase_stack self) (timeouts self) e (synchronizer self)
    (consensus self) (cst self) (log self) (r_peer self).
Definition set_sync self (s : Synchronizer O) : Replica S O P :=
  mkReplica (r_phase self) (phase_stack self) (timeouts self) (executor self) s
    (consensus self) (cst self) (log self) (r_peer self).
Definition set_consensus self (c : Consensus) : Replica S O P :=
  mkReplica (r_phase self) (phase_stack self) (timeouts self) (executor self) (synchronizer self)
    c (cst self) (log self) (r_peer self).
Definition set_cst self (c : CollabStateTransfer S O) : Replica S O P :=
  mkReplica (r_phase self) (phase_stack self) (timeouts self) (executor self) (synchronizer self)
    (consensus self) c (log self) (r_peer self).
Definition set_log self (l : Log S O) : Replica S O P :=
  mkReplica (r_phase self) (phase_stack self) (timeouts self) (executor self) (synchronizer self)
    (consensus self) (cst self) l (r_peer self).
Definition set_peer self (n : Node S O P) : Replica S O P :=
  mkReplica (r_phase self) (phase_stack self) (timeouts self) (executor self) (synchronizer self)
    (consensus self) (cst self) (log self) n.

Definition CST_BASE_DUR : Z := 30.
Definition REQ_BASE_DUR : Z := 2 * 60.

(** A client request: watch it and log it. *)
Definition request_received self (now : Z) (h : Header) (r : RequestMessage O) : Replica S O P :=
  let '(sy, ts) := watch_request (synchronizer self) now (unique_digest h) (timeouts self) in
  let self := set_timeouts (set_sync self sy) ts in
  set_log self (insert (P := P) (log self) h (Request r)).

Definition forwarded_requests_received self (now : Z) (requests : ForwardedRequestsMessage O)
  : Replica S O P :=
  let '(sy, ts, l) := watch_forwarded_requests (P := P) (synchronizer self) now requests
                        (timeouts self) (log self) in
  set_log (set_timeouts (set_sync self sy) ts) l.

(** The loop over the messages that arrived while the node was connecting. *)
Fixpoint handle_rogue self (now : Z) (rogue : list (Message S O P)) : outcome (Replica S O P) :=
  match rogue with
  | [] => Done self
  | System h (Request r) :: rogue => handle_rogue (request_received self now h r) now rogue
  | System h (Message.Consensus m) :: rogue =>
    handle_rogue (set_consensus self (cons_queue (consensus self) h m)) now rogue
  | System _ _ :: _ => Panic
  | _ :: rogue => handle_rogue self now rogue
  end.

(** [Replica::bootstrap]: [node] is what [Node::bootstrap] returns, the node and
    the messages it received while connecting; [executor] is the handle that
    [Executor::new] returns. *)
Definition bootstrap (view : SeqNo) (n f : Z) (next_consensus_seq : SeqNo) (batch_size : nat)
  (node : result (Node S O P * list (Message S O P))) (executor : result (ExecutorHandle S O)) (now : Z)
  : outcome (result (Replica S O P)) :=
  match view_new view n f, node, executor with
  | Err e, _, _ => Done (Err e)
  | Ok _, Err e, _ => Done (Err e)
  | Ok _, Ok _, Err e => Done (Err e)
  | Ok view, Ok (node, rogue), Ok executor =>
    let replica := mkReplica NormalPhase None timeouts_new executor (sync_new REQ_BASE_DUR view)
                     (cons_new next_consensus_seq batch_size) (cst_new CST_BASE_DUR)
                     (log_new batch_size) node in
    let! replica := handle_rogue replica now rogue in
    Done (Ok replica)
  end.

(** Deliver replies to clients. *)
Fixpoint send_replies (node : Node S O P) (batch : UpdateBatchReplies P) : outcome (Node S O P) :=
  match batch with
  | [] => Done node
  | r :: batch =>
    let! '(node, _) := send node (Reply (mkReply (ur_digest r) (ur_payload r))) (ur_to r) in
    send_replies node batch
  end.

Definition execution_finished self (batch : UpdateBatchReplies P) : outcome (Replica S O P) :=
  let! node := send_replies (r_peer self) batch in
  Done (set_peer self node).

(** Feed the CST state machine; the caller looks at the status. *)
Definition run_cst self (progress : CstProgress S O) : outcome (CstStatus S O * Replica S O P) :=
  let! '(st, c, node) := cst_process_message (cst self) progress (synchronizer self) (consensus self)
                           (log self) (r_peer self) in
  Done (st, set_peer (set_cst self c) node).

Definition execution_finished_with_appstate self (batch : UpdateBatchReplies P) (appstate : S)
  : outcome (Replica S O P * result unit) :=
  match finalize_checkpoint (log self) appstate with
  | (l, Err e) => Done (set_log self l, Err e)
  | (l, Ok _) =>
    let! self := execution_finished (set_log self l) batch in
    if needs_checkpoint (cst self) then
      let! '(_, self) := run_cst self PNil in
      Done (self, Ok tt)
    else Done (self, Ok tt)
  end.

Definition ask_cid self : outcome (Replica S O P) :=
  let! '(c, ts, node) := request_latest_consensus_seq_no (cst self) (synchronizer self)
                           (timeouts self) (r_peer self) in
  Done (set_peer (set_timeouts (set_cst self c) ts) node).

Definition ask_state self : outcome (Replica S O P) :=
  let! '(c, ts, node) := request_latest_state (cst self) (synchronizer self)
                           (timeouts self) (r_peer self) in
  Done (set_peer (set_timeouts (set_cst self c) ts) node).

Definition timeout_received self (now : Z) (timeout_kind : TimeoutKind) : outcome (Replica S O P) :=
  match timeout_kind with
  | TimeoutCst cst_seq =>
    let '(status, c) := timed_out (cst self) cst_seq in
    let self := set_cst self c in
    match status with
    | CRequestLatestCid => let! self := ask_cid self in Done (set_phase self RetrievingState)
    | CRequestState => let! self := ask_state self in Done (set_phase self RetrievingState)
    | _ => Done self
    end
  | TimeoutClientRequests timeout_seq =>
    let '(status, sy, ts) := client_requests_timed_out (synchronizer self) now timeout_seq
                               (timeouts self) in
    let self := set_timeouts (set_sync self sy) ts in
    match status with
    | RequestsTimedOut forwarded stopped =>
      let! self :=
        match forwarded with
        | [] => Done self
        | _ => let! node := forward_requests (synchronizer self)
                              (clone_requests (log self) forwarded) (r_peer self) in
               Done (set_peer self node)
        end in
      match stopped with
      | [] => Done self
      | _ => let! '(sy, node) := begin_view_change (synchronizer self)
                                   (Some (clone_requests (log self) stopped)) (r_peer self) in
             Done (set_phase (set_peer (set_sync self sy) node) SyncPhase)
      end
    | _ => Done self
    end
  end.

Definition invalid_state {A : Type} : result A := err_wrapped "Invalid state reached!" "CoreServer".

Definition Turn (A : Type) : Type := outcome (Replica S O P * result A).

(** The cases common to the three phases. Disconnections panic. *)
Definition other_message self (now : Z) (m : Message S O P) : outcome (Replica S O P) :=
  match m with
  | Timeout timeout_kind => timeout_received self now timeout_kind
  | ConnectedTx id => Done (set_peer self (handle_connected_tx (r_peer self) id))
  | ConnectedRx id => let! node := handle_connected_rx (r_peer self) id in Done (set_peer self node)
  | _ => Panic
  end.

Definition after_cst_retrieving self (status : CstStatus S O) : Turn unit :=
  match status with
  | CRunning => Done (self, Ok tt)
  | CState state =>
    let! '(sy, l, ex, c, r) := install_recovery_state state (synchronizer self) (log self)
                                 (executor self) (consensus self) in
    let self := set_consensus (set_executor (set_log (set_sync self sy) l) ex) c in
    match r with
    | Err e => Done (self, Err e)
    | Ok _ => Done (set_stack (set_phase self (default NormalPhase (phase_stack self))) None, Ok tt)
    end
  | CSeqNo seq =>
    if seq_lt (curr_seq (tbo (consensus self))) seq then
      let! c := install_sequence_number (consensus self) seq in
      let! self := ask_state (set_consensus self c) in
      Done (self, Ok tt)
    else Done (set_phase self NormalPhase, Ok tt)
  | CRequestLatestCid => let! self := ask_cid self in Done (self, Ok tt)
  | CRequestState => let! self := ask_state self in Done (self, Ok tt)
  | CNil => Done (self, invalid_state)
  end.

Definition update_retrieving_state self (rx : result (Message S O P)) (now : Z) : Turn unit :=
  match rx with
  | Err e => Done (self, Err e)
  | Ok (System h m) =>
    match m with
    | ForwardedRequests requests => Done (forwarded_requests_received self now requests, Ok tt)
    | Request r => Done (request_received self now h r, Ok tt)
    | Message.Consensus m => Done (set_consensus self (cons_queue (consensus self) h m), Ok tt)
    | ViewChange m => Done (set_sync self (sync_queue (synchronizer self) h m), Ok tt)
    | Message.Cst m =>
      let! '(status, self) := run_cst self (PMessage h m) in
      after_cst_retrieving self status
    | Reply _ => Panic
    end
  | Ok (ExecutionFinished batch) | Ok (ExecutionFinishedWithAppstate batch _) =>
    let! self := execution_finished self batch in Done (self, Ok tt)
  | Ok m => let! self := other_message self now m in Done (self, Ok tt)
  end.

(** Feed the synchronizer and signal its queue. *)
Definition run_sync self (h : Header) (m : ViewChangeMessage O) (now : Z) (seed : list Z)
  : outcome (SynchronizerStatus * Replica S O P) :=
  let! '(st, sy, env) := sync_process_message (synchronizer self) h m now seed
                           (mkEnv (timeouts self) (log self) (consensus self) (r_peer self)) in
  let self := set_sync self (sync_signal sy) in
  let self := set_timeouts self (e_timeouts env) in
  let self := set_log self (e_log env) in
  let self := set_consensus self (e_consensus env) in
  Done (st, set_peer self (e_node env)).

(** A message outside state transfer: the status must be [Nil]. *)
Definition run_cst_idle {A : Type} self (h : Header) (m : CstMessage S O) (ok : A) : Turn A :=
  let! '(status, self) := run_cst self (PMessage h m) in
  match status with
  | CNil => Done (self, Ok ok)
  | _ => Done (self, invalid_state)
  end.

Definition sync_phase_message self (message : Message S O P) (now : Z) (seed : list Z) : Turn bool :=
  match message with
  | System h m =>
    match m with
    | Message.Consensus m => Done (set_consensus self (cons_queue (consensus self) h m), Ok true)
    | ForwardedRequests requests => Done (forwarded_requests_received self now requests, Ok true)
    | Request r => Done (request_received self now h r, Ok true)
    | Message.Cst m => run_cst_idle self h m true
    | ViewChange m =>
      let! '(status, self) := run_sync self h m now seed in
      match status with
      | SNil => Done (self, Ok false)
      | Running => Done (self, Ok true)
      | NewView => Done (set_phase self NormalPhase, Ok false)
      | RunCst => Done (set_stack (set_phase self RetrievingState) (Some SyncPhase), Ok true)
      | _ => Done (self, invalid_state)
      end
    | Reply _ => Panic
    end
  | ExecutionFinished batch => let! self := execution_finished self batch in Done (self, Ok true)
  | ExecutionFinishedWithAppstate batch appstate =>
    let! '(self, r) := execution_finished_with_appstate self batch appstate in
    Done (self, match r with Ok _ => Ok true | Err e => Err e end)
  | _ => let! self := other_message self now message in Done (self, Ok true)
  end.

Definition update_sync_phase self (rx : result (Message S O P)) (now : Z) (seed : list Z) : Turn bool :=
  let '(status, sy) := sync_poll (synchronizer self) in
  let self := set_sync self sy in
  match status with
  | SRecv => match rx with
             | Err e => Done (self, Err e)
             | Ok message => sync_phase_message self message now seed
             end
  | SNextMessage h m => sync_phase_message self (System h (ViewChange m)) now seed
  | ResumeViewChange =>
    let! '(_, sy, env) := resume_view_change (synchronizer self) seed
                            (mkEnv (timeouts self) (log self) (consensus self) (r_peer self)) in
    let self := set_sync self sy in
    let self := set_timeouts self (e_timeouts env) in
    let self := set_log self (e_log env) in
    let self := set_consensus self (e_consensus env) in
    let self := set_peer self (e_node env) in
    Done (set_phase self NormalPhase, Ok false)
  end.

(** A decided batch: stop watching its requests, take it out of the log, queue
    it for execution and move on to the next instance. *)
Definition execute_decision self (seq : SeqNo) (digests : list Digest) : Replica S O P * result unit :=
  let self := set_sync self (foldl unwatch_request (synchronizer self) digests) in
  match finalize_batch (log self) seq digests with
  | (l, Err e) => (set_log self l, Err e)
  | (l, Ok (info, batch)) =>
    let self := set_log self l in
    let '(ex, r) := match info with
                    | Nil => queue_update (executor self) batch
                    | BeginCheckpoint => queue_update_and_get_appstate (executor self) batch
                    end in
    let self := set_executor self ex in
    match r with
    | Err e => (self, Err e)
    | Ok _ => (set_consensus self (next_instance (consensus self)), Ok tt)
    end
  end.

Definition consensus_message self (h : Header) (m : ConsensusMessage) : Turn unit :=
  let seq := curr_seq (tbo (consensus self)) in
  let! '(status, c, l, node) := process_message (consensus self) h m (synchronizer self) (log self)
                                  (r_peer self) in
  let self := set_peer (set_log (set_consensus self c) l) node in
  match status with
  | VotedTwice _ => Panic
  | Deciding => Done (set_consensus self (cons_signal (consensus self)), Ok tt)
  | Decided digests =>
    match execute_decision self seq digests with
    | (self, Err e) => Done (self, Err e)
    | (self, Ok _) => Done (set_consensus self (cons_signal (consensus self)), Ok tt)
    end
  end.

Definition normal_phase_message self (message : Message S O P) (now : Z) (seed : list Z) : Turn unit :=
  match message with
  | System h m =>
    match m with
    | ForwardedRequests requests => Done (forwarded_requests_received self now requests, Ok tt)
    | Request r => Done (request_received self now h r, Ok tt)
    | Message.Cst m => run_cst_idle self h m tt
    | ViewChange m =>
      let! '(status, self) := run_sync self h m now seed in
      match status with
      | SNil => Done (self, Ok tt)
      | Running => Done (set_phase self SyncPhase, Ok tt)
      | _ => Done (self, invalid_state)
      end
    | Message.Consensus m => consensus_message self h m
    | Reply _ => Panic
    end
  | ExecutionFinished batch => let! self := execution_finished self batch in Done (self, Ok tt)
  | ExecutionFinishedWithAppstate batch appstate =>
    execution_finished_with_appstate self batch appstate
  | _ => let! self := other_message self now message in Done (self, Ok tt)
  end.

(** The proposal of the [TryProposeAndRecv] case. *)
Definition try_propose self : outcome (Replica S O P) :=
  let '(batch, l) := next_batch (log self) in
  let self := set_log self l in
  match batch with
  | Some digests =>
    let! '(c, node) := propose (consensus self) digests (synchronizer self) (r_peer self) in
    Done (set_peer (set_consensus self c) node)
  | None => Done self
  end.

Definition receive_normal self (rx : result (Message S O P)) (now : Z) (seed : list Z) : Turn unit :=
  match rx with
  | Err e => Done (self, Err e)
  | Ok message => normal_phase_message self message now seed
  end.

(** The second half of [update_normal_phase]. *)
Definition poll_normal self (rx : result (Message S O P)) (now : Z) (seed : list Z) : Turn unit :=
  let '(status, c) := poll (consensus self) (log self) in
  let self := set_consensus self c in
  match status with
  | Recv => receive_normal self rx now seed
  | NextMessage h m => normal_phase_message self (System h (Message.Consensus m)) now seed
  | TryProposeAndRecv => let! self := try_propose self in receive_normal self rx now seed
  end.

(** [rx_sync] is received by the nested [update_sync_phase], if it receives. *)
Definition update_normal_phase self (rx_sync rx : result (Message S O P)) (now : Z) (seed : list Z)
  : Turn unit :=
  if can_process_stops (s_tbo (synchronizer self)) then
    let! '(self, running) := update_sync_phase self rx_sync now seed in
    match running with
    | Err e => Done (self, Err e)
    | Ok true => Done (set_phase self SyncPhase, Ok tt)
    | Ok false => poll_normal self rx now seed
    end
  else poll_normal self rx now seed.

(** One turn of the loop of [Replica::run]. *)
Definition run_once self (rx_sync rx : result (Message S O P)) (now : Z) (seed : list Z) : Turn unit :=
  match r_phase self with
  | RetrievingState => update_retrieving_state self rx now
  | NormalPhase => update_normal_phase self rx_sync rx now seed
  | SyncPhase =>
    let! '(self, r) := update_sync_phase self rx now seed in
    Done (self, match r with Ok _ => Ok tt | Err e => Err e end)
  end.

End replica.

(** ** What a turn of the loop changes *)

Section frame.
Context {S O P : Type} `{HashFn, SigScheme, RandomState, !OrderedMap Digest, !OrderedMapLaws Digest,
  !SharedData S O P}.
Implicit Type self : Replica S O P.

(** State transfer is not running on this replica. *)
Definition cst_idle (c : CollabStateTransfer S O) : Prop :=
  match cst_phase c with
  | CInit | WaitingCheckpoint _ _ => True
  | _ => False
  end.

Definition instance self : SeqNo := curr_seq (tbo (consensus self)).

(** Nothing was executed, the instance is the same, and state transfer has not
    been started. *)
Definition frame self self' : Prop :=
  executor self' = executor self /\ instance self' = instance self /\
  (cst_idle (cst self) -> cst_idle (cst self')).

Lemma frame_refl self : frame self self.
Proof. by split_and!. Qed.

Lemma frame_trans s1 s2 s3 : frame s1 s2 -> frame s2 s3 -> frame s1 s3.
Proof. intros (A1 & A2 & A3) (B1 & B2 & B3). split_and!; [congruence..|auto]. Qed.

Lemma frame_request self now h r : frame self (request_received self now h r).
Proof. unfold request_received. by destruct (watch_request _ _ _ _). Qed.

Lemma frame_forwarded self now rs : frame self (forwarded_requests_received self now rs).
Proof. unfold forwarded_requests_received. by destruct (watch_forwarded_requests _ _ _ _ _) as [[sy ts] l]. Qed.

Lemma frame_queue self h m : frame self (set_consensus self (cons_queue (consensus self) h m)).
Proof.
  destruct (cons_queue_rest (consensus self) h m) as (t & -> & Et & _). by split_and!.
Qed.

#[local] Hint Resolve frame_refl frame_request frame_forwarded frame_queue : bft.

Lemma frame_execution_finished self batch self' : execution_finished self batch = Done self' ->
  frame self self'.
Proof.
  unfold execution_finished. destruct (send_replies _ _); [|discriminate]. by intros [= <-].
Qed.

Lemma frame_cst self c n : cst_idle c -> frame self (set_peer (set_cst self c) n).
Proof. intros Hc. by split_and!. Qed.

(** While state transfer is not running, its state machine answers requests
    and reports [Nil]. *)
Lemma cst_idle_process (c c' : CollabStateTransfer S O) progress (sy : Synchronizer O) co l
    (n n' : Node S O P) st :
  cst_process_message c progress sy co l n = Done (st, c', n') -> cst_idle c ->
  st = CNil /\ cst_idle c'.
Proof.
  intros Hr Hi. assert (Hrep : forall h m c1 n1, process_reply_state c h m sy l n = Done (c1, n1) ->
    cst_idle c1).
  { intros h m c1 n1. unfold process_reply_state. destruct (snapshot _ _); [|by intros [= <- <-]].
    destruct (send _ _ _) as [[n2 d]|]; [|discriminate]. by intros [= <- <-]. }
  unfold cst_idle in Hi. unfold cst_process_message in Hr.
  destruct (cst_phase c) as [|h m|i|i] eqn:Ep; try done.
  - assert (Hc : cst_idle c) by (unfold cst_idle; by rewrite Ep).
    destruct progress as [|h m]; [apply done_inj3 in Hr as (<- & <- & _); done|].
    unfold process_init in Hr. destruct (cst_kind m).
    + destruct (send _ _ _) as [[n2 d]|]; [|discriminate]. by apply done_inj3 in Hr as (<- & <- & _).
    + by apply done_inj3 in Hr as (<- & <- & _).
    + destruct (process_reply_state c h m sy l n) as [[c1 n1]|] eqn:E; [|discriminate].
      apply done_inj3 in Hr as (<- & <- & _). split; [done|]. by apply (Hrep h m c1 n1).
    + by apply done_inj3 in Hr as (<- & <- & _).
  - unfold process_reply_state in Hr. destruct (snapshot _ _).
    + destruct (send _ _ _) as [[n2 d]|]; [|discriminate]. by apply done_inj3 in Hr as (<- & <- & _).
    + by apply done_inj3 in Hr as (<- & <- & _).
Qed.

Lemma run_cst_idle_spec self progress st self' : run_cst self progress = Done (st, self') ->
  cst_idle (cst self) -> st = CNil /\ frame self self'.
Proof.
  unfold run_cst. intros Hr Hi.
  destruct (cst_process_message _ _ _ _ _ _) as [[[st1 c] n]|] eqn:E; [|discriminate].
  injection Hr as <- <-. apply cst_idle_process in E as [-> Hc]; [|done].
  split; [done|by apply frame_cst].
Qed.

Lemma frame_appstate self batch appstate self' r : cst_idle (cst self) ->
  execution_finished_with_appstate self batch appstate = Done (self', r) -> frame self self'.
Proof.
  intros Hc. unfold execution_finished_with_appstate.
  destruct (finalize_checkpoint (log self) appstate) as [l [u|e]]; [|by intros [= <- <-]].
  returned_as s1 eqn:E1.
  apply frame_execution_finished in E1. destruct (needs_checkpoint (cst s1)).
  - returned_as [st s2] eqn:E2. intros [= <- <-].
    apply run_cst_idle_spec in E2 as [_ E2]; [|by apply E1]. eapply frame_trans; [|exact E2]. exact E1.
  - intros [= <- <-]. exact E1.
Qed.

Lemma timed_out_idle (c : CollabStateTransfer S O) seq : cst_idle c -> timed_out c seq = (CNil, c).
Proof. unfold timed_out, cst_idle. case_decide; [done|]. by destruct (cst_phase c). Qed.

Lemma frame_timeout self now k self' : cst_idle (cst self) ->
  timeout_received self now k = Done self' -> frame self self'.
Proof.
  intros Hc. unfold timeout_received. destruct k as [seq|seq].
  - rewrite timed_out_idle by done. by intros [= <-].
  - destruct (client_requests_timed_out _ _ _ _) as [[st sy] ts].
    destruct st as [| | | |forwarded stopped]; try (by intros [= <-]).
    set (s1 := set_timeouts (set_sync self sy) ts).
    set (r1 := match forwarded with [] => _ | _ => _ end).
    destruct r1 as [s2|] eqn:Er; [|discriminate]. cbn [obind].
    assert (F : frame self s2).
    { unfold r1 in Er. destruct forwarded; [by injection Er as <-|].
      destruct (forward_requests _ _ _); [|discriminate]. by injection Er as <-. }
    destruct stopped; [by intros [= <-]|].
    returned_as [sy' n].
    intros [= <-]. exact F.
Qed.

Lemma frame_other self now m self' : cst_idle (cst self) ->
  other_message self now m = Done self' -> frame self self'.
Proof.
  intros Hc. unfold other_message. destruct m; try discriminate; try (by intros [= <-]).
  - returned_as nd. by intros [= <-].
  - by apply frame_timeout.
Qed.

(** *** The view change keeps the instance *)

Lemma finalize_instance (sy sy' : Synchronizer O) state seed (env env' : Env (S := S) (O := O) (P := P)) st :
  finalize sy state seed env = Done (st, sy', env') ->
  curr_seq (tbo (e_consensus env')) = curr_seq (tbo (e_consensus env)).
Proof.
  unfold finalize. returned_as [stored dl].
  destruct (serialize_digest _) as [[digest buf]|]; [|discriminate].
  unfold Consensus.finalize_view_change. destruct (last _) as [lastm|]; [|discriminate].
  destruct (c_kind (message lastm)) as [ds| |]; try discriminate.
  destruct (accept_proposal _ _ _) as [c|] eqn:Ha; [|discriminate].
  apply accept_proposal_inv in Ha as (_ & Ht & _). cbn [obind].
  returned_as n.
  intros Hd. apply done_inj3 in Hd as (_ & _ & <-). cbn. by rewrite Ht.
Qed.

Lemma finalize_view_change_instance (sy sy' : Synchronizer O) state seed
    (env env' : Env (S := S) (O := O) (P := P)) st :
  finalize_view_change sy state seed env = Done (st, sy', env') ->
  curr_seq (tbo (e_consensus env')) = curr_seq (tbo (e_consensus env)).
Proof.
  unfold finalize_view_change. destruct (pre_finalize _ _ _);
    [intros Hd; by apply done_inj3 in Hd as (_ & _ & <-)..|apply finalize_instance].
Qed.

Ltac same_env := let Hd := fresh in intros Hd; by apply done_inj3 in Hd as (_ & _ & <-).

Lemma sync_instance (sy sy' : Synchronizer O) h m now seed
    (env env' : Env (S := S) (O := O) (P := P)) st :
  sync_process_message sy h m now seed env = Done (st, sy', env') ->
  curr_seq (tbo (e_consensus env')) = curr_seq (tbo (e_consensus env)).
Proof.
  unfold sync_process_message.
  assert (Hstop : forall i, process_stopping sy i h m now env = Done (st, sy', env') ->
    curr_seq (tbo (e_consensus env')) = curr_seq (tbo (e_consensus env))).
  { intros i. unfold process_stopping. destruct (vc_kind m); try same_env.
    do 2 (case_decide; [same_env|]). cbv zeta.
    assert (Hq : forall s1, stop_quorum s1 now env = Done (st, sy', env') ->
      curr_seq (tbo (e_consensus env')) = curr_seq (tbo (e_consensus env))).
    { intros s1. unfold stop_quorum. destruct (add_stopped_requests _ _) as [s2 l].
      destruct (watch_all_requests _ _ _) as [s3 ts]. returned_as ?. destruct (send _ _ _) as [[n d]|]; [|discriminate]. same_env. }
    destruct (s_phase _); try (case_match; [apply Hq|same_env]).
    case_match; [|same_env]. destruct (begin_view_change _ _ _) as [[s1 n]|]; [|discriminate]. same_env. }
  destruct (s_phase sy) as [|i|i|i| |]; [same_env|apply Hstop..| | |discriminate].
  - unfold process_stopping_data. destruct (vc_kind m); try same_env. cbv zeta.
    case_decide; [case_decide; same_env|]. do 2 (case_decide; [same_env|]).
    destruct (negb (i + 1 =? _)); [same_env|]. destruct (negb (sound_test _)); [same_env|].
    returned_as [n d].
    intros Hd. by apply finalize_view_change_instance in Hd.
  - unfold process_syncing. destruct (vc_kind m); try same_env.
    do 2 (case_decide; [same_env|]). cbv zeta. destruct (negb _); [same_env|].
    apply finalize_view_change_instance.
Qed.

Lemma frame_sync self h m now seed st self' : run_sync self h m now seed = Done (st, self') ->
  frame self self'.
Proof.
  unfold run_sync. destruct (sync_process_message _ _ _ _ _ _) as [[[st1 sy] env]|] eqn:E; [|discriminate].
  intros [= <- <-]. apply sync_instance in E. by split_and!.
Qed.

Lemma frame_sync_phase_message self m now seed self' r : cst_idle (cst self) ->
  sync_phase_message self m now seed = Done (self', r) -> frame self self'.
Proof.
  intros Hc. unfold sync_phase_message. destruct m as [h m|id|id|id|id|batch|batch appstate|k];
    try (destruct (other_message _ _ _) as [s1|] eqn:E; [|discriminate]; intros [= <- <-];
         by eapply frame_other).
  - destruct m as [r0|r0|m|m|m|fr]; try discriminate.
    + intros [= <- <-]. auto with bft.
    + intros [= <- <-]. auto with bft.
    + unfold run_cst_idle. returned_as [st s1] eqn:E.
      apply run_cst_idle_spec in E as [-> E]; [|done]. by intros [= <- <-].
    + returned_as [st s1] eqn:E.
      apply frame_sync in E. destruct st; by intros [= <- <-].
    + intros [= <- <-]. auto with bft.
  - destruct (execution_finished _ _) as [s1|] eqn:E; [|discriminate]. intros [= <- <-].
    by apply frame_execution_finished in E.
  - destruct (execution_finished_with_appstate _ _ _) as [[s1 r1]|] eqn:E; [|discriminate].
    intros [= <- <-]. by apply frame_appstate in E.
Qed.

Lemma frame_sync_phase self rx now seed self' r : cst_idle (cst self) ->
  update_sync_phase self rx now seed = Done (self', r) -> frame self self'.
Proof.
  intros Hc. unfold update_sync_phase. destruct (sync_poll (synchronizer self)) as [st sy].
  destruct st as [|h m|].
  - destruct rx as [m|e]; [|by intros [= <- <-]]. intros Hm.
    by apply frame_sync_phase_message in Hm.
  - intros Hm. by apply frame_sync_phase_message in Hm.
  - unfold resume_view_change. destruct (finalize_state _) as [fs|]; [|by intros [= <- <-]].
    returned_as [[st sy1] env] eqn:E. intros [= <- <-]. apply finalize_view_change_instance in E. by split_and!.
Qed.

(** *** Executing a decision *)

(** A batch for the digests [ds] is queued for execution at the end, the instance
    it was decided in is recorded, and the replica is in the next instance. *)
Definition handed_over self (ds : list Digest) self' : Prop :=
  exists req batch, request_batch req = Some batch /\ batch_for (log self) ds batch /\
    e_queue (executor self') = e_queue (executor self) ++ [req] /\ instance self' = next (instance self) /\
    last_exec (declog (log self')) = Some (instance self) /\
    (cst_idle (cst self) -> cst_idle (cst self')).

(** What a turn does before it processes a message in the normal phase. *)
Inductive prepare self : Replica S O P -> Prop :=
| prepare_sync rx now seed self' r : update_sync_phase self rx now seed = Done (self', Ok r) -> prepare self self'
| prepare_poll : prepare self (set_consensus self (poll (consensus self) (log self)).2)
| prepare_propose self' : try_propose self = Done self' -> prepare self self'.

(** In this turn the consensus layer decides [ds], in the log [l]. *)
Definition decides self (ds : list Digest) (l : Log S O) : Prop :=
  exists self1 h m c n, rtc prepare self self1 /\ instance self1 = instance self /\
    process_message (consensus self1) h m (synchronizer self1) (log self1) (r_peer self1) = Done (Decided ds, c, l, n).

(** The turn queues the batch that it decides. *)
Definition executed self self' : Prop :=
  exists ds l req batch, decides self ds l /\ request_batch req = Some batch /\ batch_for l ds batch /\
    e_queue (executor self') = e_queue (executor self) ++ [req] /\ instance self' = next (instance self) /\
    last_exec (declog (log self')) = Some (instance self) /\
    (cst_idle (cst self) -> cst_idle (cst self')).

Lemma e_send_cases (ex : ExecutorHandle S O) req :
  e_send ex req = (mkHandle true (e_queue ex ++ [req]), Ok tt) \/
  exists e, e_send ex req = (ex, Err e).
Proof. unfold e_send. destruct (e_open ex); [by left|right; eauto]. Qed.

Lemma execute_decision_cases self ds self' r :
  execute_decision self (instance self) ds = (self', r) ->
  (r = Ok tt /\ handed_over self ds self') \/ (is_ok r = false /\ frame self self').
Proof.
  unfold execute_decision.
  destruct (finalize_batch _ _ _) as [l [[info batch]|e]] eqn:Ef; [|intros [= <- <-]; by right].
  apply finalize_batch_for in Ef as [Hfor Hlast].
  set (s1 := set_log _ l).
  assert (Hx : forall req, request_batch req = Some batch -> forall ex q, e_send (executor s1) req = (ex, q) ->
    (let self := set_executor s1 ex in
     match q with
     | Err e => (self, Err e)
     | Ok _ => (set_consensus self (next_instance (consensus self)), Ok tt)
     end) = (self', r) ->
    (r = Ok tt /\ handed_over self ds self') \/ (is_ok r = false /\ frame self self')).
  { intros req Hb ex q Hs. destruct (e_send_cases (executor s1) req) as [E|[e E]]; rewrite E in Hs;
      injection Hs as <- <-; intros [= <- <-]; [left|right]; (split; [done|]).
    - exists req, batch. by split_and!.
    - by split_and!. }
  destruct info.
  - destruct (queue_update (executor s1) batch) as [ex q] eqn:Eq. by apply (Hx (ExecUpdate batch)).
  - destruct (queue_update_and_get_appstate (executor s1) batch) as [ex q] eqn:Eq.
    by apply (Hx (UpdateAndGetAppstate batch)).
Qed.

Lemma consensus_message_cases self h m self' r : consensus_message self h m = Done (self', r) ->
  (r = Ok tt /\ executed self self') \/ frame self self'.
Proof.
  unfold consensus_message.
  returned_as [[[st c] l] n] eqn:Hp.
  pose proof (process_message_tbo _ _ _ _ _ _ _ _ _ _ Hp) as Ht. set (s1 := set_peer _ n).
  assert (Hi : instance s1 = instance self).
  { unfold instance. cbn. destruct Ht as [-> | ->]; [done|].
    destruct (cons_queue_rest (consensus self) h m) as (t & -> & Et & _). done. }
  assert (Hf : frame self s1) by (by split_and!).
  destruct st as [id| |ds]; [discriminate|intros [= <- <-]; right; by destruct Hf as (? & ? & ?)|].
  change (curr_seq (tbo (consensus self))) with (instance self). rewrite <- Hi.
  destruct (execute_decision s1 (instance s1) ds) as [s2 [u|e]] eqn:Ed;
    apply execute_decision_cases in Ed as [[Er Hx]|[Er Hx]]; try discriminate; intros [= <- <-].
  - left. split; [done|]. destruct Hx as (req & batch & X1 & X2 & X3 & X4 & X5 & X6).
    exists ds, l, req, batch. rewrite <- Hi. split_and!; try done.
    exists self, h, m, c, n. split_and!; [apply rtc_refl|done|done].
  - right. by eapply frame_trans.
Qed.

(** What a turn can do to the replica. *)
Definition turned self self' (r : result unit) : Prop :=
  frame self self' \/ (r = Ok tt /\ executed self self').

Lemma turned_prepare s1 s2 s3 r : prepare s1 s2 -> frame s1 s2 -> turned s2 s3 r -> turned s1 s3 r.
Proof.
  intros Hp A [B|[-> B]]; [left; by eapply frame_trans|right; split; [done|]].
  destruct A as (A1 & A2 & A3), B as (ds & l & req & batch & (x & h & m & c & n & P1 & P2 & P3) & X1 & X2 & X3 & X4 & X5 & X6).
  exists ds, l, req, batch. rewrite <- A1, <- A2. split_and!; auto.
  exists x, h, m, c, n. split_and!; [by eapply rtc_l|congruence|done].
Qed.

Lemma normal_phase_message_turned self m now seed self' r : cst_idle (cst self) ->
  normal_phase_message self m now seed = Done (self', r) -> turned self self' r.
Proof.
  intros Hc. unfold normal_phase_message. destruct m as [h m|id|id|id|id|batch|batch appstate|k];
    try (destruct (other_message _ _ _) as [s1|] eqn:E; [|discriminate]; intros [= <- <-]; left;
         by eapply frame_other).
  - destruct m as [r0|r0|m|m|m|fr]; try discriminate.
    + intros [= <- <-]. left. auto with bft.
    + intros Hm. apply consensus_message_cases in Hm as [Hm|Hm]; [by right|by left].
    + unfold run_cst_idle. returned_as [st s1] eqn:E.
      apply run_cst_idle_spec in E as [-> E]; [|done]. intros [= <- <-]. by left.
    + returned_as [st s1] eqn:E.
      apply frame_sync in E. destruct st; intros [= <- <-]; by left.
    + intros [= <- <-]. left. auto with bft.
  - destruct (execution_finished _ _) as [s1|] eqn:E; [|discriminate]. intros [= <- <-]. left.
    by apply frame_execution_finished in E.
  - intros E. left. by apply frame_appstate in E.
Qed.

Lemma frame_poll self : frame self (set_consensus self (poll (consensus self) (log self)).2).
Proof.
  destruct (poll_cases (consensus self) (log self)) as (t & b & k & Ht & ph & -> & _).
  by split_and!.
Qed.

Lemma frame_try_propose self self' : try_propose self = Done self' -> frame self self'.
Proof.
  unfold try_propose. destruct (next_batch (log self)) as [[ds|] l]; [|by intros [= <-]].
  returned_as [c2 n2] eqn:E. intros [= <-].
  apply propose_inv in E as (_ & own & _ & _ & Hx). by destruct Hx as [[_ ->]| ->].
Qed.

Lemma receive_normal_turned self rx now seed self' r : cst_idle (cst self) ->
  receive_normal self rx now seed = Done (self', r) -> turned self self' r.
Proof.
  intros Hc. destruct rx as [m|e]; [by apply normal_phase_message_turned|intros [= <- <-]; by left].
Qed.

Lemma poll_normal_turned self rx now seed self' r : cst_idle (cst self) ->
  poll_normal self rx now seed = Done (self', r) -> turned self self' r.
Proof.
  intros Hc. unfold poll_normal. pose proof (frame_poll self) as F. pose proof (prepare_poll self) as Hpr.
  destruct (poll (consensus self) (log self)) as [st c]. cbn [snd] in F, Hpr.
  set (s1 := set_consensus self c) in *.
  assert (Hc1 : cst_idle (cst s1)) by by apply F.
  intros Hm. apply (turned_prepare _ s1); [exact Hpr|done|]. destruct st as [| |h m].
  - by eapply receive_normal_turned.
  - destruct (try_propose s1) as [s2|] eqn:E; [|discriminate]. pose proof (frame_try_propose _ _ E) as F2.
    apply (turned_prepare _ s2); [by apply prepare_propose|done|].
    eapply receive_normal_turned; [|exact Hm]. by apply F2.
  - by eapply normal_phase_message_turned.
Qed.

Lemma update_normal_phase_turned self rx_sync rx now seed self' r : cst_idle (cst self) ->
  update_normal_phase self rx_sync rx now seed = Done (self', r) -> turned self self' r.
Proof.
  intros Hc. unfold update_normal_phase. case_match; [|by apply poll_normal_turned].
  destruct (update_sync_phase _ _ _ _) as [[s1 q]|] eqn:E; [|discriminate].
  pose proof (frame_sync_phase _ _ _ _ _ _ Hc E) as F. cbn [obind].
  destruct q as [[]|e]; try (intros [= <- <-]; by left).
  intros Hm. apply (turned_prepare _ s1); [by eapply prepare_sync|done|]. eapply poll_normal_turned; [|exact Hm]. by apply F.
Qed.

(** While state transfer has not been started, a message about it is an error
    of the phase that waits for its result. *)
Lemma retrieving_state_idle self rx now self' r : cst_idle (cst self) ->
  update_retrieving_state self rx now = Done (self', r) ->
  frame self self' /\ forall h m, rx = Ok (System h (Message.Cst m)) -> r = invalid_state.
Proof.
  intros Hc. unfold update_retrieving_state. destruct rx as [m|e]; [|by intros [= <- <-]].
  destruct m as [h m|id|id|id|id|batch|batch appstate|k];
    try (destruct (other_message _ _ _) as [s1|] eqn:E; [|discriminate]; intros [= <- <-];
         split; [by eapply frame_other|done]);
    try (destruct (execution_finished _ _) as [s1|] eqn:E; [|discriminate]; intros [= <- <-];
         split; [by apply frame_execution_finished in E|done]).
  destruct m as [r0|r0|m|m|m|fr]; try discriminate.
  - intros [= <- <-]. split; [auto with bft|done].
  - intros [= <- <-]. split; [auto with bft|done].
  - returned_as [st s1] eqn:E.
    apply run_cst_idle_spec in E as [-> E]; [|done]. by intros [= <- <-].
  - by intros [= <- <-].
  - intros [= <- <-]. split; [auto with bft|done].
Qed.

Lemma run_once_turned self rx_sync rx now seed self' r : cst_idle (cst self) ->
  run_once self rx_sync rx now seed = Done (self', r) -> turned self self' r.
Proof.
  intros Hc. unfold run_once. destruct (r_phase self).
  - intros Hr. left. by apply retrieving_state_idle in Hr as [? _].
  - destruct (update_sync_phase _ _ _ _) as [[s1 q]|] eqn:E; [|discriminate]. intros [= <- <-].
    left. by apply frame_sync_phase in E.
  - by apply update_normal_phase_turned.
Qed.

(** *** Runs of the loop *)

(** A turn that returns [Ok]: the loop goes on. *)
Definition turn self self' : Prop :=
  exists rx_sync rx now seed, run_once self rx_sync rx now seed = Done (self', Ok tt).

Lemma frame_rogue rogue self now self' : handle_rogue self now rogue = Done self' -> frame self self'.
Proof.
  revert self. induction rogue as [|m rogue IH]; intros self; cbn; [by intros [= <-]|].
  destruct m as [h m|id|id|id|id|batch|batch appstate|k]; try (by apply IH).
  destruct m; try discriminate; intros Hr; apply IH in Hr; (eapply frame_trans; [|exact Hr]).
  - auto with bft.
  - auto with bft.
Qed.

Lemma bootstrap_inv view n f seq bs node ex now self :
  bootstrap view n f seq bs node (Ok ex) now = Done (Ok self) ->
  executor self = ex /\ instance self = seq /\ cst_idle (cst self).
Proof.
  unfold bootstrap. destruct (view_new view n f) as [v|e]; [|discriminate].
  destruct node as [[nd rogue]|e]; [|discriminate].
  returned_as s1 eqn:E. intros [= <-].
  apply frame_rogue in E as (-> & -> & Hc). split_and!; [done..|]. by apply Hc.
Qed.

(** What was executed since the start, against the instances passed. *)
Definition in_step (seq : SeqNo) (q0 : list (ExecutionRequest S O)) self : Prop :=
  cst_idle (cst self) /\ exists reqs, e_queue (executor self) = q0 ++ reqs /\
    Forall (fun r => is_Some (request_batch r)) reqs /\
    instance self = Nat.iter (length reqs) next seq.

Lemma in_step_turned seq q0 self self' r : in_step seq q0 self -> turned self self' r ->
  in_step seq q0 self'.
Proof.
  intros (Hc & reqs & Hq & Hf & Hi) [(E1 & E2 & E3)|[_ (ds & l & req & batch & _ & X2 & _ & X1 & X3 & _ & X5)]].
  - split; [auto|]. exists reqs. by rewrite E1, E2.
  - split; [auto|]. exists (reqs ++ [req]). rewrite X1, Hq, X3, Hi, length_app, Nat.add_comm.
    split_and!; [by rewrite app_assoc|apply Forall_app; split; [done|]; apply Forall_singleton; eauto|done].
Qed.

Lemma in_step_run seq q0 self self' : rtc turn self self' -> in_step seq q0 self -> in_step seq q0 self'.
Proof.
  induction 1 as [|s1 s2 s3 (rs & rx & now & seed & Ht) _ IH]; [done|]. intros Hs. apply IH.
  eapply in_step_turned; [exact Hs|]. eapply run_once_turned; [apply Hs|exact Ht].
Qed.

End frame.

Section replica_properties.
Context {S O P : Type} `{HashFn, SigScheme, RandomState, !OrderedMap Digest, !OrderedMapLaws Digest,
  !SharedData S O P}.

(** The [k]-th batch of the queue [q]: it was queued in a turn of the run from
    [r0] to [r] in which it was decided, in the [k]-th instance, after the batches
    before it. *)
Definition decided_kth (seq : SeqNo) (r0 r : Replica S O P) (q : list (ExecutionRequest S O)) (k : nat)
    (req : ExecutionRequest S O) : Prop :=
  exists self self' ds l batch, rtc turn r0 self /\ turn self self' /\ rtc turn self' r /\
    instance self = Nat.iter k next seq /\ decides self ds l /\ batch_for l ds batch /\
    request_batch req = Some batch /\
    e_queue (executor self) = take k q /\ e_queue (executor self') = take (Datatypes.S k) q.

Lemma turn_decided seq (r0 r r' : Replica S O P) : rtc turn r0 r -> turn r r' -> in_step seq [] r ->
  (forall k req, e_queue (executor r) !! k = Some req -> decided_kth seq r0 r (e_queue (executor r)) k req) ->
  forall k req, e_queue (executor r') !! k = Some req -> decided_kth seq r0 r' (e_queue (executor r')) k req.
Proof.
  intros Hr Ht (Hc & reqs & Hq & _ & Hi) Hd. cbn in Hq.
  assert (Hext : forall k req, e_queue (executor r) !! k = Some req ->
    forall q, take (length (e_queue (executor r))) q = e_queue (executor r) -> decided_kth seq r0 r' q k req).
  { intros k req Hk q Eq. destruct (Hd k req Hk) as (self & self' & ds & l & batch & R1 & T & R2 & I & D & F & B & Q1 & Q2).
    apply lookup_lt_Some in Hk. exists self, self', ds, l, batch. split_and!; try done; [by eapply rtc_r| |].
    - rewrite Q1, <- Eq, take_take. f_equal. lia.
    - rewrite Q2, <- Eq, take_take. f_equal. lia. }
  pose proof Ht as (rs & rx & now & seed & E). destruct (run_once_turned _ _ _ _ _ _ _ Hc E) as [(E1 & _)|[_ X]].
  - rewrite E1. intros k req Hk. apply Hext; [done|]. apply firstn_all.
  - destruct X as (ds & l & req0 & batch & D & B & F & Q & _). rewrite Q. intros k req Hk.
    apply lookup_app_Some in Hk as [Hk|[Hlen Hk]]; [apply Hext; [done|by rewrite take_app_length]|].
    apply list_lookup_singleton_Some in Hk as [Hk <-].
    assert (k = length (e_queue (executor r))) as -> by lia.
    exists r, r', ds, l, batch. rewrite take_app_length, take_ge by (rewrite length_app; cbn; lia).
    split_and!; try done; [by rewrite Hi, Hq].
Qed.

(** C8: a replica that starts with an empty execution queue and runs for any
    number of turns that return without an error, whatever it receives, is in the
    instance that follows the first one by the number of batches it has queued
    for execution. The [k]-th of these batches was put at the end of the queue in
    a turn in which the consensus layer decided the [k]-th instance, and consists
    of the requests, held by the log at that moment, with the decided digests in
    the decided order: the batches are in the order of the instances, none is
    skipped and none is queued twice. *)
Theorem replica_executes_in_order (view : SeqNo) (n f : Z) (seq : SeqNo) (batch_size : nat) node now
    (r0 r : Replica S O P) :
  bootstrap view n f seq batch_size node (Ok (mkHandle true [])) now = Done (Ok r0) ->
  rtc turn r0 r ->
  instance r = Nat.iter (length (e_queue (executor r))) next seq /\
  forall k req, e_queue (executor r) !! k = Some req -> decided_kth seq r0 r (e_queue (executor r)) k req.
Proof.
  intros Hb Hr. apply bootstrap_inv in Hb as (He & Hi & Hc).
  assert (Hstart : in_step seq [] r0) by (split; [done|]; exists []; by rewrite He, Hi).
  split; [destruct (in_step_run _ _ _ _ Hr Hstart) as (_ & reqs & -> & _ & ?); done|].
  revert r Hr. apply (rtc_ind_r (fun r => forall k req, e_queue (executor r) !! k = Some req ->
    decided_kth seq r0 r (e_queue (executor r)) k req)); [by rewrite He|].
  intros r1 r2 Hr1 Ht IH. eapply turn_decided; [done|done|by eapply in_step_run|done].
Qed.

(** No replica ever starts the state transfer: after any number of turns
    it has not asked its peers for a sequence number or a state, nothing but
    batches was queued for execution (no received state is installed), and a
    replica that waits for a state ([RetrievingState]) stops with an error at
    the first state transfer message it receives. *)
Theorem state_transfer_never_starts (view : SeqNo) (n f : Z) (seq : SeqNo) (batch_size : nat) node now
    (r0 r : Replica S O P) :
  bootstrap view n f seq batch_size node (Ok (mkHandle true [])) now = Done (Ok r0) ->
  rtc turn r0 r ->
  cst_idle (cst r) /\
  (forall st ops, InstallState st ops ∉ e_queue (executor r)) /\
  forall rx_sync h m now' seed r' res, r_phase r = RetrievingState ->
    run_once r rx_sync (Ok (System h (Message.Cst m))) now' seed = Done (r', res) ->
    res = invalid_state.
Proof.
  intros Hb Hr. apply bootstrap_inv in Hb as (He & Hi & Hc).
  apply (in_step_run seq []) in Hr; [|split; [done|]; exists []; by rewrite He, Hi].
  destruct Hr as (Hr & reqs & -> & Hf & _). split_and!; [done| |].
  - intros st ops Hin. rewrite Forall_forall in Hf. by destruct (Hf _ Hin).
  - intros rs h m now' seed r' res Hp. unfold run_once. rewrite Hp. intros Ht.
    apply retrieving_state_idle in Ht as [_ Ht]; [|done]. by apply (Ht h m).
Qed.

End replica_properties.

(** ** Witnesses *)

Section replica_witnesses.
#[local] Existing Instance toy_hash.
#[local] Existing Instance toy_sig.
#[local] Existing Instance toy_data.
#[local] Existing Instance key_order.
#[local] Existing Instance w_map.
#[local] Existing Instance w_map_laws.

(** The loop, fed with messages from the network. *)
Fixpoint run_all (self : Replica Z Z Z) (ms : list (Message Z Z Z)) : option (Replica Z Z Z) :=
  match ms with
  | [] => Some self
  | m :: ms =>
    match run_once self (Ok m) (Ok m) 0 [] with
    | Done (self, Ok tt) => run_all self ms
    | _ => None
    end
  end.

Lemma run_all_rtc ms self self' : run_all self ms = Some self' -> rtc turn self self'.
Proof.
  revert self. induction ms as [|m ms IH]; intros self; cbn [run_all]; [intros [= <-]; apply rtc_refl|].
  destruct (run_once _ _ _ _ _) as [[s1 [[]|e]]|] eqn:E; try discriminate. intros Hr.
  apply (rtc_l turn _ s1); [by exists (Ok m), (Ok m), 0, []|by apply IH].
Qed.

(** A replica that has just started. *)
Definition w_replica : Replica Z Z Z :=
  mkReplica NormalPhase None timeouts_new (mkHandle true [])
    (sync_new REQ_BASE_DUR w_view) (cons_new ZERO 1) (cst_new CST_BASE_DUR) (log_new 1) (w_node (node 1)).

(** It receives a request, a proposal that contains it, and enough votes. *)
Definition w_messages : list (Message Z Z Z) :=
  System (w_header 1) (w_request 10) ::
  System (w_head 0 7) (Message.Consensus (w_pp 1)) ::
  map (fun i => System (w_head i 7) (Message.Consensus (w_vote 7))) [0; 2] ++
  map (fun i => System (w_head i 7) (Message.Consensus (w_commit 7))) [0; 1; 2].

Definition w_end : Replica Z Z Z := default w_replica (run_all w_replica w_messages).

Lemma w_end_run : run_all w_replica w_messages = Some w_end.
Proof.
  assert (E : match run_all w_replica w_messages with Some _ => true | None => false end = true)
    by (vm_compute; reflexivity).
  unfold w_end. by destruct (run_all w_replica w_messages).
Qed.

Lemma replica_executes_in_order_witness :
  length (e_queue (executor w_end)) = 1%nat /\ instance w_end = next ZERO /\
  forall req, e_queue (executor w_end) !! 0%nat = Some req ->
    decided_kth ZERO w_replica w_end (e_queue (executor w_end)) 0 req.
Proof.
  assert (E : length (e_queue (executor w_end)) = 1%nat) by (vm_compute; reflexivity).
  split; [exact E|].
  destruct (replica_executes_in_order ZERO 4 1 ZERO 1 (Ok (w_node (node 1), [])) 0 w_replica w_end)
    as [Hi Hk]; [reflexivity|exact (run_all_rtc _ _ _ w_end_run)|].
  rewrite E in Hi. split; [exact Hi|exact (Hk 0%nat)].
Defined.

Lemma state_transfer_never_starts_witness : cst_idle (cst w_end).
Proof.
  apply (state_transfer_never_starts ZERO 4 1 ZERO 1 (Ok (w_node (node 1), [])) 0 w_replica w_end).
  - reflexivity.
  - exact (run_all_rtc _ _ _ w_end_run).
Defined.

End replica_witnesses.
