(* ===== verification/Stable.v ===== *)
(** * A replica in a stable view ([src/bft/core/server/mod.rs], [src/bft/consensus/mod.rs])

    What a turn of the main loop does to a replica that stays in its normal
    phase: the history of the batches it has decided, the votes it has counted
    and the votes it has sent. The decision log of a replica is cleared by
    checkpoints; the invariant is therefore stated about the messages logged
    since the current instance was entered, a ghost copy of the log ([gh_log])
    that [process_message] extends in the same way. *)

From S2P Require Import Prelude Error Ordering Prng Crypto Params Message Tbo Collections Node.
From S2P Require Import Timeouts DecLog Log Consensus Agreement Sync Executor Cst Server.
Local Open Scope Z_scope.
Local Open Scope bft_scope.

(** ** What [process_message] depends on *)

Section process.
Context {S O P : Type} `{HashFn, SigScheme, RandomState, !OrderedMap Digest, !SharedData S O P}.

(** The consensus layer asks the synchronizer for the view only. *)
Lemma process_message_view {Sy1 Sy2 : Type} `{!ViewSource Sy1, !ViewSource Sy2} (sy1 : Sy1) (sy2 : Sy2)
    c h m (l : Log S O) (n : Node S O P) : view sy1 = view sy2 ->
  process_message c h m sy1 l n = process_message c h m sy2 l n.
Proof.
  intros E. unfold process_message, process_pre_preparing, process_preparing, process_committing,
    vote_prepare, forge. by rewrite E.
Qed.

Lemma propose_view {Sy1 Sy2 : Type} `{!ViewSource Sy1, !ViewSource Sy2} (sy1 : Sy1) (sy2 : Sy2)
    c ds (n : Node S O P) : view sy1 = view sy2 -> propose c ds sy1 n = propose c ds sy2 n.
Proof. intros E. unfold propose, forge. by rewrite E. Qed.

Definition logged (b : bool) (g : DecisionLog) (m : StoredMessage ConsensusMessage) : DecisionLog :=
  if b then push_consensus g m else g.

Lemma with_declog_id (l : Log S O) : with_declog l (declog l) = l.
Proof. by destruct l. Qed.

(** Processing a message does not look at the decision log: it logs the
    message or not, queues it or not, and never both. *)
Lemma process_message_ghost `{!ViewSource Sy} c h m (sy : Sy) (l : Log S O) (n : Node S O P) st c' l' n' :
  process_message c h m sy l n = Done (st, c', l', n') ->
  exists b, l' = with_declog l (logged b (declog l) (mkStored h m)) /\
    (forall g, process_message c h m sy (with_declog l g) n =
       Done (st, c', with_declog l (logged b g (mkStored h m)), n')) /\
    (tbo c' = tbo c \/ (b = false /\ c' = cons_queue c h m)).
Proof.
  assert (Hid : with_declog l (logged false (declog l) (mkStored h m)) = l) by apply with_declog_id.
  unfold process_message, process_pre_preparing, process_preparing, process_committing, defer.
  destruct (phase c), (c_kind m) as [ds|d|d] eqn:Ek;
    try (intros [= <- <- <- <-]; exists false; split_and!; by auto);
    repeat (case_decide; [intros [= <- <- <- <-]; exists false; split_and!; by auto|]).
  - returned_as c1 eqn:Ha. apply accept_proposal_inv in Ha as (_ & Ht & _).
    returned_as n1. intros [= <- <- <- <-]. exists true. split_and!; try done.
    left. exact Ht.
  - case_match; [returned_as [n1 dg]|]; intros [= <- <- <- <-]; exists true; split_and!; by auto.
  - case_match; [destruct (decision _) as [ds|]; [|discriminate]|]; intros [= <- <- <- <-];
      exists true; split_and!; by auto.
Qed.

End process.

(** ** The queues *)

Abbreviation Stored := (StoredMessage ConsensusMessage).

Section queue.
Context {M : Type} `{!Orderable M}.

Lemma concat_queue_message (curr : SeqNo) q (m : StoredMessage M) :
  concat (tbo_queue_message curr q m) ≡ₚ concat q ++ [m] \/ tbo_queue_message curr q m = q.
Proof.
  unfold tbo_queue_message. destruct (index _ _) as [e|k]; [by right|]. left.
  set (q' := if decide _ then _ else _).
  assert (Hc : concat q' = concat q).
  { subst q'. case_decide; [|done]. rewrite concat_app.
    assert (E : forall j, concat (replicate j []) = ([] : list (StoredMessage M))) by (induction j; done).
    by rewrite E, app_nil_r. }
  assert (Hk : is_Some (q' !! k)).
  { apply lookup_lt_is_Some. subst q'. case_decide; [rewrite length_app, length_replicate|]; lia. }
  rewrite <- Hc. clearbody q'. clear Hc. revert k Hk. induction q' as [|s q' IH]; intros k [x Hx]; [done|].
  destruct k as [|k]; cbn in *.
  - rewrite <- app_assoc. by rewrite (Permutation_app_comm [m]), app_assoc.
  - rewrite <- app_assoc. apply Permutation_app_head. apply IH. by exists x.
Qed.

Lemma concat_pop (q q' : list (list (StoredMessage M))) m : tbo_pop_message q = (Some m, q') ->
  concat q = m :: concat q'.
Proof. destruct q as [|[|x s] q]; try discriminate. by intros [= <- <-]. Qed.

Lemma pop_none (q q' : list (list (StoredMessage M))) : tbo_pop_message q = (None, q') -> q' = q.
Proof. destruct q as [|[|x s] q]; try discriminate; by intros [= <-]. Qed.

Lemma concat_advance (q : list (list (StoredMessage M))) : concat (tbo_advance_message_queue q) ⊆+ concat q.
Proof.
  destruct q as [|s q]; [done|]. cbn. rewrite concat_app. cbn. rewrite app_nil_r.
  by apply submseteq_inserts_l.
Qed.

End queue.

(** ** Turns that do not touch the consensus *)

Section quiet.
Context {S O P : Type} `{HashFn, SigScheme, RandomState, !OrderedMap Digest, !OrderedMapLaws Digest,
  !SharedData S O P}.
Implicit Type self : Replica S O P.

(** The client and the operation a unique digest stands for. *)
Context (content : Digest -> NodeId * O).

Definition request_ok (h : Header) (r : RequestMessage O) : Prop :=
  content (unique_digest h) = (hdr_from h, operation r).

Definition message_ok (m : Message S O P) : Prop :=
  match m with
  | System h (Request r) => request_ok h r
  | System _ (ForwardedRequests rs) => Forall (fun s => request_ok (header s) (message s)) rs
  | _ => True
  end.

Definition log_ok (l : Log S O) : Prop :=
  queues_disjoint l /\ forall d r, get_request l d = Some r ->
    content d = (hdr_from (header r), operation (message r)).

(** The nodes that may have sent a STOP. *)
Context (stoppers : gset NodeId).

Definition stop_ok (h : Header) (m : ViewChangeMessage O) : Prop :=
  match vc_kind m with Stop _ => hdr_from h ∈ stoppers | _ => True end.

(** A view change is not under way: the STOPs counted are from different nodes,
    the STOPs counted or queued are from [stoppers], which are at most [f], and
    those for the next view are known to the queue. *)
Record calm (sy : Synchronizer O) : Prop := mkCalm {
  calm_count : match s_phase sy with
               | SInit => stopped sy = ∅
               | Stopping i => i = Z.of_nat (size (stopped sy))
               | _ => False
               end;
  calm_senders : dom (stopped sy) ⊆ stoppers;
  calm_queue : Forall (fun m => stop_ok (header m) (message m)) (concat (q_stop (s_tbo sy)));
  calm_signal : can_process_stops (s_tbo sy) = true -> s_get_queue (s_tbo sy) = true;
  calm_few : Z.of_nat (size stoppers) <= params_f (params (view sy))
}.

(** What [calm] depends on. *)
Definition same_stops (sy sy' : Synchronizer O) : Prop :=
  s_phase sy' = s_phase sy /\ stopped sy' = stopped sy /\ s_tbo sy' = s_tbo sy.

Lemma same_stops_calm sy sy' : same_stops sy sy' -> view sy' = view sy /\ (calm sy -> calm sy').
Proof.
  intros (E1 & E2 & E3). assert (Ev : view sy' = view sy) by (unfold view; cbn; by rewrite E3).
  split; [exact Ev|]. intros []. split; rewrite ?E1, ?E2, ?E3, ?Ev; assumption.
Qed.

(** No request has been waiting for longer than the time-out since it was
    forwarded, when the timer goes off. *)
Definition timely (sy : Synchronizer O) (now : Z) (rx : result (Message S O P)) : Prop :=
  match rx with
  | Ok (Timeout (TimeoutClientRequests _)) => forall d ph, watching sy !! d = Some ph ->
      stops (timeout_dur sy) now ph = false
  | _ => True
  end.

(** Replies, forwarded requests and state transfer. *)
Definition incidental (m : SystemMessage S O P) : Prop :=
  match m with Message.Consensus _ | ViewChange _ => False | _ => True end.

Definition sent_others (n n' : Node S O P) : Prop :=
  node_id n' = node_id n /\ sent_more incidental n n'.

Record quiet self self' : Prop := mkQuiet {
  quiet_phase : r_phase self' = r_phase self;
  quiet_consensus : consensus self' = consensus self;
  quiet_executor : executor self' = executor self;
  quiet_view : view (synchronizer self') = view (synchronizer self);
  quiet_calm : calm (synchronizer self) -> calm (synchronizer self');
  quiet_cst : cst_idle (cst self) -> cst_idle (cst self');
  quiet_sent : sent_others (r_peer self) (r_peer self');
  quiet_log : log_ok (log self) -> log_ok (log self')
}.

Lemma sent_others_refl n : sent_others n n.
Proof. split; [done|apply sent_more_refl]. Qed.

Lemma sent_others_trans n1 n2 n3 : sent_others n1 n2 -> sent_others n2 n3 -> sent_others n1 n3.
Proof. intros [A1 A2] [B1 B2]. split; [congruence|by eapply sent_more_trans]. Qed.

Lemma send_others n m t n' d : send n m t = Done (n', d) -> incidental m -> sent_others n n'.
Proof.
  intros Hs Hm. split; [|by eapply send_sent]. by apply send_inv in Hs as (task & -> & _).
Qed.

Lemma broadcast_others n m ts n' d : broadcast n m ts = Done (n', d) -> incidental m ->
  sent_others n n'.
Proof.
  intros Hs Hm. split; [|by eapply broadcast_sent]. by apply broadcast_inv in Hs as (task & -> & _).
Qed.

Lemma quiet_refl self : quiet self self.
Proof. split; auto using sent_others_refl. Qed.

Lemma quiet_trans s1 s2 s3 : quiet s1 s2 -> quiet s2 s3 -> quiet s1 s3.
Proof. intros [] []. split; try congruence; eauto using sent_others_trans. Qed.

#[local] Hint Resolve quiet_refl sent_others_refl : bft.

(** *** Requests *)

Lemma log_ok_insert l h r : request_ok h r -> log_ok l ->
  log_ok (insert (S := S) (P := P) l h (Request r)).
Proof.
  intros Hr [Hd Hc]. split; [by apply queues_disjoint_insert|]. intros d s.
  rewrite get_request_insert. case_decide as Hx; [|apply Hc]. intros [= <-]. by rewrite Hx.
Qed.

Lemma log_ok_same l l' : requests l' = requests l -> deciding l' = deciding l -> log_ok l -> log_ok l'.
Proof. intros E1 E2. unfold log_ok, queues_disjoint, get_request. by rewrite E1, E2. Qed.

Lemma watch_request_impl_rest (sy : Synchronizer O) ph d ts :
  same_stops sy (watch_request_impl sy ph d ts).1.
Proof. unfold watch_request_impl, same_stops. by destruct (watching_timeouts sy). Qed.

Lemma quiet_request self now h r : request_ok h r -> quiet self (request_received self now h r).
Proof.
  intros Hr. unfold request_received, watch_request.
  pose proof (watch_request_impl_rest (synchronizer self) (TInit now) (unique_digest h) (timeouts self)) as E.
  destruct (watch_request_impl _ _ _ _) as [sy ts]. apply same_stops_calm in E as [E1 E2].
  split; try done; cbn; auto with bft. intros Hl. by apply log_ok_insert.
Qed.

Lemma watch_forwarded_rest rs : forall (sy : Synchronizer O) now ts (l : Log S O),
  Forall (fun s => request_ok (header s) (message s)) rs ->
  let '(sy', _, l') := watch_forwarded_requests (P := P) sy now rs ts l in
  same_stops sy sy' /\ (log_ok l -> log_ok l').
Proof.
  unfold watch_forwarded_requests.
  induction rs as [|r rs IH]; intros sy now ts l Hrs; cbn [foldl]; [done|].
  apply Forall_cons in Hrs as [Hr Hrs].
  destruct (watch_request_impl_rest sy (TimedOutOnce now) (unique_digest (header r)) ts) as (E1 & E2 & E3).
  destruct (watch_request_impl _ _ _ _) as [sy1 ts1]. cbn [fst] in *.
  specialize (IH sy1 now ts1 (insert (P := P) l (header r) (Request (message r))) Hrs).
  destruct (foldl _ _ rs) as [[sy2 ts2] l2]. destruct IH as ((F1 & F2 & F3) & F4).
  unfold same_stops. split_and!; [congruence..|]. intros Hl. by apply F4, log_ok_insert.
Qed.

Lemma quiet_forwarded self now rs : Forall (fun s => request_ok (header s) (message s)) rs ->
  quiet self (forwarded_requests_received self now rs).
Proof.
  intros Hrs. unfold forwarded_requests_received.
  pose proof (watch_forwarded_rest rs (synchronizer self) now (timeouts self) (log self) Hrs) as E.
  destruct (watch_forwarded_requests _ _ _ _ _) as [[sy ts] l]. destruct E as [[E1 E2]%same_stops_calm E3].
  split; try done; cbn; auto with bft.
Qed.

(** *** Replies, state transfer and checkpoints *)

Lemma send_replies_others batch : forall n n' : Node S O P, send_replies n batch = Done n' ->
  sent_others n n'.
Proof.
  induction batch as [|r batch IH]; intros n n'; cbn; [intros [= <-]; auto with bft|].
  returned_as [n1 d] eqn:E. intros Hr. eapply sent_others_trans; [by eapply send_others|by apply IH].
Qed.

Lemma quiet_execution_finished self batch self' : execution_finished self batch = Done self' ->
  quiet self self'.
Proof.
  unfold execution_finished. returned_as n eqn:E. intros [= <-].
  apply send_replies_others in E. by split.
Qed.

Lemma cst_sent_others (c c' : CollabStateTransfer S O) progress (sy : Synchronizer O) co l
    (n n' : Node S O P) st :
  cst_process_message c progress sy co l n = Done (st, c', n') -> cst_idle c -> sent_others n n'.
Proof.
  intros Hr Hi.
  assert (Hrep : forall c0 h m c1 n1, process_reply_state c0 h m sy l n = Done (c1, n1) -> sent_others n n1).
  { intros c0 h m c1 n1. unfold process_reply_state. destruct (snapshot _ _); [|intros [= <- <-]; auto with bft].
    destruct (send _ _ _) as [[n2 d]|] eqn:E; [|discriminate]. intros [= <- <-]. by eapply send_others. }
  unfold cst_idle in Hi. unfold cst_process_message in Hr.
  destruct (cst_phase c) as [|h m|i|i] eqn:Ep; try done.
  - destruct progress as [|h m]; [apply done_inj3 in Hr as (_ & _ & <-); auto with bft|].
    unfold process_init in Hr. destruct (cst_kind m).
    + destruct (send _ _ _) as [[n2 d]|] eqn:E; [|discriminate]. apply done_inj3 in Hr as (_ & _ & <-).
      by eapply send_others.
    + apply done_inj3 in Hr as (_ & _ & <-). auto with bft.
    + destruct (process_reply_state c h m sy l n) as [[c1 n1]|] eqn:E; [|discriminate].
      apply done_inj3 in Hr as (_ & _ & <-). by eapply Hrep.
    + apply done_inj3 in Hr as (_ & _ & <-). auto with bft.
  - destruct (process_reply_state _ _ _ _ _ _) as [[c1 n1]|] eqn:E; [|discriminate].
    apply done_inj3 in Hr as (_ & _ & <-). by eapply Hrep.
Qed.

Lemma quiet_run_cst self progress st self' : run_cst self progress = Done (st, self') ->
  cst_idle (cst self) -> quiet self self'.
Proof.
  unfold run_cst. intros Hr Hi.
  destruct (cst_process_message _ _ _ _ _ _) as [[[st1 c] n]|] eqn:E; [|discriminate].
  injection Hr as <- <-. pose proof (cst_sent_others _ _ _ _ _ _ _ _ _ E Hi).
  apply cst_idle_process in E as [_ Hc]; [|done]. by split.
Qed.

Lemma log_ok_checkpoint l appstate : log_ok l -> log_ok (finalize_checkpoint l appstate).1.
Proof.
  apply log_ok_same; unfold finalize_checkpoint, complete_checkpoint;
    destruct (checkpoint l); cbn; try done; by destruct (last _).
Qed.

Lemma quiet_appstate self batch appstate self' r : cst_idle (cst self) ->
  execution_finished_with_appstate self batch appstate = Done (self', r) -> quiet self self'.
Proof.
  intros Hc. unfold execution_finished_with_appstate.
  pose proof (log_ok_checkpoint (log self) appstate) as Hl.
  destruct (finalize_checkpoint (log self) appstate) as [l res]. cbn [fst] in Hl.
  assert (Q : quiet self (set_log self l)) by (split; auto with bft).
  destruct res as [u|e]; [|by intros [= <- <-]].
  returned_as s1 eqn:E1. apply quiet_execution_finished in E1.
  destruct (needs_checkpoint (cst s1)).
  - returned_as [st s2] eqn:E2. intros [= <- <-]. apply quiet_run_cst in E2; [|by apply E1].
    eauto using quiet_trans.
  - intros [= <- <-]. eauto using quiet_trans.
Qed.

(** *** Timeouts and connections *)

Lemma filter_none {A : Type} (p : A -> bool) (l : list A) : (forall x, x ∈ l -> p x = false) ->
  List.filter p l = [].
Proof.
  induction l as [|x l IH]; intros Hp; [done|]. cbn. rewrite (Hp x) by set_solver. apply IH. set_solver.
Qed.

Lemma client_timed_out_rest (sy : Synchronizer O) now seq ts :
  timely sy now (Ok (Timeout (TimeoutClientRequests seq))) ->
  let '(st, sy', _) := client_requests_timed_out sy now seq ts in
  same_stops sy sy' /\ match st with RequestsTimedOut _ stopped => stopped = [] | _ => st = SNil end.
Proof.
  intros Ht. unfold client_requests_timed_out. destruct (negb (watching_timeouts sy) || _); [done|].
  split; [done|].
  rewrite (filter_none (fun e => stops (timeout_dur sy) now e.2)); [done|].
  intros [d ph] Hin. apply (Ht d), elem_of_map_to_list. by rewrite <- map_iter_perm.
Qed.

Lemma quiet_timeout self now k self' : cst_idle (cst self) -> timely (synchronizer self) now (Ok (Timeout k)) ->
  timeout_received self now k = Done self' -> quiet self self'.
Proof.
  intros Hc Ht. unfold timeout_received. destruct k as [seq|seq].
  - rewrite timed_out_idle by done. intros [= <-]. split; auto with bft.
  - pose proof (client_timed_out_rest (synchronizer self) now seq (timeouts self) Ht) as E.
    destruct (client_requests_timed_out _ _ _ _) as [[st sy] ts]. destruct E as [[E1 E2]%same_stops_calm Est].
    assert (Q : quiet self (set_timeouts (set_sync self sy) ts)) by (split; auto with bft).
    destruct st as [| | | |forwarded stopped]; try (by intros [= <-]). subst stopped.
    set (s1 := set_timeouts (set_sync self sy) ts) in *.
    set (r1 := match forwarded with [] => _ | _ => _ end).
    destruct r1 as [s2|] eqn:Er; [|discriminate]. cbn [obind]. intros [= <-].
    apply (quiet_trans _ s1); [done|].
    unfold r1 in Er. destruct forwarded; [injection Er as <-; auto with bft|].
    destruct (forward_requests _ _ _) as [n|] eqn:Ef; [|discriminate]. injection Er as <-.
    unfold forward_requests in Ef. revert Ef. returned_as [n1 dg] eqn:Eb. intros [= <-].
    apply broadcast_others in Eb; [|done]. by split.
Qed.

Lemma quiet_other self now m self' : cst_idle (cst self) -> timely (synchronizer self) now (Ok m) ->
  other_message self now m = Done self' -> quiet self self'.
Proof.
  intros Hc Hp. unfold other_message. destruct m; try discriminate; try by apply quiet_timeout.
  - intros [= <-]. split; auto. unfold sent_others, handle_connected_tx. cbn.
    split; [done|]. exists []. by rewrite app_nil_r.
  - returned_as nd eqn:En. intros [= <-]. split; auto. apply handle_connected_rx_outbox in En as [E1 E2].
    split; [done|]. exists []. by rewrite app_nil_r.
Qed.

(** *** View change messages that do not start a view change *)

Lemma queue_stop_calm (t : SyncTbo O) h m : Forall (fun m => stop_ok (header m) (message m)) (concat (q_stop t)) ->
  stop_ok h m -> Forall (fun m => stop_ok (header m) (message m)) (concat (q_stop (stbo_queue t h m))).
Proof.
  intros Hq Hm. unfold stbo_queue, stop_ok in *. destruct (vc_kind m) eqn:Ek; [|done..].
  cbn [q_stop queue_stop].
  destruct (concat_queue_message (next (view_seq (s_view_info t))) (q_stop t) (mkStored h m)) as [E| ->]; [|done].
  rewrite E. apply Forall_app. split; [done|]. apply Forall_singleton. cbn. by rewrite Ek.
Qed.

(** The queue is signalled after a message has been processed. *)
Lemma calm_sync_queue sy h m : calm sy -> stop_ok h m -> calm (sync_signal (sync_queue sy h m)).
Proof.
  intros [] Hm. split; try done.
  - cbn. by apply queue_stop_calm.
  - unfold sync_queue, stbo_queue, view. by destruct (vc_kind m).
Qed.

Lemma calm_sync_signal sy : calm sy -> calm (sync_signal sy).
Proof. by intros []. Qed.

(** One more STOP is still at most [f]. *)
Lemma calm_stop sy i h (rs : list (StoredMessage (RequestMessage O))) : calm sy -> s_phase sy = Stopping i ->
  hdr_from h ∈ stoppers -> stopped sy !! hdr_from h = None ->
  i + 1 <= params_f (params (view sy)) /\
  calm (set_s_phase (set_stopped sy (<[hdr_from h := rs]> (stopped sy))) (Stopping (i + 1))).
Proof.
  intros [Hc Hs Hq Hg Hf] Ep Hh Hn. rewrite Ep in Hc.
  assert (Hsz : size (<[hdr_from h := rs]> (stopped sy)) = Datatypes.S (size (stopped sy)))
    by (by rewrite map_size_insert_None).
  assert (Hd : dom (<[hdr_from h := rs]> (stopped sy)) ⊆ stoppers) by (rewrite dom_insert_L; set_solver).
  apply subseteq_size in Hd as Hle. rewrite size_dom, Hsz in Hle. split; [lia|].
  split; try done. cbn. rewrite Hsz. lia.
Qed.

Lemma calm_status sy i : calm sy -> s_phase sy = Stopping i -> stop_status sy i = SNil.
Proof.
  intros [Hc Hs _ _ Hf] Ep. rewrite Ep in Hc. apply subseteq_size in Hs. rewrite size_dom in Hs.
  unfold stop_status. destruct (Z.gtb_spec i (params_f (params (view sy)))); [lia|done].
Qed.

Lemma calm_sync_process sy h m now seed (env : Env (S := S) (O := O) (P := P)) st sy' env' :
  calm sy -> stop_ok h m -> sync_process_message sy h m now seed env = Done (st, sy', env') ->
  st = SNil /\ env' = env /\ view sy' = view sy /\ calm (sync_signal sy') /\
  watching sy' = watching sy /\ timeout_dur sy' = timeout_dur sy.
Proof.
  intros Hc Hm. pose proof (calm_sync_queue sy h m Hc Hm) as Hq. pose proof (calm_sync_signal sy Hc) as Hsig.
  assert (Hv : view (sync_queue sy h m) = view sy)
    by (unfold sync_queue, stbo_queue, view; by destruct (vc_kind m)).
  unfold sync_process_message. pose proof (calm_count _ Hc) as Hcnt.
  destruct (s_phase sy) as [|i|i|i| |] eqn:Ep; try done.
  - intros Hd. by apply done_inj3 in Hd as (<- & <- & <-).
  - pose proof (calm_status sy i Hc Ep) as Hst. unfold process_stopping, stop_ok in *.
    destruct (vc_kind m) eqn:Ek;
      try (rewrite Hst; intros Hd; by apply done_inj3 in Hd as (<- & <- & <-)).
    case_decide; [rewrite Hst; intros Hd; by apply done_inj3 in Hd as (<- & <- & <-)|].
    case_decide as Hin; [rewrite Hst; intros Hd; by apply done_inj3 in Hd as (<- & <- & <-)|].
    apply eq_None_not_Some in Hin.
    match goal with |- context [<[hdr_from h := ?rs]> _] =>
      destruct (calm_stop sy i h rs Hc Ep Hm Hin) as [Hle Hcalm] end.
    cbn [s_phase set_stopped]. rewrite Ep. change (view (set_stopped sy ?x)) with (view sy).
    destruct (Z.gtb_spec (i + 1) (params_f (params (view sy)))); [lia|].
    intros Hd. apply done_inj3 in Hd as (<- & <- & <-). split_and!; try done. by apply calm_sync_signal.
Qed.

Lemma quiet_run_sync self h m now seed st self' : calm (synchronizer self) -> stop_ok h m ->
  run_sync self h m now seed = Done (st, self') ->
  st = SNil /\ quiet self self' /\ log self' = log self /\
  watching (synchronizer self') = watching (synchronizer self) /\
  timeout_dur (synchronizer self') = timeout_dur (synchronizer self).
Proof.
  intros Hc Hm. unfold run_sync.
  destruct (sync_process_message _ _ _ _ _ _) as [[[st1 sy] env]|] eqn:E; [|discriminate].
  intros [= <- <-]. apply calm_sync_process in E as (-> & -> & E1 & E2 & E3 & E4); [|done..].
  split_and!; try done. split; auto with bft.
Qed.

(** The view change state machine polled from the normal phase: it takes a STOP
    from its queue and counts it. *)
Lemma quiet_sync_phase self rx now seed self' r : calm (synchronizer self) ->
  can_process_stops (s_tbo (synchronizer self)) = true ->
  update_sync_phase self rx now seed = Done (self', r) ->
  r = Ok false /\ quiet self self' /\ log self' = log self /\
  watching (synchronizer self') = watching (synchronizer self) /\
  timeout_dur (synchronizer self') = timeout_dur (synchronizer self).
Proof.
  intros Hc Hs. pose proof Hc as [C1 C2 C3 C4 C5]. pose proof (C4 Hs) as Hg.
  unfold update_sync_phase, sync_poll. rewrite Hg. cbn [negb]. unfold can_process_stops in Hs.
  set (sy := synchronizer self) in *.
  destruct (q_stop (s_tbo sy)) as [|[|x q] qs] eqn:Eq; [discriminate..|]. cbn [concat app] in C3.
  apply Forall_cons in C3 as [Cx C3].
  assert (Hp : exists ph, (match s_phase sy with SInit => Stopping 0 | p => p end) = ph /\
    calm (set_s_phase (set_s_tbo sy (mkSyncTbo (s_view_info (s_tbo sy)) true (q :: qs)
      (q_stop_data (s_tbo sy)) (q_sync (s_tbo sy)))) ph)).
  { eexists. split; [reflexivity|]. destruct (s_phase sy) as [|i| | | |]; try done; split; try done.
    cbn. by rewrite C1. }
  destruct Hp as (ph & Eph & Hcp).
  assert (Hm : forall sy1, calm sy1 -> view sy1 = view sy -> watching sy1 = watching sy ->
    timeout_dur sy1 = timeout_dur sy ->
    sync_phase_message (set_sync self sy1) (System (header x) (ViewChange (message x))) now seed = Done (self', r) ->
    r = Ok false /\ quiet self self' /\ log self' = log self /\
    watching (synchronizer self') = watching sy /\ timeout_dur (synchronizer self') = timeout_dur sy).
  { intros sy1 Hc1 V1 W1 D1. cbn [sync_phase_message]. returned_as [st s1] eqn:E.
    apply quiet_run_sync in E as (-> & Q & El & Ew & Ed); [|done..]. intros [= <- <-].
    assert (Q0 : quiet self (set_sync self sy1)) by (split; auto with bft).
    split_and!; [done|by eapply quiet_trans|done|by rewrite Ew|by rewrite Ed]. }
  destruct (s_phase sy) as [|i| | | |] eqn:Ep; try done; subst ph;
    unfold sync_extract; cbn [tbo_pop_message]; rewrite Hg; by apply Hm.
Qed.

End quiet.

(** ** The messages a replica holds *)

Section held.

Definition is_commit (m : Stored) : bool :=
  match c_kind (message m) with Commit _ => true | _ => false end.

(** The sender of a vote and what it votes on. *)
Definition vote_key (m : Stored) : NodeId * SeqNo * SeqNo :=
  (hdr_from (header m), s_seq m, s_view m).

(** COMMITs that were received, no two of them by one sender in one instance
    and view. *)
Definition counted (inbox l : list Stored) : Prop :=
  Forall (fun m => m ∈ inbox /\ is_commit m = true) l /\ NoDup (map vote_key l).

Definition waiting (inbox : list Stored) (q : list (list Stored)) : Prop :=
  Forall (fun m => m ∈ inbox /\ is_commit m = false) (concat q).

(** The messages logged in this instance and those in the queues came from the
    network. *)
Definition held (inbox : list Stored) (g : DecisionLog) (t : TboQueue) : Prop :=
  Forall (.∈ inbox) (pre_prepares g) /\ waiting inbox (q_pre_prepares t) /\
  waiting inbox (q_prepares t) /\ counted inbox (commits g ++ concat (q_commits t)).

(** A message on its way from the network or a queue to the protocol. *)
Definition in_flight (inbox : list Stored) (g : DecisionLog) (t : TboQueue) (m : Stored) : Prop :=
  m ∈ inbox /\ (is_commit m = true -> counted inbox (m :: commits g ++ concat (q_commits t))).

Lemma Forall_submseteq {A : Type} (Q : A -> Prop) (l l' : list A) : l' ⊆+ l -> Forall Q l -> Forall Q l'.
Proof. rewrite !Forall_forall. intros Hs Hf x Hx. by eapply Hf, elem_of_submseteq. Qed.

Lemma counted_submseteq inbox l l' : l' ⊆+ l -> counted inbox l -> counted inbox l'.
Proof.
  intros Hs [Hf Hn]. split; [by eapply Forall_submseteq|].
  apply submseteq_Permutation in Hs as [k Hk]. rewrite Hk, map_app in Hn. by apply NoDup_app in Hn as [? _].
Qed.

Lemma counted_perm inbox l l' : l' ≡ₚ l -> counted inbox l -> counted inbox l'.
Proof. intros Hp. apply counted_submseteq. by apply Permutation_submseteq. Qed.

Lemma counted_mono inbox new l : counted inbox l -> counted (inbox ++ new) l.
Proof.
  intros [Hf Hn]. split; [|done]. eapply Forall_impl; [exact Hf|]. cbn. set_solver.
Qed.

Lemma waiting_mono inbox new q : waiting inbox q -> waiting (inbox ++ new) q.
Proof. intros Hf. eapply Forall_impl; [exact Hf|]. cbn. set_solver. Qed.

Lemma held_mono inbox new g t : held inbox g t -> held (inbox ++ new) g t.
Proof.
  intros (A & B & C & D). split_and!; [|by apply waiting_mono..|by apply counted_mono].
  eapply Forall_impl; [exact A|]. cbn. set_solver.
Qed.

(** A COMMIT of a sender that has not been heard in the instance and view. *)
Definition fresh (inbox : list Stored) (m : Stored) : Prop :=
  is_commit m = true -> forall m', m' ∈ inbox -> is_commit m' = true -> vote_key m' <> vote_key m.

Lemma in_flight_received inbox g t m : fresh inbox m -> held inbox g t ->
  in_flight (inbox ++ [m]) g t m.
Proof.
  intros Hf (_ & _ & _ & Hc). split; [set_solver|]. intros Hm.
  destruct (counted_mono _ [m] _ Hc) as [Hin Hn]. split.
  - apply Forall_cons. split; [|done]. split; [set_solver|done].
  - cbn [map]. apply NoDup_cons. split; [|done]. intros Hk.
    apply list_elem_of_In, in_map_iff in Hk as (m' & Ek & Hm').
    destruct Hc as [Hc _]. rewrite Forall_forall in Hc. apply list_elem_of_In, Hc in Hm' as [? ?].
    by apply (Hf Hm m').
Qed.

Lemma waiting_queue inbox curr q m : m ∈ inbox -> is_commit m = false -> waiting inbox q ->
  waiting inbox (tbo_queue_message curr q m).
Proof.
  intros Hin Hm Hq. unfold waiting. destruct (concat_queue_message curr q m) as [E| ->]; [|done].
  rewrite E. apply Forall_app. split; [done|]. by apply Forall_singleton.
Qed.

Lemma held_queue inbox g t h m : in_flight inbox g t (mkStored h m) -> held inbox g t ->
  held inbox g (tboq_queue t h m).
Proof.
  intros [Hin Hm] (A & B & C & D). unfold tboq_queue, is_commit in *. cbn [message] in Hm.
  destruct (c_kind m) as [ds|d|d] eqn:Ek;
    unfold held; cbn [q_pre_prepares q_prepares q_commits queue_pre_prepare queue_prepare queue_commit];
    split_and!; try done.
  - apply waiting_queue; [done| |done]. unfold is_commit. cbn. by rewrite Ek.
  - apply waiting_queue; [done| |done]. unfold is_commit. cbn. by rewrite Ek.
  - destruct (concat_queue_message (curr_seq t) (q_commits t) (mkStored h m)) as [E|E]; [|by rewrite E].
    eapply counted_perm; [|by apply Hm]. rewrite E, app_assoc. by rewrite Permutation_app_comm.
Qed.

Lemma held_logged inbox g t b m : in_flight inbox g t m -> held inbox g t -> held inbox (logged b g m) t.
Proof.
  intros [Hin Hm] (A & B & C & D). destruct b; [|by split_and!]. unfold logged, push_consensus, is_commit in *.
  destruct (c_kind (message m)); split_and!; cbn; try done.
  - apply Forall_app. split; [done|]. by apply Forall_singleton.
  - eapply counted_perm; [|by apply Hm]. rewrite <- app_assoc. cbn. by rewrite Permutation_middle.
Qed.

(** What is left of the queues after a step. *)
Definition drained (t t' : TboQueue) : Prop :=
  concat (q_pre_prepares t') ⊆+ concat (q_pre_prepares t) /\
  concat (q_prepares t') ⊆+ concat (q_prepares t) /\ concat (q_commits t') ⊆+ concat (q_commits t).

Lemma held_drained inbox g g' t t' : Forall (.∈ inbox) (pre_prepares g') -> commits g' ⊆+ commits g ->
  drained t t' -> held inbox g t -> held inbox g' t'.
Proof.
  intros Hg Hc (D1 & D2 & D3) (A & B & C & D). split_and!; [done|by eapply Forall_submseteq..|].
  eapply counted_submseteq; [|exact D]. by apply submseteq_app.
Qed.

Lemma drained_next t : drained t (next_instance_queue t).
Proof. split_and!; apply concat_advance. Qed.

Section poll.
Context {S O : Type} `{HashFn, RandomState, !OrderedMap Digest}.

(** A poll takes at most one message out of a queue and hands it out. *)
Definition handed (inbox : list Stored) (g : DecisionLog) (st : ConsensusPollStatus) (t : TboQueue)
  : Prop :=
  held inbox g t /\ forall h m, st = NextMessage h m -> in_flight inbox g t (mkStored h m).

Lemma extract_shape c on_msg rsp q put st c' : extract_msg c on_msg rsp q put = (st, c') ->
  (exists h m q', st = NextMessage h m /\ concat q = mkStored h m :: concat q' /\
     exists b, tbo c' = put q' b) \/
  (st = rsp /\ tbo c' = put q false).
Proof.
  unfold extract_msg. destruct (tbo_pop_message q) as [[[h m]|] q'] eqn:Eq; intros [= <- <-].
  - left. exists h, m, q'. split_and!; [done|by apply concat_pop|by eexists].
  - right. by apply pop_none in Eq as ->.
Qed.

Lemma handed_extract inbox g c on_msg rsp q put st c' (t : TboQueue) :
  extract_msg c on_msg rsp q put = (st, c') -> held inbox g t -> (forall h m, rsp <> NextMessage h m) ->
  (forall b, put q b = mkTbo (curr_seq t) b (q_pre_prepares t) (q_prepares t) (q_commits t)) ->
  (forall h m q' b, concat q = mkStored h m :: concat q' ->
     held inbox g (put q' b) /\ in_flight inbox g (put q' b) (mkStored h m)) ->
  handed inbox g st (tbo c').
Proof.
  intros He Hh Hrsp Hput Hpop.
  apply extract_shape in He as [(h & m & q' & -> & Eq & b & ->)|[-> ->]].
  - destruct (Hpop h m q' b Eq) as [X1 X2]. split; [done|]. by intros h' m' [= <- <-].
  - rewrite Hput. split; [exact Hh|]. intros h m Hx. by apply Hrsp in Hx.
Qed.

Lemma waiting_pop inbox q q' h m : waiting inbox q -> concat q = mkStored h m :: concat q' ->
  waiting inbox q' /\ mkStored h m ∈ inbox /\ is_commit (mkStored h m) = false.
Proof. unfold waiting. intros Hw E. rewrite E in Hw. apply Forall_cons in Hw. tauto. Qed.

Lemma counted_pop inbox g q q' x : counted inbox (commits g ++ concat q) -> concat q = x :: concat q' ->
  counted inbox (x :: commits g ++ concat q') /\ counted inbox (commits g ++ concat q') /\ x ∈ inbox.
Proof.
  intros Hc E. rewrite E in Hc. apply (counted_perm _ _ (x :: commits g ++ concat q')) in Hc;
    [|apply Permutation_middle]. split_and!; [done| |].
  - eapply counted_submseteq; [|exact Hc]. by apply submseteq_cons.
  - destruct Hc as [Hc _]. by apply Forall_cons in Hc as [[? _] _].
Qed.

Lemma handed_poll inbox g c (l : Log S O) st c' : poll c l = (st, c') -> held inbox g (tbo c) ->
  handed inbox g st (tbo c').
Proof.
  intros Hp Hh. pose proof Hh as (A & B & C & D).
  assert (Hid : forall st0, (forall h m, st0 <> NextMessage h m) -> (st0, c) = (st, c') ->
    handed inbox g st (tbo c')).
  { intros st0 Hst [= <- <-]. split; [done|]. intros h m Hx. by apply Hst in Hx. }
  assert (Hnc : forall t x, x ∈ inbox -> is_commit x = false -> in_flight inbox g t x)
    by (intros t x ? ?; split; [done|congruence]).
  unfold poll in Hp. destruct (phase c);
    try (destruct (get_queue (tbo c)); [|eapply Hid; [|exact Hp]; done]);
    [..|destruct (missing_requests _); [|injection Hp as <- <-; by split]| |].
  1, 2: eapply (handed_extract _ _ _ _ _ _ _ _ _ (tbo c)); [exact Hp|done..|];
    intros h m q' b Eq; apply (waiting_pop inbox) in Eq as (? & ? & ?); [split; [by split_and!|auto]|done].
  3: eapply (handed_extract _ _ _ _ _ _ _ _ _ (tbo c)); [exact Hp|done..|];
    intros h m q' b Eq; apply (counted_pop inbox g) in Eq as (? & ? & ?); [|done];
    split; [by split_and!|by split].
  all: eapply (handed_extract _ _ _ _ _ _ _ _ _ (tbo c)); [exact Hp|done..|];
    intros h m q' b Eq; apply (waiting_pop inbox) in Eq as (? & ? & ?); [split; [by split_and!|auto]|done].
Qed.

End poll.

End held.

(** ** The invariant of a replica *)

Section local.
Context {S O P : Type} `{HashFn, SigScheme, RandomState, !OrderedMap Digest, !OrderedMapLaws Digest,
  !SharedData S O P}.
Implicit Type self : Replica S O P.
Context (content : Digest -> NodeId * O) (stoppers : gset NodeId) (vw : ViewInfo) (seq0 : SeqNo).

(** The number of the [k]-th instance. *)
Definition nth_seq (k : nat) : SeqNo := Nat.iter k next seq0.

(** The history of the instances a replica has left, the messages it has logged
    in the running one, and its node when it entered it. *)
Record Ghost := mkGhost {
  gh_hist : list Decision;
  gh_log : DecisionLog;
  gh_node : Node S O P
}.
Implicit Type γ : Ghost.

(** The update a digest stands for, and the batch of a decision. *)
Definition update_for (d : Digest) : Update O := mkUpdate (content d).1 d (content d).2.

Definition executes (req : ExecutionRequest S O) (dec : Decision) : Prop :=
  request_batch req = Some (map update_for (dec_batch dec)).

(** The decision of the [k]-th instance rests on received messages: the
    PRE-PREPARE of the batch and COMMITs of a quorum of different senders. *)
Definition backed (inbox : list Stored) (k : nat) (dec : Decision) : Prop :=
  (exists pp, pp ∈ inbox /\ s_digest pp = dec_digest dec /\
     c_kind (message pp) = PrePrepare (dec_batch dec)) /\
  Forall (commit_for (nth_seq k) (view_seq vw) (dec_digest dec)) (dec_votes dec) /\
  Z.of_nat (length (dec_votes dec)) = quorum (params vw) /\
  Forall (.∈ inbox) (dec_votes dec) /\ NoDup (senders (dec_votes dec)).

Definition local_of γ self : Local (S := S) (O := O) (P := P) :=
  mkLocal (consensus self) (with_declog (log self) (gh_log γ)) (r_peer self).

Record local_ok (inbox : list Stored) γ self : Prop := mkLocalOk {
  lo_phase : r_phase self = NormalPhase;
  lo_calm : calm stoppers (synchronizer self);
  lo_cst : cst_idle (cst self);
  lo_view : view (synchronizer self) = vw;
  lo_log : log_ok content (log self);
  lo_seq : instance self = nth_seq (length (gh_hist γ));
  lo_queue : Forall2 executes (e_queue (executor self)) (gh_hist γ);
  lo_inst : inst_inv vw (instance self) (log_new 0) (gh_node γ) (local_of γ self);
  lo_held : held inbox (gh_log γ) (tbo (consensus self));
  lo_backed : forall k dec, gh_hist γ !! k = Some dec -> backed inbox k dec
}.

(** The COMMITs a replica may have sent: those for the decisions in its history
    and those sent since it entered the running instance. *)
Definition claimed γ self (m : ConsensusMessage) : Prop :=
  exists d, c_kind m = Commit d /\
    ((exists k dec, gh_hist γ !! k = Some dec /\ c_seq m = nth_seq k /\ dec_digest dec = d) \/
     m ∈ ballots (drop (length (outbox (gh_node γ))) (outbox (r_peer self)))).

(** What a replica sends while it stays in its view. *)
Definition no_view_change (m : SystemMessage S O P) : Prop :=
  match m with ViewChange _ => False | _ => True end.
Abbreviation not_stop := (fun t : SendTask S O P => no_view_change (t_message t)).

(** A step sends messages, but no STOP; what was claimed remains so, and the
    COMMITs among the messages are claimed. *)
Definition moves γ self γ' self' : Prop :=
  exists new, outbox (r_peer self') = outbox (r_peer self) ++ new /\ Forall not_stop new /\
    node_id (r_peer self') = node_id (r_peer self) /\
    (forall m, claimed γ self m -> claimed γ' self' m) /\
    (forall m d, m ∈ omap consensus_of new -> c_kind m = Commit d -> claimed γ' self' m).

Lemma moves_refl γ self : moves γ self γ self.
Proof. exists []. rewrite app_nil_r. split_and!; try done. cbn. set_solver. Qed.

Lemma moves_trans γ1 s1 γ2 s2 γ3 s3 : moves γ1 s1 γ2 s2 -> moves γ2 s2 γ3 s3 -> moves γ1 s1 γ3 s3.
Proof.
  intros (n1 & A1 & A0 & A2 & A3 & A4) (n2 & B1 & B0 & B2 & B3 & B4). exists (n1 ++ n2).
  split_and!; [by rewrite B1, A1, app_assoc|by apply Forall_app|congruence|auto|].
  intros m d. rewrite omap_app, elem_of_app. intros [Hm|Hm]; eauto.
Qed.

(** Steps within an instance only send. *)
Lemma moves_within γ self self' new s l0 x : inst_inv vw s l0 (gh_node γ) x -> r_node x = r_peer self ->
  outbox (r_peer self') = outbox (r_peer self) ++ new -> Forall not_stop new ->
  node_id (r_peer self') = node_id (r_peer self) -> moves γ self γ self'.
Proof.
  intros (_ & _ & own & Ho & _) Hx Hn Hns Hid. rewrite Hx in Ho. exists new.
  assert (E : drop (length (outbox (gh_node γ))) (outbox (r_peer self)) = own)
    by (by rewrite Ho, drop_app_length).
  assert (E' : drop (length (outbox (gh_node γ))) (outbox (r_peer self')) = own ++ new)
    by (by rewrite Hn, Ho, <- app_assoc, drop_app_length).
  split_and!; [done..| |].
  - intros m (d & K & [Hh|Hb]); exists d; (split; [done|]); [by left|right].
    rewrite E in Hb. rewrite E', ballots_app. set_solver.
  - intros m d Hm K. exists d. split; [done|]. right. rewrite E', ballots_app. apply elem_of_app. right.
    apply elem_of_ballots; [|done]. unfold is_vote. by rewrite K.
Qed.

Lemma inst_inv_others s l0 n0 c (l l' : Log S O) (n n' : Node S O P) : sent_others n n' ->
  declog l' = declog l -> inst_inv vw s l0 n0 (mkLocal c l n) -> inst_inv vw s l0 n0 (mkLocal c l' n').
Proof.
  intros [Hid (new & Hn & Hq)] Hl (Hs & Hi & own & Ho & Hp). cbn in Hs, Hi, Ho. 
  split; [done|]. split; [cbn; congruence|]. exists (own ++ new). split; [cbn; by rewrite Hn, Ho, app_assoc|].
  assert (Hb : ballots (own ++ new) = ballots own).
  { rewrite ballots_app. assert (E : omap consensus_of new = []); [|unfold ballots at 2; rewrite E; apply app_nil_r].
    clear Hn. induction Hq as [|t ts Ht _ IH]; [done|]. cbn. rewrite IH. unfold consensus_of.
    by destruct (t_message t). }
  apply (phase_inv_node _ _ _ _ _ _ _ n') in Hp; [|done].
  unfold phase_inv, log_extends in *. cbn in *. by rewrite Hb, Hl.
Qed.

Lemma local_ok_quiet inbox γ self self' : quiet content stoppers self self' ->
  local_ok inbox γ self -> local_ok inbox γ self' /\ moves γ self γ self'.
Proof.
  intros [Hp Q1 Q2 Q3 Q4 Q5 Q6 Q7] [L1 L2 L3 L4 L5 L6 L7 L8 L9 L10].
  assert (Hi : instance self' = instance self) by (unfold instance; by rewrite Q1).
  split; [split; auto; try congruence|].
  - rewrite Hi. unfold local_of. rewrite Q1. by eapply inst_inv_others; [..|exact L8].
  - destruct Q6 as [Hid (new & Hn & Hq)]. eapply (moves_within _ _ _ _ _ _ (local_of γ self)); try done.
    eapply Forall_impl; [exact Hq|]. intros t. cbn. by destruct (t_message t).
Qed.

Lemma local_ok_inbox inbox new γ self : local_ok inbox γ self -> local_ok (inbox ++ new) γ self.
Proof.
  intros []. split; auto using held_mono. intros k dec Hk.
  destruct (lo_backed0 k dec Hk) as ((pp & P1 & P2) & A & B & C & D).
  split_and!; try done; [exists pp; split; [set_solver|done]|].
  eapply Forall_impl; [exact C|]. cbn. set_solver.
Qed.

(** *** Polling and proposing *)

Lemma broadcast_sends (n n' : Node S O P) m ts d : broadcast n (Message.Consensus m) ts = Done (n', d) ->
  sent_more no_view_change n n'.
Proof. intros Hb. by eapply broadcast_sent. Qed.

Lemma propose_sends `{!ViewSource Sy} c ds (sy : Sy) (n : Node S O P) c' n' : propose c ds sy n = Done (c', n') ->
  sent_more no_view_change n n'.
Proof.
  unfold propose. destruct (phase c); try (intros [= <- <-]; apply sent_more_refl).
  case_decide; [intros [= <- <-]; apply sent_more_refl|]. returned_as [n1 d] eqn:Hb. intros [= <- <-].
  by eapply broadcast_sends.
Qed.

Lemma process_message_sends `{!ViewSource Sy} c h m (sy : Sy) (l : Log S O) (n : Node S O P) st c' l' n' :
  process_message c h m sy l n = Done (st, c', l', n') ->
  sent_more no_view_change n n'.
Proof.
  unfold process_message, process_pre_preparing, process_preparing, process_committing, defer, vote_prepare.
  destruct (phase c), (c_kind m); try (intros [= <- <- <- <-]; apply sent_more_refl);
    repeat (case_decide; [intros [= <- <- <- <-]; apply sent_more_refl|]).
  - returned_as c1. case_decide; cbn [obind]; [|intros [= <- <- <- <-]; apply sent_more_refl].
    destruct (broadcast _ _ _) as [[n1 dg]|] eqn:Hb; [|discriminate]. intros [= <- <- <- <-].
    by eapply broadcast_sends.
  - case_match; [|intros [= <- <- <- <-]; apply sent_more_refl]. returned_as [n1 dg] eqn:Hb.
    intros [= <- <- <- <-]. by eapply broadcast_sends.
  - case_match; [|intros [= <- <- <- <-]; apply sent_more_refl]. returned_as e.
    intros [= <- <- <- <-]. apply sent_more_refl.
Qed.

Lemma local_ok_consensus_step inbox γ self c (n : Node S O P) new : local_ok inbox γ self ->
  inst_inv vw (instance self) (log_new 0) (gh_node γ)
    (mkLocal c (with_declog (log self) (gh_log γ)) n) ->
  held inbox (gh_log γ) (tbo c) -> outbox n = outbox (r_peer self) ++ new -> Forall not_stop new ->
  node_id n = node_id (r_peer self) ->
  let self' := set_peer (set_consensus self c) n in
  local_ok inbox γ self' /\ moves γ self γ self'.
Proof.
  intros [] Hi Hh Hn Hns Hid self'. assert (Hs : instance self' = instance self) by apply Hi.
  split; [split; auto; rewrite Hs; auto|].
  by eapply (moves_within _ _ _ _ _ _ (local_of γ self)).
Qed.

Lemma local_ok_poll inbox γ self st c : local_ok inbox γ self -> poll (consensus self) (log self) = (st, c) ->
  local_ok inbox γ (set_consensus self c) /\ moves γ self γ (set_consensus self c) /\
  forall h m, st = NextMessage h m -> in_flight inbox (gh_log γ) (tbo c) (mkStored h m).
Proof.
  intros Hok Hp. destruct (handed_poll _ _ _ _ _ _ Hp (lo_held _ _ _ Hok)) as [Hh Hf].
  assert (Hi : inst_inv vw (instance self) (log_new 0) (gh_node γ)
    (mkLocal c (with_declog (log self) (gh_log γ)) (r_peer self))).
  { eapply (local_step_inv vw any_message); [|exact (lo_inst _ _ _ Hok)].
    assert (E : c = (poll (consensus self) (with_declog (log self) (gh_log γ))).2).
    { change (poll (consensus self) (with_declog (log self) (gh_log γ)))
        with (poll (consensus self) (log self)). by rewrite Hp. }
    rewrite E. apply local_poll. }
  destruct (local_ok_consensus_step inbox γ self c (r_peer self) [] Hok Hi Hh) as [A B];
    [by rewrite app_nil_r|by apply Forall_nil|done|].
  split; [exact A|]. split; [exact B|exact Hf].
Qed.

Lemma local_ok_propose inbox γ self self' : local_ok inbox γ self -> try_propose self = Done self' ->
  local_ok inbox γ self' /\ moves γ self γ self'.
Proof.
  intros Hok. unfold try_propose.
  assert (Q : quiet content stoppers self (set_log self (next_batch (log self)).2)).
  { split; auto using sent_others_refl. intros [Hd Hc]. cbn. split.
    - by apply queues_disjoint_next_batch.
    - intros d r. rewrite get_request_next_batch by done. apply Hc. }
  apply (local_ok_quiet inbox γ) in Q as [Hok1 Hm1]; [|done].
  destruct (next_batch (log self)) as [[ds|] l]; cbn [snd] in *; [|by intros [= <-]].
  returned_as [c n] eqn:Hp. intros [= <-].
  rewrite (propose_view (synchronizer _) vw) in Hp by apply Hok.
  pose proof Hp as (own & Ho & Hns)%propose_sends. pose proof Hp as (Hid & _ & _ & _ & Hc)%propose_inv.
  destruct (local_ok_consensus_step inbox γ (set_log self l) c n own Hok1) as [A B]; [| |done|done|done|].
  - eapply (local_step_inv vw any_message); [|exact (lo_inst _ _ _ Hok1)]. by apply (local_propose _ _ _ _ _ ds).
  - destruct Hc as [[_ ->]| ->]; apply Hok1.
  - split; [exact A|]. eapply moves_trans; [exact Hm1|exact B].
Qed.

Lemma try_propose_sync self self' : try_propose self = Done self' -> synchronizer self' = synchronizer self.
Proof.
  unfold try_propose. destruct (next_batch (log self)) as [[ds|] l]; [|by intros [= <-]].
  returned_as [c n]. by intros [= <-].
Qed.

(** *** Deciding *)

Lemma finalize_batch_content (l l' : Log S O) seq ds info batch : log_ok content l ->
  finalize_batch l seq ds = (l', Ok (info, batch)) ->
  batch = map update_for ds /\ log_ok content l'.
Proof.
  intros [Hd Hc] Hf. pose proof (finalize_batch_spec l seq ds Hd) as Hs. rewrite Hf in Hs.
  destruct Hs as ((_ & Hall & _) & -> & _ & Hg & Hd' & _). split.
  - clear Hf Hg. induction ds as [|d ds IH]; [done|]. cbn.
    assert (Hx : has_request l d = true) by (apply Hall; set_solver).
    apply has_request_get in Hx as [r Hr]. unfold update_of at 1. rewrite Hr. cbn.
    unfold update_for at 1. rewrite (Hc d r Hr). cbn. f_equal. apply IH. set_solver.
  - split; [done|]. intros d r. rewrite Hg. case_decide; [discriminate|]. apply Hc.
Qed.

Lemma execute_decision_ok self seq ds self' : log_ok content (log self) ->
  execute_decision self seq ds = (self', Ok tt) ->
  exists l req sy, self' = set_consensus (set_executor (set_log (set_sync self sy) l)
      (mkHandle true (e_queue (executor self) ++ [req]))) (next_instance (consensus self)) /\
    same_stops (synchronizer self) sy /\
    request_batch req = Some (map update_for ds) /\ log_ok content l.
Proof.
  intros Hl. unfold execute_decision.
  assert (Hsy : forall sy : Synchronizer O, same_stops sy (foldl unwatch_request sy ds))
    by (induction ds as [|d ds' IH]; intros sy; [done|]; cbn; apply (IH (unwatch_request sy d))).
  specialize (Hsy (synchronizer self)).
  set (sy := foldl unwatch_request (synchronizer self) ds) in *.
  destruct (finalize_batch _ _ _) as [l [[info batch]|e]] eqn:Ef; [|discriminate].
  apply finalize_batch_content in Ef as [-> Hl']; [|done].
  destruct info; unfold queue_update, queue_update_and_get_appstate;
    match goal with |- context [e_send ?ex ?req] =>
      destruct (e_send_cases ex req) as [->|[e ->]]; [|discriminate]; intros [= <-]; exists l, req, sy end;
    by split_and!.
Qed.

Lemma committing_ballots s l0 n0 (x : Local (S := S) (O := O) (P := P)) i m d :
  inst_inv vw s l0 n0 x -> phase (r_cons x) = Committing i ->
  m ∈ ballots (drop (length (outbox n0)) (outbox (r_node x))) -> c_kind m = Commit d ->
  c_seq m = s /\ d = current_digest (r_cons x).
Proof.
  intros (_ & _ & own & Ho & Hi) Hp. rewrite Ho, drop_app_length. unfold phase_inv in Hi.
  rewrite Hp in Hi. destruct Hi as (pp & ps & cs & _ & _ & _ & _ & _ & _ & ->).
  intros [Hm| ->%list_elem_of_singleton]%elem_of_app; [|by intros [= <-]].
  unfold own_prepare in Hm. case_decide; [|by apply elem_of_nil in Hm].
  apply list_elem_of_singleton in Hm as ->. discriminate.
Qed.

Lemma local_ok_decided inbox γ self h m ds c (l : Log S O) n self' : local_ok inbox γ self ->
  in_flight inbox (gh_log γ) (tbo (consensus self)) (mkStored h m) ->
  process_message (consensus self) h m vw (log self) (r_peer self) = Done (Decided ds, c, l, n) ->
  execute_decision (set_peer (set_log (set_consensus self c) l) n) (instance self) ds = (self', Ok tt) ->
  exists γ', local_ok inbox γ' self' /\ moves γ self γ' self'.
Proof.
  intros [L1 L2 L3 L4 L5 L6 L7 L8 L9 L10] Hf Hp He.
  apply process_message_ghost in Hp as (b & El & Hg & Ht).
  specialize (Hg (gh_log γ)). set (g := logged b (gh_log γ) (mkStored h m)) in *.
  destruct (process_message_inv _ _ _ _ _ _ _ _ _ _ _ _ _ L8 Hg)
    as [[? _]|(i & ds' & cs & Hph & [= <-] & -> & -> & pp & ps & (X1 & X2 & X3) & Xi & Xk & Xd & _ & _ & Xc & Xq)];
    [discriminate|]. cbn in X1, X3.
  assert (Hh : held inbox g (tbo (consensus self))) by (by apply held_logged).
  assert (Hcs : Forall (.∈ inbox) cs /\ NoDup (senders cs)).
  { destruct Hh as (_ & _ & _ & Hc). rewrite X3 in Hc. apply (counted_submseteq _ _ cs) in Hc;
      [|by apply submseteq_inserts_r]. destruct Hc as [Hc1 Hc2].
    split; [eapply Forall_impl; [exact Hc1|tauto]|]. clear -Hc2 Xc. unfold senders.
    induction cs as [|x cs IH]; [apply NoDup_nil_2|]. apply Forall_cons in Xc as [Hx Xc].
    cbn in *. apply NoDup_cons in Hc2 as [Hk Hc2]. apply NoDup_cons. split; [|by apply IH].
    intros Hin. apply Hk. apply list_elem_of_In, in_map_iff in Hin as (y & Ey & Hy).
    apply list_elem_of_In, in_map_iff. exists y. split; [|done]. rewrite Forall_forall in Xc.
    destruct (Xc y) as [[A1 A2] _]; [by apply list_elem_of_In|]. destruct Hx as [[B1 B2] _].
    unfold vote_key. congruence. }
  apply execute_decision_ok in He as (l1 & req & sy & -> & [V1 V2]%(same_stops_calm stoppers) & Hb & Hl1);
    [|subst l; eapply log_ok_same; [..|exact L5]; done].
  set (dec := mkDecision (node_id (r_peer self)) (current_digest (consensus self)) ds cs).
  exists (mkGhost (gh_hist γ ++ [dec]) declog_new (r_peer self)). split; [split|].
  - done.
  - exact (V2 L2).
  - done.
  - by etrans; [exact V1|].
  - done.
  - cbn. unfold instance. cbn. fold (instance self). rewrite L6, length_app, Nat.add_comm. done.
  - cbn. apply Forall2_app; [done|]. by apply Forall2_cons.
  - apply (starts_inv vw (next (instance self))
      (mkLocal (next_instance (with_phase (consensus self) Init)) (with_declog l1 declog_new) (r_peer self))).
    split; [done|by left].
  - eapply held_drained; [by apply Forall_nil|apply submseteq_nil_l|apply drained_next|exact Hh].
  - intros k d [Hk|[Hk Hd]]%lookup_app_Some; [by apply L10|].
    apply list_lookup_singleton_Some in Hd as [Hk0 <-].
    assert (k = length (gh_hist γ)) as -> by lia. unfold backed. rewrite <- L6.
    destruct Hcs. split_and!; try done. exists pp. split_and!; try done.
    destruct Hh as (Hh & _). rewrite X1, Forall_singleton in Hh. exact Hh. 
  - exists []. rewrite app_nil_r. split_and!; [done..| |by intros ? ? ?%elem_of_nil].
    intros m0 (d & K & [(k & d0 & Hk & Hs & Hd)|Hb0]); exists d; (split; [done|]); left.
    + exists k, d0. split_and!; [|done|done]. cbn. by apply lookup_app_l_Some.
    + exists (length (gh_hist γ)), dec. cbn. rewrite list_lookup_middle by done.
      rewrite <- L6. by destruct (committing_ballots _ _ _ _ _ _ _ L8 Hph Hb0 K) as [-> ->].
Qed.

(** *** A turn *)

Lemma local_ok_signal inbox γ self : local_ok inbox γ self ->
  let self' := set_consensus self (cons_signal (consensus self)) in
  local_ok inbox γ self' /\ moves γ self γ self'.
Proof.
  intros Hok. apply (local_ok_consensus_step inbox γ self (cons_signal (consensus self)) (r_peer self) []);
    [done| | |by rewrite app_nil_r|by apply Forall_nil|done].
  - eapply (local_step_inv vw any_message); [apply local_signal|exact (lo_inst _ _ _ Hok)].
  - apply Hok.
Qed.

Lemma local_ok_deciding inbox γ self h m c (l : Log S O) n : local_ok inbox γ self ->
  in_flight inbox (gh_log γ) (tbo (consensus self)) (mkStored h m) ->
  process_message (consensus self) h m vw (log self) (r_peer self) = Done (Deciding, c, l, n) ->
  let self' := set_peer (set_log (set_consensus self c) l) n in
  exists γ', local_ok inbox γ' self' /\ moves γ self γ' self'.
Proof.
  intros [L1 L2 L3 L4 L5 L6 L7 L8 L9 L10] Hf Hp self'.
  pose proof Hp as (new & Hn & Hns)%process_message_sends.
  pose proof Hp as (b & El & Hg & Ht)%process_message_ghost.
  specialize (Hg (gh_log γ)). set (g := logged b (gh_log γ) (mkStored h m)) in *.
  destruct (process_message_inv _ _ _ _ _ _ _ _ _ _ _ _ _ L8 Hg)
    as [[_ Hi]|(? & ? & ? & _ & ? & _)]; [|discriminate].
  assert (Hid : node_id n = node_id (r_peer self)).
  { destruct Hi as (_ & Hi & _), L8 as (_ & L8 & _). by etrans; [exact Hi|]. }
  assert (Hs : instance self' = instance self) by apply Hi.
  exists (mkGhost (gh_hist γ) g (gh_node γ)). split; [split; auto|].
  - cbn. subst l. eapply log_ok_same; [..|exact L5]; done.
  - by rewrite Hs.
  - rewrite Hs. unfold local_of. cbn. subst l. exact Hi.
  - cbn. destruct Ht as [-> | [-> ->]]; [by apply held_logged|]. by apply held_queue.
  - by apply (moves_within γ self self' new _ _ (local_of γ self) L8).
Qed.

Lemma local_ok_message inbox γ self h m self' : local_ok inbox γ self ->
  in_flight inbox (gh_log γ) (tbo (consensus self)) (mkStored h m) ->
  consensus_message self h m = Done (self', Ok tt) ->
  exists γ', local_ok inbox γ' self' /\ moves γ self γ' self'.
Proof.
  intros Hok Hf. unfold consensus_message. returned_as [[[st c] l] n] eqn:Hp.
  rewrite (process_message_view (synchronizer self) vw) in Hp by apply Hok.
  destruct st as [id| |ds]; [discriminate| |].
  - intros [= <-]. destruct (local_ok_deciding _ _ _ _ _ _ _ _ Hok Hf Hp) as (γ' & A & B).
    destruct (local_ok_signal _ _ _ A) as [C D]. exists γ'. split; [exact C|].
    by eapply moves_trans.
  - destruct (execute_decision _ _ _) as [s2 [[]|e]] eqn:He; [|discriminate]. intros [= <-].
    destruct (local_ok_decided _ _ _ _ _ _ _ _ _ _ Hok Hf Hp He) as (γ' & A & B).
    destruct (local_ok_signal _ _ _ A) as [C D]. exists γ'. split; [exact C|].
    by eapply moves_trans.
Qed.

(** The consensus message a turn takes from the network: none when the replica
    has one in its queues. *)
Definition delivered self (rx : result (Message S O P)) : list Stored :=
  match (poll (consensus self) (log self)).1, rx with
  | NextMessage _ _, _ => []
  | _, Ok (System h (Message.Consensus m)) => [mkStored h m]
  | _, _ => []
  end.

(** The STOPs that may be received. *)
Definition stops_ok (rx : result (Message S O P)) : Prop :=
  match rx with Ok (System h (ViewChange m)) => stop_ok stoppers h m | _ => True end.

(** A message other than a consensus message. *)
Lemma quiet_message self m now seed self' : calm stoppers (synchronizer self) -> cst_idle (cst self) ->
  message_ok content m -> stops_ok (Ok m) -> timely (synchronizer self) now (Ok m) ->
  (forall h c, m <> System h (Message.Consensus c)) ->
  normal_phase_message self m now seed = Done (self', Ok tt) -> quiet content stoppers self self'.
Proof.
  intros Hc Hi Hm Hs Hti Hn Ht. unfold normal_phase_message in Ht.
  destruct m as [h m|id|id|id|id|b|b a|k];
    try (revert Ht; returned_as s1 eqn:E; intros [= <-]; by eapply quiet_other).
  - destruct m as [r0|r0|m|m|m|fr]; try discriminate.
    + injection Ht as <-. by apply quiet_request.
    + by destruct (Hn h m).
    + revert Ht. unfold run_cst_idle. returned_as [st s1] eqn:E.
      pose proof E as E'. apply run_cst_idle_spec in E' as [-> _]; [|done]. intros [= <-].
      by eapply quiet_run_cst.
    + revert Ht. returned_as [st s1] eqn:E.
      apply (quiet_run_sync content stoppers) in E as (-> & Q & _); [|done..]. by intros [= <-].
    + injection Ht as <-. by apply quiet_forwarded.
  - revert Ht. returned_as s1 eqn:E. intros [= <-]. by eapply quiet_execution_finished.
  - by eapply quiet_appstate.
Qed.

Lemma local_ok_receive inbox γ self rx now seed self' : local_ok inbox γ self ->
  (forall m, rx = Ok m -> message_ok content m) -> stops_ok rx -> timely (synchronizer self) now rx ->
  let new := match rx with Ok (System h (Message.Consensus m)) => [mkStored h m] | _ => [] end in
  Forall (fresh inbox) new -> receive_normal self rx now seed = Done (self', Ok tt) ->
  exists γ', local_ok (inbox ++ new) γ' self' /\ moves γ self γ' self'.
Proof.
  intros Hok Hm Hs Hti new Hf Ht. destruct rx as [m|e]; [|discriminate]. cbn in Ht.
  assert (Hcase : (exists h c, m = System h (Message.Consensus c)) \/
    (forall h c, m <> System h (Message.Consensus c))).
  { destruct m as [h m| | | | | | |]; [destruct m|..]; try (by right). left. eauto. }
  destruct Hcase as [(h & c & ->)|Hn].
  - cbn in Ht. unfold new in Hf. rewrite Forall_singleton in Hf. eapply local_ok_message; [|..|exact Ht].
    + by apply local_ok_inbox.
    + apply in_flight_received; [done|apply Hok].
  - assert (new = []) as ->.
    { unfold new. destruct m as [h m| | | | | | |]; try done. destruct m; try done. by destruct (Hn h m). }
    rewrite app_nil_r. exists γ. eapply local_ok_quiet; [|done]. eapply quiet_message; try done;
      [apply Hok|apply Hok|by apply Hm].
Qed.

Lemma local_ok_poll_normal inbox γ self rx now seed self' : local_ok inbox γ self ->
  (forall m, rx = Ok m -> message_ok content m) -> stops_ok rx -> timely (synchronizer self) now rx ->
  Forall (fresh inbox) (delivered self rx) -> poll_normal self rx now seed = Done (self', Ok tt) ->
  exists γ', local_ok (inbox ++ delivered self rx) γ' self' /\ moves γ self γ' self'.
Proof.
  intros Hok Hm Hs Hti Hf Ht. unfold poll_normal in Ht. unfold delivered in *.
  destruct (poll (consensus self) (log self)) as [st c] eqn:Ep.
  destruct (local_ok_poll _ _ _ _ _ Hok Ep) as (Hok1 & Hm1 & Hfl). cbn [fst] in *.
  destruct st as [| |h m].
  - eapply local_ok_receive in Ht as (γ' & A & B); try done. exists γ'. split; [done|exact (moves_trans _ _ _ _ _ _ Hm1 B)].
  - revert Ht. returned_as s2 eqn:E2. intros Ht.
    destruct (local_ok_propose _ _ _ _ Hok1 E2) as [Hok2 Hm2].
    assert (Hti2 : timely (synchronizer s2) now rx) by (apply try_propose_sync in E2; by rewrite E2).
    eapply local_ok_receive in Ht as (γ' & A & B); try done. exists γ'. split; [done|].
    exact (moves_trans _ _ _ _ _ _ Hm1 (moves_trans _ _ _ _ _ _ Hm2 B)).
  - rewrite app_nil_r. cbn in Ht.
    destruct (local_ok_message inbox γ (set_consensus self c) h m self' Hok1 (Hfl h m eq_refl) Ht)
      as (γ' & A & B). exists γ'. split; [done|exact (moves_trans _ _ _ _ _ _ Hm1 B)].
Qed.

(** A turn keeps the invariant: as long as no request times out and the STOPs
    received are from [stoppers], the replica stays in its normal phase. *)
Lemma local_ok_turn inbox γ self rx_sync rx now seed self' : local_ok inbox γ self ->
  (forall m, rx = Ok m -> message_ok content m) -> stops_ok rx -> timely (synchronizer self) now rx ->
  Forall (fresh inbox) (delivered self rx) -> run_once self rx_sync rx now seed = Done (self', Ok tt) ->
  exists γ', local_ok (inbox ++ delivered self rx) γ' self' /\ moves γ self γ' self'.
Proof.
  intros Hok Hm Hs Hti Hf Ht. unfold run_once in Ht. rewrite (lo_phase _ _ _ Hok) in Ht.
  unfold update_normal_phase in Ht.
  destruct (can_process_stops _) eqn:Hcan; [|by eapply local_ok_poll_normal].
  revert Ht. returned_as [s1 q] eqn:E.
  apply (quiet_sync_phase content stoppers) in E as (-> & Q & El & Ew & Ed); [|apply Hok|done]. intros Ht.
  destruct (local_ok_quiet _ _ _ _ Q Hok) as [Hok1 Hm1].
  assert (Edl : delivered s1 rx = delivered self rx).
  { unfold delivered. by rewrite El, (quiet_consensus _ _ _ _ Q). }
  assert (Hti1 : timely (synchronizer s1) now rx) by (unfold timely in *; by rewrite Ew, Ed).
  rewrite <- Edl in *. eapply local_ok_poll_normal in Ht as (γ' & A & B); try done.
  exists γ'. split; [done|exact (moves_trans _ _ _ _ _ _ Hm1 B)].
Qed.

(** *** Starting *)

(** The consensus messages among those received while connecting. *)
Definition consensus_in (ms : list (Message S O P)) : list Stored :=
  omap (fun m => match m with System h (Message.Consensus m) => Some (mkStored h m) | _ => None end) ms.

Fixpoint all_fresh (inbox new : list Stored) : Prop :=
  match new with
  | [] => True
  | m :: new => fresh inbox m /\ all_fresh (inbox ++ [m]) new
  end.

Lemma local_ok_rogue rogue : forall inbox γ self now self', local_ok inbox γ self ->
  Forall (message_ok content) rogue -> all_fresh inbox (consensus_in rogue) ->
  handle_rogue self now rogue = Done self' ->
  local_ok (inbox ++ consensus_in rogue) γ self' /\ moves γ self γ self'.
Proof.
  induction rogue as [|m rogue IH]; intros inbox γ self now self' Hok Hm Hf Hr.
  { injection Hr as <-. rewrite app_nil_r. split; [done|apply moves_refl]. }
  apply Forall_cons in Hm as [Hm1 Hm].
  destruct m as [h m| | | | | | |]; try by eapply IH. destruct m; try discriminate.
  - apply (quiet_request content stoppers self now) in Hm1. destruct (local_ok_quiet _ _ _ _ Hm1 Hok) as [A B].
    destruct (IH _ _ _ _ _ A Hm Hf Hr) as [C D]. split; [done|exact (moves_trans _ _ _ _ _ _ B D)].
  - destruct Hf as [Hf1 Hf]. cbn in Hr.
    apply (local_ok_inbox _ [mkStored h m]) in Hok as Hok1.
    destruct (local_ok_consensus_step _ γ self (cons_queue (consensus self) h m) (r_peer self) [] Hok1)
      as [A B]; [by apply inst_inv_queue, Hok| |by rewrite app_nil_r|by apply Forall_nil|done|].
    + apply held_queue; [apply in_flight_received; [done|]|]; [apply Hok|apply Hok1].
    + destruct (IH _ _ _ _ _ A Hm Hf Hr) as [C D].
      change (consensus_in (System h (Message.Consensus m) :: rogue))
        with ([mkStored h m] ++ consensus_in rogue). rewrite app_assoc.
      split; [done|exact (moves_trans _ _ _ _ _ _ B D)].
Qed.

Lemma local_ok_bootstrap vs n f bs node rogue now self : view_new vs n f = Ok vw ->
  Z.of_nat (size stoppers) <= params_f (params vw) ->
  Forall (message_ok content) rogue -> all_fresh [] (consensus_in rogue) ->
  bootstrap vs n f seq0 bs (Ok (node, rogue)) (Ok (mkHandle true [])) now = Done (Ok self) ->
  exists γ, local_ok (consensus_in rogue) γ self.
Proof.
  intros Hv Hfew Hm Hf. unfold bootstrap. rewrite Hv. returned_as s1 eqn:E. intros [= <-].
  apply (local_ok_rogue _ [] (mkGhost [] declog_new node)) in E as [Hok _]; try done; [by eexists|].
  split; try done.
  - split; [apply queues_disjoint_new|]. intros d r Hr. exfalso. unfold get_request in Hr. cbn in Hr.
    rewrite lookup_empty in Hr. apply om_get_iter in Hr. rewrite om_iter_new in Hr. set_solver.
  - apply (starts_inv vw seq0 (mkLocal (cons_new seq0 bs) (with_declog (log_new bs) declog_new) node)).
    split; [done|by left].
  - split_and!; try (by apply Forall_nil). split; [by apply Forall_nil|apply NoDup_nil_2].
Qed.

End local.
