(* ===== verification/Liveness.v ===== *)
(** * Progress of a replica ([src/bft/core/server/mod.rs])

    That the main loop executes a proposed batch once the messages that decide
    it are in the queues or on the network, in whatever order they come: the
    consensus state machine, the queues of messages to be ordered, the log and
    the hand-over to the execution layer, composed by [run_once]. And how a
    single message of a faulty node keeps the loop busy for ever. *)

From S2P Require Import Prelude Error Ordering Prng Crypto Params Message Tbo Collections Node.
From S2P Require Import Timeouts DecLog Log Consensus Progress Sync Executor Cst Server Stable.
Local Open Scope Z_scope.
Local Open Scope bft_scope.

(** ** The loop, fed from a list of messages *)

Section serve.
Context {S O P : Type} `{HashFn, SigScheme, RandomState, !OrderedMap Digest, !SharedData S O P}.
Implicit Type self : Replica S O P.

(** The normal phase takes the next message from its own queues. *)
Definition polls_next self : bool :=
  match (poll (consensus self) (log self)).1 with
  | NextMessage _ _ => true
  | _ => false
  end.

(** Does the next turn of the loop receive a message? [None] for a turn of the
    normal phase that counts a STOP first, which may receive twice. *)
Definition awaits self : option bool :=
  match r_phase self with
  | RetrievingState => Some true
  | SyncPhase => Some (match (sync_poll (synchronizer self)).1 with SRecv => true | _ => false end)
  | NormalPhase => if can_process_stops (s_tbo (synchronizer self)) then None
                   else Some (negb (polls_next self))
  end.

(** The first [k] turns of the loop of [Replica::run], up to one that counts a
    STOP in the normal phase. A turn that receives takes the next message of
    [rx]; when there is none it waits, and the state is the one before it. *)
Fixpoint serve (k : nat) self (rx : list (Message S O P)) (now : Z) (seed : list Z)
  : outcome (Replica S O P * result unit * list (Message S O P)) :=
  match k with
  | 0%nat => Done (self, Ok tt, rx)
  | Datatypes.S k =>
    let step m rest :=
      let! '(self, r) := run_once self m m now seed in
      match r with
      | Ok _ => serve k self rest now seed
      | Err e => Done (self, Err e, rest)
      end in
    match awaits self with
    | None => Done (self, Ok tt, rx)
    | Some false => step (Err (Errors.simple "Communication")) rx
    | Some true => match rx with
                   | [] => Done (self, Ok tt, [])
                   | m :: rx => step (Ok m) rx
                   end
    end
  end.

(** Once the network is silent and the queues offer nothing, nothing changes. *)
Lemma serve_silent k j now seed self rx self' : serve k self rx now seed = Done (self', Ok tt, []) ->
  awaits self' <> Some false -> serve (k + j) self rx now seed = Done (self', Ok tt, []).
Proof.
  revert self rx. induction k as [|k IH]; intros self rx; cbn [serve Nat.add].
  - intros [= -> ->] Hn. destruct j; [done|]. cbn [serve]. by destruct (awaits self') as [[]|].
  - intros Hr Hn. destruct (awaits self) as [[]|]; [|..|done].
    + destruct rx as [|m rx]; [done|].
      destruct (run_once _ _ _ _ _) as [[s1 [[]|e]]|]; try discriminate; cbn [obind] in *. by apply IH.
    + destruct (run_once _ _ _ _ _) as [[s1 [[]|e]]|]; try discriminate; cbn [obind] in *. by apply IH.
Qed.

(** Hence what holds up to such a turn holds for ever. *)
Lemma serve_bounded K now seed self rx (g : outcome (Replica S O P * result unit * list (Message S O P)) -> bool) :
  match serve K self rx now seed with
  | Done (self', Ok _, []) => negb (bool_decide (awaits self' = Some false))
  | _ => false
  end = true ->
  forallb (fun k => g (serve k self rx now seed)) (seq 0 (Datatypes.S K)) = true ->
  forall k, g (serve k self rx now seed) = true.
Proof.
  intros Hs Hk k. rewrite forallb_forall in Hk.
  destruct (decide (k <= K)%nat) as [Hle|Hgt]; [apply Hk, in_seq; lia|].
  assert (HK : g (serve K self rx now seed) = true) by (apply Hk, in_seq; lia).
  replace k with (K + (k - K))%nat by lia.
  destruct (serve K self rx now seed) as [[[self' [[]|e]] [|m rest]]|] eqn:E; try discriminate.
  rewrite (serve_silent _ _ _ _ _ _ _ E); [done|]. by case_bool_decide.
Qed.

End serve.

(** ** Slot 0 of the queues *)

Section slots.
Context (s : SeqNo) (Hs : seq_nonneg s).

Definition slot_pp (c : Consensus) : list Stored := slot (q_pre_prepares (tbo c)) 0.
Definition slot_p (c : Consensus) : list Stored := slot (q_prepares (tbo c)) 0.
Definition slot_c (c : Consensus) : list Stored := slot (q_commits (tbo c)) 0.

(** The queue that the current phase reads. *)
Definition phase_slot (c : Consensus) : list Stored :=
  match phase c with
  | Init | PrePreparing => slot_pp c
  | PreparingRequests | Preparing _ => slot_p c
  | Committing _ => slot_c c
  end.

(** The number of messages of the running instance that are queued. *)
Definition queued (c : Consensus) : nat :=
  (length (slot_pp c) + length (slot_p c) + length (slot_c c))%nat.

Definition is_pp_kind (k : ConsensusMessageKind) : bool :=
  match k with PrePrepare _ => true | _ => false end.
Definition is_p_kind (k : ConsensusMessageKind) : bool :=
  match k with Prepare _ => true | _ => false end.
Definition is_c_kind (k : ConsensusMessageKind) : bool :=
  match k with Commit _ => true | _ => false end.

Definition of_instance (kind : ConsensusMessageKind -> bool) (m : Stored) : Prop :=
  s_seq m = s /\ kind (c_kind (message m)) = true.

(** What waits in slot 0 belongs to the instance and is of the queue's kind. *)
Record tidy (c : Consensus) : Prop := mkTidy {
  td_seq : curr_seq (tbo c) = s;
  td_pp : Forall (of_instance is_pp_kind) (slot_pp c);
  td_p : Forall (of_instance is_p_kind) (slot_p c);
  td_c : Forall (of_instance is_c_kind) (slot_c c)
}.

(** A queue that will not be looked at has nothing to offer. *)
Definition heard (c : Consensus) : Prop := get_queue (tbo c) = false -> phase_slot c = [].

Lemma slot_queue_instance (q : list (list Stored)) m : seq_nonneg (s_seq m) ->
  slot (tbo_queue_message s q m) 0 = slot q 0 ++ (if decide (s_seq m = s) then [m] else []).
Proof. exact (slot_queue_zero s q m Hs). Qed.

End slots.

(** ** Which messages are put aside *)

Section deferred.
Context {S O P Sy : Type} `{HashFn, SigScheme, RandomState, !OrderedMap Digest, !SharedData S O P,
  !ViewSource Sy}.

Definition phase_reads (p : ProtoPhase) (k : ConsensusMessageKind) : bool :=
  match p with
  | Init | PreparingRequests => false
  | PrePreparing => is_pp_kind k
  | Preparing _ => is_p_kind k
  | Committing _ => is_c_kind k
  end.

(** A message is queued when the phase does not read its kind; one that it
    reads is queued only when it belongs to another instance. *)
Lemma process_message_queues c h m (sy : Sy) (l : Log S O) (n : Node S O P) st c' l' n' :
  process_message c h m sy l n = Done (st, c', l', n') ->
  (tbo c' = tbo c /\ phase_reads (phase c) (c_kind m) = true) \/
  (c' = cons_queue c h m /\ l' = l /\ n' = n /\ st = Deciding /\
   (phase_reads (phase c) (c_kind m) = true -> c_seq m <> curr_seq (tbo c))).
Proof.
  unfold process_message, process_pre_preparing, process_preparing, process_committing, defer.
  destruct (phase c), (c_kind m) as [ds|d|d];
    try (intros [= <- <- <- <-]; right; by split_and!);
    repeat (case_decide; [intros [= <- <- <- <-]; (by left) || (right; by split_and!)|]); intros Hp; left;
    (split; [|done]); revert Hp.
  - returned_as c1 eqn:Ha. apply accept_proposal_inv in Ha as (_ & Ht & _).
    returned_as n1. by intros [= <- <- <- <-].
  - case_match; [returned_as [n1 dg]|]; by intros [= <- <- <- <-].
  - case_match; [returned_as ?|]; by intros [= <- <- <- <-].
Qed.

Lemma process_message_id c h m (sy : Sy) (l : Log S O) (n : Node S O P) st c' l' n' :
  process_message c h m sy l n = Done (st, c', l', n') -> node_id n' = node_id n.
Proof.
  unfold process_message, process_pre_preparing, process_preparing, process_committing, defer.
  destruct (phase c), (c_kind m); try (by intros [= <- <- <- <-]);
    repeat (case_decide; [by intros [= <- <- <- <-]|]).
  - returned_as c1. unfold vote_prepare. case_decide; [|by intros [= <- <- <- <-]].
    destruct (broadcast n _ _) as [[n1 dg]|] eqn:Hb; [|done]. intros [= <- <- <- <-].
    by apply broadcast_inv in Hb as (task & -> & _).
  - case_match; [|by intros [= <- <- <- <-]].
    destruct (broadcast n _ _) as [[n1 dg]|] eqn:Hb; [|done]. intros [= <- <- <- <-].
    by apply broadcast_inv in Hb as (task & -> & _).
  - case_match; [returned_as ?|]; by intros [= <- <- <- <-].
Qed.

(** Processing touches the decision log only. *)
Lemma process_message_requests c h m (sy : Sy) (l : Log S O) (n : Node S O P) st c' l' n' :
  process_message c h m sy l n = Done (st, c', l', n') ->
  exists g, l' = with_declog l g.
Proof. intros Hp. apply process_message_ghost in Hp as (b & -> & _). by eexists. Qed.

End deferred.

(** ** What is still to come *)

Section owed.
Context {S O P : Type} `{HashFn, SigScheme, RandomState, !OrderedMap Digest, !OrderedMapLaws Digest,
  !SharedData S O P}.

(** The view, the instance, and the proposal [ds] with digest [d] in it; the
    numbers of PREPAREs and COMMITs for it that the replica can count on. *)
Context (vw : ViewInfo) (s : SeqNo) (d : Digest) (ds : list Digest) (np nc : Z).

Let v : SeqNo := view_seq (view vw).
Let q : Z := quorum (params vw).
Let group_targets : list NodeId := targets (params_n (params vw)).

Implicit Type x : Local (S := S) (O := O) (P := P).

(** A PRE-PREPARE of the instance and view, and the one that is expected. *)
Definition proposes (m : Stored) : Prop :=
  s_seq m = s /\ s_view m = v /\ is_pp_kind (c_kind (message m)) = true.
Definition is_proposal (m : Stored) : bool :=
  bool_decide (message m = mkConsensus s v (PrePrepare ds) /\ hdr_digest (header m) = d).

(** A replica that waits for the proposal and could accept it. [accept_proposal]
    looks for the requests of all of [current], also of what a shorter proposal
    leaves of an earlier batch behind it, so that these must be known as well. *)
Record expecting x : Prop := mkExpecting {
  ex_missing : missing_requests (r_cons x) = [];
  ex_room : (length ds <= length (current (r_cons x)))%nat;
  ex_known : forall e, e ∈ ds ++ drop (length ds) (current (r_cons x)) -> has_request (r_log x) e = true;
  ex_connected : connected (r_node x) group_targets
}.

(** The messages that the replica can count on in the running phase and the
    later ones are in slot 0 of their queues or in [rx]. *)
Definition owed x (rx : list Stored) : Prop :=
  let c := r_cons x in
  let prepares_owed k := k <= Z.of_nat (count_if (is_prepare vw s d) (slot_p c ++ rx)) in
  let commits_owed k := k <= Z.of_nat (count_if (is_commit_vote vw s d) (slot_c c ++ rx)) in
  match phase c with
  | Init | PrePreparing =>
    expecting x /\ (forall m, m ∈ slot_pp c ++ rx -> proposes m -> is_proposal m = true) /\
    (1 <= count_if is_proposal (slot_pp c ++ rx))%nat /\ prepares_owed np /\ commits_owed nc
  | PreparingRequests => False
  | Preparing i => voting vw s d ds (Preparing i) x /\ i < q /\ prepares_owed (np + 1 - i) /\ commits_owed nc
  | Committing i => voting vw s d ds (Committing i) x /\ i < q /\ commits_owed (nc - i)
  end.

Context (Hs : seq_nonneg s) (Hq : 1 < q).
Context (Hser : forall kind, serializable (Message.Consensus (mkConsensus s v kind) : SystemMessage S O P)).

(** *** Putting a message aside *)

Lemma cons_queue_slots c h m : curr_seq (tbo c) = s -> seq_nonneg (c_seq m) ->
  let new k := if decide (c_seq m = s /\ k (c_kind m) = true) then [mkStored h m] else [] in
  slot_pp (cons_queue c h m) = slot_pp c ++ new is_pp_kind /\
  slot_p (cons_queue c h m) = slot_p c ++ new is_p_kind /\
  slot_c (cons_queue c h m) = slot_c c ++ new is_c_kind.
Proof.
  intros Hc Hm new. unfold slot_pp, slot_p, slot_c, cons_queue, tboq_queue, new.
  destruct (c_kind m) as [e|e|e] eqn:Ek; cbn [tbo with_tbo q_pre_prepares q_prepares q_commits
      queue_pre_prepare queue_prepare queue_commit is_pp_kind is_p_kind is_c_kind];
    rewrite Hc, (slot_queue_instance s Hs _ (mkStored h m)) by done;
    change (s_seq (mkStored h m)) with (c_seq m);
    split_and!; try (rewrite (decide_False (P := _ /\ false = true)) by (by intros [_ ?]);
                     by rewrite app_nil_r);
    (destruct (decide (c_seq m = s)); [rewrite decide_True by done|rewrite decide_False by tauto]; done).
Qed.

Lemma tidy_queue c h m : tidy s c -> seq_nonneg (c_seq m) -> tidy s (cons_queue c h m).
Proof.
  intros [T1 T2 T3 T4] Hm. destruct (cons_queue_slots c h m T1 Hm) as (E1 & E2 & E3).
  assert (Hnew : forall k, Forall (of_instance s k)
    (if decide (c_seq m = s /\ k (c_kind m) = true) then [mkStored h m] else [])).
  { intros k. destruct (decide (c_seq m = s /\ k (c_kind m) = true)) as [Hk|]; [apply Forall_singleton; exact Hk|by apply Forall_nil]. }
  destruct (cons_queue_rest c h m) as (t & Et & Ec & _).
  split; [rewrite Et; cbn; congruence|rewrite ?E1, ?E2, ?E3; apply Forall_app; split; [done|apply Hnew]..].
Qed.

Lemma queued_queue c h m : curr_seq (tbo c) = s -> seq_nonneg (c_seq m) ->
  (queued (cons_queue c h m) <= queued c + 1)%nat.
Proof.
  intros Hc Hm. destruct (cons_queue_slots c h m Hc Hm) as (E1 & E2 & E3). unfold queued.
  rewrite E1, E2, E3, !length_app. destruct (c_kind m); cbn [is_pp_kind is_p_kind is_c_kind];
    repeat (case_decide; cbn [length]); lia || naive_solver.
Qed.

(** A message that is put aside moves from [rx] to its queue. *)
Lemma count_queue kind (p : Stored -> bool) q' (q0 : list Stored) h m rx :
  (p (mkStored h m) = true -> c_seq m = s /\ kind (c_kind m) = true) ->
  q' = q0 ++ (if decide (c_seq m = s /\ kind (c_kind m) = true) then [mkStored h m] else []) ->
  count_if p (q' ++ rx) = count_if p (q0 ++ mkStored h m :: rx) /\
  forall m', m' ∈ q' ++ rx -> m' ∈ q0 ++ mkStored h m :: rx.
Proof.
  intros Hp ->. rewrite !count_if_app, count_if_cons.
  destruct (p (mkStored h m)) eqn:E.
  - rewrite decide_True by auto. unfold count_if. cbn [List.filter]. rewrite E. cbn [length].
    split; [lia|]. intros m'. set_solver.
  - split; [|intros m'; destruct (decide _); set_solver].
    destruct (decide _); unfold count_if; cbn [List.filter length]; rewrite ?E; cbn [length]; lia.
Qed.

Lemma is_prepare_kind m : is_prepare vw s d m = true -> s_seq m = s /\ is_p_kind (c_kind (message m)) = true.
Proof. unfold is_prepare, s_seq. by intros ->%bool_decide_eq_true. Qed.
Lemma is_commit_kind m : is_commit_vote vw s d m = true ->
  s_seq m = s /\ is_c_kind (c_kind (message m)) = true.
Proof. unfold is_commit_vote, s_seq. by intros ->%bool_decide_eq_true. Qed.
Lemma is_proposal_kind m : is_proposal m = true ->
  s_seq m = s /\ is_pp_kind (c_kind (message m)) = true.
Proof. unfold is_proposal, s_seq. by intros [-> _]%bool_decide_eq_true. Qed.

Lemma owed_queue c l n h m rx : tidy s c -> seq_nonneg (c_seq m) ->
  owed (mkLocal c l n) (mkStored h m :: rx) -> owed (mkLocal (cons_queue c h m) l n) rx.
Proof.
  intros [Tc _ _ _] Hm. destruct (cons_queue_slots c h m Tc Hm) as (E1 & E2 & E3).
  destruct (cons_queue_rest c h m) as (t & Et & _).
  apply (count_queue _ is_proposal _ _ _ _ rx (is_proposal_kind (mkStored h m))) in E1 as [E1 F1].
  apply (count_queue _ (is_prepare vw s d) _ _ _ _ rx (is_prepare_kind (mkStored h m))) in E2 as [E2 _].
  apply (count_queue _ (is_commit_vote vw s d) _ _ _ _ rx (is_commit_kind (mkStored h m))) in E3 as [E3 _].
  unfold owed. cbn [r_cons]. replace (phase (cons_queue c h m)) with (phase c) by (by rewrite Et).
  rewrite E1, E2, E3.
  assert (Hx : expecting (mkLocal c l n) -> expecting (mkLocal (cons_queue c h m) l n))
    by (rewrite Et; by intros []).
  destruct (phase c); try done.
  - intros (A & B & C). split_and!; [auto|auto|apply C..].
  - intros (A & B & C). split_and!; [auto|auto|apply C..].
  - intros (A & B). split; [by eapply voting_queue|done].
  - intros (A & B). split; [by eapply voting_queue|done].
Qed.

(** *** One message *)

(** The queues after a message: one that the phase reads leaves them alone. *)
Lemma queues_step c h m l (n : Node S O P) st c' (l' : Log S O) n' : tidy s c -> seq_nonneg (c_seq m) ->
  process_message c h m vw l n = Done (st, c', l', n') ->
  tidy s c' /\ (queued c' <= queued c + 1)%nat /\
  (phase_reads (phase c) (c_kind m) = true -> c_seq m = s -> queued c' = queued c).
Proof.
  intros Ht Hm Hp. apply process_message_queues in Hp as [[E _]|(-> & _ & _ & _ & Hr)].
  - assert (Eq : queued c' = queued c) by (unfold queued, slot_pp, slot_p, slot_c; by rewrite E).
    destruct Ht as [T1 T2 T3 T4]. rewrite Eq. split; [|split; [lia|done]].
    split; unfold slot_pp, slot_p, slot_c in *; by rewrite E.
  - split; [by apply tidy_queue|]. split; [by apply queued_queue; [apply Ht|]|].
    intros Hk Hc. apply Hr in Hk. destruct Hk. by rewrite (td_seq _ _ Ht).
Qed.

Lemma count_skip (p : Stored -> bool) m (q0 rx : list Stored) : p m = false ->
  count_if p (q0 ++ m :: rx) = count_if p (q0 ++ rx).
Proof. intros E. by rewrite !count_if_app, count_if_cons, E. Qed.

Lemma owed_skip x m rx : is_proposal m = false -> is_prepare vw s d m = false ->
  is_commit_vote vw s d m = false -> owed x (m :: rx) -> owed x rx.
Proof.
  intros E1 E2 E3. unfold owed. rewrite !count_skip by done. destruct (phase (r_cons x)); try done.
  all: intros (A & B & C); split_and!; [done| |apply C..]; intros m' Hm'; apply B; set_solver.
Qed.

Lemma owed_prepreparing x m rx : phase (r_cons x) = PrePreparing -> tidy s (r_cons x) ->
  seq_nonneg (s_seq m) -> owed x (m :: rx) ->
  exists x', process_message (r_cons x) (header m) (message m) vw (r_log x) (r_node x)
             = Done (Deciding, r_cons x', r_log x', r_node x') /\ owed x' rx.
Proof.
  destruct x as [c l n], m as [h [sq vv kind]]. cbn [r_cons r_log r_node header message].
  intros Hph Ht Hm Ho. pose proof Ht as [Tc _ _ _]. set (m := mkConsensus sq vv kind) in *.
  assert (Hdef : process_message c h m vw l n = defer c h m l n ->
    exists x', process_message c h m vw l n = Done (Deciding, r_cons x', r_log x', r_node x') /\ owed x' rx).
  { intros E. exists (mkLocal (cons_queue c h m) l n). split; [exact E|by apply owed_queue]. }
  destruct kind as [ds'|d'|d'] eqn:Ek; [|apply Hdef; unfold process_message; by rewrite Hph..].
  destruct (decide (vv = v)) as [Hv|Hv].
  2: { exists (mkLocal c l n). split.
       - unfold process_message. rewrite Hph. unfold process_pre_preparing. cbn. by rewrite decide_True.
       - apply (owed_skip _ (mkStored h m)); [..|done]; apply bool_decide_eq_false;
           unfold m; cbn; [intros [[= ? ?] _]|intros [= ?]..]; done. }
  destruct (decide (sq = s)) as [Hsq|Hsq].
  2: { apply Hdef. unfold process_message. rewrite Hph. unfold process_pre_preparing. cbn.
       rewrite decide_False by tauto. by rewrite decide_True by congruence. }
  unfold owed in Ho. cbn [r_cons] in Ho. rewrite Hph in Ho.
  destruct Ho as ([X1 X2 X3 X4] & Hu & _ & Hp & Hc).
  assert (Hpr : is_proposal (mkStored h m) = true) by (apply Hu; [set_solver|by split_and!]).
  apply bool_decide_eq_true in Hpr as [Em Ed]. cbn [message header] in Em, Ed. rewrite Em in *.
  destruct (proposal_accepted (S := S) (O := O) (P := P) vw s d ds Hser (mkLocal c l n) h) as (x' & E & Hx); try done.
  exists x'. split; [exact E|]. cbn [r_cons r_log r_node] in E.
  apply process_message_queues in E as [[Et _]|(_ & _ & _ & _ & Hn)];
    [|destruct Hn; [by rewrite Hph|by rewrite Tc]].
  unfold owed. rewrite (vt_phase _ _ _ _ _ _ Hx). unfold slot_p, slot_c in *. rewrite Et.
  rewrite count_skip in Hp, Hc by (by apply bool_decide_eq_false). split_and!; [done|lia|lia|lia].
Qed.

(** The queues are as they were, or the message was put aside. *)
Lemma owed_kept x x' m rx st : tidy s (r_cons x) -> seq_nonneg (s_seq m) -> owed x (m :: rx) ->
  process_message (r_cons x) (header m) (message m) vw (r_log x) (r_node x)
    = Done (st, r_cons x', r_log x', r_node x') ->
  (tbo (r_cons x') = tbo (r_cons x) /\ phase_reads (phase (r_cons x)) (c_kind (message m)) = true) \/
  (st = Deciding /\ owed x' rx).
Proof.
  destruct x as [c l n], x' as [c' l' n'], m as [h m]. cbn [r_cons r_log r_node header message].
  intros Ht Hm Ho [E|(-> & -> & -> & -> & _)]%process_message_queues; [by left|].
  right. split; [done|by apply owed_queue].
Qed.

Lemma owed_preparing x i m rx : phase (r_cons x) = Preparing i -> tidy s (r_cons x) ->
  seq_nonneg (s_seq m) -> owed x (m :: rx) ->
  exists x', process_message (r_cons x) (header m) (message m) vw (r_log x) (r_node x)
             = Done (Deciding, r_cons x', r_log x', r_node x') /\ owed x' rx.
Proof.
  intros Hph Ht Hm Ho. pose proof Ho as Ho'. unfold owed in Ho'. rewrite Hph in Ho'.
  destruct Ho' as (Hv & Hi & Hp & Hc).
  destruct (preparing_step (S := S) (O := O) (P := P) vw s d ds Hser i x m Hv) as (x' & E & Hx).
  exists x'. split; [exact E|].
  destruct (owed_kept x x' m rx Deciding Ht Hm Ho E) as [[Et Hr]|[_ ?]]; [|done].
  assert (Hnc : is_commit_vote vw s d m = false).
  { destruct (is_commit_vote vw s d m) eqn:Ec; [|done]. apply is_commit_kind in Ec as [_ Ec].
    rewrite Hph in Hr. by destruct (c_kind (message m)). }
  rewrite count_skip in Hc by done. rewrite count_if_app, count_if_cons in Hp.
  change (quorum (params (view vw))) with q in Hx.
  unfold owed. rewrite (vt_phase _ _ _ _ _ _ Hx). unfold slot_p, slot_c in *. rewrite Et.
  destruct (is_prepare vw s d m); [|rewrite count_if_app; split_and!; [exact Hx|done|lia..]].
  destruct (Z.eqb_spec (i + 1) q); [|rewrite count_if_app]; split_and!; try exact Hx; lia.
Qed.

Lemma owed_committing x j m rx : phase (r_cons x) = Committing j -> tidy s (r_cons x) ->
  seq_nonneg (s_seq m) -> owed x (m :: rx) ->
  exists st x', process_message (r_cons x) (header m) (message m) vw (r_log x) (r_node x)
                = Done (st, r_cons x', r_log x', r_node x') /\
    ((st = Decided ds /\ has_prepared vw s d (r_node x') /\ has_committed vw s d (r_node x')) \/
     (st = Deciding /\ owed x' rx)).
Proof.
  intros Hph Ht Hm Ho. pose proof Ho as Ho'. unfold owed in Ho'. rewrite Hph in Ho'.
  destruct Ho' as (Hv & Hj & Hc).
  destruct (committing_step (S := S) (O := O) (P := P) vw s d ds j x m Hv) as (st & x' & E & Hx).
  exists st, x'. split; [exact E|].
  destruct (owed_kept x x' m rx st Ht Hm Ho E) as [[Et Hr]|?]; [|by right].
  rewrite count_if_app, count_if_cons in Hc. change (quorum (params (view vw))) with q in Hx.
  destruct (is_commit_vote vw s d m); cbn [andb] in Hx.
  - destruct (Z.eqb_spec (j + 1) q); [by left|]. destruct Hx as [-> Hx]. right. split; [done|].
    unfold owed. rewrite (vt_phase _ _ _ _ _ _ Hx). unfold slot_c in *. rewrite Et, count_if_app.
    split_and!; [exact Hx|lia..].
  - destruct Hx as [-> Hx]. right. split; [done|].
    unfold owed. rewrite (vt_phase _ _ _ _ _ _ Hx). unfold slot_c in *. rewrite Et, count_if_app.
    split_and!; [exact Hx|done|lia].
Qed.

(** A message is counted, put aside or ignored, and what is still needed is
    still to come; or it decides the proposal. *)
Lemma owed_step x m rx : tidy s (r_cons x) -> seq_nonneg (s_seq m) -> owed x (m :: rx) ->
  exists st x', process_message (r_cons x) (header m) (message m) vw (r_log x) (r_node x)
                = Done (st, r_cons x', r_log x', r_node x') /\
    ((st = Decided ds /\ has_prepared vw s d (r_node x') /\ has_committed vw s d (r_node x')) \/
     (st = Deciding /\ owed x' rx)).
Proof.
  intros Ht Hm Ho. destruct (phase (r_cons x)) as [| | |i|i] eqn:Hph.
  - destruct x as [c l n], m as [h m]. exists Deciding, (mkLocal (cons_queue c h m) l n). cbn in *. split.
    + unfold process_message. by rewrite Hph.
    + right. split; [done|by apply owed_queue].
  - destruct (owed_prepreparing x m rx Hph Ht Hm Ho) as (x' & E & ?). exists Deciding, x'. auto.
  - unfold owed in Ho. by rewrite Hph in Ho.
  - destruct (owed_preparing x i m rx Hph Ht Hm Ho) as (x' & E & ?). exists Deciding, x'. auto.
  - exact (owed_committing x i m rx Hph Ht Hm Ho).
Qed.

Lemma owed_signal c l n rx : owed (mkLocal c l n) rx -> owed (mkLocal (cons_signal c) l n) rx.
Proof.
  unfold owed. cbn [r_cons]. change (phase (cons_signal c)) with (phase c).
  destruct (phase c); try done; intros (X & Ho); (split; [destruct X; by split|exact Ho]).
Qed.

Lemma owed_log c l l' n rx : (forall e, has_request l e = true -> has_request l' e = true) ->
  owed (mkLocal c l n) rx -> owed (mkLocal c l' n) rx.
Proof.
  intros Hr. unfold owed. cbn [r_cons]. destruct (phase c); try done; intros (X & Ho);
    (split; [destruct X; split; cbn in *; auto|exact Ho]).
Qed.

(** *** Polling *)

(** A message taken from its queue is as good as one still to be received. *)
Lemma owed_pop c l n t ph m rx : curr_seq t = curr_seq (tbo c) ->
  (ph = phase c \/ (phase c = Init /\ ph = PrePreparing)) ->
  let c' := with_phase (with_tbo c t) ph in
  slot_pp c ⊆+ m :: slot_pp c' -> slot_p c ⊆+ m :: slot_p c' -> slot_c c ⊆+ m :: slot_c c' ->
  (phase c = Init \/ phase c = PrePreparing -> forall y, y ∈ m :: slot_pp c' -> y ∈ slot_pp c) ->
  owed (mkLocal c l n) rx -> owed (mkLocal c' l n) (m :: rx).
Proof.
  intros Hc Hph c' H1' H2' H3' Hin.
  assert (Hcnt : forall p (q1 q2 : list Stored), q1 ⊆+ m :: q2 ->
    (count_if p (q1 ++ rx) <= count_if p (q2 ++ m :: rx))%nat).
  { intros p q1 q2 Hsub. apply count_if_submseteq. rewrite <- Permutation_middle.
    exact (submseteq_app _ _ _ _ Hsub (reflexivity rx)). }
  apply (Hcnt is_proposal) in H1'. apply (Hcnt (is_prepare vw s d)) in H2'.
  apply (Hcnt (is_commit_vote vw s d)) in H3'.
  assert (Hw : forall p, phase c' = p -> voting vw s d ds p (mkLocal c l n) ->
    voting vw s d ds p (mkLocal c' l n)).
  { intros p Hp [A B C D E]. split; try done. cbn in *. congruence. }
  assert (Hu : phase c = Init \/ phase c = PrePreparing ->
    (forall y, y ∈ slot_pp c ++ rx -> proposes y -> is_proposal y = true) ->
    forall y, y ∈ slot_pp c' ++ m :: rx -> proposes y -> is_proposal y = true).
  { intros Hi Hall y Hy. apply Hall. specialize (Hin Hi y). set_solver. }
  assert (Hx : expecting (mkLocal c l n) -> expecting (mkLocal c' l n)) by (by intros []).
  unfold owed. cbn [r_cons]. change (phase c') with ph.
  destruct (phase c) eqn:Ec, Hph as [-> |[He ->]]; try done; cbn -[slot_pp slot_p slot_c].
  1, 2, 3: intros (A & B & C & D & E); split_and!; [auto|apply Hu; auto|lia..].
  all: intros (A & B & C); split_and!; [by apply Hw|lia..].
Qed.

Lemma slot0_pop (q0 q1 : list (list Stored)) m : tbo_pop_message q0 = (Some m, q1) ->
  slot q0 0 = m :: slot q1 0.
Proof. intros E. by rewrite (slot_pop _ _ _ E 0). Qed.

(** The next message of the phase's queue, which belongs to the instance. *)
Definition hands_out c (l : Log S O) : Prop := exists m c',
  poll c l = (NextMessage (header m) (message m), c') /\ tidy s c' /\
  phase_reads (phase c') (c_kind (message m)) = true /\ s_seq m = s /\
  queued c = (queued c' + 1)%nat /\
  forall n rx, owed (mkLocal c l n) rx -> owed (mkLocal c' l n) (m :: rx).

(** Nothing in the phase's queue: the replica receives. *)
Definition runs_dry c (l : Log S O) : Prop := exists t,
  poll c l = (match phase c with Init => TryProposeAndRecv | _ => Recv end, with_tbo c t) /\
  phase_slot c = [] /\ curr_seq t = curr_seq (tbo c) /\ q_pre_prepares t = q_pre_prepares (tbo c) /\
  q_prepares t = q_prepares (tbo c) /\ q_commits t = q_commits (tbo c).

Lemma hands_out_pp c l m q1 : phase c = Init \/ phase c = PrePreparing -> tidy s c ->
  get_queue (tbo c) = true -> tbo_pop_message (q_pre_prepares (tbo c)) = (Some m, q1) -> hands_out c l.
Proof.
  intros Hph [T1 T2 T3 T4] Hg Hp. pose proof (slot0_pop _ _ _ Hp) as E.
  set (t := mkTbo (curr_seq (tbo c)) (get_queue (tbo c)) q1 (q_prepares (tbo c)) (q_commits (tbo c))).
  assert (Ep : slot_pp c = m :: slot_pp (with_phase (with_tbo c t) PrePreparing)) by exact E.
  pose proof T2 as T2'. rewrite Ep in T2'. apply Forall_cons in T2' as [[M1 M2] T2'].
  exists m, (with_phase (with_tbo c t) PrePreparing). split_and!; [|by split|done..| |].
  - unfold poll. destruct Hph as [-> | ->]; rewrite Hg; unfold extract_pre_prepare, extract_msg; by rewrite Hp.
  - unfold queued. rewrite Ep. cbn [length]. unfold slot_p, slot_c, t. cbn. lia.
  - intros n rx. apply owed_pop; [done|by destruct Hph as [-> | ->]; auto|by rewrite Ep|by apply submseteq_cons..|].
    intros _ y. by rewrite Ep.
Qed.

Lemma hands_out_p c l i m q1 : phase c = Preparing i -> tidy s c ->
  get_queue (tbo c) = true -> tbo_pop_message (q_prepares (tbo c)) = (Some m, q1) -> hands_out c l.
Proof.
  intros Hph [T1 T2 T3 T4] Hg Hp. pose proof (slot0_pop _ _ _ Hp) as E.
  set (t := mkTbo (curr_seq (tbo c)) (get_queue (tbo c)) (q_pre_prepares (tbo c)) q1 (q_commits (tbo c))).
  assert (Ep : slot_p c = m :: slot_p (with_phase (with_tbo c t) (Preparing i))) by exact E.
  pose proof T3 as T3'. rewrite Ep in T3'. apply Forall_cons in T3' as [[M1 M2] T3'].
  exists m, (with_phase (with_tbo c t) (Preparing i)). split_and!; [|by split|done..| |].
  - unfold poll. rewrite Hph, Hg. unfold extract_prepare, extract_msg. by rewrite Hp.
  - unfold queued. rewrite Ep. cbn [length]. unfold slot_pp, slot_c, t. cbn. lia.
  - intros n rx. apply owed_pop; [done|by left|by apply submseteq_cons|by rewrite Ep|by apply submseteq_cons|].
    intros [?|?]; congruence.
Qed.

Lemma hands_out_c c l i m q1 : phase c = Committing i -> tidy s c ->
  get_queue (tbo c) = true -> tbo_pop_message (q_commits (tbo c)) = (Some m, q1) -> hands_out c l.
Proof.
  intros Hph [T1 T2 T3 T4] Hg Hp. pose proof (slot0_pop _ _ _ Hp) as E.
  set (t := mkTbo (curr_seq (tbo c)) (get_queue (tbo c)) (q_pre_prepares (tbo c)) (q_prepares (tbo c)) q1).
  assert (Ep : slot_c c = m :: slot_c (with_phase (with_tbo c t) (Committing i))) by exact E.
  pose proof T4 as T4'. rewrite Ep in T4'. apply Forall_cons in T4' as [[M1 M2] T4'].
  exists m, (with_phase (with_tbo c t) (Committing i)). split_and!; [|by split|done..| |].
  - unfold poll. rewrite Hph, Hg. unfold extract_commit, extract_msg. by rewrite Hp.
  - unfold queued. rewrite Ep. cbn [length]. unfold slot_pp, slot_p, t. cbn. lia.
  - intros n rx. apply owed_pop; [done|by left|by apply submseteq_cons..|by rewrite Ep|].
    intros [?|?]; congruence.
Qed.

Lemma with_tbo_id c : with_tbo c (tbo c) = c.
Proof. by destruct c. Qed.

Lemma poll_live c l : phase c <> PreparingRequests -> tidy s c -> heard c ->
  hands_out c l \/ runs_dry c l.
Proof.
  intros Hph Ht Hh. unfold heard in Hh. destruct (get_queue (tbo c)) eqn:Hg.
  2: { right. exists (tbo c). specialize (Hh eq_refl). split_and!; try done.
       unfold poll. rewrite with_tbo_id, Hg. by destruct (phase c). }
  clear Hh. destruct (phase c) as [| | |i|i] eqn:Ep; [..|done| |].
  1, 2: destruct (tbo_pop_message (q_pre_prepares (tbo c))) as [[m|] q1] eqn:Hp;
    [left; eapply hands_out_pp; eauto|].
  3: destruct (tbo_pop_message (q_prepares (tbo c))) as [[m|] q1] eqn:Hp;
    [left; eapply hands_out_p; eauto|].
  4: destruct (tbo_pop_message (q_commits (tbo c))) as [[m|] q1] eqn:Hp;
    [left; eapply hands_out_c; eauto|].
  all: right; pose proof (tbo_pop_none _ _ Hp) as [-> He];
    eexists (mkTbo _ false _ _ _); split_and!;
    [unfold poll, extract_pre_prepare, extract_prepare, extract_commit, extract_msg;
     rewrite Ep, Hg, Hp; reflexivity|unfold phase_slot; rewrite Ep; exact He|done..].
Qed.

End owed.

(** ** Turns of the loop *)

Section turns.
Context {S O P : Type} `{HashFn, SigScheme, RandomState, !OrderedMap Digest, !OrderedMapLaws Digest,
  !SharedData S O P}.

Context (vw : ViewInfo) (s : SeqNo) (d : Digest) (ds : list Digest) (np nc : Z).
Context (me : NodeId) (q0 : list (ExecutionRequest S O)).

Let v : SeqNo := view_seq (view vw).
Let q : Z := quorum (params vw).

Implicit Type self : Replica S O P.

Definition local_state self : Local (S := S) (O := O) (P := P) :=
  mkLocal (consensus self) (log self) (r_peer self).

(** Replica [me] in its normal phase, able to execute the batch once decided;
    [q0] is what it has handed to the execution layer so far. *)
Record settled self : Prop := mkSettled {
  se_phase : r_phase self = NormalPhase;
  se_stops : can_process_stops (s_tbo (synchronizer self)) = false;
  se_view : view (synchronizer self) = vw;
  se_disjoint : queues_disjoint (log self);
  se_checkpoint : in_progress (checkpoint (log self)) = false;
  se_requests : forall e, e ∈ ds -> has_request (log self) e = true;
  se_executor : executor self = mkHandle true q0;
  se_id : node_id (r_peer self) = me;
  se_tidy : tidy s (consensus self)
}.

(** The replica has voted in both rounds, the batch is handed to the execution
    layer and the next instance begins. *)
Definition executed self : Prop :=
  r_phase self = NormalPhase /\ instance self = next s /\ phase (consensus self) = Init /\
  node_id (r_peer self) = me /\ has_prepared vw s d (r_peer self) /\ has_committed vw s d (r_peer self) /\
  exists req batch, executor self = mkHandle true (q0 ++ [req]) /\ request_batch req = Some batch /\
    map u_digest batch = ds.

Definition ready self (rx : list Stored) : Prop :=
  settled self /\ heard (consensus self) /\ owed vw s d ds np nc (local_state self) rx.

Context (Hs : seq_nonneg s) (Hq : 1 < q) (Hds : NoDup ds).
Context (Hser : forall kind, serializable (Message.Consensus (mkConsensus s v kind) : SystemMessage S O P)).

Lemma decided_phase c h m (sy : ViewInfo) (l : Log S O) (n : Node S O P) e c' l' n' :
  process_message c h m sy l n = Done (Decided e, c', l', n') -> phase c' = Init /\ tbo c' = tbo c.
Proof.
  intros Hp. split; [|apply process_message_queues in Hp as [[? _]|(_ & _ & _ & ? & _)]; done].
  unfold process_message, process_pre_preparing, process_preparing, process_committing, defer in Hp.
  destruct (phase c), (c_kind m); try discriminate; repeat (case_decide; [discriminate|]); revert Hp.
  - returned_as c1. by returned_as n1.
  - case_match; [by returned_as [n1 dg]|done].
  - case_match; [|done]. returned_as e'. by intros [= <- <- <- <-].
Qed.

Lemma update_of_digests (l : Log S O) : (forall e, e ∈ ds -> has_request l e = true) ->
  map u_digest (omap (update_of l) ds) = ds.
Proof.
  clear Hds. induction ds as [|e es IH]; intros Hall; [done|]. cbn [omap list_omap].
  assert (He : has_request l e = true) by (apply Hall; set_solver).
  apply has_request_get in He as [r Hr]. unfold update_of at 1. rewrite Hr. cbn. f_equal.
  apply IH. set_solver.
Qed.

Lemma decision_executed self : r_phase self = NormalPhase -> queues_disjoint (log self) ->
  in_progress (checkpoint (log self)) = false -> (forall e, e ∈ ds -> has_request (log self) e = true) ->
  executor self = mkHandle true q0 -> instance self = s -> phase (consensus self) = Init ->
  node_id (r_peer self) = me -> has_prepared vw s d (r_peer self) -> has_committed vw s d (r_peer self) ->
  exists self', execute_decision self s ds = (self', Ok tt) /\ executed self'.
Proof.
  intros Hp Hd Hc Hr He Hi Hph Hid Hv1 Hv2. unfold execute_decision. cbn [log set_sync].
  pose proof (finalize_batch_spec (log self) s ds Hd) as Hf.
  destruct (finalize_batch (log self) s ds) as [l [[info batch]|e]].
  2: { destruct Hf. split_and!; [done..|]. rewrite Hc. apply andb_false_r. }
  destruct Hf as [_ [Hb _]]. apply (f_equal (map u_digest)) in Hb. rewrite update_of_digests in Hb by done.
  cbn [executor set_log set_sync]. rewrite He.
  destruct info; cbn; (eexists; split; [reflexivity|]); (split_and!; [done| |done|exact Hid|exact Hv1|exact Hv2|]);
    try (by unfold instance in *; cbn; rewrite Hi); eexists _, batch; by split_and!.
Qed.

(** A consensus message, from the network or from a queue. *)
Lemma consensus_turn self m rx : settled self -> seq_nonneg (s_seq m) ->
  owed vw s d ds np nc (local_state self) (m :: rx) ->
  exists self', consensus_message self (header m) (message m) = Done (self', Ok tt) /\
    (executed self' \/
     (ready self' rx /\ (queued (consensus self') <= queued (consensus self) + 1)%nat /\
      (phase_reads (phase (consensus self)) (c_kind (message m)) = true -> s_seq m = s ->
       queued (consensus self') = queued (consensus self)))).
Proof.
  intros [S1 S2 S3 S4 S5 S6 S7 Sid S8] Hm Ho.
  destruct (owed_step vw s d ds np nc Hs Hq Hser (local_state self) m rx S8 Hm Ho) as (st & [c' l' n'] & E & Hst).
  cbn [local_state r_cons r_log r_node] in E. unfold consensus_message.
  rewrite (process_message_view (synchronizer self) vw) by (by rewrite S3). rewrite E. cbn [obind].
  destruct (process_message_requests _ _ _ _ _ _ _ _ _ _ E) as [g ->].
  pose proof (process_message_id _ _ _ _ _ _ _ _ _ _ E) as Hid. rewrite Sid in Hid.
  destruct Hst as [(-> & Hv1 & Hv2)|[-> Ho']].
  - destruct (decided_phase _ _ _ _ _ _ _ _ _ _ E) as [Hph Ht].
    set (self1 := set_peer _ _).
    destruct (decision_executed self1) as (self2 & Hx & X1 & X2 & X3 & X4 & X5 & X6 & X7); try done.
    + unfold instance, self1. cbn. rewrite Ht. apply S8.
    + replace (curr_seq (tbo (consensus self))) with s by (symmetry; apply S8).
      rewrite Hx. eexists. split; [reflexivity|]. left. by split_and!.
  - destruct (queues_step vw s Hs _ _ _ _ _ _ _ _ _ S8 Hm E) as (Ht & Hq1 & Hq2).
    eexists. split; [reflexivity|]. right. split_and!; [|done..].
    split_and!; [destruct Ht; split; try done; by split|done|].
    by apply owed_signal.
Qed.

(** A client request. *)
Lemma ready_request self now h (r : RequestMessage O) rx : ready self rx ->
  ready (request_received self now h r) rx /\
  consensus (request_received self now h r) = consensus self.
Proof.
  intros ([S1 S2 S3 S4 S5 S6 S7 Sid S8] & Hh & Ho). unfold request_received, watch_request.
  pose proof (watch_request_impl_rest (synchronizer self) (TInit now) (unique_digest h) (timeouts self)) as Hst.
  pose proof (proj1 (same_stops_calm ∅ _ _ Hst)) as E1. destruct Hst as (_ & _ & E3).
  destruct (watch_request_impl _ _ _ _) as [sy ts]. cbn [fst] in *. split; [|done].
  assert (Hr : forall e, has_request (log self) e = true ->
    has_request (insert (S := S) (P := P) (log self) h (Request r)) e = true).
  { intros e. rewrite !has_request_get, get_request_insert. by case_decide. }
  pose proof (queues_disjoint_insert (P := P) (log self) h (Request r) S4) as Hd.
  split_and!; [|done|].
  - split; cbn -[view insert]; try congruence; auto.
  - by apply (owed_log vw s d ds np nc _ (log self)).
Qed.

(** How far the messages that it can count on take a replica. *)
Definition advanced self : Prop :=
  node_id (r_peer self) = me /\ has_prepared vw s d (r_peer self) /\
  (q - 1 <= np -> has_committed vw s d (r_peer self)) /\
  (q - 1 <= np -> q <= nc -> False).

Lemma owed_nil self : settled self -> owed vw s d ds np nc (local_state self) [] -> phase_slot (consensus self) = [] ->
  advanced self.
Proof.
  intros [_ _ _ _ _ _ _ Hid _]. unfold owed, phase_slot. cbn [r_cons local_state].
  destruct (phase (consensus self)); [..|done| |]; rewrite ?app_nil_r; intros Ho E; rewrite E in Ho.
  1, 2: destruct Ho as (_ & _ & Ho & _); cbn in Ho; lia.
  - destruct Ho as ([_ _ _ _ _ Hp _] & Hi & Ho & _). cbn [count_if List.filter length] in Ho.
    split_and!; [exact Hid|exact Hp|intros ?; exfalso; lia|intros ?; lia].
  - destruct Ho as ([_ _ _ _ _ Hp Hc] & Hi & Ho). cbn in Ho.
    split_and!; [exact Hid|exact Hp|intros _; exact Hc|intros ? ?; lia].
Qed.

Lemma owed_deciding (x : Local (S := S) (O := O) (P := P)) rx : owed vw s d ds np nc x rx ->
  phase (r_cons x) <> PreparingRequests.
Proof. unfold owed. by destruct (phase (r_cons x)). Qed.

(** The poll of a turn that receives changes nothing that matters. *)
Lemma ready_dry self t rx : ready self rx -> phase_slot (consensus self) = [] ->
  curr_seq t = curr_seq (tbo (consensus self)) ->
  q_pre_prepares t = q_pre_prepares (tbo (consensus self)) ->
  q_prepares t = q_prepares (tbo (consensus self)) -> q_commits t = q_commits (tbo (consensus self)) ->
  let self' := set_consensus self (with_tbo (consensus self) t) in
  ready self' rx /\ queued (consensus self') = queued (consensus self).
Proof.
  intros ([S1 S2 S3 S4 S5 S6 S7 Sid [T1 T2 T3 T4]] & Hh & Ho) Hp E1 E2 E3 E4 self'.
  set (c' := with_tbo (consensus self) t).
  assert (Hpp : slot_pp c' = slot_pp (consensus self)) by (unfold slot_pp, c'; cbn; by rewrite E2).
  assert (Hpr : slot_p c' = slot_p (consensus self)) by (unfold slot_p, c'; cbn; by rewrite E3).
  assert (Hco : slot_c c' = slot_c (consensus self)) by (unfold slot_c, c'; cbn; by rewrite E4).
  split; [|unfold queued; cbn [consensus self' set_consensus]; fold c'; by rewrite Hpp, Hpr, Hco].
  assert (Hsl : phase_slot c' = phase_slot (consensus self))
    by (unfold phase_slot; change (phase c') with (phase (consensus self)); by rewrite Hpp, Hpr, Hco).
  split_and!.
  - split; try done. split; cbn [consensus self' set_consensus]; fold c'; rewrite ?Hpp, ?Hpr, ?Hco; try done.
    cbn. congruence.
  - intros _. cbn [consensus self' set_consensus]. fold c'. congruence.
  - unfold owed in *. cbn [local_state r_cons consensus self' set_consensus] in *. fold c'.
    rewrite Hpp, Hpr, Hco. change (phase c') with (phase (consensus self)).
    destruct (phase (consensus self)); try done; destruct Ho as (X & Ho);
      (split; [destruct X; split; try done; cbn; congruence|exact Ho]).
Qed.

(** A replica that could not take a message from its queue may propose. *)
Lemma ready_propose self rx : phase (consensus self) = Init -> ready self rx ->
  exists self', try_propose self = Done self' /\
    ready self' rx /\ queued (consensus self') = queued (consensus self).
Proof.
  intros Hph ([S1 S2 S3 S4 S5 S6 S7 Sid S8] & Hh & Ho). unfold try_propose.
  pose proof (queues_disjoint_next_batch (log self) S4) as Hd.
  assert (Hr : forall e, has_request (log self) e = true -> has_request (snd (next_batch (log self))) e = true)
    by (intros e; rewrite !has_request_get; by rewrite get_request_next_batch).
  assert (Hc : checkpoint (snd (next_batch (log self))) = checkpoint (log self))
    by (rewrite next_batch_state; by destruct (om_pop_front _) as [[[? ?] ?]|]).
  destruct (next_batch (log self)) as [batch l]; cbn [snd] in *.
  apply (owed_log vw s d ds np nc _ _ l) in Ho; [|done].
  destruct batch as [es|].
  2: { eexists. split; [reflexivity|]. split; [|done]. split_and!; [split; auto; cbn; congruence|done..]. }
  assert (Hn : exists n', propose (consensus self) es (synchronizer self) (r_peer self)
    = Done (with_phase (consensus self) PrePreparing, n') /\ peer_tx n' = peer_tx (r_peer self) /\
      node_id n' = node_id (r_peer self)).
  { rewrite (propose_view (synchronizer self) vw) by (by rewrite S3). unfold propose. rewrite Hph.
    case_decide; [by eexists|]. unfold owed in Ho. cbn [r_cons] in Ho. rewrite Hph in Ho.
    destruct Ho as ([_ _ _ X4] & _). unfold forge. cbn [tbo with_phase]. rewrite (td_seq _ _ S8).
    fold v.
    change (targets (params_n (params (view vw)))) with (targets (params_n (params vw))).
    destruct (broadcast_done (r_peer self) _ (targets (params_n (params vw))) X4 (Hser (PrePrepare es)))
      as (task & dg & E & _).
    rewrite E. by eexists. }
  destruct Hn as (n' & E & Hn1 & Hn2). cbn [consensus synchronizer r_peer set_log] in *. rewrite E. cbn [obind].
  eexists. split; [reflexivity|]. split; [|done].
  split_and!; [split; auto; cbn; try congruence; destruct S8; by split|..].
  - intros Hg. specialize (Hh Hg). unfold phase_slot in *. rewrite Hph in Hh. exact Hh.
  - unfold owed in *. cbn [r_cons local_state consensus set_peer set_consensus] in *. rewrite Hph in Ho.
    destruct Ho as ([X1 X2 X3 X4] & Ho). split; [|exact Ho]. split; try done.
    unfold connected in *. cbn [r_node r_peer local_state set_peer] in *. by rewrite Hn1, Hn2.
Qed.

(** The messages considered: client requests, and consensus messages whose
    number is not negative. A negative number may be an alias of the running
    instance, with which the loop makes no progress (below). *)
Definition ordinary (m : Message S O P) : Prop :=
  match m with
  | System _ (Request _) => True
  | System _ (Message.Consensus m) => seq_nonneg (c_seq m)
  | _ => False
  end.

Lemma run_once_poll self rx_sync rx now seed : settled self ->
  run_once self rx_sync rx now seed = poll_normal self rx now seed.
Proof. intros []. unfold run_once, update_normal_phase. by rewrite se_phase0, se_stops0. Qed.

(** A turn that takes a message from a queue. *)
Lemma turn_next self r1 r2 now seed rx : ready self rx -> polls_next self = true ->
  (1 <= queued (consensus self))%nat /\
  exists self', run_once self r1 r2 now seed = Done (self', Ok tt) /\
    (executed self' \/
     (ready self' rx /\ (queued (consensus self') < queued (consensus self))%nat)).
Proof.
  intros (Hse & Hh & Ho) Hn. rewrite run_once_poll by done. unfold poll_normal. unfold polls_next in Hn.
  pose proof Hse as [S1 S2 S3 S4 S5 S6 S7 Sid S8].
  destruct (poll_live vw s d ds np nc Hs Hq Hser (consensus self) (log self) (owed_deciding (local_state self) rx Ho) S8 Hh)
    as [(m & c' & E & Ht & Hk & Hm & Hq' & Ho')|(t & E & _)]; rewrite E in *.
  2: { by destruct (phase (consensus self)). }
  apply Ho' in Ho. cbn [normal_phase_message]. split; [lia|].
  destruct (consensus_turn (set_consensus self c') m rx) as (self' & E' & Hx).
  - by split.
  - by rewrite Hm.
  - exact Ho.
  - exists self'. split; [exact E'|]. destruct Hx as [?|(R & _ & Hl)]; [by left|right]. split; [done|].
    rewrite (Hl Hk Hm). cbn. lia.
Qed.

(** One message from the network. *)
Lemma turn_message self m rx now seed : ready self (consensus_in (m :: rx)) -> ordinary m ->
  exists self', normal_phase_message self m now seed = Done (self', Ok tt) /\
    (executed self' \/
     (ready self' (consensus_in rx) /\ (queued (consensus self') <= queued (consensus self) + 1)%nat)).
Proof.
  intros R Hm. destruct m as [h m| | | | | | |]; try done. destruct m as [r| |m| | |]; try done.
  - destruct (ready_request self now h r (consensus_in rx) R) as [R' Ec]. eexists. split; [reflexivity|].
    right. split; [exact R'|]. rewrite Ec. lia.
  - destruct R as (Hse & Hh & Ho).
    destruct (consensus_turn self (mkStored h m) (consensus_in rx) Hse Hm Ho) as (self' & E & Hx).
    exists self'. split; [exact E|]. destruct Hx as [?|(R & ? & _)]; auto.
Qed.

(** A turn that receives, if there is anything to be received. *)
Lemma turn_receive self rx now seed : ready self (consensus_in rx) -> Forall ordinary rx ->
  polls_next self = false -> (rx = [] /\ advanced self) \/
  exists m rx' self', rx = m :: rx' /\ run_once self (Ok m) (Ok m) now seed = Done (self', Ok tt) /\
    (executed self' \/
     (ready self' (consensus_in rx') /\ (queued (consensus self') <= queued (consensus self) + 1)%nat)).
Proof.
  intros R Hrx Hn. pose proof R as (Hse & Hh & Ho). unfold polls_next in Hn.
  destruct (poll_live vw s d ds np nc Hs Hq Hser (consensus self) (log self)
    (owed_deciding (local_state self) _ Ho) (se_tidy _ Hse) Hh)
    as [(m & c' & E & _)|(t & E & Hsl & Hc)]; rewrite E in *; [discriminate|].
  destruct rx as [|m rx]; [left; split; [done|by apply owed_nil]|]. right. exists m, rx.
  apply Forall_cons in Hrx as [Hm _].
  destruct (ready_dry self t (consensus_in (m :: rx)) R Hsl) as [R1 Q1]; [apply Hc..|].
  assert (Hrcv : forall self1, ready self1 (consensus_in (m :: rx)) ->
    queued (consensus self1) = queued (consensus self) ->
    exists self', m :: rx = m :: rx /\ receive_normal self1 (Ok m) now seed = Done (self', Ok tt) /\
      (executed self' \/
       (ready self' (consensus_in rx) /\ (queued (consensus self') <= queued (consensus self) + 1)%nat))).
  { intros self1 R2 Q2. destruct (turn_message self1 m rx now seed R2 Hm) as (self' & E' & Hx).
    exists self'. split_and!; [done|exact E'|]. by rewrite <- Q2. }
  rewrite run_once_poll by done. unfold poll_normal. rewrite E.
  destruct (phase (consensus self)) eqn:Hph; try (by apply Hrcv).
  destruct (ready_propose (set_consensus self (with_tbo (consensus self) t)) (consensus_in (m :: rx)) Hph R1) as (self2 & E2 & R2 & Q2).
  rewrite E2. cbn [obind]. apply Hrcv; [done|congruence].
Qed.

(** The number of turns left, at most. *)
Definition work self (rx : list (Message S O P)) : nat := (2 * length rx + queued (consensus self))%nat.

Lemma one_turn now seed self rx : ready self (consensus_in rx) -> Forall ordinary rx ->
  advanced self \/ (1 <= work self rx)%nat /\
  exists self' rx', (forall j, serve (Datatypes.S j) self rx now seed = serve j self' rx' now seed) /\
    (executed self' \/
     (ready self' (consensus_in rx') /\ Forall ordinary rx' /\ (work self' rx' < work self rx)%nat)).
Proof.
  intros R Hrx. unfold work.
  assert (St : awaits self = Some (negb (polls_next self)))
    by (destruct R as [[] _]; unfold awaits; by rewrite se_phase0, se_stops0).
  destruct (polls_next self) eqn:Hn.
  - right. destruct (turn_next self (Err (Errors.simple "Communication")) (Err (Errors.simple "Communication"))
      now seed _ R Hn) as (H1' & self' & E & Hx). split; [lia|]. exists self', rx. split.
    + intros j. cbn [serve]. rewrite St. cbn [negb]. by rewrite E.
    + destruct Hx as [?|[? ?]]; [by left|right]. split_and!; [done..|lia].
  - destruct (turn_receive self rx now seed R Hrx Hn) as [[_ ?]|(m & rx' & self' & -> & E & Hx)]; [by left|right].
    cbn [length]. split; [lia|]. exists self', rx'. split.
    + intros j. cbn [serve]. rewrite St. cbn [negb]. by rewrite E.
    + apply Forall_cons in Hrx as [_ Hrx]. destruct Hx as [?|[? ?]]; [by left|right].
      split_and!; [done..|lia].
Qed.

(** The loop runs until the batch is executed or nothing is left to be done. *)
Lemma serve_advances now seed k : forall self rx, ready self (consensus_in rx) -> Forall ordinary rx ->
  (work self rx <= k)%nat ->
  exists j self' rx', (j <= k)%nat /\ serve j self rx now seed = Done (self', Ok tt, rx') /\
    (executed self' \/ advanced self').
Proof.
  induction k as [|k IH]; intros self rx R Hrx Hk;
    (destruct (one_turn now seed self rx R Hrx) as [Hx|(H1' & self1 & rx1 & E & Hx)];
     [exists 0%nat, self, rx; split_and!; [lia|done|by right]|]); [lia|].
  destruct Hx as [Hx|(R1 & Hrx1 & Hw)].
  - exists 1%nat, self1, rx1. split_and!; [lia|by rewrite E|by left].
  - destruct (IH self1 rx1 R1 Hrx1) as (j & self' & rx' & Hj & Es & Hx); [lia|].
    exists (Datatypes.S j), self', rx'. split_and!; [lia|by rewrite E|done].
Qed.

(** A replica at the start of the instance, or waiting for its proposal. *)
Record awaiting self : Prop := mkAwaiting {
  aw_settled : settled self;
  aw_heard : heard (consensus self);
  aw_phase : phase (consensus self) = Init \/ phase (consensus self) = PrePreparing;
  aw_expecting : expecting vw ds (local_state self)
}.

(** The messages of a slot and those still to be received. *)
Definition pending self (slot : Consensus -> list Stored) (rx : list (Message S O P)) : list Stored :=
  slot (consensus self) ++ consensus_in rx.

(** The proposal is pending, and no other one. *)
Definition proposed self (rx : list (Message S O P)) : Prop :=
  (forall m, m ∈ pending self slot_pp rx -> proposes vw s m -> is_proposal vw s d ds m = true) /\
  (1 <= count_if (is_proposal vw s d ds) (pending self slot_pp rx))%nat.

Lemma awaiting_advances now seed self rx : awaiting self -> Forall ordinary rx -> proposed self rx ->
  np <= Z.of_nat (count_if (is_prepare vw s d) (pending self slot_p rx)) ->
  nc <= Z.of_nat (count_if (is_commit_vote vw s d) (pending self slot_c rx)) ->
  exists k self' rx', (k <= 2 * length rx + queued (consensus self))%nat /\
    serve k self rx now seed = Done (self', Ok tt, rx') /\ (executed self' \/ advanced self').
Proof.
  intros [Hse Hh Hph Hx] Hrx [H1' H2'] H3' H4'.
  apply (serve_advances now seed (work self rx)); [|done|done].
  split_and!; [done..|]. unfold owed. cbn [r_cons local_state].
  destruct Hph as [-> | ->]; by split_and!.
Qed.

End turns.

(** ** One replica *)

Section replica.
Context {S O P : Type} `{HashFn, SigScheme, RandomState, !OrderedMap Digest, !OrderedMapLaws Digest,
  !SharedData S O P}.

Context (vw : ViewInfo) (s : SeqNo) (d : Digest) (ds : list Digest).
Let q : Z := quorum (params vw).

Context (Hs : seq_nonneg s) (Hq : 1 < q) (Hds : NoDup ds).
Context (Hser : forall kind, serializable (Message.Consensus (mkConsensus s (view_seq (view vw)) kind)
                                           : SystemMessage S O P)).

Implicit Type self : Replica S O P.

(** C18: a replica makes progress. Let it be in its normal phase, at the start of
    instance [s] (not negative) or waiting for its proposal, connected to the
    group, with its consensus messages serializing, its executor running, no
    checkpoint being taken, no STOP queued, no missing request outstanding and no
    request in both containers of the log; what waits in slot 0 of its queues is
    of the instance, and signalled in the queue it reads first. Let the proposal
    [ds] have no repeated digest and fit in [current], and let the log hold its
    requests and those of the digests that stay in [current] behind it (there are
    none when the batch is full; the code waits for them too). Let the PRE-PREPARE
    of [ds], a quorum (of more than one) less one of PREPAREs and a quorum of
    COMMITs for its digest be in slot 0 of its queues or still to be received, in
    any order; what else is received are client requests and consensus messages
    whose numbers are not negative, any but another proposal for the instance and
    view. Then the main loop, without stopping or panicking and without waiting
    for anything else, hands exactly the proposed batch to the execution layer and
    enters the next instance, within two turns per message to be received and one
    per queued message. *)
Theorem replica_makes_progress me q0 now seed self rx :
  awaiting vw s ds me q0 self -> Forall ordinary rx -> proposed vw s d ds self rx ->
  q - 1 <= Z.of_nat (count_if (is_prepare vw s d) (pending self slot_p rx)) ->
  q <= Z.of_nat (count_if (is_commit_vote vw s d) (pending self slot_c rx)) ->
  exists k self' rx', (k <= 2 * length rx + queued (consensus self))%nat /\
    serve k self rx now seed = Done (self', Ok tt, rx') /\ executed vw s d ds me q0 self'.
Proof.
  intros Ha Hrx Hp H1' H2'.
  destruct (awaiting_advances vw s d ds (q - 1) q me q0 Hs Hq Hds Hser now seed self rx Ha Hrx Hp H1' H2')
    as (k & self' & rx' & Hk & E & [Hx|(_ & _ & _ & Hf)]); [by exists k, self', rx'|].
  destruct Hf; fold q; lia.
Qed.

End replica.

(** ** The group *)

(** Messages of different senders are different messages. *)
Lemma senders_counted (p : Stored -> bool) (l : list Stored) (js : list NodeId) : NoDup js ->
  (forall j, j ∈ js -> exists m, m ∈ l /\ hdr_from (header m) = j /\ p m = true) ->
  (length js <= count_if p l)%nat.
Proof.
  intros Hn Hall. unfold count_if.
  rewrite <- (length_map (fun m : Stored => hdr_from (header m)) (List.filter p l)).
  apply submseteq_length, NoDup_submseteq; [done|]. intros j Hj.
  destruct (Hall j Hj) as (m & Hm & Hf & Hp). apply list_elem_of_In, in_map_iff. exists m. split; [done|].
  apply filter_In. split; [by apply list_elem_of_In|done].
Qed.

Lemma length_without (l : list NodeId) (i : NodeId) : NoDup l ->
  (length l <= length (filter (fun j => j <> i) l) + 1)%nat.
Proof.
  induction 1 as [|x l Hx _ IH]; [cbn; lia|]. rewrite filter_cons. cbn [length].
  case_decide as Hxi; cbn [length]; [lia|]. subst x.
  assert (E : filter (fun j => j <> i) l = l).
  { clear IH. induction l as [|y l IH']; [done|]. rewrite filter_cons_True by set_solver.
    f_equal. apply IH'. set_solver. }
  rewrite E. lia.
Qed.

Section group.
Context {S O P : Type} `{HashFn, SigScheme, RandomState, !OrderedMap Digest, !OrderedMapLaws Digest,
  !SharedData S O P}.

Context (vw : ViewInfo) (s : SeqNo) (d : Digest) (ds : list Digest).
Let q : Z := quorum (params vw).

Context (Hs : seq_nonneg s) (Hq : 1 < q) (Hds : NoDup ds).
Context (Hser : forall kind, serializable (Message.Consensus (mkConsensus s (view_seq (view vw)) kind)
                                           : SystemMessage S O P)).

(** The correct members of the group: for each the replica as it enters the
    instance, the requests it has handed to its execution layer before, and all
    the messages that ever reach it, in the order in which they do. *)
Context (correct : list NodeId) (start : NodeId -> Replica S O P)
  (before : NodeId -> list (ExecutionRequest S O)) (rx : NodeId -> list (Message S O P)).
Context (now : Z) (seed : list Z).

(** A state that member [i] goes through. *)
Definition passes (i : NodeId) (self : Replica S O P) : Prop :=
  exists k rest, serve k (start i) (rx i) now seed = Done (self, Ok tt, rest).

(** What a correct member sends in the instance reaches every correct member,
    under the sender's name. *)
Definition links_deliver : Prop := forall i j self m, i ∈ correct -> j ∈ correct -> passes j self ->
  m ∈ sent_consensus (r_peer self) -> c_seq m = s ->
  exists h, hdr_from h = j /\ mkStored h m ∈ consensus_in (rx i).

Definition member_ready (i : NodeId) : Prop :=
  awaiting vw s ds i (before i) (start i) /\ Forall ordinary (rx i) /\ proposed vw s d ds (start i) (rx i).

Context (Hn : NoDup correct) (Hc : q <= Z.of_nat (length correct)).
Context (Hr : forall i, i ∈ correct -> member_ready i) (Hl : links_deliver).

(** Votes of correct members are counted. *)
Lemma votes_arrive (p : Stored -> bool) kind js i slot : i ∈ correct -> NoDup js ->
  (forall h, p (mkStored h (mkConsensus s (view_seq (view vw)) kind)) = true) ->
  (forall j, j ∈ js -> j ∈ correct /\ exists self, passes j self /\
     mkConsensus s (view_seq (view vw)) kind ∈ sent_consensus (r_peer self)) ->
  (length js <= count_if p (pending (start i) slot (rx i)))%nat.
Proof.
  intros Hi Hj Hp Hall. apply senders_counted; [done|]. intros j Hin.
  destruct (Hall j Hin) as (Hjc & self & Hps & Hm).
  destruct (Hl i j self _ Hi Hjc Hps Hm eq_refl) as (h & Hh & Hd).
  exists (mkStored h (mkConsensus s (view_seq (view vw)) kind)). split_and!; [|exact Hh|apply Hp].
  apply elem_of_app. by right.
Qed.

Lemma all_prepare j : j ∈ correct -> exists self, passes j self /\ node_id (r_peer self) = j /\
  has_prepared vw s d (r_peer self).
Proof.
  intros Hj. destruct (Hr j Hj) as (Ha & Ho & Hp).
  destruct (awaiting_advances vw s d ds 0 0 j (before j) Hs Hq Hds Hser now seed (start j) (rx j) Ha Ho Hp)
    as (k & self & rest & _ & E & Hx); [lia..|]. exists self. split; [by exists k, rest|].
  destruct Hx as [(_ & _ & _ & ? & ? & _)|(? & ? & _)]; done.
Qed.

Lemma prepares_arrive i : i ∈ correct ->
  q - 1 <= Z.of_nat (count_if (is_prepare vw s d) (pending (start i) slot_p (rx i))).
Proof.
  intros Hi. pose proof (length_without correct (leader (view vw)) Hn) as Hlen.
  assert (length (filter (fun j => j <> leader (view vw)) correct)
          <= count_if (is_prepare vw s d) (pending (start i) slot_p (rx i)))%nat; [|lia].
  apply (votes_arrive _ (Prepare d)); [done|by apply NoDup_filter|..].
  - intros h. by apply bool_decide_eq_true.
  - intros j [Hne Hj]%list_elem_of_filter. split; [done|].
    destruct (all_prepare j Hj) as (self & Hps & Hid & [?|Hm]); [congruence|by exists self].
Qed.

Lemma all_commit j : j ∈ correct -> exists self, passes j self /\ has_committed vw s d (r_peer self).
Proof.
  intros Hj. destruct (Hr j Hj) as (Ha & Ho & Hp).
  destruct (awaiting_advances vw s d ds (q - 1) 0 j (before j) Hs Hq Hds Hser now seed (start j) (rx j) Ha Ho Hp)
    as (k & self & rest & _ & E & Hx); [by apply prepares_arrive|lia|]. exists self. split; [by exists k, rest|].
  destruct Hx as [(_ & _ & _ & _ & _ & ? & _)|(_ & _ & Hx & _)]; [done|]. by apply Hx.
Qed.

Lemma commits_arrive i : i ∈ correct ->
  q <= Z.of_nat (count_if (is_commit_vote vw s d) (pending (start i) slot_c (rx i))).
Proof.
  intros Hi. assert (length correct
    <= count_if (is_commit_vote vw s d) (pending (start i) slot_c (rx i)))%nat; [|lia].
  apply (votes_arrive _ (Commit d)); [done|done|..].
  - intros h. by apply bool_decide_eq_true.
  - intros j Hj. split; [done|]. by apply all_commit.
Qed.

(** C7: the group makes progress. Suppose that the correct members are at least a
    quorum (of more than one); that each of them enters the instance [s] (not
    negative) in its normal phase, connected, with its consensus messages
    serializing, its executor running, no checkpoint being taken, no STOP queued,
    no missing request outstanding, no request in both containers of the log, and
    in slot 0 of its queues only messages of the instance, signalled in the queue
    it reads first; that the proposal has no repeated digest and fits in
    [current], and that the log of each of them holds its requests and those of
    the digests that stay in [current] behind it (there are none when the batch is
    full; the code waits for them too); that the proposal reaches each of them,
    and no other one for the instance and view; that what a correct member sends
    in the instance reaches all of them under its name; and that nothing but
    client requests and consensus messages whose numbers are not negative reaches
    them. Then every one of them executes the proposed batch, in at most two turns
    per message received and one per queued message, in whatever order the
    messages reach it and whatever votes with such numbers the other members send.
    *)
Theorem group_makes_progress i : i ∈ correct ->
  exists k self rest, (k <= 2 * length (rx i) + queued (consensus (start i)))%nat /\
    serve k (start i) (rx i) now seed = Done (self, Ok tt, rest) /\
    executed vw s d ds i (before i) self.
Proof.
  intros Hi. destruct (Hr i Hi) as (Ha & Ho & Hp).
  destruct (awaiting_advances vw s d ds (q - 1) q i (before i) Hs Hq Hds Hser now seed (start i) (rx i) Ha Ho Hp)
    as (k & self & rest & Hk & E & [Hx|(_ & _ & _ & Hf)]);
    [by apply prepares_arrive|by apply commits_arrive|by exists k, self, rest|].
  destruct Hf; fold q; lia.
Qed.

End group.

(** ** A message that is never disposed of *)

Section starved.
Context {S O P : Type} `{HashFn, SigScheme, RandomState, !OrderedMap Digest, !SharedData S O P}.
Implicit Type self : Replica S O P.

(** The negative number that [index] cannot tell from [curr]. *)
Definition alias (curr : SeqNo) : SeqNo := mkSeqNo (sn curr - 2147483648).

Lemma alias_index curr : seq_nonneg curr -> index (alias curr) curr = inr 0%nat /\ alias curr <> curr.
Proof.
  intros Hc. assert (Ha : seq_ok (alias curr)).
  { unfold seq_ok, alias, is_i32, i32_MIN, i32_MAX, seq_nonneg in *. cbn. unfold i32_MAX in Hc. lia. }
  split.
  - apply index_spec; [done|by apply seq_nonneg_ok|]. unfold seq_dist, alias. cbn [sn].
    replace (sn curr - 2147483648 - sn curr) with (-1 * 2147483648) by lia.
    rewrite Z.mod_mul by lia. by split.
  - intros E. apply (f_equal sn) in E. unfold alias in E. cbn [sn] in E. lia.
Qed.

(** The state of the protocol with one message in slot 0 of the PRE-PREPAREs. *)
Definition holding (c : Consensus) (m : Stored) : Consensus :=
  with_tbo c (mkTbo (curr_seq (tbo c)) true ([m] :: tail (q_pre_prepares (tbo c))) (q_prepares (tbo c))
                (q_commits (tbo c))).

Lemma defer_alias c h m : slot_pp c = [] -> c_seq m = alias (curr_seq (tbo c)) ->
  seq_nonneg (curr_seq (tbo c)) -> is_pp_kind (c_kind m) = true ->
  cons_signal (cons_queue c h m) = holding c (mkStored h m).
Proof.
  intros Hsl Hm Hc Hk. destruct (alias_index _ Hc) as [Hi _]. destruct c as [bs ph t cu cd mi sb].
  destruct t as [cs g pp p cm]. unfold slot_pp in Hsl. cbn in *. unfold holding, cons_signal, cons_queue, tboq_queue.
  destruct (c_kind m); try done. unfold tboq_signal, queue_pre_prepare, with_tbo, tbo_queue_message. cbn.
  rewrite Hm, Hi. by destruct pp as [|[|x l] pp].
Qed.

Lemma alias_turn self h m : phase (consensus self) = PrePreparing ->
  c_seq m = alias (instance self) -> seq_nonneg (instance self) ->
  c_view m = view_seq (view (synchronizer self)) -> is_pp_kind (c_kind m) = true ->
  slot_pp (consensus self) = [] ->
  consensus_message self h m = Done (set_consensus self (holding (consensus self) (mkStored h m)), Ok tt).
Proof.
  intros Hph Hm Hc Hv Hk Hsl. destruct (alias_index _ Hc) as [_ Hne]. unfold consensus_message.
  unfold process_message. rewrite Hph. unfold process_pre_preparing.
  destruct (c_kind m) eqn:Ek; try done. rewrite decide_False by tauto.
  rewrite decide_True by (unfold instance in *; congruence). unfold defer. cbn [obind].
  destruct self. cbn in *. do 3 f_equal. apply defer_alias; try done. by rewrite Ek.
Qed.

(** Polling takes the message out; putting it back gives the same state. *)
Lemma poll_holding c m (l : Log S O) : phase c = PrePreparing -> exists c1,
  poll (holding c m) l = (NextMessage (header m) (message m), c1) /\
  phase c1 = PrePreparing /\ curr_seq (tbo c1) = curr_seq (tbo c) /\ slot_pp c1 = [] /\
  holding c1 m = holding c m.
Proof.
  destruct c as [bs ph t cu cd mi sb], t as [cs g pp p cm]. cbn. intros ->. by eexists.
Qed.

(** Polling an empty queue. *)
Lemma poll_empty c m (l : Log S O) : phase c = PrePreparing -> slot_pp c = [] -> exists c1,
  poll c l = (Recv, c1) /\ phase c1 = PrePreparing /\ curr_seq (tbo c1) = curr_seq (tbo c) /\
  slot_pp c1 = [] /\ holding c1 m = holding c m.
Proof.
  destruct c as [bs ph t cu cd mi sb], t as [cs g pp p cm]. unfold slot_pp, poll. cbn. intros -> Hsl.
  destruct g; [|by eexists]. destruct pp as [|[|x l0] pp]; [by eexists..|done].
Qed.

Lemma holding_turn self h m c1 :
  phase c1 = PrePreparing -> curr_seq (tbo c1) = instance self -> slot_pp c1 = [] ->
  c_seq m = alias (instance self) -> seq_nonneg (instance self) ->
  c_view m = view_seq (view (synchronizer self)) -> is_pp_kind (c_kind m) = true ->
  holding c1 (mkStored h m) = holding (consensus self) (mkStored h m) ->
  consensus_message (set_consensus self c1) h m
  = Done (set_consensus self (holding (consensus self) (mkStored h m)), Ok tt).
Proof.
  intros Hph Hc Hsl Hm Hs Hv Hk Hh. rewrite <- Hh.
  apply (alias_turn (set_consensus self c1) h m); try done; unfold instance; cbn; congruence.
Qed.

(** C40: one message stops a replica for ever. A replica that waits for a proposal
    and receives a PRE-PREPARE of its view whose number is the running one less
    [2^31] queues it with the messages of the running instance, takes it out
    again, finds that its number is another and queues it once more: from then on
    every turn of the loop is the same one: it changes nothing and receives
    nothing, not even the error of a closed channel. Any node can send such a
    message. *)
Theorem aliased_number_starves self h m now seed :
  r_phase self = NormalPhase -> can_process_stops (s_tbo (synchronizer self)) = false ->
  phase (consensus self) = PrePreparing -> slot_pp (consensus self) = [] -> seq_nonneg (instance self) ->
  c_seq m = alias (instance self) -> c_view m = view_seq (view (synchronizer self)) ->
  is_pp_kind (c_kind m) = true ->
  exists self', (forall rx_sync, run_once self rx_sync (Ok (System h (Message.Consensus m))) now seed
                                 = Done (self', Ok tt)) /\
    forall rx_sync rx now seed, run_once self' rx_sync rx now seed = Done (self', Ok tt).
Proof.
  intros Hp Hst Hph Hsl Hs Hm Hv Hk. set (self' := set_consensus self (holding (consensus self) (mkStored h m))).
  assert (Hrun : forall r1 r2, run_once self r1 r2 now seed = poll_normal self r2 now seed)
    by (intros; unfold run_once, update_normal_phase; by rewrite Hp, Hst).
  assert (Hrun' : forall r1 r2 now seed, run_once self' r1 r2 now seed = poll_normal self' r2 now seed)
    by (intros; unfold run_once, update_normal_phase; cbn; by rewrite Hp, Hst).
  exists self'. split.
  - intros rx_sync. rewrite Hrun. unfold poll_normal.
    destruct (poll_empty (consensus self) (mkStored h m) (log self) Hph Hsl) as (c1 & -> & P1 & P2 & P3 & P4).
    by apply holding_turn.
  - destruct (poll_holding (consensus self) (mkStored h m) (log self) Hph) as (c1 & Ep & P1 & P2 & P3 & P4).
    assert (Ep' : poll (consensus self') (log self') = (NextMessage h m, c1)) by exact Ep.
    intros r1 r2 now' seed'. rewrite Hrun'. unfold poll_normal. rewrite Ep'.
    exact (holding_turn self h m c1 P1 P2 P3 Hm Hs Hv Hk P4).
Qed.

End starved.

(** ** Witnesses *)

#[local] Existing Instance toy_hash.
#[local] Existing Instance toy_sig.
#[local] Existing Instance toy_data.
#[local] Existing Instance key_order.
#[local] Existing Instance w_map.
#[local] Existing Instance w_map_laws.

(** A replica that has received one client request. *)
Definition w_informed : Replica Z Z Z := request_received w_replica 0 (w_header 1) (mkRequest 10).

(** COMMITs first, the proposal last. *)
Definition w_backwards : list (Message Z Z Z) :=
  map (fun i => System (w_head i 7) (Message.Consensus (w_commit 7))) [0; 1; 2] ++
  map (fun i => System (w_head i 7) (Message.Consensus (w_vote 7))) [0; 2] ++
  [System (w_head 3 9) (Message.Consensus (w_vote 9)); System (w_header 2) (w_request 20);
   System (w_head 0 7) (Message.Consensus (w_pp 1))].

Lemma w_informed_settled : settled w_view ZERO [w_d 1] (node 1) [] w_informed.
Proof.
  split; try reflexivity.
  - apply queues_disjoint_insert, queues_disjoint_new.
  - intros e ->%list_elem_of_singleton. vm_compute. reflexivity.
  - split; [reflexivity|apply Forall_nil; done..].
Qed.

Lemma w_informed_expecting : expecting w_view [w_d 1] (local_state w_informed).
Proof.
  split; [reflexivity|apply le_n| |].
  - change (forall e, e ∈ [w_d 1] -> has_request (log w_informed) e = true).
    intros e ->%list_elem_of_singleton. vm_compute. reflexivity.
  - exact (fun i Hi _ => proj2 (elem_of_list_to_set i (targets 4)) Hi).
Qed.

Lemma w_one_proposal m : m ∈ slot_pp (consensus w_informed) ++ consensus_in w_backwards ->
  proposes w_view ZERO m -> is_proposal w_view ZERO (mkDigest (replicate 32 7)) [w_d 1] m = true.
Proof.
  change (m ∈ consensus_in w_backwards -> proposes w_view ZERO m ->
    is_proposal w_view ZERO (mkDigest (replicate 32 7)) [w_d 1] m = true).
  intros Hm (_ & _ & Hk). apply list_elem_of_In in Hm. cbn in Hm.
  repeat (destruct Hm as [<-|Hm]; [try discriminate Hk|]); [|done]. vm_compute. reflexivity.
Qed.

Lemma w_ordinary : Forall ordinary w_backwards.
Proof. repeat (apply Forall_cons; split; [vm_compute; first [split; discriminate|exact Logic.I]|]). apply Forall_nil. done. Qed.

Lemma replica_makes_progress_witness : exists k self' rx', (k <= 2 * 8 + 0)%nat /\
  serve k w_informed w_backwards 0 [] = Done (self', Ok tt, rx') /\
  executed w_view ZERO (mkDigest (replicate 32 7)) [w_d 1] (node 1) [] self'.
Proof.
  exact (replica_makes_progress w_view ZERO (mkDigest (replicate 32 7)) [w_d 1]
    ltac:(vm_compute; split; discriminate) ltac:(vm_compute; reflexivity) (NoDup_singleton _)
    (fun kind => w_serializable _) (node 1) [] 0 [] w_informed w_backwards
    (mkAwaiting _ _ _ _ _ _ w_informed_settled (fun _ => eq_refl) (or_introl eq_refl) w_informed_expecting)
    w_ordinary (conj w_one_proposal (le_n 1))
    ltac:(vm_compute; congruence) ltac:(vm_compute; congruence)).
Defined.

(** Members 0, 1 and 2 of four; node 3 does not take part. All of them receive
    the votes before the proposal. *)
Definition w_correct : list NodeId := [node 0; node 1; node 2].
Definition w_member (i : NodeId) : Replica Z Z Z :=
  request_received (set_peer w_replica (w_node i)) 0 (w_header 1) (mkRequest 10).
Definition w_stream : list (Message Z Z Z) :=
  map (fun i => System (w_head i 7) (Message.Consensus (w_commit 7))) [2; 0; 1] ++
  map (fun i => System (w_head i 7) (Message.Consensus (w_vote 7))) [2; 1] ++
  [System (w_head 0 7) (Message.Consensus (w_pp 1))].

Lemma w_member_ready i : i ∈ w_correct ->
  member_ready w_view ZERO (mkDigest (replicate 32 7)) [w_d 1] w_member (fun _ => []) (fun _ => w_stream) i.
Proof.
  intros Hi. split_and!.
  - split; [|by intros _|by left|].
    + split; try reflexivity.
      * apply queues_disjoint_insert, queues_disjoint_new.
      * intros e ->%list_elem_of_singleton. vm_compute. reflexivity.
      * split; [reflexivity|apply Forall_nil; done..].
    + split; [reflexivity|apply le_n| |].
      * change (forall e, e ∈ [w_d 1] -> has_request (log (w_member i)) e = true).
        intros e ->%list_elem_of_singleton. vm_compute. reflexivity.
      * exact (fun j Hj _ => proj2 (elem_of_list_to_set j (targets 4)) Hj).
  - repeat (apply Forall_cons; split; [vm_compute; split; discriminate|]). apply Forall_nil. done.
  - split; [|apply le_n]. intros m Hm (_ & _ & Hk).
    change (m ∈ consensus_in w_stream) in Hm. apply list_elem_of_In in Hm. cbn in Hm.
    repeat (destruct Hm as [<-|Hm]; [try discriminate Hk|]); [|done]. vm_compute. reflexivity.
Qed.

(** What a member has sent after [k] turns is in the stream, and all turns
    happen within the first twelve. *)
Definition w_sent_ok (j : NodeId) (r : outcome (Replica Z Z Z * result unit * list (Message Z Z Z))) : bool :=
  match r with
  | Done (self, Ok _, _) =>
    forallb (fun m => existsb (fun st => bool_decide (hdr_from (header st) = j /\ message st = m))
                        (consensus_in w_stream)) (sent_consensus (r_peer self))
  | _ => true
  end.

Lemma w_sent_always j : j ∈ w_correct -> forall k, w_sent_ok j (serve k (w_member j) w_stream 0 []) = true.
Proof.
  intros Hj. unfold w_correct in Hj. rewrite !elem_of_cons, elem_of_nil in Hj.
  destruct Hj as [-> |[-> |[-> |[]]]]; apply (serve_bounded 12); vm_compute; reflexivity.
Qed.

Lemma stream_has (l : list Stored) j sent : forallb (fun m =>
    existsb (fun st => bool_decide (hdr_from (header st) = j /\ message st = m)) l) sent = true ->
  forall m, m ∈ sent -> exists h, hdr_from h = j /\ mkStored h m ∈ l.
Proof.
  intros Hk m Hm. rewrite forallb_forall in Hk.
  apply list_elem_of_In, Hk, existsb_exists in Hm as ([h m'] & Hin & Hd).
  apply bool_decide_eq_true in Hd as [Hh Hm]. cbn in Hh, Hm. subst m'. exists h. split; [exact Hh|].
  by apply list_elem_of_In.
Qed.

Lemma w_links : links_deliver ZERO w_correct w_member (fun _ => w_stream) 0 [].
Proof.
  intros i j self m _ Hj (k & rest & E) Hm _. pose proof (w_sent_always j Hj k) as Hk. unfold w_sent_ok in Hk.
  rewrite E in Hk. exact (stream_has _ _ _ Hk m Hm).
Qed.

Lemma group_makes_progress_witness : exists k self rest, (k <= 2 * 6 + 0)%nat /\
  serve k (w_member (node 2)) w_stream 0 [] = Done (self, Ok tt, rest) /\
  executed w_view ZERO (mkDigest (replicate 32 7)) [w_d 1] (node 2) [] self.
Proof.
  exact (group_makes_progress w_view ZERO (mkDigest (replicate 32 7)) [w_d 1]
    ltac:(vm_compute; split; discriminate) ltac:(vm_compute; reflexivity) (NoDup_singleton _)
    (fun kind => w_serializable _) w_correct w_member (fun _ => []) (fun _ => w_stream) 0 []
    (bool_decide_unpack (NoDup w_correct) Logic.I) ltac:(vm_compute; congruence) w_member_ready w_links
    (node 2) (bool_decide_unpack (node 2 ∈ w_correct) Logic.I)).
Defined.

(** A PRE-PREPARE for instance [- 2^31]. *)
Definition w_alias : ConsensusMessage := mkConsensus (mkSeqNo (-2147483648)) ZERO (PrePrepare []).
Definition w_waits : Replica Z Z Z := set_consensus w_replica (with_phase (cons_new ZERO 1) PrePreparing).

Lemma aliased_number_starves_witness : exists self',
  (forall rx_sync, run_once w_waits rx_sync (Ok (System (w_head 3 9) (Message.Consensus w_alias))) 0 []
                   = Done (self', Ok tt)) /\
  forall rx_sync rx now seed, run_once self' rx_sync rx now seed = Done (self', Ok tt).
Proof.
  exact (aliased_number_starves w_waits (w_head 3 9) w_alias 0 [] eq_refl eq_refl eq_refl eq_refl
    ltac:(vm_compute; split; discriminate) eq_refl eq_refl eq_refl).
Defined.

(** Both requests of the proposal have arrived, and a PREPARE is queued. *)
Definition w_both_known : Consensus :=
  with_phase (with_missing (cons_queue (cons_new ZERO 2) (w_head 0 7) (w_vote 7)) [w_d 1; w_d 2] [])
    PreparingRequests.

(** The positions of the requests that have arrived are computed before any of
    them is removed, and a removal moves another request to the position: of two
    known requests one remains, and the replica waits for the network. *)
Theorem poll_keeps_known_request :
  forallb (has_request w_log) (missing_requests w_both_known) = true /\
  (poll w_both_known w_log).1 = Recv /\
  missing_requests (poll w_both_known w_log).2 = [w_d 2] /\
  length (slot_p (poll w_both_known w_log).2) = 1%nat.
Proof. split_and!; vm_compute; reflexivity. Qed.

(** A replica that received everything it needs while it was connecting: the
    messages are queued, but nobody signals that the queues are to be looked at. *)
Theorem rogue_messages_wait :
  match bootstrap ZERO 4 1 ZERO 1 (Ok (w_node (node 1), System (w_header 1) (w_request 10) :: w_stream))
          (Ok (mkHandle true [])) 0 with
  | Done (Ok r) =>
    queued (consensus r) = 6%nat /\ polls_next r = false /\
    match serve 1 r [] 0 [] with
    | Done (r', Ok _, []) => e_queue (executor r') = []
    | _ => False
    end
  | _ => False
  end.
Proof. vm_compute. split_and!; reflexivity. Qed.
