(* ===== verification/ViewChange.v ===== *)
(** * View changes that complete ([src/bft/sync/mod.rs], [src/bft/core/server/mod.rs])

    The main loop of a replica during a view change. A replica that has sent its
    STOP counts the STOPs of others until it has those of a quorum, installs the
    next view and sends its STOP-DATA; the leader of the new view counts
    STOP-DATAs until it has those of a quorum, and announces the new view in a
    SYNC. Both are the same argument: a counter, the nodes it has counted, a
    queue of messages to look at first, and the messages still to be received
    ([counting]). Then two ways in which a view change does
    not complete: STOP-DATAs that come too early, and STOP-DATAs that are
    rejected. *)

From S2P Require Import Prelude Error Ordering Prng Crypto Params Message Tbo Collections Node.
From S2P Require Import Timeouts DecLog Log Consensus Progress Sync Executor Cst Server Stable Liveness.
Local Open Scope Z_scope.
Local Open Scope bft_scope.

(** ** Counting the messages of a quorum *)

Section counting.
Context {S O P : Type} `{HashFn, SigScheme, RandomState, !OrderedMap Digest, !SharedData S O P}.
Implicit Type self : Replica S O P.

Abbreviation StoredVC := (StoredMessage (ViewChangeMessage O)).

(** The view change message received, if any. *)
Definition view_change_of (m : Message S O P) : option StoredVC :=
  match m with System h (ViewChange m) => Some (mkStored h m) | _ => None end.

Definition sender (m : StoredVC) : NodeId := hdr_from (header m).

(** The nodes that sent one of the messages [wanted]. *)
Definition senders_of (wanted : StoredVC -> bool) (l : list StoredVC) : gset NodeId :=
  list_to_set (map sender (List.filter wanted l)).

Lemma senders_of_cons wanted m l :
  senders_of wanted (m :: l) = (if wanted m then {[sender m]} else ∅) ∪ senders_of wanted l.
Proof. unfold senders_of. cbn. destruct (wanted m); set_solver. Qed.

Lemma no_senders wanted (V : gset NodeId) : size (senders_of wanted [] ∖ V) = 0%nat.
Proof. by replace (senders_of wanted [] ∖ V) with (∅ : gset NodeId) by set_solver. Qed.

(** [counted i V self]: [i] messages have been counted, of the nodes [V];
    [first self] are the messages to be looked at before any is received;
    [finished] is reached when the last message is counted. *)
Context (counted : Z -> gset NodeId -> Replica S O P -> Prop).
Context (first : Replica S O P -> list StoredVC) (wanted : StoredVC -> bool).
Context (accepted : Message S O P -> Prop) (finished : Replica S O P -> Prop).
Context (q now : Z) (seed : list Z).

(** What becomes of a view change message, when [rest] remains to be looked at. *)
Definition looked_at (i : Z) (V : gset NodeId) (m : StoredVC) (rest : list StoredVC) self : Prop :=
  if wanted m && bool_decide (sender m ∉ V) then
    if i + 1 =? q then finished self
    else counted (i + 1) ({[sender m]} ∪ V) self /\ first self = rest
  else counted i V self /\ first self = rest.

Definition turn_counts : Prop := forall i V self, counted i V self ->
  match first self with
  | m :: rest => awaits self = Some false /\ forall rx, exists self',
      run_once self rx rx now seed = Done (self', Ok tt) /\ looked_at i V m rest self'
  | [] => awaits self = Some true /\ forall m, accepted m -> exists self',
      run_once self (Ok m) (Ok m) now seed = Done (self', Ok tt) /\
      match view_change_of m with
      | Some x => looked_at i V x [] self'
      | None => counted i V self' /\ first self' = []
      end
  end.

(** After at most [n] turns of the loop, and a part of [rx], the count is
    completed, whatever comes after [rx]. *)
Definition completed (n : nat) self (rx tl : list (Message S O P)) : Prop :=
  exists k self' rest, (k <= n)%nat /\ suffix rest rx /\ finished self' /\
    forall j, serve (k + j) self (rx ++ tl) now seed = serve j self' (rest ++ tl) now seed.

Lemma completed_step n self self1 rx rx1 tl : suffix rx1 rx ->
  (forall j, serve (Datatypes.S j) self (rx ++ tl) now seed = serve j self1 (rx1 ++ tl) now seed) ->
  completed n self1 rx1 tl -> completed (Datatypes.S n) self rx tl.
Proof.
  intros Hsf Hstep (k & self' & rest & Hk & Hs & Hd & E).
  exists (Datatypes.S k), self', rest. split_and!; [lia|by etrans|done|]. intros j. cbn [Nat.add]. by rewrite Hstep.
Qed.

(** The nodes that are counted or whose messages are on their way are enough. *)
Definition enough (i : Z) (V : gset NodeId) (l : list StoredVC) : Prop :=
  i < q /\ q <= i + Z.of_nat (size (senders_of wanted l ∖ V)).

Lemma not_enough i V : ~ enough i V [].
Proof. intros [Hi Hq]. rewrite no_senders in Hq. lia. Qed.

(** Counting one node more leaves enough, unless it was the last. *)
Lemma enough_counted i V m l : wanted m = true -> sender m ∉ V -> i + 1 <> q -> enough i V (m :: l) ->
  enough (i + 1) ({[sender m]} ∪ V) l.
Proof.
  intros Hw Hin Hne [Hi Hq]. split; [lia|]. rewrite senders_of_cons, Hw in Hq.
  set (X := senders_of wanted l) in *.
  assert (Hle : (size (({[sender m]} ∪ X) ∖ V) <= 1 + size (X ∖ ({[sender m]} ∪ V)))%nat).
  { rewrite <- (size_singleton (C := gset NodeId) (sender m)), <- size_union by set_solver.
    apply subseteq_size. intros x Hx. destruct (decide (x = sender m)); set_solver. }
  lia.
Qed.

Lemma enough_skipped i V m l : wanted m && bool_decide (sender m ∉ V) = false -> enough i V (m :: l) -> enough i V l.
Proof.
  intros Hs [Hi Hq]. split; [done|]. rewrite senders_of_cons in Hq.
  destruct (wanted m); cbn [andb] in Hs; [|by rewrite union_empty_l_L in Hq].
  apply bool_decide_eq_false, dec_stable in Hs.
  replace (({[sender m]} ∪ senders_of wanted l) ∖ V) with (senders_of wanted l ∖ V) in Hq; [done|].
  apply set_eq. set_solver.
Qed.

(** The state in which [rx] is still to be received. *)
Definition goes_on (i : Z) (V : gset NodeId) self (rx : list (Message S O P)) : Prop :=
  counted i V self /\ Forall accepted rx /\ enough i V (first self ++ omap view_change_of rx).

Lemma looked_at_goes_on i V m rest self rx : looked_at i V m rest self -> Forall accepted rx ->
  enough i V (m :: rest ++ omap view_change_of rx) ->
  finished self \/ exists i' V', goes_on i' V' self rx /\ first self = rest.
Proof.
  intros Hl Hrx Hq. unfold looked_at in Hl. destruct (wanted m && _) eqn:Hw.
  - apply andb_true_iff in Hw as [Hw Hin%bool_decide_eq_true].
    destruct (Z.eqb_spec (i + 1) q) as [|Hne]; [by left|right]. destruct Hl as [Hc Hf].
    exists (i + 1), ({[sender m]} ∪ V). split; [|done]. split_and!; [done|done|rewrite Hf; by apply enough_counted].
  - right. destruct Hl as [Hc Hf]. exists i, V. split; [|done].
    split_and!; [done|done|rewrite Hf; by eapply enough_skipped].
Qed.

Lemma count_completes : turn_counts -> forall n i V self rx tl, goes_on i V self rx ->
  (length (first self) + length rx <= n)%nat -> completed n self rx tl.
Proof.
  intros Hturn. induction n as [|n IH]; intros i V self rx tl (Hc & Hrx & Hq) Hn.
  { destruct (first self), rx; cbn in Hn; try lia. by apply not_enough in Hq. }
  assert (Hlook : forall m rest self1 rx1, looked_at i V m rest self1 -> Forall accepted rx1 ->
    (length rest + length rx1 <= n)%nat -> enough i V (m :: rest ++ omap view_change_of rx1) -> completed n self1 rx1 tl).
  { intros m rest self1 rx1 Hl Hrx1 Hlen Hq1.
    destruct (looked_at_goes_on _ _ _ _ _ _ Hl Hrx1 Hq1) as [Hf|(i' & V' & Hgo & Hf)].
    - exists 0%nat, self1, rx1. split_and!; [lia|done..].
    - apply (IH i' V'); [done|by rewrite Hf]. }
  specialize (Hturn i V self Hc) as Ht. destruct (first self) as [|m rest] eqn:Hf; destruct Ht as [Ha Ht].
  - destruct rx as [|m rx]; [by apply not_enough in Hq|].
    apply Forall_cons in Hrx as [Hm Hrx]. destruct (Ht m Hm) as (self1 & E1 & Hl).
    apply completed_step with self1 rx; [by apply suffix_cons_r|intros j; cbn [serve app]; by rewrite Ha, E1|].
    cbn [length app] in *. cbn in Hq. destruct (view_change_of m) as [x|].
    + apply (Hlook x []); [done|done|cbn; lia|done].
    + destruct Hl as [Hc' Hf']. apply (IH i V); [|rewrite Hf'; cbn; lia]. split_and!; [done|done|by rewrite Hf'].
  - destruct (Ht (Err (Errors.simple "Communication"))) as (self1 & E1 & Hl).
    apply completed_step with self1 rx; [done|intros j; cbn [serve]; by rewrite Ha, E1|].
    cbn [length app] in *. apply (Hlook m rest); [done|done|lia|done].
Qed.

End counting.

(** ** What the loop does with messages during a view change *)

Section messages.
Context {S O P : Type} `{HashFn, SigScheme, RandomState, !OrderedMap Digest, !SharedData S O P}.
Implicit Type self : Replica S O P.
Implicit Type sy : Synchronizer O.

Abbreviation StoredVC := (StoredMessage (ViewChangeMessage O)).

(** What is known of the proofs in STOP-DATAs. *)
Context (fine : CollectData -> Prop).

Definition fine_message (m : ViewChangeMessage O) : Prop :=
  seq_nonneg (vc_view m) /\ match vc_kind m with StopData c => fine c | _ => True end.

(** The messages considered: requests, consensus messages, and view change
    messages whose number is not negative. A negative number may be an alias of
    the running view, which is taken from the queue and put back for ever. *)
Definition accepted (m : Message S O P) : Prop :=
  match m with
  | System _ (Request _) | System _ (Message.Consensus _) | System _ (ForwardedRequests _) => True
  | System _ (ViewChange m) => fine_message m
  | _ => False
  end.

Definition stop_slot sy : list StoredVC := slot (q_stop (s_tbo sy)) 0.
Definition data_slot sy : list StoredVC := slot (q_stop_data (s_tbo sy)) 0.

(** The replica outside of the synchronizer, and what of it a view change looks
    at: the decision log, the node, and the room for a batch. *)
Record around (g : DecisionLog) (n : Node S O P) (b : nat) self : Prop := mkAround {
  ar_phase : r_phase self = SyncPhase;
  ar_log : declog (log self) = g;
  ar_node : r_peer self = n;
  ar_current : length (current (consensus self)) = b;
  ar_batch : (l_batch_size (log self) <= b)%nat
}.

(** Messages that are not about the view change. *)
Definition same_change sy sy' : Prop := same_stops sy sy' /\ collects sy' = collects sy.

Lemma watch_request_same sy ph d ts : same_change sy (watch_request_impl sy ph d ts).1.
Proof. split; [apply watch_request_impl_rest|]. unfold watch_request_impl. by destruct (watching_timeouts sy). Qed.

Lemma watch_forwarded_same rs : forall sy now ts (l : Log S O),
  let '(sy', _, l') := watch_forwarded_requests (P := P) sy now rs ts l in
  same_change sy sy' /\ declog l' = declog l /\ l_batch_size l' = l_batch_size l.
Proof.
  unfold watch_forwarded_requests. induction rs as [|r rs IH]; intros sy now ts l; cbn [foldl]; [done|].
  destruct (watch_request_same sy (TimedOutOnce now) (unique_digest (header r)) ts) as [(E1 & E2 & E3) E4].
  destruct (watch_request_impl _ _ _ _) as [sy1 ts1]. cbn [fst] in *.
  specialize (IH sy1 now ts1 (insert (P := P) l (header r) (Request (message r)))).
  destruct (foldl _ _ rs) as [[sy2 ts2] l2]. destruct IH as (((F1 & F2 & F3) & F4) & F5 & F6).
  split; [|done]. unfold same_change, same_stops. split_and!; congruence.
Qed.

Lemma other_message_kept g n b self m now seed : accepted m -> view_change_of m = None -> around g n b self ->
  exists self', sync_phase_message self m now seed = Done (self', Ok true) /\
    same_change (synchronizer self) (synchronizer self') /\ around g n b self'.
Proof.
  intros Hm Hv [A1 A2 A3 A4 A5].
  destruct m as [h m| | | | | | |]; try done. destruct m as [r| |m|m|m|fr]; try done;
    eexists; (split; [reflexivity|]).
  - unfold request_received, watch_request.
    pose proof (watch_request_same (synchronizer self) (TInit now) (unique_digest h) (timeouts self)) as E.
    destruct (watch_request_impl _ _ _ _) as [sy ts]. cbn [fst] in E. split; [exact E|]. by split.
  - split; [done|]. by split.
  - unfold forwarded_requests_received.
    pose proof (watch_forwarded_same fr (synchronizer self) now (timeouts self) (log self)) as E.
    destruct (watch_forwarded_requests _ _ _ _ _) as [[sy ts] l]. destruct E as (E & E1 & E2).
    split; [exact E|]. split; cbn; congruence.
Qed.

(** A queued message of another view, or of another kind, is not looked at
    before those of slot 0. *)
Lemma stop_slot_queue sy h m : seq_nonneg (view_seq (view sy)) -> seq_nonneg (vc_view m) ->
  (match vc_kind m with Stop _ => vc_view m <> next (view_seq (view sy)) | _ => True end) ->
  stop_slot (sync_queue sy h m) = stop_slot sy.
Proof.
  intros Hs Hm Hne. unfold stop_slot, sync_queue, stbo_queue. destruct (vc_kind m); [|done..].
  cbn. rewrite (slot_queue_zero _ _ (mkStored h m)); [|by apply next_nonneg|done].
  rewrite decide_False by exact Hne. apply app_nil_r.
Qed.

Lemma data_slot_queue sy h m : seq_nonneg (view_seq (view sy)) -> fine_message m ->
  (match vc_kind m with StopData _ => vc_view m <> view_seq (view sy) | _ => True end ->
   data_slot (sync_queue sy h m) = data_slot sy) /\
  (Forall (fun x => fine_message (message x)) (data_slot sy) ->
   Forall (fun x => fine_message (message x)) (data_slot (sync_queue sy h m))).
Proof.
  intros Hs Hm. unfold data_slot, sync_queue, stbo_queue. pose proof Hm as [Hn _].
  destruct (vc_kind m) eqn:Ek; [done| |done].
  cbn. rewrite (slot_queue_zero _ _ (mkStored h m)); [|done|done]. split.
  - intros Hne. rewrite decide_False by exact Hne. apply app_nil_r.
  - intros Hf. apply Forall_app. split; [done|]. case_decide; [by apply Forall_singleton|by apply Forall_nil].
Qed.

(** Polling a queue. *)
Definition with_stbo sy (g : bool) (qs qd : list (list StoredVC)) : Synchronizer O :=
  set_s_tbo sy (mkSyncTbo (s_view_info (s_tbo sy)) g qs qd (q_sync (s_tbo sy))).

Lemma poll_stops sy i : s_phase sy = Stopping2 i -> (stop_slot sy <> [] -> s_get_queue (s_tbo sy) = true) ->
  match stop_slot sy with
  | m :: rest => exists qs, sync_poll sy = (SNextMessage (header m) (message m), with_stbo sy true qs (q_stop_data (s_tbo sy))) /\
      slot qs 0 = rest
  | [] => exists g, sync_poll sy = (SRecv, with_stbo sy g (q_stop (s_tbo sy)) (q_stop_data (s_tbo sy)))
  end.
Proof.
  intros Hp Hg. unfold sync_poll, sync_extract, stop_slot in *. rewrite Hp.
  destruct sy as [wt ph tsq td st co wa [vi g qs qd qy] fs]; cbn in *. subst ph.
  destruct qs as [|[|m q'] qs]; cbn in *; [| |rewrite Hg by done; by exists (q' :: qs)];
    destruct g; cbn; eauto.
Qed.

Lemma poll_data sy i : s_phase sy = StoppingData i -> (data_slot sy <> [] -> s_get_queue (s_tbo sy) = true) ->
  match data_slot sy with
  | m :: rest => exists qd, sync_poll sy = (SNextMessage (header m) (message m), with_stbo sy true (q_stop (s_tbo sy)) qd) /\
      slot qd 0 = rest
  | [] => exists g, sync_poll sy = (SRecv, with_stbo sy g (q_stop (s_tbo sy)) (q_stop_data (s_tbo sy)))
  end.
Proof.
  intros Hp Hg. unfold sync_poll, sync_extract, data_slot in *. rewrite Hp.
  destruct sy as [wt ph tsq td st co wa [vi g qs qd qy] fs]; cbn in *. subst ph.
  destruct qd as [|[|m q'] qd]; cbn in *; [| |rewrite Hg by done; by exists (q' :: qd)];
    destruct g; cbn; eauto.
Qed.

(** The turns of the loop, when [counted] is kept by polling and by what is not
    about the view change: it is enough to look at one view change message. *)
Lemma sync_turns (counted : Z -> gset NodeId -> Replica S O P -> Prop) (slot_of : Synchronizer O -> list StoredVC)
  wanted finished g n b q now seed :
  (forall i V self, counted i V self -> around g n b self /\
    match slot_of (synchronizer self) with
    | m :: rest => exists sy, sync_poll (synchronizer self) = (SNextMessage (header m) (message m), sy) /\
        counted i V (set_sync self sy) /\ slot_of sy = rest /\ fine_message (message m)
    | [] => exists sy, sync_poll (synchronizer self) = (SRecv, sy) /\
        counted i V (set_sync self sy) /\ slot_of sy = []
    end) ->
  (forall i V self self', counted i V self -> same_change (synchronizer self) (synchronizer self') ->
    around g n b self' -> counted i V self' /\ slot_of (synchronizer self') = slot_of (synchronizer self)) ->
  (forall i V self x, counted i V self -> fine_message (message x) -> exists self' r,
    sync_phase_message self (System (header x) (ViewChange (message x))) now seed = Done (self', Ok r) /\
    looked_at counted (fun self => slot_of (synchronizer self)) wanted finished q i V x
      (slot_of (synchronizer self)) self') ->
  turn_counts counted (fun self => slot_of (synchronizer self)) wanted accepted finished q now seed.
Proof.
  intros Hpoll Hkeep Hmsg i V self Hs. destruct (Hpoll i V self Hs) as [A Hp].
  assert (Hrun : forall rx, run_once self rx rx now seed =
    let! '(self, r) := update_sync_phase self rx now seed in
    Done (self, match r with Ok _ => Ok tt | Err e => Err e end))
    by (intros rx; unfold run_once; by rewrite (ar_phase _ _ _ _ A)).
  unfold awaits. rewrite (ar_phase _ _ _ _ A). unfold update_sync_phase in Hrun.
  destruct (slot_of (synchronizer self)) as [|m rest] eqn:Esl.
  - destruct Hp as (sy & Ep & Hs1 & Esl1). rewrite Ep in *. split; [done|]. intros m Hm.
    set (self1 := set_sync self sy) in *. change sy with (synchronizer self1) in Esl1.
    destruct (view_change_of m) as [x|] eqn:Ev.
    + destruct m as [h m| | | | | | |]; try done. destruct m as [| | | |m|]; try done. injection Ev as <-.
      destruct (Hmsg i V self1 (mkStored h m) Hs1 Hm) as (self' & r & E & Hl).
      exists self'. split; [|by rewrite <- Esl1]. rewrite Hrun. cbn [header message] in E. by rewrite E.
    + destruct (other_message_kept g n b self1 m now seed Hm Ev (proj1 (Hpoll _ _ _ Hs1)))
        as (self' & E & K & A'). exists self'. split; [by rewrite Hrun, E|]. rewrite <- Esl1. by eapply Hkeep.
  - destruct Hp as (sy & Ep & Hs1 & Esl1 & Hm). rewrite Ep in *. split; [done|]. intros rx.
    destruct (Hmsg i V (set_sync self sy) m Hs1 Hm) as (self' & r & E & Hl).
    exists self'. split; [by rewrite Hrun, E|]. by rewrite <- Esl1.
Qed.

End messages.

(** ** From STOPs to the next view *)

Section stopping.
Context {S O P : Type} `{HashFn, SigScheme, RandomState, !OrderedMap Digest, !SharedData S O P}.
Implicit Type self : Replica S O P.
Implicit Type sy : Synchronizer O.

Abbreviation StoredVC := (StoredMessage (ViewChangeMessage O)).

Context (vw : ViewInfo) (Hvw : seq_nonneg (view_seq vw)).
Context (fine : CollectData -> Prop).

Let nv : ViewInfo := next_view vw.
Let q : Z := quorum (params vw).

Definition stop_for (m : StoredVC) : bool :=
  bool_decide (vc_view (message m) = view_seq nv) &&
  match vc_kind (message m) with Stop _ => true | _ => false end.

Lemma sync_queue_view sy h m : view (sync_queue sy h m) = view sy.
Proof. unfold sync_queue, stbo_queue, view. by destruct (vc_kind m). Qed.

(** What a STOP does to the synchronizer of a replica that has sent its own. *)
Lemma process_stop sy i h m now (env : Env (S := S) (O := O) (P := P)) :
  s_phase sy = Stopping2 i -> view sy = vw -> fine_message fine m ->
  if stop_for (mkStored h m) && bool_decide (hdr_from h ∉ dom (stopped sy)) then
    exists requests, process_stopping sy i h m now env =
      (let sy1 := set_stopped sy (<[hdr_from h := requests]> (stopped sy)) in
       if i + 1 =? q then stop_quorum sy1 now env
       else Done (Running, set_s_phase sy1 (Stopping2 (i + 1)), env))
  else exists st sy', process_stopping sy i h m now env = Done (st, sy', env) /\
    (st = SNil \/ st = Running) /\ (sy' = sy \/ (sy' = sync_queue sy h m /\ stop_slot sy' = stop_slot sy)).
Proof.
  intros Hp Hv [Hm _]. unfold process_stopping, stop_for. cbn [message header].
  assert (Hst : stop_status sy i = SNil \/ stop_status sy i = Running) by (unfold stop_status; case_match; tauto).
  assert (Hs : forall k, vc_kind m = k -> (match k with Stop _ => vc_view m <> view_seq nv | _ => True end) ->
    stop_slot (sync_queue sy h m) = stop_slot sy)
    by (intros k Ek Hk; apply stop_slot_queue; [by rewrite Hv|done|]; rewrite Ek, Hv; exact Hk).
  assert (Hq : forall k, vc_kind m = k -> (match k with Stop _ => vc_view m <> view_seq nv | _ => True end) ->
    exists st sy', Done (stop_status sy i, sync_queue sy h m, env) = Done (st, sy', env) /\
    (st = SNil \/ st = Running) /\ (sy' = sy \/ (sy' = sync_queue sy h m /\ stop_slot sy' = stop_slot sy))).
  { intros k Ek Hk. eexists _, _. split; [reflexivity|]. split; [done|]. right. split; [done|]. by eapply Hs. }
  destruct (vc_kind m) as [requests|c|lc] eqn:Ek; [|rewrite andb_false_r; cbn [andb]; exact (Hq _ eq_refl Logic.I)..].
  rewrite Hv. change (next (view_seq vw)) with (view_seq nv). rewrite andb_true_r.
  case_decide as Hn; [rewrite bool_decide_eq_false_2 by done; cbn [andb]; exact (Hq _ eq_refl Hn)|].
  assert (Heq : vc_view m = view_seq nv) by (destruct (decide (vc_view m = view_seq nv)); tauto).
  rewrite bool_decide_eq_true_2 by exact Heq. cbn [andb].
  case_decide as Hin.
  - rewrite bool_decide_eq_false_2 by (intros Hx; by apply Hx, elem_of_dom).
    eexists _, _. split; [reflexivity|]. split; [done|]. by left.
  - rewrite bool_decide_eq_true_2 by (by rewrite elem_of_dom). exists requests.
    cbn [s_phase set_stopped]. rewrite Hp. cbv zeta. change (view (set_stopped sy ?x)) with (view sy).
    rewrite Hv. fold q. reflexivity.
Qed.

(** A quorum of STOPs: the requests they carry are taken over, and the proofs of
    this replica are sent to the leader of the next view. *)
Lemma add_stopped_keeps sy (l : Log S O) :
  let '(sy', l') := add_stopped_requests (P := P) sy l in
  s_tbo sy' = s_tbo sy /\ stopped sy' = ∅ /\ collects sy' = collects sy /\
  declog l' = declog l /\ l_batch_size l' = l_batch_size l.
Proof.
  unfold add_stopped_requests. destruct (stopped_requests sy None) as [rq sy1] eqn:E.
  assert (E1 : sy1 = set_stopped sy ∅) by (unfold stopped_requests in E; by injection E as _ <-).
  assert (Hgen : forall rq sy1 (l : Log S O),
    let '(sy', l') := foldl (fun '(self, log) stopped =>
      (set_watching self (watching_timeouts self)
         (<[unique_digest (header stopped) := TimedOut]> (watching self)),
       insert (P := P) log (header stopped) (Request (message stopped)))) (sy1, l) rq in
    s_tbo sy' = s_tbo sy1 /\ stopped sy' = stopped sy1 /\ collects sy' = collects sy1 /\
    declog l' = declog l /\ l_batch_size l' = l_batch_size l).
  { clear. induction rq as [|r rq IH]; intros sy1 l; cbn [foldl]; [done|].
    specialize (IH (set_watching sy1 (watching_timeouts sy1)
      (<[unique_digest (header r) := TimedOut]> (watching sy1)))
      (insert (P := P) l (header r) (Request (message r)))). by destruct (foldl _ _ rq). }
  specialize (Hgen rq sy1 l). destruct (foldl _ _ rq) as [sy' l']. by subst sy1.
Qed.

Lemma watch_all_keeps sy now ts :
  let sy' := (watch_all_requests sy now ts).1 in
  s_tbo sy' = s_tbo sy /\ stopped sy' = stopped sy /\ collects sy' = collects sy.
Proof. unfold watch_all_requests. by case_match. Qed.

(** The decision log, the node and the proofs of the replica when it started. *)
Context (g : DecisionLog) (n n' : Node S O P) (dg : Digest) (c : CollectData) (b : nat).
Context (Hcollect : DecLog.collect_data g nv = Done c).
Context (Hsend : send n (ViewChange (mkViewChange (view_seq nv) (StopData c))) (leader nv) = Done (n', dg)).

(** The replica when it has installed the next view. *)
Record installed self : Prop := mkInstalled {
  in_around : around g n' b self;
  in_view : view (synchronizer self) = nv;
  in_phase : s_phase (synchronizer self) =
             if decide (node_id n <> leader nv) then Syncing else StoppingData 0;
  in_collects : collects (synchronizer self) = ∅;
  in_signal : s_get_queue (s_tbo (synchronizer self)) = true;
  in_data : Forall (fun x => fine_message fine (message x)) (data_slot (synchronizer self))
}.

Record stopping (i : Z) (V : gset NodeId) self : Prop := mkStopping {
  sp_around : around g n b self;
  sp_view : view (synchronizer self) = vw;
  sp_phase : s_phase (synchronizer self) = Stopping2 i;
  sp_counted : dom (stopped (synchronizer self)) = V;
  sp_collects : collects (synchronizer self) = ∅;
  sp_signal : stop_slot (synchronizer self) <> [] -> s_get_queue (s_tbo (synchronizer self)) = true;
  sp_stops : Forall (fun x => fine_message fine (message x)) (stop_slot (synchronizer self));
  sp_data : Forall (fun x => fine_message fine (message x)) (data_slot (synchronizer self))
}.

(** One view change message in the counting phase. *)
Lemma stopping_message i V self x now seed : stopping i V self -> fine_message fine (message x) ->
  exists self' r, sync_phase_message self (System (header x) (ViewChange (message x))) now seed = Done (self', Ok r) /\
    looked_at stopping (fun self => stop_slot (synchronizer self)) stop_for installed q i V x
      (stop_slot (synchronizer self)) self'.
Proof.
  intros Hs Hx. pose proof Hs as [S1 S2 S3 S4 S5 S6 S7 S8]. pose proof S1 as [A1 A2 A3 A4 A5].
  cbn [sync_phase_message]. unfold run_sync, sync_process_message. rewrite S3.
  set (env := mkEnv _ _ _ _). pose proof (process_stop (synchronizer self) i (header x) (message x) now env S3 S2 Hx) as Hp.
  replace (mkStored (header x) (message x)) with x in Hp by (by destruct x). unfold looked_at.
  unfold sender. rewrite <- S4. destruct (stop_for x && _) eqn:Ec.
  2: { destruct Hp as (st & sy' & -> & Hst & Hsy). cbn [obind].
       set (self1 := set_peer _ _).
       assert (Hs1 : stopping i V self1 /\ stop_slot (synchronizer self1) = stop_slot (synchronizer self)).
       { destruct Hsy as [-> | [-> Hsl]]; [split; [|done]; by split|]. split; [|exact Hsl].
         destruct (data_slot_queue fine (synchronizer self) (header x) (message x)) as [_ Hd];
           [by rewrite S2|done|].
         split; [by split|by etrans; [apply sync_queue_view|]|done..| |exact (Hd S8)].
         change (Forall (fun x => fine_message fine (message x))
           (stop_slot (sync_queue (synchronizer self) (header x) (message x)))). by rewrite Hsl. }
       rewrite S4. destruct Hst as [-> | ->]; eexists _, _; (split; [reflexivity|exact Hs1]). }
  destruct Hp as (requests & ->). cbv zeta. destruct (Z.eqb_spec (i + 1) q) as [Hq|Hne].
  - unfold stop_quorum. set (sy1 := set_stopped _ _).
    pose proof (add_stopped_keeps sy1 (e_log env)) as Hadd.
    destruct (add_stopped_requests sy1 (e_log env)) as [sy2 l2]. destruct Hadd as (B1 & B2 & B3 & B4 & B5).
    pose proof (watch_all_keeps sy2 now (e_timeouts env)) as Hw.
    destruct (watch_all_requests sy2 now (e_timeouts env)) as [sy3 ts]. destruct Hw as (W1 & W2 & W3).
    cbn [fst] in *. cbv zeta.
    assert (Ev : view sy3 = vw) by (unfold view; cbn; rewrite W1, B1; exact S2).
    rewrite Ev. fold nv. cbn [view Synchronizer_view s_view_info s_tbo set_s_phase install_view set_s_tbo].
    rewrite B4. subst env. cbn [e_log e_node]. rewrite A2, Hcollect. cbn [obind]. rewrite A3, Hsend. cbn [obind].
    eexists _, _. split; [reflexivity|]. split; try done.
    + split; cbn; try done; [by rewrite B4|by rewrite B5].
    + cbn. by rewrite W3, B3.
    + cbn. unfold data_slot. cbn. rewrite W1, B1. exact S8.
  - cbn [obind]. eexists _, _. split; [reflexivity|]. split; [|done]. split; try done.
    cbn. rewrite dom_insert_L. by rewrite S4.
Qed.

Lemma stopping_turns now seed :
  turn_counts stopping (fun self => stop_slot (synchronizer self)) stop_for (accepted fine) installed q now seed.
Proof.
  apply (sync_turns fine stopping stop_slot) with (g := g) (n := n) (b := b).
  - intros i V self [S1 S2 S3 S4 S5 S6 S7 S8]. split; [done|].
    pose proof (poll_stops (synchronizer self) i S3 S6) as Hp.
    destruct (stop_slot (synchronizer self)) as [|m rest] eqn:Esl.
    + destruct Hp as (gq & Ep). eexists. split; [exact Ep|]. split; [|exact Esl]. destruct S1. split; try done;
      change (stop_slot (synchronizer (set_sync self ?sy))) with (stop_slot (synchronizer self)); by rewrite Esl.
    + destruct Hp as (qs & Ep & Eq). apply Forall_cons in S7 as [Hm S7]. eexists. split; [exact Ep|].
      split_and!; [|done|done]. destruct S1. split; try done. unfold stop_slot. cbn. by rewrite Eq.
  - intros i V self self' [_ T2 T3 T4 T5 T6 T7 T8] ((K1 & K2 & K3) & K4) A.
    split; [|unfold stop_slot; by rewrite K3].
    split; [exact A|unfold view; cbn; rewrite K3; exact T2|congruence..| | |];
      unfold stop_slot, data_slot; rewrite K3; assumption.
  - intros i V self x. apply stopping_message.
Qed.

(** Has a replica installed the next view? It has then sent its proofs to the
    leader. *)
Lemma stops_suffice i V self rx tl now seed : stopping i V self -> i < q -> Forall (accepted fine) rx ->
  q <= i + Z.of_nat (size (senders_of stop_for (stop_slot (synchronizer self) ++ omap view_change_of rx) ∖ V)) ->
  exists k self' rest, (k <= length (stop_slot (synchronizer self)) + length rx)%nat /\ suffix rest rx /\
    installed self' /\
    forall j, serve (k + j) self (rx ++ tl) now seed = serve j self' (rest ++ tl) now seed.
Proof.
  intros Hs Hi Hrx Hq.
  by apply (count_completes stopping (fun self => stop_slot (synchronizer self)) stop_for (accepted fine)
    installed q now seed (stopping_turns now seed) _ i V self rx tl).
Qed.

End stopping.

(** ** From STOP-DATAs to the announcement *)

(** The proofs of the first view change: no other view than the first one has
    prepared anything. *)
Definition early (c : CollectData) : Prop :=
  match quorum_writes (incomplete_proof c) with Some w => vdp_view w = ZERO | None => True end.

Section gathering.
Context {S O P : Type} `{HashFn, SigScheme, RandomState, !OrderedMap Digest, !SharedData S O P}.
Implicit Type self : Replica S O P.
Implicit Type sy : Synchronizer O.

Abbreviation StoredVC := (StoredMessage (ViewChangeMessage O)).

Context (vw : ViewInfo) (Hvw : seq_nonneg (view_seq vw)).
Let q : Z := quorum (params vw).

Definition data_for (m : StoredVC) : bool :=
  bool_decide (vc_view (message m) = view_seq vw) &&
  match vc_kind (message m) with StopData _ => true | _ => false end.

(** Proofs of a quorum are sound. *)
Lemma sound_early cid l : Forall early l -> q <= Z.of_nat (length l) ->
  sound_test (sound vw (normalized_collects cid l)) = true.
Proof.
  intros He Hl. unfold sound. destruct (List.find _ _) as [[t x]|]; [done|]. cbn [sound_test].
  assert (Hn : length (normalized_collects cid l) = length l) by apply length_map.
  unfold unbound. rewrite Hn. destruct (Z.ltb_spec (Z.of_nat (length l)) (quorum (params vw))); [unfold q in Hl; lia|].
  rewrite count_if_full; [rewrite Hn; apply Z.geb_le; exact Hl|]. intros x Hx.
  apply list_elem_of_In, in_map_iff in Hx as (c & <- & Hc%list_elem_of_In). case_decide; [|done].
  rewrite Forall_forall in He. specialize (He c Hc). unfold early in He.
  destruct (quorum_writes _); [by apply bool_decide_eq_true|done].
Qed.

(** The collected proofs. *)
Lemma collected_data (cs : gmap NodeId StoredVC) : collected cs ->
  map_Forall (fun _ x => fine_message early (message x)) cs ->
  Forall early (collect_data (map_values cs)) /\ length (collect_data (map_values cs)) = size cs.
Proof.
  intros Hc Hf. rewrite <- map_values_length. unfold collected in Hc.
  assert (Hx : forall x, x ∈ map_values cs -> exists c, vc_kind (message x) = StopData c /\ early c).
  { intros x [k Hk]%map_values_elem. destruct (Hc k x Hk) as [_ [c Ec]]. destruct (Hf k x Hk) as [_ Hfc].
    rewrite Ec in Hfc. eauto. }
  clear Hc Hf. unfold collect_data. induction (map_values cs) as [|x l IH]; [done|]. cbn.
  destruct (Hx x) as (c & -> & He); [set_solver|]. destruct IH as [I1 I2]; [set_solver|].
  split; [by constructor|]. cbn. by f_equal.
Qed.

Context (g : DecisionLog) (n : Node S O P) (b : nat).
Context (Hlead : node_id n = leader vw).
Context (Hconn : connected n (targets (params_n (params vw)))).
Context (Hsync : forall lc, serializable (ViewChange (mkViewChange (view_seq vw) (Sync lc)) : SystemMessage S O P)).
Context (Hpp : forall sq ds, serializable (Message.Consensus (mkConsensus sq (view_seq vw) (PrePrepare ds))
                                           : SystemMessage S O P)).
Context (Hlogged : forall m ds, m ∈ pre_prepares g -> c_kind (message m) = PrePrepare ds -> (length ds <= b)%nat).

(** The replica when it has announced the view: it is the one message sent
    since, and carries the proofs of a quorum. *)
Definition announced self : Prop :=
  r_phase self = NormalPhase /\ view (synchronizer self) = vw /\ s_phase (synchronizer self) = SInit /\
  phase (consensus self) = Preparing 1 /\
  exists task ds proofs, outbox (r_peer self) = outbox n ++ [task] /\
    t_message task = ViewChange (mkViewChange (view_seq vw) (Sync (mkLeaderCollects ds proofs))) /\
    Z.of_nat (length proofs) = q /\ NoDup (map sender proofs) /\ Forall (fun x => data_for x = true) proofs.

Record gathering (i : Z) (V : gset NodeId) self : Prop := mkGathering {
  ga_around : around g n b self;
  ga_view : view (synchronizer self) = vw;
  ga_phase : s_phase (synchronizer self) = StoppingData i;
  ga_counted : dom (collects (synchronizer self)) = V;
  ga_size : i = Z.of_nat (size (collects (synchronizer self)));
  ga_collected : collected (collects (synchronizer self));
  ga_collects : map_Forall (fun _ x => fine_message early (message x) /\ data_for x = true)
                  (collects (synchronizer self));
  ga_signal : data_slot (synchronizer self) <> [] -> s_get_queue (s_tbo (synchronizer self)) = true;
  ga_data : Forall (fun x => fine_message early (message x)) (data_slot (synchronizer self))
}.

(** The batch that is proposed fits. *)
Lemma chosen_fits state (l : Log S O) : (l_batch_size l <= b)%nat -> Sync.proposed state = view_change_propose l ->
  (length (chosen_batch state (pre_prepares g)) <= b)%nat.
Proof.
  intros Hb Hp.
  assert (Hprop : (length (Sync.proposed state) <= b)%nat)
    by (rewrite Hp; unfold view_change_propose; rewrite length_take; lia).
  unfold chosen_batch. destruct (List.find _ _) as [stored|] eqn:E; [|done].
  apply List.find_some in E as [Hin _]. destruct (c_kind (message stored)) eqn:Ek; try done.
  eapply Hlogged; [|exact Ek]. unfold trailing in Hin. apply list_elem_of_In in Hin.
  apply take_while_elem in Hin as [Hin _]. apply list_elem_of_In in Hin. apply in_rev in Hin. by apply list_elem_of_In.
Qed.

(** The leader's last step: with the proofs chosen it enters the new view. *)
Lemma finalize_enters sy state seed (env : Env (S := S) (O := O) (P := P)) : view sy = vw ->
  node_id (e_node env) = leader vw -> declog (e_log env) = g -> length (current (e_consensus env)) = b ->
  (length (chosen_batch state (pre_prepares g)) <= b)%nat ->
  exists sy' env', finalize sy state seed env = Done (NewView, sy', env') /\ view sy' = vw /\
    s_phase sy' = SInit /\ phase (e_consensus env') = Preparing 1 /\ e_node env' = e_node env.
Proof.
  intros Hv Hn Hg Hc Hb. unfold finalize. rewrite clear_last_occurrences_eq. cbn [obind]. rewrite Hg.
  set (prop := match List.find _ _ with Some _ => _ | None => _ end).
  assert (Hprop : prop = chosen_batch state (pre_prepares g)).
  { unfold prop, chosen_batch. destruct (List.find _ _) as [stored|]; [|done].
    unfold take_proposed_requests. by destruct (c_kind (message stored)). }
  rewrite <- Hprop in Hb. clearbody prop.
  destruct (Hpp (curr_seq (tbo (e_consensus env))) prop) as [[digest buf] Es].
  unfold forge_propose, forge. rewrite Hv. cbn [view ViewInfo_source] in *. rewrite Es.
  unfold Consensus.finalize_view_change.
  cbn [insert declog with_declog push_consensus c_kind message pre_prepares]. rewrite last_snoc. cbn [c_kind message].
  unfold accept_proposal, copy_prefix. cbn [current with_phase]. rewrite decide_True by lia. cbn [obind].
  unfold vote_prepare. rewrite Hv, decide_False by tauto. cbn [obind].
  eexists _, _. split; [reflexivity|]. by split_and!.
Qed.

(** What a STOP-DATA does to the synchronizer of the new leader. *)
Lemma process_data sy i h m seed (env : Env (S := S) (O := O) (P := P)) :
  view sy = vw -> node_id (e_node env) = leader vw -> fine_message early m ->
  if data_for (mkStored h m) && bool_decide (hdr_from h ∉ dom (collects sy)) then
    exists c, vc_kind m = StopData c /\ vc_view m = view_seq vw /\
      hdr_from h ∉ dom (collects sy)
  else exists sy', process_stopping_data sy i h m seed env = Done (Running, sy', env) /\
    (sy' = sy \/ (sy' = sync_queue sy h m /\ data_slot sy' = data_slot sy)).
Proof.
  intros Hv Hn Hm. unfold process_stopping_data, data_for. cbn [message header].
  destruct (data_slot_queue early sy h m) as [Hd _]; [by rewrite Hv|done|].
  assert (Hq : (match vc_kind m with StopData _ => vc_view m <> view_seq (view sy) | _ => True end) ->
    exists sy', Done (Running, sync_queue sy h m, env) = Done (Running, sy', env) /\
    (sy' = sy \/ (sy' = sync_queue sy h m /\ data_slot sy' = data_slot sy))).
  { intros Hk. eexists. split; [reflexivity|]. right. split; [done|]. by apply Hd. }
  destruct (vc_kind m) as [rs|c|lc]; [rewrite andb_false_r; cbn [andb]; exact (Hq Logic.I)
    | |rewrite andb_false_r; cbn [andb]; exact (Hq Logic.I)].
  rewrite Hv in Hq |- *. rewrite andb_true_r. cbv zeta. case_decide as Hne.
  - rewrite bool_decide_eq_false_2 by done. cbn [andb]. case_decide; [exact (Hq Hne)|].
    eexists. split; [reflexivity|by left].
  - assert (Heq : vc_view m = view_seq vw) by (destruct (decide (vc_view m = view_seq vw)); tauto).
    rewrite bool_decide_eq_true_2 by exact Heq. cbn [andb].
    rewrite decide_False by (intros Hx; congruence). case_bool_decide as Hin; [by exists c|].
    case_decide as Hc; [eexists; split; [reflexivity|by left]|]. destruct Hc. apply elem_of_dom. exact Hin.
Qed.

(** The proofs of the leader are those of a quorum, each of another node. *)
Lemma gathered (cs : gmap NodeId StoredVC) : collected cs ->
  map_Forall (fun _ x => fine_message early (message x) /\ data_for x = true) cs ->
  Z.of_nat (size cs) = q ->
  Z.of_nat (length (map_values cs)) = q /\ NoDup (map sender (map_values cs)) /\
  Forall (fun x => data_for x = true) (map_values cs).
Proof.
  intros Hc Hf Hq. split_and!; [by rewrite map_values_length|by apply collected_senders|].
  apply Forall_forall. intros x [k Hk]%map_values_elem. by destruct (Hf k x Hk).
Qed.

Lemma last_data sy i h m c seed (env : Env (S := S) (O := O) (P := P)) : view sy = vw ->
  s_phase sy = StoppingData i ->
  e_node env = n -> declog (e_log env) = g -> length (current (e_consensus env)) = b ->
  (l_batch_size (e_log env) <= b)%nat -> vc_kind m = StopData c -> vc_view m = view_seq vw ->
  hdr_from h ∉ dom (collects sy) -> i + 1 = q ->
  let cs := <[hdr_from h := mkStored h m]> (collects sy) in
  collected cs -> map_Forall (fun _ x => fine_message early (message x) /\ data_for x = true) cs ->
  Z.of_nat (size cs) = q ->
  exists sy' env', process_stopping_data sy i h m seed env = Done (NewView, sy', env') /\ view sy' = vw /\
    s_phase sy' = SInit /\ phase (e_consensus env') = Preparing 1 /\
    exists task ds, outbox (e_node env') = outbox n ++ [task] /\
      t_message task = ViewChange (mkViewChange (view_seq vw) (Sync (mkLeaderCollects ds (map_values cs)))).
Proof.
  intros Hv Hp Hn Hg Hc Hb Hk Hw Hin Hi cs Hcol Hfine Hsz. unfold process_stopping_data. rewrite Hk. cbv zeta.
  rewrite Hv, Hn, !decide_False; [|by intros Hx; apply Hin, elem_of_dom|congruence|congruence].
  fold cs. destruct (Z.eqb_spec (i + 1) (quorum (params (view (set_collects sy cs))))) as [_|Hx];
    [|destruct Hx; change (view (set_collects sy cs)) with (view sy); by rewrite Hv].
  cbn [negb]. change (collects (set_collects sy cs)) with cs. change (view (set_collects sy cs)) with (view sy).
  rewrite Hv. set (cid := next_cid _). set (snd_ := sound vw _).
  assert (Hs : sound_test snd_ = true).
  { destruct (collected_data cs Hcol) as [D1 D2]; [by eapply map_Forall_impl; [exact Hfine|]; intros ? ? []|].
    apply sound_early; [done|]. by rewrite D2, Hsz. }
  rewrite Hs. cbn [negb].
  destruct (broadcast_done n (ViewChange (mkViewChange (view_seq vw) (Sync (mkLeaderCollects
    (view_change_propose (e_log env)) (map_values cs)))))
    (filter (fun id => id <> node_id n) (view_group sy))) as (task & d & E & Ht & _).
  { intros j Hj. apply Hconn. apply list_elem_of_filter in Hj as [_ Hj]. unfold view_group in Hj. by rewrite Hv in Hj. }
  { apply Hsync. }
  change (view_group (set_collects sy cs)) with (view_group sy). rewrite E. cbn [obind].
  unfold finalize_view_change, pre_finalize. cbn [s_phase set_collects e_log fs_sound]. rewrite Hp, Hs.
  rewrite andb_false_r.
  set (state := mkFinalize _ _ _). set (env1 := mkEnv _ _ _ _).
  destruct (finalize_enters (set_collects (set_collects sy cs) ∅) state seed env1) as (sy' & env' & Ef & F1 & F2 & F3 & F4);
    [exact Hv|exact Hlead|exact Hg|exact Hc|by apply (chosen_fits state (e_log env))|].
  exists sy', env'. split_and!; [exact Ef|done..|]. exists task, (view_change_propose (e_log env)). by rewrite F4.
Qed.

Lemma gathering_message i V self x now seed : gathering i V self -> fine_message early (message x) ->
  exists self' r, sync_phase_message self (System (header x) (ViewChange (message x))) now seed = Done (self', Ok r) /\
    looked_at gathering (fun self => data_slot (synchronizer self)) data_for announced q i V x
      (data_slot (synchronizer self)) self'.
Proof.
  intros Hs Hx. pose proof Hs as [S1 S2 S3 S4 S5 S6 S7 S8 S9]. pose proof S1 as [A1 A2 A3 A4 A5].
  cbn [sync_phase_message]. unfold run_sync, sync_process_message. rewrite S3.
  set (env := mkEnv _ _ _ _).
  pose proof (process_data (synchronizer self) i (header x) (message x) seed env S2) as Hp.
  cbn [e_node env] in Hp. rewrite A3 in Hp. specialize (Hp Hlead Hx).
  assert (Ex : mkStored (header x) (message x) = x) by (by destruct x). rewrite Ex in Hp.
  unfold looked_at, sender. rewrite <- S4. destruct (data_for x && _) eqn:Ec.
  2: { destruct Hp as (sy' & -> & Hsy). cbn [obind]. eexists _, _. split; [reflexivity|]. rewrite S4.
       destruct Hsy as [-> | [-> Hsl]]; [split; [|done]; by split|]. split; [|exact Hsl].
       split; try done; [by etrans; [apply sync_queue_view|]|].
       by destruct (data_slot_queue early (synchronizer self) (header x) (message x)) as [_ Hd];
         [rewrite S2|done|apply Hd]. }
  destruct Hp as (c & Hk & Hw & Hin).
  set (cs := <[hdr_from (header x) := x]> (collects (synchronizer self))).
  assert (Hcol : collected cs) by (unfold cs; rewrite <- Ex at 2; by eapply collected_insert).
  assert (Hfine : map_Forall (fun _ x => fine_message early (message x) /\ data_for x = true) cs).
  { apply map_Forall_insert_2; [|done]. apply andb_true_iff in Ec as [Ec _]. done. }
  assert (Hsz : Z.of_nat (size cs) = i + 1).
  { unfold cs. rewrite map_size_insert_None by (by apply not_elem_of_dom). lia. }
  destruct (Z.eqb_spec (i + 1) q) as [Hq|Hne].
  - destruct (last_data (synchronizer self) i (header x) (message x) c seed env)
      as (sy' & env' & E & F1 & F2 & F3 & task & ds & F4 & F5); try done; [by rewrite Ex..|by rewrite Ex; etrans; [exact Hsz|]|].
    rewrite E. cbn [obind]. eexists _, _. split; [reflexivity|]. split_and!; try done.
    rewrite Ex in F5. exists task, ds, (map_values cs). split_and!; [done|done|..]; apply gathered; done || lia.
  - unfold process_stopping_data. rewrite Hk. cbv zeta. subst env. cbn [e_node]. rewrite S2, A3, !decide_False;
      [|by intros Hx'; apply Hin, elem_of_dom|congruence|congruence].
    rewrite Ex. fold cs. change (view (set_collects (synchronizer self) cs)) with (view (synchronizer self)).
    rewrite S2. fold q. destruct (Z.eqb_spec (i + 1) q); [done|]. cbn [negb obind].
    eexists _, _. split; [reflexivity|]. split; [|done]. split; try done.
    cbn. unfold cs. by rewrite dom_insert_L, S4.
Qed.

Lemma gathering_turns now seed :
  turn_counts gathering (fun self => data_slot (synchronizer self)) data_for (accepted early) announced q now seed.
Proof.
  apply (sync_turns early gathering data_slot) with (g := g) (n := n) (b := b).
  - intros i V self [S1 S2 S3 S4 S5 S6 S7 S8 S9]. split; [done|].
    pose proof (poll_data (synchronizer self) i S3 S8) as Hp.
    destruct (data_slot (synchronizer self)) as [|m rest] eqn:Esl.
    + destruct Hp as (gq & Ep). eexists. split; [exact Ep|]. split; [|exact Esl]. destruct S1. split; try done;
      change (data_slot (synchronizer (set_sync self ?sy))) with (data_slot (synchronizer self)); by rewrite Esl.
    + destruct Hp as (qd & Ep & Eq). apply Forall_cons in S9 as [Hm S9]. eexists. split; [exact Ep|].
      split_and!; [|done|done]. destruct S1. split; try done. unfold data_slot. cbn. by rewrite Eq.
  - intros i V self self' [_ T2 T3 T4 T5 T6 T7 T8 T9] ((K1 & K2 & K3) & K4) A.
    split; [|unfold data_slot; by rewrite K3].
    split; [exact A|unfold view; cbn; rewrite K3; exact T2|congruence..|by rewrite K4|by rewrite K4| |];
      unfold data_slot; rewrite K3; assumption.
  - intros i V self x. apply gathering_message.
Qed.

Lemma data_suffices i V self rx tl now seed : gathering i V self -> i < q -> Forall (accepted early) rx ->
  q <= i + Z.of_nat (size (senders_of data_for (data_slot (synchronizer self) ++ omap view_change_of rx) ∖ V)) ->
  exists k self' rest, (k <= length (data_slot (synchronizer self)) + length rx)%nat /\ suffix rest rx /\
    announced self' /\
    forall j, serve (k + j) self (rx ++ tl) now seed = serve j self' (rest ++ tl) now seed.
Proof.
  intros Hs Hi Hrx Hq.
  by apply (count_completes gathering (fun self => data_slot (synchronizer self)) data_for (accepted early)
    announced q now seed (gathering_turns now seed) _ i V self rx tl).
Qed.

End gathering.

(** ** A replica between two views *)

Section change.
Context {S O P : Type} `{HashFn, SigScheme, RandomState, !OrderedMap Digest, !SharedData S O P}.
Implicit Type self : Replica S O P.
Implicit Type sy : Synchronizer O.

Abbreviation StoredVC := (StoredMessage (ViewChangeMessage O)).

Lemma senders_of_app wanted (l l' : list StoredVC) :
  senders_of wanted (l ++ l') = senders_of wanted l ∪ senders_of wanted l'.
Proof. unfold senders_of. rewrite List.filter_app, map_app. apply list_to_set_app_L. Qed.

Lemma send_done (n : Node S O P) m t : connected n [t] -> serializable m ->
  exists n' d task, send n m t = Done (n', d) /\ outbox n' = outbox n ++ [task] /\ t_message task = m /\
    node_id n' = node_id n /\ peer_tx n' = peer_tx n.
Proof.
  intros Hc [[d buf] Hs]. unfold send, send_to. rewrite Hs.
  destruct (next_state (rng n)) as [nonce rng'].
  destruct (decide (node_id n = t)) as [Hn|Hn].
  - cbn [obind]. eexists _, _, _. by split_and!.
  - rewrite decide_True by (apply Hc; [set_solver|congruence]). cbn [obind]. eexists _, _, _. by split_and!.
Qed.

(** The STOPs counted by a replica in the normal phase. *)
Definition stops_counted sy : option Z :=
  match s_phase sy with SInit => Some 0 | Stopping i => Some i | _ => None end.

(** The STOP of one more node, the [f + 1]st, starts the view change. *)
Lemma process_last_stop sy i m now (env : Env (S := S) (O := O) (P := P)) :
  s_phase sy = Stopping i -> stop_for (view sy) m = true -> sender m ∉ dom (stopped sy) ->
  params_f (params (view sy)) < i + 1 -> connected (e_node env) (view_group sy) ->
  (forall rs, serializable (ViewChange (mkViewChange (next (view_seq (view sy))) (Stop rs)) : SystemMessage S O P)) ->
  exists sy' node' task rs, process_stopping sy i (header m) (message m) now env =
      Done (Running, sy', mkEnv (e_timeouts env) (e_log env) (e_consensus env) node') /\
    s_phase sy' = Stopping2 (i + 1) /\ s_tbo sy' = s_tbo sy /\ collects sy' = collects sy /\
    outbox node' = outbox (e_node env) ++ [task] /\
    t_message task = ViewChange (mkViewChange (next (view_seq (view sy))) (Stop rs)).
Proof.
  intros Hp Hm Hin Hf Hconn Hser. unfold process_stopping.
  unfold stop_for in Hm. apply andb_true_iff in Hm as [Hv%bool_decide_eq_true Hk].
  destruct (vc_kind (message m)) as [rs|c|lc]; try discriminate.
  rewrite !decide_False; [|by intros Hx; apply Hin, elem_of_dom|by intros Hx; apply Hx].
  cbn [s_phase set_stopped]. rewrite Hp. change (view (set_stopped sy ?x)) with (view sy).
  destruct (Z.gtb_spec (i + 1) (params_f (params (view sy)))); [|lia].
  unfold begin_view_change, enter_stopping. cbn [s_phase set_stopped]. rewrite Hp.
  set (sy1 := unwatch_all_requests _). destruct (stopped_requests sy1 None) as [rs' sy2] eqn:Er.
  assert (E2 : sy2 = set_stopped sy1 ∅) by (unfold stopped_requests in Er; by injection Er as _ <-). subst sy2.
  change (view (set_stopped sy1 ∅)) with (view sy). change (view_group (set_stopped sy1 ∅)) with (view_group sy).
  destruct (broadcast_done (e_node env) _ _ Hconn (Hser rs')) as (task & d & Eb & Ht & _).
  rewrite Eb. cbn [obind]. eexists _, _, task, rs'. split; [reflexivity|]. by split_and!.
Qed.

(** A replica in the normal phase that looks at the STOP of the [f + 1]st node
    leaves it and asks for the next view itself. *)
Theorem last_stop_joins self i m rest rx now seed :
  let sy := synchronizer self in
  r_phase self = NormalPhase -> stops_counted sy = Some i -> s_get_queue (s_tbo sy) = true ->
  stop_slot sy = m :: rest -> stop_for (view sy) m = true -> sender m ∉ dom (stopped sy) ->
  params_f (params (view sy)) < i + 1 -> connected (r_peer self) (view_group sy) ->
  (forall rs, serializable (ViewChange (mkViewChange (next (view_seq (view sy))) (Stop rs)) : SystemMessage S O P)) ->
  exists self' task rs, run_once self rx rx now seed = Done (self', Ok tt) /\
    r_phase self' = SyncPhase /\ s_phase (synchronizer self') = Stopping2 (i + 1) /\
    view (synchronizer self') = view sy /\ stop_slot (synchronizer self') = rest /\
    s_get_queue (s_tbo (synchronizer self')) = true /\
    outbox (r_peer self') = outbox (r_peer self) ++ [task] /\
    t_message task = ViewChange (mkViewChange (next (view_seq (view sy))) (Stop rs)).
Proof.
  intros sy Hp Hc Hg Hslot Hm Hin Hf Hconn Hser. unfold run_once, update_normal_phase, update_sync_phase.
  rewrite Hp. fold sy. unfold stop_slot in Hslot.
  assert (Hq : exists q', q_stop (s_tbo sy) = (m :: rest) :: q').
  { destruct (q_stop (s_tbo sy)) as [|a q']; cbn in Hslot; [done|]. subst a. by exists q'. }
  destruct Hq as [q' Hq].
  assert (Hcan : can_process_stops (s_tbo sy) = true) by (unfold can_process_stops; by rewrite Hq).
  set (sy1 := set_s_phase (set_s_tbo sy (mkSyncTbo (s_view_info (s_tbo sy)) true (rest :: q') (q_stop_data (s_tbo sy))
    (q_sync (s_tbo sy)))) (Stopping i)).
  assert (Epoll : sync_poll sy = (SNextMessage (header m) (message m), sy1)).
  { unfold sync_poll. rewrite Hg. unfold stops_counted in Hc. unfold sync_extract. rewrite Hq. cbn [tbo_pop_message].
    rewrite Hg. destruct (s_phase sy) eqn:Eph; try discriminate; injection Hc as <-; reflexivity. }
  rewrite Hcan, Epoll. cbn [sync_phase_message]. unfold run_sync, sync_process_message.
  change (s_phase (synchronizer (set_sync self sy1))) with (Stopping i). cbv iota.
  change (synchronizer (set_sync self sy1)) with sy1.
  destruct (process_last_stop sy1 i m now (mkEnv (timeouts (set_sync self sy1)) (log (set_sync self sy1))
    (consensus (set_sync self sy1)) (r_peer (set_sync self sy1)))) as (sy' & nd & task & rs & E & F1 & F2 & F3 & F4 & F5);
    try done.
  rewrite E. cbn [obind]. eexists _, task, rs. split; [reflexivity|].
  split_and!; try done; unfold view, stop_slot; cbn; by rewrite F2.
Qed.

(** A replica that has asked for the next view and has counted [i] STOPs. *)
Record changing (fine : CollectData -> Prop) (i : Z) self : Prop := mkChanging {
  cg_view : seq_nonneg (view_seq (view (synchronizer self)));
  cg_phase : r_phase self = SyncPhase;
  cg_stopping : s_phase (synchronizer self) = Stopping2 i;
  cg_collects : collects_ok (synchronizer self);
  cg_signal : stop_slot (synchronizer self) <> [] -> s_get_queue (s_tbo (synchronizer self)) = true;
  cg_stops : Forall (fun x => fine_message fine (message x)) (stop_slot (synchronizer self));
  cg_data : Forall (fun x => fine_message fine (message x)) (data_slot (synchronizer self));
  cg_room : (l_batch_size (log self) <= length (current (consensus self)))%nat
}.

Lemma changing_stopping fine i self : changing fine i self ->
  stopping (view (synchronizer self)) fine (declog (log self)) (r_peer self) (length (current (consensus self)))
    i (dom (stopped (synchronizer self))) self.
Proof.
  intros [C1 C2 C3 [_ C4] C5 C6 C7 C8]. rewrite C3 in C4. by split.
Qed.

(** The STOPs that are queued or received, of nodes that have not been counted. *)
Definition new_stoppers self (rx : list (Message S O P)) : gset NodeId :=
  senders_of (stop_for (view (synchronizer self)))
    (stop_slot (synchronizer self) ++ omap view_change_of rx) ∖ dom (stopped (synchronizer self)).

(** C17: a replica that has asked for the next view, and has counted fewer STOPs
    than a quorum, installs it as soon as the STOPs it has counted, with those in
    its queue and those it receives of different nodes whose STOPs it does not
    hold, are a quorum, in no more turns than there are STOPs queued and messages
    received. It has then sent its own STOP-DATA, and collects those of others if
    it leads the new view, otherwise it waits for the leader's SYNC. The
    conditions: the proof of its own decisions can be collected (after a
    checkpoint [collect_data] can panic), it serializes and the new leader is
    connected; the consensus layer has room for a batch, no collects are kept, and
    queued STOPs are signalled; what is queued or arrives in between are client
    requests, forwarded requests, consensus messages and view change messages
    whose view numbers are not negative (a negative one can be an alias that is
    never disposed of), and the view number of the replica is not negative either.
    *)
Theorem stops_install_view self i c rx now seed :
  let vw := view (synchronizer self) in let nv := next_view vw in
  changing (fun _ => True) i self -> i < quorum (params vw) ->
  DecLog.collect_data (declog (log self)) nv = Done c ->
  connected (r_peer self) [leader nv] ->
  serializable (ViewChange (mkViewChange (view_seq nv) (StopData c)) : SystemMessage S O P) ->
  Forall (accepted (fun _ => True)) rx ->
  quorum (params vw) <= i + Z.of_nat (size (new_stoppers self rx)) ->
  exists k self' rest task,
    (k <= length (stop_slot (synchronizer self)) + length rx)%nat /\ suffix rest rx /\
    serve k self rx now seed = Done (self', Ok tt, rest) /\
    view (synchronizer self') = nv /\
    s_phase (synchronizer self') = (if decide (node_id (r_peer self) <> leader nv) then Syncing else StoppingData 0) /\
    declog (log self') = declog (log self) /\
    outbox (r_peer self') = outbox (r_peer self) ++ [task] /\
    t_message task = ViewChange (mkViewChange (view_seq nv) (StopData c)).
Proof.
  intros vw nv Hc Hi Hcol Hconn Hser Hrx Hq.
  destruct (send_done (r_peer self) _ (leader nv) Hconn Hser) as (n' & d & task & Es & Eo & Et & _ & _).
  pose proof (changing_stopping _ _ _ Hc) as Hs.
  destruct (stops_suffice vw (cg_view _ _ _ Hc) (fun _ => True) (declog (log self)) (r_peer self) n' d c _ Hcol Es
    i _ self rx [] now seed Hs Hi Hrx Hq) as (k & self' & rest & Hk & Hsf & [[A1 A2 A3 A4 A5] I2 I3 I4 I5 I6] & E).
  exists k, self', rest, task. specialize (E 0%nat). rewrite Nat.add_0_r, !app_nil_r in E.
  split_and!; try done. by rewrite A3.
Qed.

(** C16: the replica that leads the next view enters it: when the STOPs of a
    quorum have reached it and then, with its own, the STOP-DATAs of a quorum, it
    is back in the normal phase, in the new view, with its proposal as the first
    vote of the running instance, and it has announced the view in a SYNC with the
    STOP-DATAs of exactly a quorum of distinct replicas. The conditions: the proof
    of its own decisions can be collected (after a checkpoint [collect_data] can
    panic); it is connected to the group and its messages of the new view
    serialize; the batches of its logged PRE-PREPAREs and a new batch fit in
    [current]; the proofs are those of a first view change, in which what was
    prepared was prepared in view 0; it has counted fewer STOPs than a quorum,
    keeps no collects, and queued STOPs are signalled; and what it has queued and
    receives are client requests, forwarded requests, consensus messages and view
    change messages whose view numbers are not negative, as is that of its own
    view. *)
Theorem leader_enters_next_view self i c rx1 rx2 now seed :
  let vw := view (synchronizer self) in let nv := next_view vw in
  changing early i self -> 0 <= i < quorum (params vw) ->
  node_id (r_peer self) = leader nv ->
  connected (r_peer self) (targets (params_n (params vw))) ->
  (forall kind, serializable (ViewChange (mkViewChange (view_seq nv) kind) : SystemMessage S O P)) ->
  (forall sq kind, serializable (Message.Consensus (mkConsensus sq (view_seq nv) kind) : SystemMessage S O P)) ->
  DecLog.collect_data (declog (log self)) nv = Done c ->
  (forall m ds, m ∈ pre_prepares (declog (log self)) -> c_kind (message m) = PrePrepare ds ->
    (length ds <= length (current (consensus self)))%nat) ->
  Forall (accepted early) rx1 -> Forall (accepted early) rx2 ->
  quorum (params vw) <= i + Z.of_nat (size (new_stoppers self rx1)) ->
  quorum (params vw) <= Z.of_nat (size (senders_of (data_for nv) (omap view_change_of rx2))) ->
  exists k self' rest own task ds proofs,
    serve k self (rx1 ++ rx2) now seed = Done (self', Ok tt, rest) /\
    r_phase self' = NormalPhase /\ view (synchronizer self') = nv /\ s_phase (synchronizer self') = SInit /\
    phase (consensus self') = Preparing 1 /\
    outbox (r_peer self') = outbox (r_peer self) ++ [own; task] /\
    t_message own = ViewChange (mkViewChange (view_seq nv) (StopData c)) /\
    t_message task = ViewChange (mkViewChange (view_seq nv) (Sync (mkLeaderCollects ds proofs))) /\
    Z.of_nat (length proofs) = quorum (params vw) /\ NoDup (map sender proofs) /\
    Forall (fun x => data_for nv x = true) proofs.
Proof.
  intros vw nv Hc [H0i Hi] Hlead Hconn Hvc Hcons Hcol Hlogged Hrx1 Hrx2 Hq1 Hq2.
  destruct (send_done (r_peer self) (ViewChange (mkViewChange (view_seq nv) (StopData c))) (leader nv))
    as (n' & d & own & Es & Eo & Et & En & Ep); [|by apply Hvc|].
  { intros j ->%list_elem_of_singleton Hne. by rewrite Hlead in Hne. }
  destruct (stops_suffice vw (cg_view _ _ _ Hc) early (declog (log self)) (r_peer self) n' d c _ Hcol Es
    i _ self rx1 rx2 now seed (changing_stopping _ _ _ Hc) Hi Hrx1 Hq1)
    as (k1 & self1 & rest1 & _ & Hsf & [I1 I2 I3 I4 I5 I6] & E1).
  rewrite decide_False in I3 by (by intros Hne; apply Hne).
  assert (Hg : gathering nv (declog (log self)) n' (length (current (consensus self))) 0 ∅ self1).
  { split; try done; rewrite I4; [apply dom_empty_L|by rewrite map_size_empty|apply map_Forall_empty..]. }
  destruct (data_suffices nv) with (g := declog (log self)) (n := n') (b := length (current (consensus self)))
    (i := 0) (V := ∅ : gset NodeId) (self := self1) (rx := rest1 ++ rx2) (tl := [] : list (Message S O P))
    (now := now) (seed := seed)
    as (k2 & self2 & rest2 & _ & _ & (F1 & F2 & F3 & F4 & task & ds & proofs & F5 & F6 & F7 & F8 & F9) & E2);
    try done.
  - by apply next_nonneg, (cg_view _ _ _ Hc).
  - by rewrite En.
  - intros j Hj Hne. rewrite Ep. apply Hconn; [done|congruence].
  - change (params nv) with (params vw). lia.
  - apply Forall_app. split; [|done]. destruct Hsf as [l ->]. by apply Forall_app in Hrx1 as [_ ?].
  - rewrite omap_app, !senders_of_app. etrans; [exact Hq2|]. rewrite Z.add_0_l. apply Nat2Z.inj_le, subseteq_size. set_solver.
  - exists (k1 + (k2 + 0))%nat, self2, rest2, own, task, ds, proofs.
    rewrite !app_nil_r in E2. rewrite E1, E2. split_and!; try done. by rewrite F5, Eo, <- app_assoc.
Qed.

End change.

(** ** View changes that do not complete *)

Section stall.
Context {S O P : Type} `{HashFn, SigScheme, RandomState, !OrderedMap Digest, !SharedData S O P}.
Implicit Type sy : Synchronizer O.

(** The leader has counted all but one of the STOP-DATAs of a quorum, and has
    none of them. *)
Definition stuck (vw : ViewInfo) sy : Prop :=
  view sy = vw /\ s_phase sy = StoppingData (quorum (params vw) - 1) /\ collects sy = ∅.

Lemma sound_few vw ncs : Z.of_nat (length ncs) < quorum (params vw) -> sound_test (sound vw ncs) = false.
Proof.
  intros Hl. destruct (sound_test (sound vw ncs)) eqn:E; [|done].
  apply sound_needs_quorum in E. lia.
Qed.

(** The STOP-DATA of [h] completes the count, and the proofs are rejected. *)
Definition rejects (vw : ViewInfo) (node : Node S O P) sy (h : Header) (m : ViewChangeMessage O) : Prop :=
  view sy = vw /\ s_phase sy = StoppingData (quorum (params vw) - 1) /\
  (exists c, vc_kind m = StopData c) /\ vc_view m = view_seq vw /\ collects sy !! hdr_from h = None /\
  let cs := map_values (<[hdr_from h := mkStored h m]> (collects sy)) in
  sound_test (sound vw (normalized_collects (next_cid (highest_proof vw node cs)) (collect_data cs))) = false.

Lemma rejects_stuck vw sy h m now seed (env : Env (S := S) (O := O) (P := P)) :
  leader vw = node_id (e_node env) -> rejects vw (e_node env) sy h m ->
  exists sy', sync_process_message sy h m now seed env = Done (Running, sy', env) /\ stuck vw sy'.
Proof.
  intros Hl (Hv & Hp & [c Hk] & Hw & Hn & Hs). cbv zeta in Hs.
  unfold sync_process_message. rewrite Hp. unfold process_stopping_data.
  rewrite Hk. cbv zeta. rewrite Hv, !decide_False; [|by rewrite Hn; intros [x Hx]|congruence|congruence].
  rewrite Z.sub_add.
  change (view (set_collects sy ?x)) with (view sy). change (collects (set_collects sy ?x)) with x.
  rewrite Hv, Z.eqb_refl, Hs. cbn [negb]. eexists. split; [reflexivity|]. by split_and!.
Qed.

(** Alone a STOP-DATA is rejected. *)
Lemma stuck_rejects vw node sy h m c : 1 < quorum (params vw) -> stuck vw sy -> vc_kind m = StopData c ->
  vc_view m = view_seq vw -> rejects vw node sy h m.
Proof.
  intros Hq (Hv & Hp & Hc) Hk Hw. split_and!; [done..|by exists c|done|by rewrite Hc|]. cbv zeta.
  set (l := map_values _). apply sound_few. unfold normalized_collects. rewrite length_map.
  assert (Hl : length l = 1%nat)
    by (unfold l; rewrite map_values_length, Hc; by rewrite map_size_insert_None, map_size_empty).
  pose proof (collect_data_length l). lia.
Qed.

(** C39: when the STOP-DATAs of a quorum are rejected, the new leader drops them
    but not their count, and no view change message takes it out of this state:
    every further STOP-DATA completes the count again, is judged alone, and is
    rejected. The view has to be given up. *)
Theorem rejected_collects_stall vw sy h m now seed (env : Env (S := S) (O := O) (P := P)) :
  1 < quorum (params vw) -> leader vw = node_id (e_node env) ->
  rejects vw (e_node env) sy h m \/ stuck vw sy ->
  exists sy', sync_process_message sy h m now seed env = Done (Running, sy', env) /\ stuck vw sy'.
Proof.
  intros Hq Hl [Hr|Hst]; [by apply rejects_stuck|]. pose proof Hst as (Hv & Hp & Hc).
  assert (Hqueue : exists sy', Done (Running, sync_queue sy h m, env) = Done (Running, sy', env) /\ stuck vw sy').
  { eexists. split; [reflexivity|].
    split_and!; [by rewrite sync_queue_view| |]; unfold sync_queue; by destruct (vc_kind m). }
  destruct (vc_kind m) as [rs|c|lc] eqn:Hk.
  2: destruct (decide (vc_view m = view_seq vw)) as [Hw|Hw];
    [by apply rejects_stuck, (stuck_rejects _ _ _ _ _ c)|].
  all: unfold sync_process_message, process_stopping_data; rewrite Hp, Hk; try exact Hqueue.
  rewrite decide_True by (by rewrite Hv). case_decide; [exact Hqueue|]. by exists sy.
Qed.

(** A STOP-DATA for the next view that reaches a replica before it has
    installed that view is queued behind those of the current view, and stays
    there when the view is installed: the new leader, which looks at the first
    slot, does not find it. *)
Theorem early_stop_data_lost sy i h m c now (env : Env (S := S) (O := O) (P := P)) :
  seq_nonneg (view_seq (view sy)) -> vc_kind m = StopData c -> vc_view m = next (view_seq (view sy)) ->
  s_phase sy = Stopping2 i ->
  exists st sy', process_stopping sy i h m now env = Done (st, sy', env) /\
    let installed := install_view sy' (next_view (view sy)) in
    data_slot installed = data_slot sy /\ mkStored h m ∈ slot (q_stop_data (s_tbo installed)) 1.
Proof.
  intros Hv Hk Hw Hp. unfold process_stopping. rewrite Hk. eexists _, _. split; [reflexivity|]. cbv zeta.
  change (data_slot (install_view ?x ?y)) with (data_slot x).
  change (q_stop_data (s_tbo (install_view ?x ?y))) with (q_stop_data (s_tbo x)).
  assert (Hi : index (sequence_number m) (view_seq (view sy)) = inr 1%nat).
  { change (sequence_number m) with (vc_view m). rewrite Hw. apply (index_of_successor _ 1); [done|lia]. }
  assert (Hs : forall j, slot (q_stop_data (s_tbo (sync_queue sy h m))) j =
    slot (q_stop_data (s_tbo sy)) j ++ (if decide (j = 1%nat) then [mkStored h m] else [])).
  { intros j. unfold sync_queue, stbo_queue. rewrite Hk.
    exact (slot_queue (view_seq (view sy)) (q_stop_data (s_tbo sy)) (mkStored h m) 1 j Hi). }
  unfold data_slot. rewrite !Hs, decide_False, decide_True, app_nil_r by done. split; [done|].
  apply elem_of_app. right. by apply list_elem_of_singleton.
Qed.

End stall.

(** ** Witnesses *)

#[local] Existing Instance toy_hash.
#[local] Existing Instance toy_sig.
#[local] Existing Instance toy_data.
#[local] Existing Instance key_order.
#[local] Existing Instance w_map.
#[local] Existing Instance w_map_laws.

(** Node 1 of four leads view 1. It has received the STOPs of nodes 2 and 3,
    and has asked for the view itself. *)
Definition w_stopping (i : Z) : Message Z Z Z :=
  System (w_head i 7) (ViewChange (mkViewChange (next ZERO) (Stop []))).
Definition w_proofs : CollectData := mkCollect (mkIncomplete ZERO [] None) None.
Definition w_stop_data (i : Z) : Message Z Z Z :=
  System (w_head i 7) (ViewChange (mkViewChange (next ZERO) (StopData w_proofs))).
Definition w_changing : Replica Z Z Z :=
  default w_replica (run_all w_replica [w_stopping 2; w_stopping 3]).

(** Node 1 has counted the STOP of node 2; that of node 3 is queued. *)
Definition w_counting : Replica Z Z Z :=
  set_sync w_replica (set_stopped (set_s_phase (sync_signal
    (sync_queue (sync_new REQ_BASE_DUR w_view) (w_head 3 7) (mkViewChange (next ZERO) (Stop [])))) (Stopping 1))
    {[node 2 := []]}).

Lemma last_stop_joins_witness : exists self' task rs,
  run_once w_counting (Err (Errors.simple "Communication")) (Err (Errors.simple "Communication")) 0 [] = Done (self', Ok tt) /\
  r_phase self' = SyncPhase /\ s_phase (synchronizer self') = Stopping2 2 /\
  view (synchronizer self') = w_view /\ stop_slot (synchronizer self') = [] /\
  s_get_queue (s_tbo (synchronizer self')) = true /\
  outbox (r_peer self') = outbox (r_peer w_counting) ++ [task] /\
  t_message task = ViewChange (mkViewChange (next ZERO) (Stop rs)).
Proof.
  apply (last_stop_joins w_counting 1 (mkStored (w_head 3 7) (mkViewChange (next ZERO) (Stop []))));
    try (vm_compute; reflexivity).
  - vm_compute. discriminate.
  - intros j Hj _. by apply elem_of_list_to_set.
  - intros rs. apply w_serializable.
Defined.

(** STOPs, and the STOP-DATAs of a quorum, with other traffic. *)
Definition w_rx_stops : list (Message Z Z Z) :=
  [System (w_header 2) (w_request 20); w_stopping 0; System (w_head 0 7) (Message.Consensus (w_pp 1))].
Definition w_rx_data : list (Message Z Z Z) :=
  [w_stop_data 1; w_stop_data 2; w_stop_data 2; System (w_header 1) (w_request 10); w_stop_data 0; w_stop_data 3].

Lemma w_changing_ok fine : changing fine 2 w_changing.
Proof.
  assert (E1 : r_phase w_changing = SyncPhase) by (vm_compute; reflexivity).
  assert (E2 : s_phase (synchronizer w_changing) = Stopping2 2) by (vm_compute; reflexivity).
  assert (E3 : collects (synchronizer w_changing) = ∅) by (vm_compute; reflexivity).
  assert (E4 : stop_slot (synchronizer w_changing) = []) by (vm_compute; reflexivity).
  assert (E5 : data_slot (synchronizer w_changing) = []) by (vm_compute; reflexivity).
  split; [vm_compute; split; discriminate|exact E1|exact E2| |by rewrite E4| | |].
  - apply collects_ok_empty; [exact E3|]. rewrite E2. discriminate.
  - rewrite E4. by apply Forall_nil.
  - rewrite E5. by apply Forall_nil.
  - vm_compute. lia.
Qed.

Lemma w_rx_accepted fine : fine w_proofs -> Forall (accepted fine) (w_rx_stops ++ w_rx_data).
Proof.
  intros Hf. repeat (apply Forall_cons; split; [vm_compute; repeat split; try discriminate; exact Hf|]).
  by apply Forall_nil.
Qed.

Lemma stops_install_view_witness : exists k self' rest task, (k <= 0 + 3)%nat /\ suffix rest w_rx_stops /\
  serve k w_changing w_rx_stops 0 [] = Done (self', Ok tt, rest) /\
  view (synchronizer self') = next_view w_view /\ s_phase (synchronizer self') = StoppingData 0 /\
  declog (log self') = declog (log w_changing) /\
  outbox (r_peer self') = outbox (r_peer w_changing) ++ [task] /\
  t_message task = ViewChange (mkViewChange (next ZERO) (StopData w_proofs)).
Proof.
  refine (stops_install_view w_changing 2 w_proofs w_rx_stops 0 [] (w_changing_ok _) _ _ _ (w_serializable _) _ _).
  - vm_compute. reflexivity.
  - vm_compute. reflexivity.
  - intros j Hj _. apply list_elem_of_singleton in Hj. subst j. vm_compute. reflexivity.
  - apply (Forall_app _ w_rx_stops w_rx_data), w_rx_accepted. done.
  - vm_compute. discriminate.
Defined.

Lemma leader_enters_next_view_witness : exists k self' rest own task ds proofs,
  serve k w_changing (w_rx_stops ++ w_rx_data) 0 [] = Done (self', Ok tt, rest) /\
  r_phase self' = NormalPhase /\ view (synchronizer self') = next_view w_view /\
  s_phase (synchronizer self') = SInit /\ phase (consensus self') = Preparing 1 /\
  outbox (r_peer self') = outbox (r_peer w_changing) ++ [own; task] /\
  t_message own = ViewChange (mkViewChange (next ZERO) (StopData w_proofs)) /\
  t_message task = ViewChange (mkViewChange (next ZERO) (Sync (mkLeaderCollects ds proofs))) /\
  Z.of_nat (length proofs) = 3 /\ NoDup (map sender proofs) /\
  Forall (fun x => data_for (next_view w_view) x = true) proofs.
Proof.
  refine (leader_enters_next_view w_changing 2 w_proofs w_rx_stops w_rx_data 0 [] (w_changing_ok _) _ _ _
    (fun kind => w_serializable _) (fun sq kind => w_serializable _) _ _ _ _ _ _).
  - vm_compute. split; [discriminate|reflexivity].
  - vm_compute. reflexivity.
  - intros j Hj _.
    replace (peer_conns (peer_tx (r_peer w_changing))) with (list_to_set (targets 4) : gset NodeId)
      by (vm_compute; reflexivity).
    apply elem_of_list_to_set. exact Hj.
  - vm_compute. reflexivity.
  - intros m ds Hm. vm_compute in Hm. inversion Hm.
  - apply (Forall_app _ w_rx_stops w_rx_data), w_rx_accepted. done.
  - apply (Forall_app _ w_rx_stops w_rx_data), w_rx_accepted. done.
  - vm_compute. discriminate.
  - vm_compute. discriminate.
Defined.

(** One faulty replica claims that a quorum has prepared something in view 5. *)
Definition w_bogus : ViewChangeMessage Z :=
  mkViewChange (next ZERO)
    (StopData (mkCollect (mkIncomplete ZERO [] (Some (mkVDP (mkSeqNo 5) (w_d 1)))) None)).
Definition w_gathered : Synchronizer Z :=
  set_collects (set_s_phase (sync_new REQ_BASE_DUR (next_view w_view)) (StoppingData 2))
    (list_to_map (map (fun i => (node i, mkStored (w_head i 7) (mkViewChange (next ZERO) (StopData w_proofs)))) [1; 2])).
Definition w_around : Env (S := Z) (O := Z) (P := Z) := mkEnv timeouts_new (log_new 1) (cons_new ZERO 1) (w_node (node 1)).

Lemma rejected_collects_stall_witness : exists sy',
  sync_process_message w_gathered (w_head 3 7) w_bogus 0 [] w_around = Done (Running, sy', w_around) /\
  stuck (next_view w_view) sy'.
Proof.
  apply (rejected_collects_stall (next_view w_view) w_gathered (w_head 3 7) w_bogus 0 [] w_around);
    [vm_compute; reflexivity..|]. left.
  split_and!; try (vm_compute; reflexivity). by eexists.
Defined.

Lemma early_stop_data_lost_witness : exists st sy',
  process_stopping (synchronizer w_changing) 2 (w_head 2 7) (mkViewChange (next ZERO) (StopData w_proofs)) 0 w_around
    = Done (st, sy', w_around) /\
  let installed := install_view sy' (next_view (view (synchronizer w_changing))) in
  data_slot installed = data_slot (synchronizer w_changing) /\
  mkStored (w_head 2 7) (mkViewChange (next ZERO) (StopData w_proofs)) ∈ slot (q_stop_data (s_tbo installed)) 1.
Proof.
  apply (early_stop_data_lost (synchronizer w_changing) 2 (w_head 2 7) (mkViewChange (next ZERO) (StopData w_proofs))
    w_proofs 0 w_around); [vm_compute; split; discriminate|vm_compute; reflexivity..].
Defined.

(** The same messages as in [leader_enters_next_view_witness], but the
    STOP-DATAs come before the STOPs: the leader waits for the network. *)
Theorem early_stop_data_stalls :
  match serve 20 w_changing (w_rx_data ++ w_rx_stops) 0 [] with
  | Done (self, Ok tt, []) =>
    r_phase self = SyncPhase /\ s_phase (synchronizer self) = StoppingData 0 /\
    collects (synchronizer self) = ∅ /\ awaits self = Some true /\
    length (slot (q_stop_data (s_tbo (synchronizer self))) 1) = 5%nat
  | _ => False
  end.
Proof. vm_compute. split_and!; reflexivity. Qed.
