(* ===== verification/Replication.v ===== *)
(** * State machine replication

    A group of replicas that run the main loop of [src/bft/core/server/mod.rs]
    in one view, instance after instance, against faulty nodes that may send
    anything under their own names; that the names are genuine is an assumption,
    since the code does not compare them with the connection. What the correct
    replicas broadcast goes into [msgs], from which any of them may receive, in
    any order; the senders of STOPs are kept in [stops_sent]. Requests, replies,
    timeouts, state transfer and other view change messages come from anywhere.
    As long as no request times out for the second time at a correct replica, no
    correct replica leaves its normal phase; the theorems say that the correct
    replicas execute the same batches in the same order. *)

From S2P Require Import Prelude Error Ordering Prng Crypto Params Message Tbo Collections Node.
From S2P Require Import Timeouts DecLog Log Consensus Agreement Sync Executor Cst Server Stable.
Local Open Scope Z_scope.
Local Open Scope bft_scope.

Section cluster.
Context {S O P : Type} `{HashFn, SigScheme, RandomState, !OrderedMap Digest, !OrderedMapLaws Digest,
  !SharedData S O P}.

(** A running replica, and the consensus messages it has received. *)
Record Proc := mkProc { rep : Replica S O P; inbox : list Stored }.

Record Cluster := mkCluster {
  members : gmap NodeId Proc;
  msgs : list (NodeId * ConsensusMessage);
  stops_sent : gset NodeId
}.

(** [content] is the request a unique digest stands for; [vs], [n], [f], [seq0]
    and [bs] are the arguments of [Replica::bootstrap]. *)
Context (content : Digest -> NodeId * O).
Context (vs : SeqNo) (n f : Z) (seq0 : SeqNo) (bs : nat) (vw : ViewInfo) (faulty : gset NodeId).

Definition was_sent (ms : list (NodeId * ConsensusMessage)) (m : Stored) : Prop :=
  (hdr_from (header m), message m) ∈ ms.

Definition sent_by (i : NodeId) (self self' : Replica S O P) : list (NodeId * ConsensusMessage) :=
  map (pair i) (omap consensus_of (drop (length (outbox (r_peer self))) (outbox (r_peer self')))).

(** Does a turn send a STOP? *)
Definition is_stop (t : SendTask S O P) : bool :=
  match t_message t with
  | ViewChange m => match vc_kind m with Stop _ => true | _ => false end
  | _ => false
  end.

Definition stop_by (i : NodeId) (self self' : Replica S O P) : gset NodeId :=
  if existsb is_stop (drop (length (outbox (r_peer self))) (outbox (r_peer self'))) then {[i]} else ∅.

Definition queue_of (p : Proc) : list (ExecutionRequest S O) := e_queue (executor (rep p)).

(** A correct replica starts, or takes a turn; a faulty node sends. What a
    replica receives is restricted where the code does not look: consensus
    messages are received under the name of a node that sent them ([was_sent]),
    STOPs under the name of a node that sent one ([stops_ok]), COMMITs only once
    per sender, instance and view ([fresh]), requests with the content of their
    digest ([message_ok]); and no request times out for the second time
    ([timely]). *)
Inductive cluster_step : Cluster -> Cluster -> Prop :=
| step_boot cl i node rogue now r :
    i ∈ group (params vw) -> i ∉ faulty -> members cl !! i = None -> node_id node = i ->
    Forall (message_ok content) rogue -> Forall (was_sent (msgs cl)) (consensus_in rogue) ->
    all_fresh [] (consensus_in rogue) ->
    bootstrap vs n f seq0 bs (Ok (node, rogue)) (Ok (mkHandle true [])) now = Done (Ok r) ->
    cluster_step cl (mkCluster (<[i := mkProc r (consensus_in rogue)]> (members cl)) (msgs cl) (stops_sent cl))
| step_turn cl i p rx_sync rx now seed r :
    members cl !! i = Some p -> (forall m, rx = Ok m -> message_ok content m) ->
    Forall (was_sent (msgs cl)) (delivered (rep p) rx) -> Forall (fresh (inbox p)) (delivered (rep p) rx) ->
    stops_ok (stops_sent cl) rx -> timely (synchronizer (rep p)) now rx ->
    run_once (rep p) rx_sync rx now seed = Done (r, Ok tt) ->
    cluster_step cl (mkCluster (<[i := mkProc r (inbox p ++ delivered (rep p) rx)]> (members cl))
                       (msgs cl ++ sent_by i (rep p) r) (stops_sent cl ∪ stop_by i (rep p) r))
| step_faulty cl i m : i ∈ faulty ->
    cluster_step cl (mkCluster (members cl) (msgs cl ++ [(i, m)]) (stops_sent cl))
| step_faulty_stop cl i : i ∈ faulty ->
    cluster_step cl (mkCluster (members cl) (msgs cl) (stops_sent cl ∪ {[i]})).

Definition cluster_start : Cluster := mkCluster ∅ [] ∅.

(** ** Invariant *)

Definition member_ok (ms : list (NodeId * ConsensusMessage)) (i : NodeId) (p : Proc) : Prop :=
  i ∈ group (params vw) /\ Forall (was_sent ms) (inbox p) /\
  exists γ, local_ok content faulty vw seq0 (inbox p) γ (rep p) /\
    forall m d, (i, m) ∈ ms -> c_kind m = Commit d -> claimed seq0 γ (rep p) m.

Definition cluster_inv (cl : Cluster) : Prop :=
  (forall i p, members cl !! i = Some p -> member_ok (msgs cl) i p) /\
  (forall i m, (i, m) ∈ msgs cl -> i ∈ faulty \/ is_Some (members cl !! i)) /\
  (forall i, i ∈ faulty -> members cl !! i = None) /\
  stops_sent cl ⊆ faulty.

Lemma cluster_start_inv : cluster_inv cluster_start.
Proof. split_and!; cbn; intros; set_solver. Qed.

Lemma was_sent_mono ms new l : Forall (was_sent ms) l -> Forall (was_sent (ms ++ new)) l.
Proof. intros Hf. eapply Forall_impl; [exact Hf|]. unfold was_sent. set_solver. Qed.

(** Messages of others change nothing for a member. *)
Lemma member_ok_others ms new i p : (forall m, (i, m) ∉ new) -> member_ok ms i p ->
  member_ok (ms ++ new) i p.
Proof.
  intros Hn (A & B & γ & C & D). split_and!; [done|by apply was_sent_mono|]. exists γ. split; [done|].
  intros m d [Hm|Hm]%elem_of_app; [by eapply D|]. by apply Hn in Hm.
Qed.

Lemma sent_by_other i j r r' m : i <> j -> (i, m) ∉ sent_by j r r'.
Proof.
  unfold sent_by. rewrite list_elem_of_In, in_map_iff. intros Hne (? & [= ? ?] & _). congruence.
Qed.

Lemma member_ok_turn ms i p rx_sync rx now seed r : member_ok ms i p ->
  (forall m, rx = Ok m -> message_ok content m) -> stops_ok faulty rx -> timely (synchronizer (rep p)) now rx ->
  Forall (was_sent ms) (delivered (rep p) rx) -> Forall (fresh (inbox p)) (delivered (rep p) rx) ->
  run_once (rep p) rx_sync rx now seed = Done (r, Ok tt) ->
  member_ok (ms ++ sent_by i (rep p) r) i (mkProc r (inbox p ++ delivered (rep p) rx)) /\
  stop_by i (rep p) r = ∅.
Proof.
  intros (A & B & γ & C & D) Hm Hst Hti Hs Hf Ht.
  destruct (local_ok_turn content faulty vw seq0 _ _ _ _ _ _ _ _ C Hm Hst Hti Hf Ht)
    as (γ' & C' & new & Ho & Hns & _ & M1 & M2).
  split.
  2: { unfold stop_by. rewrite Ho, drop_app_length. clear -Hns. induction Hns as [|t new Ht _ IH]; [done|].
       cbn. unfold is_stop at 1. by destruct (t_message t). }
  split_and!; [done|apply was_sent_mono, Forall_app; by split|]. exists γ'. split; [done|].
  intros m d [Hin|Hin]%elem_of_app K; [by eapply M1, D|].
  unfold sent_by in Hin. rewrite Ho, drop_app_length in Hin.
  apply list_elem_of_In, in_map_iff in Hin as (m' & [= ->] & Hin%list_elem_of_In). by eapply M2.
Qed.

(** Two queues that agree on every batch. *)
Lemma same_batches (q1 q2 : list (ExecutionRequest S O)) k :
  (k <= length q1)%nat -> (k <= length q2)%nat ->
  (forall i r1 r2, q1 !! i = Some r1 -> q2 !! i = Some r2 -> request_batch r1 = request_batch r2) ->
  omap request_batch (take k q1) = omap request_batch (take k q2).
Proof.
  revert q1 q2. induction k as [|k IH]; intros [|r1 q1] [|r2 q2] L1 L2 Hq; cbn in *; try lia; try done.
  rewrite (Hq 0%nat r1 r2 eq_refl eq_refl).
  rewrite (IH q1 q2); [done|lia|lia|]. intros i. apply (Hq (Datatypes.S i)).
Qed.

(** A STOP that was sent may have been sent by a larger set. *)
Lemma stops_ok_mono (ss ss' : gset NodeId) (rx : result (Message S O P)) : ss ⊆ ss' -> stops_ok ss rx -> stops_ok ss' rx.
Proof.
  intros Hs. unfold stops_ok, stop_ok. destruct rx as [[h []| | | | | | |]|]; try done. case_match; [|done..].
  set_solver.
Qed.

Context (Hf : Z.of_nat (size faulty) <= params_f (params vw)).

Lemma cluster_step_inv cl cl' : view_new vs n f = Ok vw -> cluster_step cl cl' -> cluster_inv cl ->
  cluster_inv cl'.
Proof.
  intros Hv Hst (Hi & Hm & Hfl & Hss).
  destruct Hst as [cl i node rogue now r Hg Hnf Hnone Hid Hok Hs Hfr Hb
    |cl i p rx_sync rx now seed r Hp Hok Hs Hfr Hsk Hti Ht|cl i m Hif|cl i Hif]; cbn [members msgs stops_sent].
  2: destruct (member_ok_turn (msgs cl) i p rx_sync rx now seed r) as [Hmok Hstop];
       [by apply Hi|done|by eapply stops_ok_mono|done..|].
  all: split_and!; cbn [members msgs stops_sent]; try done.
  - intros j q. destruct (decide (j = i)) as [->|Hne].
    + rewrite lookup_insert_eq. intros [= <-]. split_and!; [done..|].
      destruct (local_ok_bootstrap content faulty vw seq0 _ _ _ _ _ _ _ _ Hv Hf Hok Hfr Hb) as [γ Hγ].
      exists γ. split; [done|]. intros m d Hin _.
      destruct (Hm i m Hin) as [?|[? Hsome]]; [done|]. congruence.
    + rewrite lookup_insert_ne by done. apply Hi.
  - intros j m Hin. destruct (Hm j m Hin) as [?|Hx]; [by left|right].
    destruct (decide (j = i)) as [->|Hne]; [rewrite lookup_insert_eq; eauto|by rewrite lookup_insert_ne].
  - intros j Hj. rewrite lookup_insert_ne by (intros ->; done). by apply Hfl.
  - intros j q. destruct (decide (j = i)) as [->|Hne].
    + rewrite lookup_insert_eq. by intros [= <-].
    + rewrite lookup_insert_ne by done. intros Hq. apply member_ok_others; [|by apply Hi].
      intros m. by apply sent_by_other.
  - intros j m Hin. destruct (decide (j = i)) as [->|Hne]; [right; rewrite lookup_insert_eq; eauto|].
    rewrite lookup_insert_ne by done. apply elem_of_app in Hin as [Hin|Hin]; [by eapply Hm|].
    by apply sent_by_other in Hin.
  - intros j Hj. rewrite lookup_insert_ne by (intros ->; apply Hfl in Hj; congruence). by apply Hfl.
  - rewrite Hstop. set_solver.
  - intros j q Hq. apply member_ok_others; [|by apply Hi]. intros m'.
    intros [= -> _]%list_elem_of_singleton. apply Hfl in Hif. congruence.
  - intros j m' [Hin|[= -> _]%list_elem_of_singleton]%elem_of_app; [by eapply Hm|by left].
  - set_solver.
Qed.

Lemma cluster_steps_inv cl : view_new vs n f = Ok vw -> rtc cluster_step cluster_start cl -> cluster_inv cl.
Proof.
  intros Hv Hr. pose proof cluster_start_inv as Hi. revert Hi.
  induction Hr as [|x y z Hst _ IH]; [done|]. intros Hx. apply IH. by eapply cluster_step_inv.
Qed.

(** C15: views are stable. In a group with at most [f] faulty nodes, every correct
    replica stays in the normal phase of the view it was started in, and none of
    them sends a STOP, whatever STOPs the faulty nodes send under their own names:
    a view change needs the time-out of a correct replica. The conditions, which
    the code does not enforce: no request times out for the second time at a
    correct replica; a STOP or a consensus message is only received under the name
    of a node that sent one (names are not borrowed); a replica receives at most
    one COMMIT of a sender for an instance and view; the digest of a request
    identifies its client and its operation. Turns that panic or return an error
    are not taken. *)
Theorem view_is_stable cl i p : view_new vs n f = Ok vw -> rtc cluster_step cluster_start cl ->
  members cl !! i = Some p ->
  r_phase (rep p) = NormalPhase /\ view (synchronizer (rep p)) = vw /\
  i ∉ stops_sent cl /\ cst_idle (cst (rep p)).
Proof.
  intros Hv Hr Hp. apply cluster_steps_inv in Hr as (Hi & _ & Hfl & Hss); [|done].
  destruct (Hi i p Hp) as (_ & _ & γ & Hok & _). split_and!; [apply Hok..| |apply Hok].
  intros Hin%Hss%Hfl. congruence.
Qed.

(** ** Agreement on every instance *)

(** The number of batches stays below the number of sequence numbers. *)
Definition short (cl : Cluster) : Prop :=
  forall i p, members cl !! i = Some p -> Z.of_nat (length (queue_of p)) < 2147483648.

(** PRE-PREPAREs received under the same digest propose the same batch. *)
Definition digests_bind (cl : Cluster) : Prop :=
  forall i p j q m1 m2 ds1 ds2, members cl !! i = Some p -> members cl !! j = Some q ->
    m1 ∈ inbox p -> m2 ∈ inbox q -> s_digest m1 = s_digest m2 ->
    c_kind (message m1) = PrePrepare ds1 -> c_kind (message m2) = PrePrepare ds2 -> ds1 = ds2.

(** The COMMITs of the running instance are for one digest. *)
Lemma instance_commits s l0 n0 (x : Local (S := S) (O := O) (P := P)) : inst_inv vw s l0 n0 x ->
  exists d, forall m e, m ∈ ballots (drop (length (outbox n0)) (outbox (r_node x))) ->
    c_kind m = Commit e -> c_seq m = s /\ e = d.
Proof.
  intros Hi. apply inst_inv_ballots in Hi as (own & d & k & Ho & Hb). exists d. intros m e.
  rewrite Ho, drop_app_length, Hb. intros Hm%list_elem_of_In K.
  assert (Hm' : In m (own_prepare vw n0 s d ++ [mkConsensus s (view_seq (view vw)) (Commit d)])).
  { rewrite <- (take_drop k). apply in_app_iff. by left. }
  apply in_app_iff in Hm' as [Hm'|[<-|[]]]; [|by injection K].
  unfold own_prepare in Hm'. case_decide; [|done]. destruct Hm' as [<-|[]]. discriminate.
Qed.

(** A correct replica commits to one digest per instance, over all instances. *)
Lemma member_commits_agree ms i p m1 m2 d1 d2 : seq_nonneg seq0 -> member_ok ms i p ->
  Z.of_nat (length (queue_of p)) < 2147483648 -> (i, m1) ∈ ms -> (i, m2) ∈ ms ->
  c_kind m1 = Commit d1 -> c_kind m2 = Commit d2 -> c_seq m1 = c_seq m2 -> d1 = d2.
Proof.
  intros Hs0 (_ & _ & γ & Hok & Hcl) Hlen I1 I2 K1 K2 E.
  unfold queue_of in Hlen. rewrite (Forall2_length _ _ _ (lo_queue _ _ _ _ _ _ _ Hok)) in Hlen.
  destruct (instance_commits _ _ _ _ (lo_inst _ _ _ _ _ _ _ Hok)) as [d Hd]. rewrite (lo_seq _ _ _ _ _ _ _ Hok) in Hd.
  assert (Hinj : forall k1 k2, (k1 <= length (gh_hist γ))%nat -> (k2 <= length (gh_hist γ))%nat ->
    nth_seq seq0 k1 = nth_seq seq0 k2 -> k1 = k2) by (intros; eapply iter_next_inj; eauto; lia).
  destruct (Hcl m1 d1 I1 K1) as (e1 & K1' & C1), (Hcl m2 d2 I2 K2) as (e2 & K2' & C2).
  rewrite K1 in K1'. rewrite K2 in K2'. injection K1' as <-. injection K2' as <-.
  destruct C1 as [(k1 & x1 & L1 & S1 & <-)|B1], C2 as [(k2 & x2 & L2 & S2 & <-)|B2].
  - pose proof (lookup_lt_Some _ _ _ L1). pose proof (lookup_lt_Some _ _ _ L2).
    assert (k1 = k2) as -> by (apply Hinj; [lia|lia|congruence]). congruence.
  - pose proof (lookup_lt_Some _ _ _ L1). destruct (Hd m2 d2 B2 K2) as [S2 _].
    assert (k1 = length (gh_hist γ)) by (apply Hinj; [lia|lia|congruence]). lia.
  - pose proof (lookup_lt_Some _ _ _ L2). destruct (Hd m1 d1 B1 K1) as [S1 _].
    assert (k2 = length (gh_hist γ)) by (apply Hinj; [lia|lia|congruence]). lia.
  - destruct (Hd m1 d1 B1 K1) as [_ ->]. by destruct (Hd m2 d2 B2 K2) as [_ ->].
Qed.

Context (Hparams : params_ok (params vw)).
Context (Hn : params_n (params vw) = 3 * params_f (params vw) + 1).
Context (Hfaulty : faulty ⊆ group (params vw)).
Context (Hseq : seq_nonneg seq0).

(** The senders of the votes behind a decision, as members of the group. *)
Lemma backed_senders cl p k dec : cluster_inv cl -> Forall (was_sent (msgs cl)) (inbox p) ->
  backed vw seq0 (inbox p) k dec ->
  list_to_set (senders (dec_votes dec)) ⊆ group (params vw) /\
  quorum (params vw) <= Z.of_nat (size (list_to_set (C := gset NodeId) (senders (dec_votes dec)))).
Proof.
  intros (Hi & Hm & _) Hin (_ & _ & Hq & Hv & Hnd). split.
  - intros j. rewrite elem_of_list_to_set. intros Hj%list_elem_of_In.
    apply in_map_iff in Hj as (v & <- & Hv'%list_elem_of_In). rewrite Forall_forall in Hv, Hin.
    specialize (Hin v (Hv v Hv')). destruct (Hm _ _ Hin) as [?|[q Hq']]; [by apply Hfaulty|].
    by apply Hi in Hq' as [? _].
  - rewrite size_list_to_set by done. unfold senders. rewrite length_map. lia.
Qed.

Lemma decisions_agree cl i j p q k d1 d2 : cluster_inv cl -> short cl ->
  members cl !! i = Some p -> members cl !! j = Some q ->
  backed vw seq0 (inbox p) k d1 -> backed vw seq0 (inbox q) k d2 -> dec_digest d1 = dec_digest d2.
Proof.
  intros Hinv Hsh Hp Hq B1 B2. pose proof Hinv as (Hi & Hm & Hfl & _).
  destruct (Hi i p Hp) as (_ & I1 & _), (Hi j q Hq) as (_ & I2 & _).
  destruct (backed_senders _ _ _ _ Hinv I1 B1) as [G1 Q1], (backed_senders _ _ _ _ Hinv I2 B2) as [G2 Q2].
  destruct (quorum_intersection (params vw) _ _ faulty Hparams Hn G1 G2 Q1 Q2 Hf) as (c & C1 & C2 & Hc).
  destruct B1 as (_ & V1 & _ & N1 & _), B2 as (_ & V2 & _ & N2 & _).
  apply elem_of_list_to_set, list_elem_of_In, in_map_iff in C1 as (m1 & E1 & M1%list_elem_of_In).
  apply elem_of_list_to_set, list_elem_of_In, in_map_iff in C2 as (m2 & E2 & M2%list_elem_of_In).
  rewrite Forall_forall in V1, V2, N1, N2, I1, I2.
  destruct (V1 m1 M1) as [[S1 _] K1], (V2 m2 M2) as [[S2 _] K2].
  specialize (I1 m1 (N1 m1 M1)). specialize (I2 m2 (N2 m2 M2)). unfold was_sent in I1, I2.
  rewrite E1 in I1. rewrite E2 in I2.
  destruct (Hm _ _ I1) as [?|[pc Hpc]]; [done|].
  refine (member_commits_agree (msgs cl) c pc _ _ _ _ Hseq (Hi c pc Hpc) (Hsh c pc Hpc) I1 I2 K1 K2 _).
  exact (eq_trans S1 (eq_sym S2)).
Qed.

Lemma batches_agree cl i j p q k r1 r2 : cluster_inv cl -> short cl -> digests_bind cl ->
  members cl !! i = Some p -> members cl !! j = Some q ->
  queue_of p !! k = Some r1 -> queue_of q !! k = Some r2 ->
  exists ds, request_batch r1 = Some (map (update_for content) ds) /\
    request_batch r2 = Some (map (update_for content) ds).
Proof.
  intros Hinv Hsh Hbind Hp Hq R1 R2. pose proof Hinv as (Hi & _).
  destruct (Hi i p Hp) as (_ & _ & γ1 & L1 & _), (Hi j q Hq) as (_ & _ & γ2 & L2 & _).
  destruct (Forall2_lookup_l _ _ _ _ _ (lo_queue _ _ _ _ _ _ _ L1) R1) as (d1 & D1 & X1).
  destruct (Forall2_lookup_l _ _ _ _ _ (lo_queue _ _ _ _ _ _ _ L2) R2) as (d2 & D2 & X2).
  pose proof (lo_backed _ _ _ _ _ _ _ L1 k d1 D1) as B1. pose proof (lo_backed _ _ _ _ _ _ _ L2 k d2 D2) as B2.
  pose proof (decisions_agree cl i j p q k d1 d2 Hinv Hsh Hp Hq B1 B2) as E.
  destruct B1 as ((pp1 & P1 & P2 & P3) & _), B2 as ((pp2 & Q1 & Q2 & Q3) & _).
  assert (dec_batch d1 = dec_batch d2) as Eb by (eapply (Hbind i p j q pp1 pp2); eauto; congruence).
  exists (dec_batch d1). split; [exact X1|]. rewrite Eb. exact X2.
Qed.


Lemma member_only_batches cl i p k : cluster_inv cl -> members cl !! i = Some p ->
  only_batches (take k (queue_of p)).
Proof.
  intros (Hi & _) Hp. apply Forall_take. destruct (Hi i p Hp) as (_ & _ & γ & L & _).
  eapply Forall2_Forall_l; [exact (lo_queue _ _ _ _ _ _ _ L)|]. apply Forall_true. intros d r Hx.
  unfold executes in Hx. by rewrite Hx.
Qed.


End cluster.

(** ** Executing a schedule *)

Section schedule.
Context {S O P : Type} `{HashFn, SigScheme, RandomState, !OrderedMap Digest, !OrderedMapLaws Digest,
  !SharedData S O P, !EqDecision O}.
Context (content : Digest -> NodeId * O).
Context (vs : SeqNo) (n f : Z) (seq0 : SeqNo) (bs : nat) (vw : ViewInfo) (faulty : gset NodeId).

Abbreviation Clu := (Cluster (S := S) (O := O) (P := P)).

Inductive CEvent :=
| CBoot (node : Node S O P)
| CTurn (i : NodeId) (m : Message S O P)
| CFaulty (i : NodeId) (m : ConsensusMessage)
| CFaultyStop (i : NodeId).

Definition is_fresh (inbox : list Stored) (m : Stored) : bool :=
  negb (is_commit m) ||
  forallb (fun m' => negb (is_commit m') || bool_decide (vote_key m' <> vote_key m)) inbox.

#[local] Instance request_ok_dec h r : base.Decision (request_ok content h r).
Proof. unfold request_ok. apply _. Defined.

Definition is_message_ok (m : Message S O P) : bool :=
  match m with
  | System h (Request r) => bool_decide (request_ok content h r)
  | System _ (ForwardedRequests rs) => bool_decide (Forall (fun s => request_ok content (header s) (message s)) rs)
  | _ => true
  end.

(** The STOPs and timeouts of a turn at time 0. *)
Definition is_calm (ss : gset NodeId) (sy : Synchronizer O) (m : Message S O P) : bool :=
  match m with
  | System h (ViewChange m) => match vc_kind m with Stop _ => bool_decide (hdr_from h ∈ ss) | _ => true end
  | Timeout (TimeoutClientRequests _) =>
    forallb (fun e => negb (stops (timeout_dur sy) 0 e.2)) (map_to_list (watching sy))
  | _ => true
  end.

Lemma is_calm_ok ss sy m : is_calm ss sy m = true -> stops_ok ss (Ok m) /\ timely sy 0 (Ok m).
Proof.
  destruct m as [h m| | | | | | |k]; try done.
  - destruct m as [| | | |m|]; try done. cbn. unfold stop_ok. intros Hb. split; [|done].
    destruct (vc_kind m); try done. by apply bool_decide_eq_true in Hb.
  - destruct k as [|seq]; [done|]. cbn. intros Hb. split; [done|]. intros d ph Hd.
    rewrite forallb_forall in Hb. apply negb_true_iff, (Hb (d, ph)), list_elem_of_In.
    by apply elem_of_map_to_list.
Qed.

Definition cluster_exec (cl : Clu) (e : CEvent) : option Clu :=
  match e with
  | CBoot node =>
    let i := node_id node in
    if bool_decide (i ∈ group (params vw) /\ i ∉ faulty /\ ~ is_Some (members cl !! i)) then
      match bootstrap vs n f seq0 bs (Ok (node, [])) (Ok (mkHandle true [])) 0 with
      | Done (Ok r) => Some (mkCluster (<[i := mkProc r []]> (members cl)) (msgs cl) (stops_sent cl))
      | _ => None
      end
    else None
  | CTurn i m =>
    match members cl !! i with
    | Some p =>
      let new := delivered (rep p) (Ok m) in
      if is_message_ok m && is_calm (stops_sent cl) (synchronizer (rep p)) m
         && forallb (is_fresh (inbox p)) new
         && bool_decide (Forall (fun m => (hdr_from (header m), message m) ∈ msgs cl) new) then
        match run_once (rep p) (Ok m) (Ok m) 0 [] with
        | Done (r, Ok tt) => Some (mkCluster (<[i := mkProc r (inbox p ++ new)]> (members cl))
                                     (msgs cl ++ sent_by i (rep p) r) (stops_sent cl ∪ stop_by i (rep p) r))
        | _ => None
        end
      else None
    | None => None
    end
  | CFaulty i m =>
    if decide (i ∈ faulty) then Some (mkCluster (members cl) (msgs cl ++ [(i, m)]) (stops_sent cl)) else None
  | CFaultyStop i =>
    if decide (i ∈ faulty) then Some (mkCluster (members cl) (msgs cl) (stops_sent cl ∪ {[i]})) else None
  end.

Fixpoint cluster_exec_all (cl : Clu) (es : list CEvent) : option Clu :=
  match es with
  | [] => Some cl
  | e :: es => match cluster_exec cl e with Some cl => cluster_exec_all cl es | None => None end
  end.

Lemma is_fresh_ok ib m : is_fresh ib m = true -> fresh ib m.
Proof.
  unfold is_fresh, fresh. intros Hb Hm m' Hin Hm'. rewrite Hm in Hb. cbn in Hb.
  rewrite forallb_forall in Hb. specialize (Hb m' (proj1 (list_elem_of_In _ _) Hin)).
  rewrite Hm' in Hb. cbn in Hb. by apply bool_decide_eq_true in Hb.
Qed.

Lemma is_message_ok_ok m : is_message_ok m = true -> message_ok content m.
Proof.
  destruct m as [h m| | | | | | |]; try done. destruct m; try done; cbn; by rewrite bool_decide_eq_true.
Qed.

Lemma cluster_exec_step cl e cl' : cluster_exec cl e = Some cl' ->
  cluster_step content vs n f seq0 bs vw faulty cl cl'.
Proof.
  destruct e as [node|i m|i m|i]; cbn.
  - case_bool_decide as Hc; [|discriminate]. destruct Hc as (A & B & C).
    destruct (bootstrap _ _ _ _ _ _ _ _) as [[r|e]|] eqn:E; try discriminate. intros [= <-].
    eapply (step_boot content vs n f seq0 bs vw faulty cl (node_id node) node [] 0 r); try done.
    by apply eq_None_not_Some.
  - destruct (members cl !! i) as [p|] eqn:Ep; [|discriminate].
    destruct (is_message_ok m) eqn:Em; [|done]. destruct (is_calm _ _ _) eqn:Ec; [|done].
    destruct (forallb _ _) eqn:Ef; [|done]. cbn [andb]. apply is_calm_ok in Ec as [Ec1 Ec2].
    case_bool_decide as Hs; [|discriminate].
    destruct (run_once _ _ _ _ _) as [[r [[]|e]]|] eqn:Et; try discriminate.
    intros [= <-].
    eapply (step_turn content vs n f seq0 bs vw faulty cl i p (Ok m) (Ok m) 0 [] r); try done.
    + intros m' [= <-]. by apply is_message_ok_ok.
    + rewrite Forall_forall. intros x Hx. rewrite forallb_forall in Ef. apply is_fresh_ok, Ef.
      by apply list_elem_of_In.
  - case_decide; [|discriminate]. intros [= <-]. by apply step_faulty.
  - case_decide; [|discriminate]. intros [= <-]. by apply step_faulty_stop.
Qed.

Lemma cluster_exec_all_steps es : forall cl cl', cluster_exec_all cl es = Some cl' ->
  rtc (cluster_step content vs n f seq0 bs vw faulty) cl cl'.
Proof.
  induction es as [|e es IH]; intros cl cl'; cbn; [intros [= ->]; apply rtc_refl|].
  destruct (cluster_exec cl e) as [cl1|] eqn:E; [|discriminate]. intros Hr.
  eapply rtc_l; [by eapply cluster_exec_step|by apply IH].
Qed.

(** Checks of the side conditions on a concrete cluster. *)
Definition received (cl : Clu) : list Stored := mjoin ((fun ip => inbox ip.2) <$> map_to_list (members cl)).

Definition proposal (m : Stored) : option (list Digest) :=
  match c_kind (message m) with PrePrepare ds => Some ds | _ => None end.

Definition is_binding (cl : Clu) : bool :=
  forallb (fun m1 => forallb (fun m2 =>
    match proposal m1, proposal m2 with
    | Some ds1, Some ds2 => bool_decide (s_digest m1 <> s_digest m2) || bool_decide (ds1 = ds2)
    | _, _ => true
    end) (received cl)) (received cl).

Lemma received_elem cl i p m : members cl !! i = Some p -> m ∈ inbox p -> m ∈ received cl.
Proof.
  intros Hp Hm. unfold received. apply list_elem_of_join. exists (inbox p). split; [done|].
  apply list_elem_of_fmap. exists (i, p). split; [done|]. by apply elem_of_map_to_list.
Qed.

Lemma is_binding_ok cl : is_binding cl = true -> digests_bind cl.
Proof.
  unfold is_binding. intros Hb i p j q m1 m2 ds1 ds2 Hp Hq I1 I2 E K1 K2.
  rewrite forallb_forall in Hb. specialize (Hb m1 (proj1 (list_elem_of_In _ _) (received_elem _ _ _ _ Hp I1))).
  rewrite forallb_forall in Hb. specialize (Hb m2 (proj1 (list_elem_of_In _ _) (received_elem _ _ _ _ Hq I2))).
  unfold proposal in Hb. rewrite K1, K2, E in Hb. rewrite bool_decide_eq_false_2 in Hb by tauto.
  by apply bool_decide_eq_true in Hb.
Qed.

Definition is_short (cl : Clu) : bool :=
  forallb (fun ip => Z.of_nat (length (queue_of ip.2)) <? 2147483648) (map_to_list (members cl)).

Lemma is_short_ok cl : is_short cl = true -> short cl.
Proof.
  unfold is_short. intros Hb i p Hp. rewrite forallb_forall in Hb.
  specialize (Hb (i, p)). apply Z.ltb_lt, Hb, list_elem_of_In. by apply elem_of_map_to_list.
Qed.

End schedule.

(** ** Witness

    Four nodes, node 3 faulty. The other three receive two requests, order them
    in two instances and execute both; node 3 votes for another proposal and
    sends a STOP, and a timer goes off. *)

#[local] Existing Instance toy_hash.
#[local] Existing Instance toy_sig.
#[local] Existing Instance toy_data.
#[local] Existing Instance key_order.
#[local] Existing Instance w_map.
#[local] Existing Instance w_map_laws.

Definition w_content (d : Digest) : NodeId * Z :=
  if decide (d = w_d 1) then (hdr_from (w_header 1), 10) else (hdr_from (w_header 2), 20).

(** Messages of instance [k], with a header from node [j] that names digest [d]. *)
Definition w_in (k : Z) (kind : ConsensusMessageKind) : ConsensusMessage :=
  mkConsensus (mkSeqNo k) ZERO kind.
Definition w_turn (i j d : Z) (m : ConsensusMessage) : CEvent (S := Z) (O := Z) (P := Z) :=
  CTurn (node i) (System (w_head j d) (Message.Consensus m)).

(** All three replicas receive the proposal of instance [k] and the votes. *)
Definition w_instance (k d : Z) : list (CEvent (S := Z) (O := Z) (P := Z)) :=
  let dg := mkDigest (replicate 32 d) in
  map (fun i => w_turn i 0 d (w_in k (PrePrepare [w_d (k + 1)]))) [0; 1; 2] ++
  [CFaulty (node 3) (w_in k (Prepare zero_digest)); CFaulty (node 3) (w_in k (Commit zero_digest))] ++
  concat (map (fun i => [w_turn i 3 0 (w_in k (Prepare zero_digest));
                         w_turn i 1 d (w_in k (Prepare dg)); w_turn i 2 d (w_in k (Prepare dg))]) [0; 1; 2]) ++
  concat (map (fun i => map (fun j => w_turn i j d (w_in k (Commit dg))) [2; 0; 1]) [0; 1; 2]).

(** A STOP for the next view. *)
Definition w_stop : SystemMessage Z Z Z := ViewChange (mkViewChange (mkSeqNo 1) (Stop [])).

Definition w_schedule : list (CEvent (S := Z) (O := Z) (P := Z)) :=
  map (fun i => CBoot (w_node (node i))) [0; 1; 2] ++
  map (fun i => CTurn (node i) (System (w_header 1) (w_request 10))) [0; 1; 2] ++
  map (fun i => CTurn (node i) (System (w_header 2) (w_request 20))) [0; 1; 2] ++
  w_instance 0 7 ++ [CTurn (node 0) (ConnectedTx (node 1)); CFaultyStop (node 3)] ++
  [CTurn (node 0) (System (w_head 3 9) w_stop); CTurn (node 1) (System (w_head 3 9) w_stop);
   CTurn (node 0) (System (w_head 3 9) w_stop); CTurn (node 2) (Timeout (TimeoutClientRequests ZERO))] ++
  w_instance 1 8.

Definition w_cluster : Cluster (S := Z) (O := Z) (P := Z) :=
  default cluster_start (cluster_exec_all w_content ZERO 4 1 ZERO 1 w_view w_faulty cluster_start w_schedule).

Lemma w_cluster_reached : rtc (cluster_step w_content ZERO 4 1 ZERO 1 w_view w_faulty) cluster_start w_cluster.
Proof.
  apply (cluster_exec_all_steps w_content ZERO 4 1 ZERO 1 w_view w_faulty w_schedule).
  assert (E : (match cluster_exec_all w_content ZERO 4 1 ZERO 1 w_view w_faulty cluster_start w_schedule with
              | Some _ => true | None => false end) = true) by (vm_compute; reflexivity).
  unfold w_cluster. by destruct (cluster_exec_all _ _ _ _ _ _ _ _ _ _).
Qed.

(** A replica of the cluster, with its two queued batches. *)
Lemma w_member i : (match members w_cluster !! node i with
                    | Some p => bool_decide (length (queue_of p) = 2%nat) | None => false end) = true ->
  exists p, members w_cluster !! node i = Some p /\ length (queue_of p) = 2%nat.
Proof.
  destruct (members w_cluster !! node i) as [p|]; [|discriminate]. rewrite bool_decide_eq_true. eauto.
Qed.

Lemma w_params_ok : params_ok (params w_view).
Proof. unfold params_ok. split_and!; vm_compute; congruence. Qed.

Lemma w_faulty_group : w_faulty ⊆ group (params w_view).
Proof. refine (bool_decide_unpack _ _). vm_compute. exact I. Qed.


(** Replica 0 has counted the STOP of node 3, and stays where it is. *)
Lemma view_is_stable_witness : exists p, members w_cluster !! node 0 = Some p /\
  bool_decide (dom (stopped (synchronizer (rep p))) = {[node 3]}) = true /\
  r_phase (rep p) = NormalPhase /\ view (synchronizer (rep p)) = w_view /\
  node 0 ∉ stops_sent w_cluster /\ cst_idle (cst (rep p)).
Proof.
  assert (E : (match members w_cluster !! node 0 with
    | Some p => bool_decide (dom (stopped (synchronizer (rep p))) = {[node 3]}) | None => false end) = true)
    by (vm_compute; reflexivity).
  destruct (members w_cluster !! node 0) as [p|] eqn:Hp; [|discriminate]. exists p. split; [reflexivity|]. split; [exact E|].
  exact (view_is_stable w_content ZERO 4 1 ZERO 1 w_view w_faulty ltac:(vm_compute; congruence)
    w_cluster (node 0) p eq_refl w_cluster_reached Hp).
Defined.

(** A counter whose service numbers its updates from the id of the replica. *)
Definition labelled : Service Z Z Z Z := {|
  initial_state := fun sv => (sv, Ok 0);
  update := fun sv state o => (sv + 1, state + o, state + o)
|}.

#[local] Instance labelled_same : @SameAnswers Z Z Z Z labelled (fun _ _ => True).
Proof. by split. Defined.

