(* ===== verification/Client.v ===== *)
(** * The client ([src/bft/core/client/mod.rs])

    A client broadcasts a request and waits for the reply. The requests run in
    the tasks of the application, the replies are counted by one receiving
    task; they share two maps behind mutexes, [ready] (replies to be picked up)
    and [wakers] (tasks that wait). [client_step] is one turn of either side
    run as a whole; the section on wake-ups splits the turns at the points
    where the mutexes are released. *)

From S2P Require Import Prelude Error Ordering Prng Crypto Params Message Node.
Local Open Scope Z_scope.
Local Open Scope bft_scope.

(** A task's waker, by a number. *)
Definition Waker : Type := nat.

Record ReplicaVotes := mkVotes { count : Z; v_digest : Digest }.

Record ClientData (P : Type) := mkData {
  wakers : gmap Digest Waker;
  ready : gmap Digest P
}.
Arguments mkData {P} wakers ready.
Arguments wakers {P} c.
Arguments ready {P} c.

(** The client and its receiving task. The [SendNode] of the client and the
    [Node] of the task share the connections; each has its own nonces. [woken]
    lists the tasks woken up so far. *)
Record Client (S O P : Type) `{SigScheme} := mkClient {
  c_params : SystemParams;
  c_data : ClientData P;
  c_node : Node S O P;
  c_send_rng : Prng.State;
  c_votes : gmap Digest ReplicaVotes;
  c_earlier : Z;
  c_woken : list Waker
}.
Arguments mkClient {S O P H} c_params c_data c_node c_send_rng c_votes c_earlier c_woken.
Arguments c_params {S O P H} c.
Arguments c_data {S O P H} c.
Arguments c_node {S O P H} c.
Arguments c_send_rng {S O P H} c.
Arguments c_votes {S O P H} c.
Arguments c_earlier {S O P H} c.
Arguments c_woken {S O P H} c.

(** 30 s, in nanoseconds. *)
Definition GC_DUR : Z := 30 * 1000000000.

Section data.
Context {P : Type}.
Implicit Type data : ClientData P.

(** The two critical sections of [ClientRequestFut::poll]. *)
Definition poll_ready data (digest : Digest) : option P * ClientData P :=
  (ready data !! digest, mkData (wakers data) (delete digest (ready data))).

Definition poll_register data (digest : Digest) (waker : Waker) : ClientData P :=
  mkData (<[digest := waker]> (wakers data)) (ready data).

Definition poll_fut data (digest : Digest) (waker : Waker) : option P * ClientData P :=
  match poll_ready data digest with
  | (Some payload, data) => (Some payload, data)
  | (None, data) => (None, poll_register data digest waker)
  end.

(** The two critical sections that deliver a reply. *)
Definition register_response data (digest : Digest) (payload : P) : ClientData P :=
  mkData (wakers data) (<[digest := payload]> (ready data)).

Definition wake_up data (digest : Digest) : option Waker * ClientData P :=
  (wakers data !! digest, mkData (delete digest (wakers data)) (ready data)).

End data.

Section client.
Context {S O P : Type} `{HashFn, SigScheme, RandomState, !SharedData S O P}.
Implicit Type self : Client S O P.

(** Garbage collection of the votes for the replies already delivered. *)
Definition gc_votes (f earlier now : Z) (votes : gmap Digest ReplicaVotes) : gmap Digest ReplicaVotes :=
  if now - earlier >? GC_DUR then
    let to_remove := map fst (List.filter (fun e => count e.2 >? f) (map_iter votes)) in
    foldl (fun votes dig => delete dig votes) votes to_remove
  else votes.

(** Count a reply: the votes, and whether it is the one that is delivered. *)
Definition count_reply (f : Z) (votes : gmap Digest ReplicaVotes) (digest header_digest : Digest)
  : gmap Digest ReplicaVotes * bool :=
  let v := default (mkVotes 0 header_digest) (votes !! digest) in
  if count v >? f then (<[digest := v]> votes, false)
  else
    let v := if decide (v_digest v = header_digest) then mkVotes (count v + 1) (v_digest v) else v in
    (<[digest := v]> votes, count v >? f).

(** The [SystemMessage::Reply] case of the receiving task. *)
Definition reply_received self (now : Z) (header : Header) (message : ReplyMessage P) : Client S O P :=
  let f := params_f (c_params self) in
  let votes := gc_votes f (c_earlier self) now (c_votes self) in
  let digest := r_digest message in
  let payload := r_payload message in
  let '(votes, deliver) := count_reply f votes digest (hdr_digest header) in
  if deliver then
    let data := register_response (c_data self) digest payload in
    let '(waker, data) := wake_up data digest in
    mkClient (c_params self) data (c_node self) (c_send_rng self) votes now
      (c_woken self ++ match waker with Some w => [w] | None => [] end)
  else mkClient (c_params self) (c_data self) (c_node self) (c_send_rng self) votes now (c_woken self).

Definition with_node self (node : Node S O P) : Client S O P :=
  mkClient (c_params self) (c_data self) node (c_send_rng self) (c_votes self) (c_earlier self)
    (c_woken self).

(** One turn of [message_recv_task]. *)
Definition message_recv self (now : Z) (message : Message S O P) : outcome (Client S O P) :=
  match message with
  | System header (Reply message) => Done (reply_received self now header message)
  | System _ _ => Panic
  | ConnectedTx id => Done (with_node self (handle_connected_tx (c_node self) id))
  | ConnectedRx id => let! node := handle_connected_rx (c_node self) id in Done (with_node self node)
  | DisconnectedTx _ | DisconnectedRx _ => Panic
  | _ => Done self
  end.

Definition with_data self (data : ClientData P) : Client S O P :=
  mkClient (c_params self) data (c_node self) (c_send_rng self) (c_votes self) (c_earlier self)
    (c_woken self).

(** [send_node]: the node with other nonces. *)
Definition send_node (node : Node S O P) (rng : Prng.State) : Node S O P :=
  mkNode (node_id node) (first_cli node) rng (my_key node) (peer_keys node) (peer_addrs node)
    (peer_tx node) (outbox node).

(** [SendNode::send] and [SendNode::broadcast]: those of the node, with the
    generator of the [SendNode]. The node and the generator afterwards. *)
Definition send_node_send (node : Node S O P) (rng : Prng.State) (m : SystemMessage S O P) (target : NodeId)
  : outcome (Node S O P * Prng.State * Digest) :=
  let! '(sent, digest) := send (send_node node rng) m target in
  Done (send_node sent (Node.rng node), Node.rng sent, digest).

Definition send_node_broadcast (node : Node S O P) (rng : Prng.State) (m : SystemMessage S O P)
  (targets : list NodeId) : outcome (Node S O P * Prng.State * Digest) :=
  let! '(sent, digest) := broadcast (send_node node rng) m targets in
  Done (send_node sent (Node.rng node), Node.rng sent, digest).

(** [Client::bootstrap], given the connected node; [seed] are the random bytes
    of the nonces of the [SendNode]. *)
Definition client_bootstrap (n f : Z) (node : result (Node S O P * list (Message S O P)))
  (seed : list Z) (now : Z) : result (Client S O P) :=
  match params_new n f, node with
  | Err e, _ => Err e
  | Ok _, Err e => Err e
  | Ok params, Ok (node, _) => Ok (mkClient params (mkData ∅ ∅) node (Prng.new seed) ∅ now [])
  end.

(** [Client::update] until it awaits: the digest is that of the future. *)
Definition client_update self (operation : O) : outcome (Client S O P * Digest) :=
  let! '(node, rng, digest) := send_node_broadcast (c_node self) (c_send_rng self)
                                 (Request (mkRequest operation)) (targets (params_n (c_params self))) in
  Done (mkClient (c_params self) (c_data self) node rng (c_votes self) (c_earlier self) (c_woken self), digest).

(** What may happen next, and the reply that a future resolves to, if any. *)
Inductive ClientEvent :=
| EvUpdate (operation : O)
| EvPoll (digest : Digest) (waker : Waker)
| EvRecv (now : Z) (message : Message S O P).

Definition client_step self (e : ClientEvent) : outcome (Client S O P * option (Digest * P)) :=
  match e with
  | EvUpdate operation => let! '(self, _) := client_update self operation in Done (self, None)
  | EvPoll digest waker =>
    let '(r, data) := poll_fut (c_data self) digest waker in
    Done (with_data self data, match r with Some p => Some (digest, p) | None => None end)
  | EvRecv now message => let! self := message_recv self now message in Done (self, None)
  end.

Fixpoint client_run self (es : list ClientEvent) : outcome (Client S O P * list (Digest * P)) :=
  match es with
  | [] => Done (self, [])
  | e :: es =>
    let! '(self, r) := client_step self e in
    let! '(self, rs) := client_run self es in
    Done (self, match r with Some x => x :: rs | None => rs end)
  end.

End client.

(** ** Which replies are delivered *)

Section delivery.
Context {S O P : Type} `{HashFn, SigScheme, RandomState, !SharedData S O P}.
Implicit Type self : Client S O P.

(** The replies among the events, and how many of them say [hd] about [d]. *)
Fixpoint replies (es : list (ClientEvent (S := S) (O := O) (P := P))) : list (Header * ReplyMessage P) :=
  match es with
  | [] => []
  | EvRecv _ (System h (Reply m)) :: es => (h, m) :: replies es
  | _ :: es => replies es
  end.

Definition votes_for (d hd : Digest) (r : Header * ReplyMessage P) : bool :=
  bool_decide (r_digest r.2 = d /\ hdr_digest r.1 = hd).

Definition nvotes (d hd : Digest) (rs : list (Header * ReplyMessage P)) : Z :=
  Z.of_nat (count_if (votes_for d hd) rs).

Lemma nvotes_snoc d hd rs r : nvotes d hd (rs ++ [r]) = nvotes d hd rs + if votes_for d hd r then 1 else 0.
Proof.
  unfold nvotes, count_if. rewrite List.filter_app, length_app. cbn [List.filter].
  destruct (votes_for d hd r); cbn [length]; lia.
Qed.

Lemma nvotes_snoc_ge d hd rs r : nvotes d hd rs <= nvotes d hd (rs ++ [r]).
Proof. rewrite nvotes_snoc. destruct (votes_for _ _ _); lia. Qed.

Lemma nvotes_nonneg d hd rs : 0 <= nvotes d hd rs.
Proof. unfold nvotes. lia. Qed.

(** Garbage collection only removes votes that were delivered. *)
Lemma foldl_delete (ks : list Digest) (m : gmap Digest ReplicaVotes) d :
  foldl (fun m k => delete k m) m ks !! d = if decide (d ∈ ks) then None else m !! d.
Proof.
  revert m. induction ks as [|k ks IH]; intros m; cbn [foldl]; [by rewrite decide_False by set_solver|].
  rewrite IH. destruct (decide (d ∈ ks)) as [Hd|Hd].
  - by rewrite decide_True by set_solver.
  - destruct (decide (d = k)) as [->|Hne].
    + rewrite decide_True by set_solver. apply lookup_delete_eq.
    + rewrite decide_False by set_solver. by apply lookup_delete_ne.
Qed.

Lemma gc_votes_lookup f earlier now votes d :
  gc_votes f earlier now votes !! d = votes !! d \/
  (GC_DUR < now - earlier /\ gc_votes f earlier now votes !! d = None /\
   exists v, votes !! d = Some v /\ f < count v).
Proof.
  unfold gc_votes. destruct (now - earlier >? GC_DUR) eqn:Eg; [|by left].
  rewrite foldl_delete. case_decide as Hd; [|by left]. right.
  apply list_elem_of_In, in_map_iff in Hd as ([k v] & Hk & Hin). cbn in Hk. subst k.
  apply List.filter_In in Hin as [Hin Hc]. cbn [snd] in Hc.
  apply list_elem_of_In in Hin. rewrite map_iter_perm, elem_of_map_to_list in Hin.
  split_and!; [lia|done|]. exists v. split; [done|lia].
Qed.

(** What counting a reply does to the entry of its digest. *)
Lemma count_reply_spec f votes d hd votes' deliver : count_reply f votes d hd = (votes', deliver) ->
  exists v, votes' = <[d := v]> votes /\
    let v0 := default (mkVotes 0 hd) (votes !! d) in
    v_digest v = v_digest v0 /\
    ((f < count v0 /\ v = v0 /\ deliver = false) \/
     (count v0 <= f /\ count v = count v0 + (if decide (v_digest v0 = hd) then 1 else 0) /\
      deliver = (count v >? f))).
Proof.
  unfold count_reply. set (v0 := default _ _). destruct (count v0 >? f) eqn:Ec.
  - intros [= <- <-]. exists v0. split_and!; [done|done|]. left. split_and!; [lia|done|done].
  - intros [= <- <-]. eexists. split; [reflexivity|]. cbv zeta.
    destruct (decide (v_digest v0 = hd)) as [E|E]; (split; [done|]); right; cbn [count];
      split_and!; try lia; done.
Qed.

(** [p] came with a reply that has the support of more than [f] replies. *)
Definition backed (f : Z) (rs : list (Header * ReplyMessage P)) (d : Digest) (p : P) : Prop :=
  exists h m, (h, m) ∈ rs /\ r_digest m = d /\ r_payload m = p /\ f < nvotes d (hdr_digest h) rs.

Lemma backed_snoc f rs d p r : backed f rs d p -> backed f (rs ++ [r]) d p.
Proof.
  intros (h & m & Hin & Hd & Hp & Hn). exists h, m. split_and!; [set_solver|done..|].
  pose proof (nvotes_snoc_ge d (hdr_digest h) rs r). lia.
Qed.

Definition quorum_inv (rs : list (Header * ReplyMessage P)) self : Prop :=
  (forall d v, c_votes self !! d = Some v -> 0 <= count v <= nvotes d (v_digest v) rs) /\
  (forall d p, ready (c_data self) !! d = Some p -> backed (params_f (c_params self)) rs d p).

Lemma quorum_inv_reply rs self now h m : quorum_inv rs self ->
  quorum_inv (rs ++ [(h, m)]) (reply_received self now h m).
Proof.
  intros [Hv Hr]. unfold reply_received. set (f := params_f (c_params self)).
  set (votes := gc_votes f (c_earlier self) now (c_votes self)).
  assert (Hg : forall d v, votes !! d = Some v -> 0 <= count v <= nvotes d (v_digest v) rs).
  { intros d v E. destruct (gc_votes_lookup f (c_earlier self) now (c_votes self) d) as [E'|(_ & E' & _)];
      fold votes in E'; [rewrite E' in E; auto|congruence]. }
  destruct (count_reply f votes (r_digest m) (hdr_digest h)) as [votes' deliver] eqn:Ec.
  apply count_reply_spec in Ec as (v & -> & Hd & Hc). set (v0 := default _ _) in *.
  assert (H0v : 0 <= count v0 <= nvotes (r_digest m) (v_digest v0) rs).
  { unfold v0. destruct (votes !! r_digest m) as [v1|] eqn:E; cbn; [by apply Hg|].
    split; [lia|apply nvotes_nonneg]. }
  assert (Hnew : 0 <= count v <= nvotes (r_digest m) (v_digest v) (rs ++ [(h, m)])).
  { rewrite nvotes_snoc, Hd. unfold votes_for. cbn [fst snd].
    destruct Hc as [(_ & -> & _)|(_ & -> & _)]; [case_bool_decide; lia|].
    destruct (decide (v_digest v0 = hdr_digest h)) as [E|E]; [|case_bool_decide; lia].
    rewrite bool_decide_eq_true_2 by done. lia. }
  assert (Hvotes : forall d v', (<[r_digest m := v]> votes) !! d = Some v' ->
    0 <= count v' <= nvotes d (v_digest v') (rs ++ [(h, m)])).
  { intros d v' E. apply lookup_insert_Some in E as [[<- <-]|[_ E]]; [done|].
    apply Hg in E. pose proof (nvotes_snoc_ge d (v_digest v') rs (h, m)). lia. }
  destruct deliver; [|split; [done|intros d p E; by apply backed_snoc, Hr]].
  split; [done|]. intros d p E. cbn in E.
  apply lookup_insert_Some in E as [[<- <-]|[_ E]]; [|by apply backed_snoc, Hr].
  destruct Hc as [(_ & _ & Hf)|(H1' & H2' & H3')]; [discriminate|].
  symmetry in H3'. apply Z.gtb_lt in H3'. exists h, m. split_and!; [set_solver|done..|].
  destruct (decide (v_digest v0 = hdr_digest h)) as [E|E]; [|lia].
  rewrite <- E, <- Hd. unfold f in *. cbn -[nvotes]. lia.
Qed.


Lemma replies_app es1 es2 : replies (es1 ++ es2) = replies es1 ++ replies es2.
Proof.
  induction es1 as [|e es1 IH]; [done|]. destruct e as [op|d w|now m]; [done..|].
  destruct m as [h m|id|id|id|id|b|b a|k]; try done. destruct m; try done. cbn. by rewrite IH.
Qed.

Lemma client_update_frame self op self' d : client_update self op = Done (self', d) ->
  c_params self' = c_params self /\ c_data self' = c_data self /\ c_votes self' = c_votes self /\
  c_earlier self' = c_earlier self.
Proof.
  unfold client_update. returned_as [[n rg] dg].
  by intros [= <- <-].
Qed.

(** A step that is not a reply counts nothing, and at most takes a reply out of
    [ready]. *)
Lemma client_step_cases self e self' r : client_step self e = Done (self', r) ->
  c_params self' = c_params self /\
  ((exists now h m, e = EvRecv now (System h (Reply m)) /\ r = None /\
      self' = reply_received self now h m) \/
   (replies [e] = [] /\ c_votes self' = c_votes self /\ c_earlier self' = c_earlier self /\
    match r with
    | None => ready (c_data self') = ready (c_data self)
    | Some (d, p) => ready (c_data self) !! d = Some p /\
                     ready (c_data self') = delete d (ready (c_data self))
    end)).
Proof.
  destruct e as [op|d w|now m]; cbn [client_step].
  - destruct (client_update self op) as [[s1 dg]|] eqn:E; [|discriminate]. intros [= <- <-].
    apply client_update_frame in E as (E1 & E2 & E3 & E4). split; [done|]. right. by rewrite E2.
  - unfold poll_fut, poll_ready. destruct (ready (c_data self) !! d) as [p|] eqn:E;
      intros [= <- <-]; (split; [done|]); right; split_and!; try done.
    cbn. by apply delete_id.
  - destruct m as [h m|id|id|id|id|b|b a|k]; cbn [message_recv obind]; try discriminate;
      try (intros [= <- <-]; split; [done|]; by right).
    2: { destruct (handle_connected_rx _ _); [|discriminate]. intros [= <- <-]. split; [done|]. by right. }
    destruct m; try discriminate. intros [= <- <-]. split; [|left; by eexists _, _, _].
    unfold reply_received. destruct (count_reply _ _ _ _) as [votes' []]; done.
Qed.

(** Induction over runs: a property of the replies received, the client and the
    futures resolved. *)
Lemma client_run_ind (I : list (Header * ReplyMessage P) -> Client S O P -> list (Digest * P) -> Prop) :
  (forall rs self out now h m, I rs self out -> I (rs ++ [(h, m)]) (reply_received self now h m) out) ->
  (forall rs self self' out, c_params self' = c_params self -> c_votes self' = c_votes self ->
     c_earlier self' = c_earlier self -> ready (c_data self') = ready (c_data self) -> I rs self out ->
     I rs self' out) ->
  (forall rs self self' out d p, c_params self' = c_params self -> c_votes self' = c_votes self ->
     c_earlier self' = c_earlier self -> ready (c_data self) !! d = Some p ->
     ready (c_data self') = delete d (ready (c_data self)) -> I rs self out ->
     I rs self' (out ++ [(d, p)])) ->
  forall es rs self out self' out', client_run self es = Done (self', out') -> I rs self out ->
    I (rs ++ replies es) self' (out ++ out').
Proof.
  intros Hreply Hsame Htake es. induction es as [|e es IH]; intros rs self out self' out'; cbn [client_run].
  { intros [= <- <-]. by rewrite !app_nil_r. }
  returned_as [s1 r] eqn:E.
  returned_as [s2 rs2] eqn:Er. intros [= <- <-] HI.
  change (e :: es) with ([e] ++ es). rewrite replies_app, app_assoc.
  apply client_step_cases in E as (Ep & [(now & h & m & -> & -> & ->)|(Erep & Ev & Ee & Hr)]).
  - by apply (IH _ _ _ _ _ Er), Hreply.
  - rewrite Erep, app_nil_r. destruct r as [[d p]|].
    + replace (out ++ (d, p) :: rs2) with ((out ++ [(d, p)]) ++ rs2) by (by rewrite <- app_assoc).
      destruct Hr as [Hr1 Hr2]. apply (IH _ _ _ _ _ Er). by apply (Htake rs self).
    + apply (IH _ _ _ _ _ Er). by apply (Hsame rs self).
Qed.

Lemma run_backed es : forall self rs out self' out', client_run self es = Done (self', out') ->
  quorum_inv rs self /\ (forall d p, (d, p) ∈ out -> backed (params_f (c_params self)) rs d p) ->
  forall d p, (d, p) ∈ out ++ out' -> backed (params_f (c_params self)) (rs ++ replies es) d p.
Proof.
  intros self rs out self' out' Hr HI. set (f := params_f (c_params self)).
  pose proof (client_run_ind (fun rs self out => params_f (c_params self) = f /\ quorum_inv rs self /\
    (forall d p, (d, p) ∈ out -> backed f rs d p))) as Hind.
  cut (params_f (c_params self') = f /\ quorum_inv (rs ++ replies es) self' /\
    (forall d p, (d, p) ∈ out ++ out' -> backed f (rs ++ replies es) d p)); [tauto|].
  refine (Hind _ _ _ es rs self out self' out' Hr (conj eq_refl HI)).
  - intros rs0 s0 o0 now h m (Hf & HQ & Ho). split_and!.
    + unfold reply_received. by destruct (count_reply _ _ _ _) as [votes' []].
    + by apply quorum_inv_reply.
    + intros d p Hin. by apply backed_snoc, Ho.
  - intros rs0 s0 s1 o0 Ep Ev _ Er (Hf & [HQ1 HQ2] & Ho). unfold quorum_inv. by rewrite Ep, Ev, Er.
  - intros rs0 s0 s1 o0 d p Ep Ev _ Hd Er (Hf & [HQ1 HQ2] & Ho). unfold quorum_inv. rewrite Ep, Ev, Er.
    split_and!; [done|done| |].
    + intros d' p' E. apply lookup_delete_Some in E as [_ E]. by apply HQ2.
    + intros d' p' [Hin|Hin]%elem_of_app; [by apply Ho|]. apply list_elem_of_singleton in Hin as [= -> ->].
      rewrite <- Hf. by apply HQ2.
Qed.

Lemma client_bootstrap_inv n f node seed now (c : Client S O P) : client_bootstrap n f node seed now = Ok c ->
  params_f (c_params c) = f /\ c_votes c = ∅ /\ ready (c_data c) = ∅ /\ wakers (c_data c) = ∅ /\
  c_earlier c = now.
Proof.
  unfold client_bootstrap, params_new. destruct (_ <? _); [discriminate|].
  destruct node as [[nd rogue]|]; [|discriminate]. by intros [= <-].
Qed.

(** More votes than faulty replicas, from distinct replicas. *)
Definition senders (d : Digest) (rs : list (Header * ReplyMessage P)) : list Z :=
  map (fun r => h_from r.1) (List.filter (fun r => bool_decide (r_digest r.2 = d)) rs).

Lemma correct_voter (faulty : gset Z) d hd rs : NoDup (senders d rs) ->
  Z.of_nat (size faulty) < nvotes d hd rs ->
  exists h m, (h, m) ∈ rs /\ r_digest m = d /\ hdr_digest h = hd /\ h_from h ∉ faulty.
Proof.
  intros Hnd Hn. set (vs := map (fun r => h_from r.1) (List.filter (votes_for d hd) rs)).
  assert (Hsub : NoDup vs).
  { eapply sublist_NoDup; [exact Hnd|]. unfold vs, senders. clear.
    induction rs as [|r rs IH]; [constructor|]. cbn [List.filter]. unfold votes_for at 1.
    destruct (decide (r_digest r.2 = d)) as [E|E].
    - rewrite (bool_decide_eq_true_2 (r_digest r.2 = d)) by done. cbn [map].
      case_bool_decide; [cbn [map]; by apply sublist_skip|by apply sublist_cons].
    - rewrite (bool_decide_eq_false_2 (r_digest r.2 = d)) by done.
      by rewrite bool_decide_eq_false_2 by tauto. }
  destruct (decide (Forall (fun i => i ∈ faulty) vs)) as [Hall|Hex].
  - exfalso. assert (Hs : (list_to_set vs : gset Z) ⊆ faulty).
    { intros i Hi%elem_of_list_to_set. by eapply Forall_forall in Hall. }
    apply subseteq_size in Hs. rewrite size_list_to_set in Hs by done.
    unfold vs in Hs. rewrite length_map in Hs. unfold nvotes, count_if in Hn. lia.
  - apply not_Forall_Exists in Hex; [|solve_decision]. apply Exists_exists in Hex as (i & Hi & Hni).
    apply list_elem_of_In, in_map_iff in Hi as ([h m] & <- & Hin).
    apply List.filter_In in Hin as [Hin Hv]. unfold votes_for in Hv. apply bool_decide_eq_true_1 in Hv.
    exists h, m. split_and!; try apply Hv; [by apply list_elem_of_In|done].
Qed.

(** A resolved future, and the replies behind it. *)
Lemma resolved_backed (n f : Z) node seed now (c c' : Client S O P) es out d p :
  client_bootstrap n f node seed now = Ok c ->
  client_run c es = Done (c', out) -> (d, p) ∈ out ->
  exists h m, (h, m) ∈ replies es /\ r_digest m = d /\ r_payload m = p /\
    f < nvotes d (hdr_digest h) (replies es) /\
    forall faulty : gset Z, NoDup (senders d (replies es)) -> Z.of_nat (size faulty) <= f ->
      exists h' m', (h', m') ∈ replies es /\ r_digest m' = d /\ hdr_digest h' = hdr_digest h /\
        h_from h' ∉ faulty.
Proof.
  intros Hb Hr Hin. apply client_bootstrap_inv in Hb as (Hf0 & Hv0 & Hr0 & _). rewrite <- Hf0.
  apply (run_backed _ _ [] [] _ _) with (d := d) (p := p) in Hr; [|split; [split|]; rewrite ?Hv0, ?Hr0; set_solver|done].
  destruct Hr as (h & m & Hhm & Hd & Hp & Hn). exists h, m. split_and!; [done..|].
  intros faulty Hnd Hf. apply correct_voter; [done|]. cbn [app] in Hn. lia.
Qed.

(** C10: a future of the client resolves to a payload only if that payload came
    in a reply to its request whose header digest is in at least [f + 1] replies
    to it; when no replica answers twice and at most [f] are faulty, one of
    those is from a correct replica. *)
Theorem delivered_reply_backed (n f : Z) node seed now (c c' : Client S O P) es out d p :
  client_bootstrap n f node seed now = Ok c ->
  client_run c es = Done (c', out) -> (d, p) ∈ out ->
  exists h m, (h, m) ∈ replies es /\ r_digest m = d /\ r_payload m = p /\
    f < nvotes d (hdr_digest h) (replies es) /\
    forall faulty : gset Z, NoDup (senders d (replies es)) -> Z.of_nat (size faulty) <= f ->
      exists h' m', (h', m') ∈ replies es /\ r_digest m' = d /\ hdr_digest h' = hdr_digest h /\
        h_from h' ∉ faulty.
Proof. apply resolved_backed. Qed.

(** *** When a reply is delivered *)

(** The header digest of the first reply to [d]. *)
Fixpoint first_digest (d : Digest) (rs : list (Header * ReplyMessage P)) : option Digest :=
  match rs with
  | [] => None
  | (h, m) :: rs => if decide (r_digest m = d) then Some (hdr_digest h) else first_digest d rs
  end.

Lemma first_digest_snoc d rs h m : first_digest d (rs ++ [(h, m)]) =
  match first_digest d rs with
  | Some hd => Some hd
  | None => if decide (r_digest m = d) then Some (hdr_digest h) else None
  end.
Proof. induction rs as [|[h' m'] rs IH]; [done|]. cbn [first_digest app]. by destruct (decide (r_digest m' = d)). Qed.

Lemma first_digest_none d rs : first_digest d rs = None -> forall hd, nvotes d hd rs = 0.
Proof.
  induction rs as [|[h m] rs IH]; [done|]. cbn. case_decide as Hd; [discriminate|]. intros E hd.
  unfold nvotes, count_if. cbn [List.filter]. unfold votes_for at 1. cbn [fst snd].
  rewrite bool_decide_eq_false_2 by tauto. by apply IH.
Qed.

(** [d] has been delivered: its reply waits in [ready], or was picked up. *)
Definition delivered self (out : list (Digest * P)) (d : Digest) : Prop :=
  is_Some (ready (c_data self) !! d) \/ d ∈ out.*1.

(** The votes counted for [d] are those that agree with the first reply. *)
Definition delivery_inv (f : Z) (d : Digest) (rs : list (Header * ReplyMessage P)) self
  (out : list (Digest * P)) : Prop :=
  params_f (c_params self) = f /\
  match first_digest d rs with
  | None => c_votes self !! d = None /\ ~ delivered self out d
  | Some hd => (nvotes d hd rs <= f /\ c_votes self !! d = Some (mkVotes (nvotes d hd rs) hd) /\
                (~ delivered self out d)) \/
               (f < nvotes d hd rs /\ delivered self out d)
  end.

Lemma gc_keeps f earlier now votes d : (forall v, votes !! d = Some v -> count v <= f) ->
  gc_votes f earlier now votes !! d = votes !! d.
Proof.
  intros Hle. destruct (gc_votes_lookup f earlier now votes d) as [E|(_ & _ & v & Hv & Hc)]; [done|].
  apply Hle in Hv. lia.
Qed.

(** A reply: the vote counted for its digest, and what it leaves alone. *)
Lemma reply_received_other self now h m d : r_digest m <> d ->
  ready (c_data (reply_received self now h m)) !! d = ready (c_data self) !! d /\
  ((forall v, c_votes self !! d = Some v -> count v <= params_f (c_params self)) ->
   c_votes (reply_received self now h m) !! d = c_votes self !! d).
Proof.
  intros Hne. unfold reply_received. set (f := params_f _).
  destruct (count_reply _ _ _ _) as [votes' deliver] eqn:Ec.
  apply count_reply_spec in Ec as (v & -> & _). split.
  - destruct deliver; cbn; [by apply lookup_insert_ne|done].
  - intros Hle. destruct deliver; cbn; rewrite lookup_insert_ne by done; by apply gc_keeps.
Qed.

Lemma reply_received_same self now h m c hd :
  let f := params_f (c_params self) in
  default (mkVotes 0 (hdr_digest h)) (c_votes self !! r_digest m) = mkVotes c hd ->
  0 <= f -> c <= f ->
  let c' := c + if decide (hd = hdr_digest h) then 1 else 0 in
  c_votes (reply_received self now h m) !! r_digest m = Some (mkVotes c' hd) /\
  ready (c_data (reply_received self now h m)) !! r_digest m =
    if c' >? f then Some (r_payload m) else ready (c_data self) !! r_digest m.
Proof.
  cbv zeta. set (f := params_f _). intros Hv H0f Hc. unfold reply_received. fold f.
  assert (Eg : gc_votes f (c_earlier self) now (c_votes self) !! r_digest m = c_votes self !! r_digest m).
  { apply gc_keeps. intros v E. rewrite E in Hv. cbn in Hv. by subst v. }
  unfold count_reply. rewrite Eg, Hv. cbn [count v_digest].
  assert ((c >? f) = false) as -> by lia.
  destruct (decide (hd = hdr_digest h)) as [E|E]; cbn [count v_digest]; rewrite ?Z.add_0_r.
  - destruct (c + 1 >? f); cbn; by rewrite !lookup_insert_eq.
  - assert ((c >? f) = false) as -> by lia. cbn. by rewrite lookup_insert_eq.
Qed.

Lemma nvotes_other d hd rs h m : r_digest m <> d -> nvotes d hd (rs ++ [(h, m)]) = nvotes d hd rs.
Proof.
  intros Hne. rewrite nvotes_snoc. unfold votes_for. cbn [fst snd].
  rewrite bool_decide_eq_false_2 by tauto. lia.
Qed.

Lemma nvotes_same hd rs h m : nvotes (r_digest m) hd (rs ++ [(h, m)]) =
  nvotes (r_digest m) hd rs + if decide (hd = hdr_digest h) then 1 else 0.
Proof.
  rewrite nvotes_snoc. unfold votes_for. cbn [fst snd].
  case_decide as E; [rewrite bool_decide_eq_true_2 by done|rewrite bool_decide_eq_false_2]; [done|done|].
  intros [_ Eh]. by apply E.
Qed.

Lemma reply_keeps_delivered self now h m out d :
  delivered self out d -> delivered (reply_received self now h m) out d.
Proof.
  intros [Hr|Ho]; [|by right]. left. unfold reply_received.
  destruct (count_reply _ _ _ _) as [votes' []]; cbn; [|done].
  destruct (decide (r_digest m = d)) as [<-|E]; [by rewrite lookup_insert_eq|by rewrite lookup_insert_ne].
Qed.

Lemma reply_received_params self now h m : c_params (reply_received self now h m) = c_params self.
Proof. unfold reply_received. by destruct (count_reply _ _ _ _) as [votes' []]. Qed.

Lemma delivery_inv_same f rs self out now h m : 0 <= f -> delivery_inv f (r_digest m) rs self out ->
  delivery_inv f (r_digest m) (rs ++ [(h, m)]) (reply_received self now h m) out.
Proof.
  intros H0f (Hf & Hi). split; [by rewrite reply_received_params|]. rewrite first_digest_snoc.
  rewrite decide_True by done.
  assert (Hstep : forall hd, default (mkVotes 0 (hdr_digest h)) (c_votes self !! r_digest m) =
      mkVotes (nvotes (r_digest m) hd rs) hd -> nvotes (r_digest m) hd rs <= f ->
      ~ delivered self out (r_digest m) ->
      let k := nvotes (r_digest m) hd (rs ++ [(h, m)]) in
      (k <= f /\ c_votes (reply_received self now h m) !! r_digest m = Some (mkVotes k hd) /\
         ~ delivered (reply_received self now h m) out (r_digest m)) \/
      (f < k /\ delivered (reply_received self now h m) out (r_digest m))).
  { intros hd Hv Hle Hnd. cbv zeta. rewrite nvotes_same.
    destruct (reply_received_same self now h m _ hd Hv) as [E1 E2]; [lia|lia|]. rewrite Hf in E2.
    set (k := nvotes _ _ _ + _) in *. destruct (Z.le_gt_cases k f) as [Hk|Hk].
    - left. split_and!; [done|done|]. assert ((k >? f) = false) as Eb by lia. rewrite Eb in E2.
      intros [Hr|Ho]; apply Hnd; [left; by rewrite E2 in Hr|by right].
    - right. split; [done|]. left. assert ((k >? f) = true) as Eb by lia. rewrite Eb in E2.
      rewrite E2. eauto. }
  destruct (first_digest (r_digest m) rs) as [hd|] eqn:Ef.
  - destruct Hi as [(Hle & Hv & Hnd)|[Hlt Hd]].
    + apply Hstep; [by rewrite Hv|done|done].
    + right. split; [|by apply reply_keeps_delivered].
      pose proof (nvotes_snoc_ge (r_digest m) hd rs (h, m)). lia.
  - destruct Hi as [Hv Hnd]. pose proof (first_digest_none _ _ Ef (hdr_digest h)) as En.
    apply Hstep; [rewrite Hv, En; done|lia|done].
Qed.

Lemma delivery_inv_other f d rs self out now h m : r_digest m <> d -> 0 <= f ->
  delivery_inv f d rs self out ->
  delivery_inv f d (rs ++ [(h, m)]) (reply_received self now h m) out.
Proof.
  intros Hne H0f (Hf & Hi). destruct (reply_received_other self now h m d Hne) as [Er Ev].
  split; [by rewrite reply_received_params|]. rewrite first_digest_snoc, decide_False by done.
  unfold delivered in *. rewrite Er. rewrite Hf in Ev.
  destruct (first_digest d rs) as [hd|]; [rewrite nvotes_other by done|];
    [destruct Hi as [(Hle & Hv & Hnd)|Hi]; [left|by right]|destruct Hi as [Hv Hnd]];
    (rewrite Ev; [done|rewrite Hv; by intros v [= <-]]).
Qed.

Lemma run_delivery f d es self rs out self' out' : 0 <= f -> client_run self es = Done (self', out') ->
  delivery_inv f d rs self out -> delivery_inv f d (rs ++ replies es) self' (out ++ out').
Proof.
  intros H0f Hr. apply (client_run_ind (delivery_inv f d)); [..|exact Hr].
  - intros rs0 s0 o0 now h m HI. destruct (decide (r_digest m = d)) as [<-|Hne];
      [by apply delivery_inv_same|by apply delivery_inv_other].
  - intros rs0 s0 s1 o0 Ep Ev _ Er. unfold delivery_inv, delivered. by rewrite Ep, Ev, Er.
  - intros rs0 s0 s1 o0 d' p Ep Ev _ Hd Er. unfold delivery_inv. rewrite Ep, Ev.
    assert (Hdel : delivered s1 (o0 ++ [(d', p)]) d <-> delivered s0 o0 d).
    { unfold delivered. rewrite Er, fmap_app, elem_of_app. cbn [fmap list_fmap fst].
      rewrite list_elem_of_singleton. destruct (decide (d = d')) as [->|Hne].
      - rewrite Hd. split; [intros _; left; eauto|intros _; tauto].
      - rewrite lookup_delete_ne by done. tauto. }
    destruct (first_digest d rs0); tauto.
Qed.

(** C11: whatever the interleaving of requests, polls, garbage collections and
    messages, the reply to a request is delivered exactly when [f + 1] replies
    carry the same header digest as the first reply that arrived: a correct
    first reply needs [f] more, and a first reply that no other agrees with
    keeps the client from ever delivering one. *)
Theorem delivery_iff_first_digest_wins (n f : Z) node seed now (c c' : Client S O P) es out d :
  client_bootstrap n f node seed now = Ok c -> 0 <= f ->
  client_run c es = Done (c', out) ->
  delivered c' out d <->
  exists hd, first_digest d (replies es) = Some hd /\ f < nvotes d hd (replies es).
Proof.
  intros Hb H0f Hr. apply client_bootstrap_inv in Hb as (Hf & Hv & Hre & _).
  apply (run_delivery f d es c [] []) in Hr; [|done|].
  - destruct Hr as [_ Hr]. cbn [app] in Hr. destruct (first_digest d (replies es)) as [hd|].
    + destruct Hr as [(Hle & _ & Hnd)|[Hlt Hd]]; (split; [|intros (hd' & [= <-] & Hlt'); first [done|lia]]).
      * done.
      * intros _. by exists hd.
    + destruct Hr as [_ Hnd]. split; [done|by intros (hd & ? & _)].
  - split; [done|]. cbn. rewrite Hv. split; [done|]. unfold delivered. rewrite Hre. cbn.
    intros [[p E]|E]; [by rewrite lookup_empty in E|set_solver].
Qed.

(** The payload of the deciding reply is not compared with anything: after
    [f] replies with some header digest, whatever payload a replica sends under
    that digest is delivered to the application. *)
Theorem last_voter_chooses_payload self now h d (payload : P) :
  let f := params_f (c_params self) in
  0 <= f -> c_votes self !! d = Some (mkVotes f (hdr_digest h)) ->
  ready (c_data (reply_received self now h (mkReply d payload))) !! d = Some payload.
Proof.
  cbv zeta. intros H0f Hv.
  destruct (reply_received_same self now h (mkReply d payload) (params_f (c_params self)) (hdr_digest h))
    as [_ E]; [cbn; by rewrite Hv|done|lia|].
  cbn [r_digest r_payload] in E. rewrite E, decide_True by done.
  assert ((params_f (c_params self) + 1 >? params_f (c_params self)) = true) as -> by lia. done.
Qed.

(** *** Garbage collection *)

(** No two replies in a row are more than [GC_DUR] apart. *)
Fixpoint no_gap (earlier : Z) (es : list (ClientEvent (S := S) (O := O) (P := P))) : Prop :=
  match es with
  | [] => True
  | EvRecv now (System _ (Reply _)) :: es => now - earlier <= GC_DUR /\ no_gap now es
  | _ :: es => no_gap earlier es
  end.

Lemma no_gap_skip earlier e es : replies [e] = [] -> no_gap earlier (e :: es) = no_gap earlier es.
Proof.
  destruct e as [op|d w|now m]; [done..|]. destruct m as [h m|id|id|id|id|b|b a|k]; try done. by destruct m.
Qed.

Lemma reply_received_votes self now h m d : now - c_earlier self <= GC_DUR ->
  is_Some (c_votes (reply_received self now h m) !! d) <->
  is_Some (c_votes self !! d) \/ r_digest m = d.
Proof.
  intros Hgap. unfold reply_received, gc_votes.
  assert ((now - c_earlier self >? GC_DUR) = false) as -> by lia.
  destruct (count_reply _ _ _ _) as [votes' deliver] eqn:Ec. apply count_reply_spec in Ec as (v & -> & _).
  assert (E : is_Some (<[r_digest m := v]> (c_votes self) !! d) <->
    is_Some (c_votes self !! d) \/ r_digest m = d).
  { destruct (decide (r_digest m = d)) as [<-|Hne].
    - rewrite lookup_insert_eq. split; [by right|intros _; eauto].
    - rewrite lookup_insert_ne by done. tauto. }
  by destruct deliver.
Qed.

Lemma reply_received_earlier self now h m : c_earlier (reply_received self now h m) = now.
Proof. unfold reply_received. by destruct (count_reply _ _ _ _) as [votes' []]. Qed.

Lemma run_votes d es : forall self self' out, client_run self es = Done (self', out) ->
  no_gap (c_earlier self) es ->
  is_Some (c_votes self' !! d) <->
  is_Some (c_votes self !! d) \/ exists h m, (h, m) ∈ replies es /\ r_digest m = d.
Proof.
  induction es as [|e es IH]; intros self self' out; cbn [client_run].
  { intros [= <- <-] _. split; [by left|]. intros [?|(h & m & Hin & _)]; [done|]. set_solver. }
  returned_as [s1 r] eqn:E.
  returned_as [s2 rs2] eqn:Er. intros [= <- <-].
  apply client_step_cases in E as (_ & [(now & h & m & -> & -> & ->)|(Erep & Ev & Ee & _)]).
  - cbn [no_gap]. intros [Hg Hgs]. rewrite (IH _ _ _ Er) by (by rewrite reply_received_earlier).
    rewrite reply_received_votes by done. cbn [replies]. setoid_rewrite elem_of_cons. naive_solver.
  - rewrite no_gap_skip by done. intros Hgs. rewrite (IH _ _ _ Er) by (by rewrite Ee).
    change (e :: es) with ([e] ++ es). by rewrite replies_app, Erep, Ev.
Qed.

(** As long as replies keep arriving, at least one every 30 seconds, the
    votes are never garbage collected: the map has an entry for every request
    that was ever answered. (The time measured is that since the last reply,
    not that since the last collection.) *)
Theorem votes_never_collected (n f : Z) node seed now (c c' : Client S O P) es out d :
  client_bootstrap n f node seed now = Ok c -> no_gap now es ->
  client_run c es = Done (c', out) ->
  is_Some (c_votes c' !! d) <-> exists h m, (h, m) ∈ replies es /\ r_digest m = d.
Proof.
  intros Hb Hg Hr. apply client_bootstrap_inv in Hb as (_ & Hv & _ & _ & He).
  rewrite <- He in Hg. rewrite (run_votes d es c c' out Hr Hg), Hv, lookup_empty.
  split; [intros [[? ?]|?]; done|by right].
Qed.

(** *** The digest a client waits for *)

(** The digest a client waits for after sending a request is the unique
    digest of the header that each replica gets: the one under which the
    replicas log, order and answer the request. *)
Theorem client_waits_for_request_digest self op self' d : client_update self op = Done (self', d) ->
  exists task, outbox (c_node self') = outbox (c_node self) ++ [task] /\
    t_message task = Request (mkRequest op) /\
    forall peer bytes, ToPeer peer bytes ∈ run_task (my_key (c_node self)) task ->
      exists h payload, bytes = write_to (mkWire h payload) /\ unique_digest h = d /\
        serialize_message (t_message task) = Ok payload.
Proof.
  unfold client_update, send_node_broadcast, broadcast. returned_as [mine others].
  destruct (next_state _) as [nonce rng'].
  destruct (serialize_digest (Request (mkRequest op))) as [[dg buf]|] eqn:Es; [|discriminate].
  cbn [obind]. intros [= <- <-]. eexists. split_and!; [reflexivity|reflexivity|].
  assert (Hs : serialize_message (Request (mkRequest op) : SystemMessage S O P) = Ok buf).
  { unfold serialize_digest in Es. destruct (serialize_message _); [|discriminate]. by injection Es as _ ->. }
  intros peer bytes Hin. unfold run_task in Hin. cbn [t_mine t_others] in Hin.
  assert (Hd : exists st, ToPeer (S := S) (O := O) (P := P) peer bytes =
    deliver (my_key (c_node self)) (mkTask (Request (mkRequest op)) mine others nonce dg buf) st).
  { apply elem_of_app in Hin as [Hin|Hin].
    - destruct mine as [st|]; [|set_solver]. apply list_elem_of_singleton in Hin. eauto.
    - apply list_elem_of_In, in_map_iff in Hin as (st & <- & _). eauto. }
  destruct Hd as ([me|me to] & Hd); [discriminate|]. injection Hd as -> ->.
  eexists _, _. split_and!; [reflexivity| |exact Hs].
  unfold unique_digest, hdr_digest. cbn. by destruct dg.
Qed.

(** *** Wake-ups *)

Definition wakers_inv (data : ClientData P) : Prop :=
  forall d, is_Some (ready data !! d) -> wakers data !! d = None.

Lemma wakers_inv_reply self now h m : wakers_inv (c_data self) ->
  wakers_inv (c_data (reply_received self now h m)).
Proof.
  intros Hw. unfold reply_received. destruct (count_reply _ _ _ _) as [votes' []]; [|done].
  cbn. intros d. cbn. destruct (decide (r_digest m = d)) as [<-|Hne].
  - intros _. apply lookup_delete_eq.
  - rewrite lookup_insert_ne, lookup_delete_ne by done. apply Hw.
Qed.

Lemma wakers_inv_step self e self' r : client_step self e = Done (self', r) ->
  wakers_inv (c_data self) -> wakers_inv (c_data self').
Proof.
  intros E Hw. destruct e as [op|d w|now m]; cbn [client_step] in E.
  - destruct (client_update self op) as [[s1 dg]|] eqn:Eu; [|discriminate]. injection E as <- <-.
    by apply client_update_frame in Eu as (_ & -> & _).
  - unfold poll_fut, poll_ready in E. destruct (ready (c_data self) !! d) as [p|] eqn:Ed;
      injection E as <- <-; intros d'; cbn; destruct (decide (d = d')) as [<-|Hne].
    + by rewrite lookup_delete_eq; intros [].
    + rewrite lookup_delete_ne by done. apply Hw.
    + by rewrite lookup_delete_eq; intros [].
    + rewrite lookup_delete_ne, lookup_insert_ne by done. apply Hw.
  - destruct m as [h m|id|id|id|id|b|b a|k]; cbn [message_recv obind] in E; try discriminate;
      try (by injection E as <- <-).
    2: { destruct (handle_connected_rx _ _); [|discriminate]. by injection E as <- <-. }
    destruct m; try discriminate. injection E as <- <-. by apply wakers_inv_reply.
Qed.

Lemma wakers_inv_run es : forall self self' out, client_run self es = Done (self', out) ->
  wakers_inv (c_data self) -> wakers_inv (c_data self').
Proof.
  induction es as [|e es IH]; intros self self' out; cbn [client_run]; [by intros [= <- <-]|].
  returned_as [s1 r] eqn:E.
  returned_as [s2 rs2] eqn:Er. intros [= <- <-] Hw.
  apply (IH _ _ _ Er). by apply (wakers_inv_step _ _ _ _ E).
Qed.

(** If the polls of the futures and the turns of the receiving task each
    run as a whole, no wake-up is lost: a task whose waker is registered is
    never waiting for a reply that has been delivered. *)
Theorem atomic_turns_lose_no_wakeup (n f : Z) node seed now (c c' : Client S O P) es out d w :
  client_bootstrap n f node seed now = Ok c ->
  client_run c es = Done (c', out) ->
  wakers (c_data c') !! d = Some w -> ready (c_data c') !! d = None.
Proof.
  intros Hb Hr Hw. apply client_bootstrap_inv in Hb as (_ & _ & Hre & _).
  apply wakers_inv_run in Hr; [|intros d'; rewrite Hre, lookup_empty; by intros []].
  destruct (ready (c_data c') !! d) as [p|] eqn:E; [|done]. rewrite (Hr d) in Hw by eauto. discriminate.
Qed.

End delivery.

(** ** The race between a poll and a delivery

    The two mutexes are taken one after the other, by [poll] as by the
    receiving task, which run on different threads. Here each critical section
    is one step: a future polled by the task of [waker], and a receiving task
    that has counted the deciding reply. *)

Section race.
Context {P : Type}.

Inductive FutPc := FPoll | FMissed | FPending | FReady (payload : P).
Inductive RecvPc := RReply (payload : P) | RRegistered | RDone.

(** [notified]: the task of the future was woken up since its last poll. *)
Record Race := mkRace { r_data : ClientData P; r_fut : FutPc; r_recv : RecvPc; notified : bool }.

Inductive race_step (digest : Digest) (waker : Waker) : Race -> Race -> Prop :=
| race_hit data data' p rc b : poll_ready data digest = (Some p, data') ->
    race_step digest waker (mkRace data FPoll rc b) (mkRace data' (FReady p) rc b)
| race_miss data data' rc b : poll_ready data digest = (None, data') ->
    race_step digest waker (mkRace data FPoll rc b) (mkRace data' FMissed rc b)
| race_pending data rc b :
    race_step digest waker (mkRace data FMissed rc b)
      (mkRace (poll_register data digest waker) FPending rc b)
| race_repoll data rc :
    race_step digest waker (mkRace data FPending rc true) (mkRace data FPoll rc false)
| race_register data p fu b :
    race_step digest waker (mkRace data fu (RReply p) b)
      (mkRace (register_response data digest p) fu RRegistered b)
| race_wake data data' w fu b : wake_up data digest = (Some w, data') ->
    race_step digest waker (mkRace data fu RRegistered b) (mkRace data' fu RDone true)
| race_nobody data data' fu b : wake_up data digest = (None, data') ->
    race_step digest waker (mkRace data fu RRegistered b) (mkRace data' fu RDone b).

(** A wake-up can be lost: if the reply is delivered between the two
    critical sections of the poll, the future stays pending although its reply
    is in [ready], and no step of either side is left that would wake it up. *)
Theorem wakeup_can_be_lost (digest : Digest) (waker : Waker) (payload : P) :
  exists s, rtc (race_step digest waker) (mkRace (mkData ∅ ∅) FPoll (RReply payload) false) s /\
    r_fut s = FPending /\ ready (r_data s) !! digest = Some payload /\
    forall s', ~ race_step digest waker s s'.
Proof.
  eexists. split.
  - eapply rtc_l; [apply race_miss; reflexivity|]. eapply rtc_l; [apply race_register|].
    eapply rtc_l; [apply race_nobody; reflexivity|]. eapply rtc_l; [apply race_pending|]. apply rtc_refl.
  - cbn. split_and!; [done|by rewrite lookup_insert_eq|]. intros s' Hs. inversion Hs.
Qed.

End race.

(** ** Witnesses *)

Section client_witnesses.
#[local] Existing Instance toy_hash.
#[local] Existing Instance toy_sig.
#[local] Existing Instance toy_data.
#[local] Existing Instance key_order.

Definition w_peer : Node Z Z Z :=
  mkNode (mkNodeId 1000) (mkNodeId 1000) (Prng.new (replicate 32 1)) (5 : KeyPair) ∅ ∅
    (Node.Client (list_to_set (targets 4))) [].

Definition w_client : Client Z Z Z :=
  mkClient (mkParams 4 1) (mkData ∅ ∅) w_peer (Prng.new (replicate 32 1)) ∅ 0 [].

Lemma w_client_boot :
  client_bootstrap 4 1 (Ok (w_peer, [])) (replicate 32 1) 0 = Ok w_client.
Proof. reflexivity. Qed.

Definition w_req : Digest := mkDigest (replicate 32 5).

(** A reply of replica [i] with payload [p], the header digest of which is [hd]. *)
Definition w_reply (i hd p : Z) : ClientEvent (S := Z) (O := Z) (P := Z) :=
  EvRecv 0 (System (mkHeader 0 0 i 1000 0 0 (replicate 32 hd) (replicate 64 0)) (Reply (mkReply w_req p))).

(** Replica 3 is faulty: its payload is not the one its header announces. *)
Definition w_events : list (ClientEvent (S := Z) (O := Z) (P := Z)) :=
  [EvPoll w_req 1%nat; w_reply 0 7 10; w_reply 3 7 99; EvPoll w_req 1%nat].

Definition w_client_end : Client Z Z Z * list (Digest * Z) := returned (w_client, []) (client_run w_client w_events).

Lemma w_client_run : client_run w_client w_events = Done (w_client_end.1, w_client_end.2).
Proof.
  rewrite <- surjective_pairing. apply returned_done. vm_compute. reflexivity.
Qed.

Lemma w_client_out : w_client_end.2 = [(w_req, 99)].
Proof. vm_compute. reflexivity. Qed.

Lemma delivered_reply_backed_witness : exists h m, (h, m) ∈ replies w_events /\ r_payload m = 99 /\
  exists h' m', (h', m') ∈ replies w_events /\ hdr_digest h' = hdr_digest h /\ h_from h' <> 3.
Proof.
  destruct (delivered_reply_backed 4 1 _ _ 0 w_client w_client_end.1 w_events w_client_end.2 w_req 99
    w_client_boot w_client_run) as (h & m & Hin & _ & Hp & _ & Hc).
  - rewrite w_client_out. apply list_elem_of_singleton. reflexivity.
  - exists h, m. split; [exact Hin|]. split; [exact Hp|].
    destruct (Hc {[3]}) as (h' & m' & H1' & _ & H2' & H3').
    + cbn. repeat constructor; set_solver.
    + rewrite size_singleton. lia.
    + exists h', m'. split; [exact H1'|]. split; [exact H2'|]. set_solver.
Defined.

Lemma delivery_iff_first_digest_wins_witness : delivered w_client_end.1 w_client_end.2 w_req.
Proof.
  apply (delivery_iff_first_digest_wins 4 1 _ _ 0 w_client w_client_end.1 w_events w_client_end.2 w_req
    w_client_boot); [lia|exact w_client_run|].
  exists (mkDigest (replicate 32 7)). split; vm_compute; reflexivity.
Defined.

Lemma last_voter_chooses_payload_witness :
  ready (c_data (reply_received (returned (w_client, []) (client_run w_client [w_reply 0 7 10])).1 0
    (mkHeader 0 0 3 1000 0 0 (replicate 32 7) (replicate 64 0)) (mkReply w_req 99))) !! w_req = Some 99.
Proof.
  apply last_voter_chooses_payload.
  - vm_compute. discriminate.
  - vm_compute. reflexivity.
Defined.

Lemma votes_never_collected_witness : is_Some (c_votes w_client_end.1 !! w_req).
Proof.
  apply (votes_never_collected 4 1 _ _ 0 w_client w_client_end.1 w_events w_client_end.2 w_req
    w_client_boot).
  - vm_compute. repeat split; discriminate.
  - exact w_client_run.
  - eexists _, _. split; [cbn; left|reflexivity].
Defined.

Definition w_updated : Client Z Z Z * Digest := returned (w_client, w_req) (client_update w_client 42).

Lemma client_waits_for_request_digest_witness : exists task,
  outbox (c_node w_updated.1) = outbox (c_node w_client) ++ [task] /\
  t_message task = Request (mkRequest 42).
Proof.
  destruct (client_waits_for_request_digest w_client 42 w_updated.1 w_updated.2) as (task & E1 & E2 & _).
  - rewrite <- surjective_pairing. apply returned_done. vm_compute. reflexivity.
  - exists task. split; [exact E1|exact E2].
Defined.

Lemma atomic_turns_lose_no_wakeup_witness : exists c out,
  client_run w_client [EvPoll w_req 1%nat; w_reply 0 7 10] = Done (c, out) /\
  wakers (c_data c) !! w_req = Some 1%nat /\ ready (c_data c) !! w_req = None.
Proof.
  set (r := returned (w_client, []) (client_run w_client [EvPoll w_req 1%nat; w_reply 0 7 10])).
  assert (Er : client_run w_client [EvPoll w_req 1%nat; w_reply 0 7 10] = Done (r.1, r.2)).
  { rewrite <- surjective_pairing. apply returned_done. vm_compute. reflexivity. }
  assert (Ew : wakers (c_data r.1) !! w_req = Some 1%nat) by (vm_compute; reflexivity).
  exists r.1, r.2. split; [exact Er|]. split; [exact Ew|].
  exact (atomic_turns_lose_no_wakeup 4 1 _ _ 0 w_client r.1 _ r.2 w_req 1%nat w_client_boot Er Ew).
Defined.

End client_witnesses.
