(* ===== verification/EndToEnd.v ===== *)
(** * From a request to its reply

    What a client of the group may rely on. The replicas order the requests
    ([Replication]), their executors apply them ([Executor]), the results are
    sent as replies ([Server], [Node]), read from the sockets of the client
    ([Node]) and counted ([Client]). [answered] is the way of one reply from a
    batch in a replica's queue to the client's receiving task, in the operations
    of those files; the theorem joins it with the total order of the replicas
    and the [f + 1] replies that the client waits for. *)

From S2P Require Import Client.
From S2P Require Import Prelude Error Ordering Prng Crypto Params Message Tbo Collections Node.
From S2P Require Import Timeouts DecLog Log Consensus Agreement Sync Executor Cst Server Stable Replication.
Local Open Scope Z_scope.
Local Open Scope bft_scope.

Section reply_path.
Context {S O P : Type} `{HashFn, SigScheme, !SharedData S O P}.

(** The application reads back the replies it has serialized. *)
Definition replies_serialize : Prop :=
  forall (m : ReplyMessage P) w, serialize_message (Reply m : SystemMessage S O P) = Ok w ->
    deserialize_message w = Ok (Reply m : SystemMessage S O P) /\ is_u64 (Z.of_nat (length w)).

(** A task that sends the reply [m] of node [i]. *)
Record reply_task (i : NodeId) (m : ReplyMessage P) (task : SendTask S O P) : Prop := {
  rt_message : t_message task = Reply m;
  rt_nonce : is_u64 (t_nonce task);
  rt_digest : serialize_digest (t_message task) = Ok (t_digest task, t_buf task);
  rt_mine : forall st, t_mine task = Some st -> st = Me i;
  rt_others : Forall (fun st => exists t, st = Peers i t) (t_others task)
}.

Lemma next_state_u64 st : is_u64 (next_state st).1.
Proof. destruct st. apply wrap_u64_range. Qed.

Lemma send_reply_task (nd nd' : Node S O P) m t dg : send nd (Reply m) t = Done (nd', dg) ->
  node_id nd' = node_id nd /\ my_key nd' = my_key nd /\
  exists task, outbox nd' = outbox nd ++ [task] /\ reply_task (node_id nd) m task.
Proof.
  unfold send, send_to. pose proof (next_state_u64 (rng nd)) as Hn.
  destruct (next_state (rng nd)) as [nonce rng']. cbn [fst] in Hn.
  case_decide as Ht; [|case_decide; [|discriminate]]; cbn [obind];
    (destruct (serialize_digest _) as [[dg' buf]|e] eqn:Es; [|discriminate]); intros [= <- <-];
    (split_and!; [done|done|]); eexists; (split; [done|]); split; cbn; try done.
  - by intros st [= <-].
  - repeat constructor. by exists t.
Qed.

Lemma send_replies_tasks batch : forall nd nd' : Node S O P, send_replies nd batch = Done nd' ->
  my_key nd' = my_key nd /\
  exists tasks, outbox nd' = outbox nd ++ tasks /\
    Forall (fun task => exists r, r ∈ batch /\
      reply_task (node_id nd) (mkReply (ur_digest r) (ur_payload r)) task) tasks.
Proof.
  induction batch as [|r batch IH]; intros nd nd'; cbn [send_replies].
  { intros [= ->]. split; [done|]. exists []. by rewrite app_nil_r. }
  returned_as [nd1 dg] eqn:E. intros Hr. apply send_reply_task in E as (E1 & E2 & task & E3 & E4).
  apply IH in Hr as (Hk & tasks & Ho & Hf). split; [congruence|].
  exists (task :: tasks). rewrite Ho, E3, <- app_assoc. split; [done|]. constructor.
  - exists r. split; [left|done].
  - eapply Forall_impl; [exact Hf|]. cbn. intros x (r' & Hin & Hx). exists r'. rewrite <- E1. split; [by right|done].
Qed.

(** What such a task writes to the socket of node [c], [c] reads as the reply,
    under a header that names its sender and the digest of the reply. *)
Lemma reply_on_wire `{!HashLaws, !SigLaws} i m (task : SendTask S O P) sk c bytes more :
  replies_serialize -> is_u32 (nid i) -> is_u32 (nid c) -> reply_task i m task ->
  ToPeer c bytes ∈ run_task sk task ->
  exists h, rx_read (bytes ++ more) = Some (System h (Reply m), more) /\
    h_from h = nid i /\ hdr_digest h = t_digest task.
Proof.
  intros Hser Hi Hc [Hm Hnonce Hd Hmine Hothers] Hin.
  assert (bytes = write_to (wire_new i c (t_buf task) (t_nonce task) (Some (t_digest task)) (Some sk))) as ->.
  { unfold run_task in Hin. apply elem_of_app in Hin as [Hin|Hin].
    - destruct (t_mine task) as [st|]; [|by apply elem_of_nil in Hin].
      apply list_elem_of_singleton in Hin. rewrite (Hmine st eq_refl) in Hin. discriminate.
    - apply list_elem_of_In, in_map_iff in Hin as (st & Hst & Hin%list_elem_of_In).
      rewrite Forall_forall in Hothers. destruct (Hothers st Hin) as [t ->]. cbn in Hst. congruence. }
  rewrite Hm in Hd. unfold serialize_digest in Hd.
  destruct (serialize_message (Reply m)) as [w|] eqn:Ew; [|discriminate]. injection Hd as Hdg <-.
  destruct (Hser m w Ew) as [Hback Hlen].
  set (wm := wire_new i c w (t_nonce task) (Some (t_digest task)) (Some sk)).
  exists (wm_header wm). split; [|split; [done|by cbn; destruct (t_digest task)]].
  change wm with (mkWire (wm_header wm) w). apply rx_read_written.
  - apply wire_new_header_ok; [done..|]. intros d [= <-]. rewrite <- Hdg. split; cbn.
    + apply hash_bytes_length.
    + apply hash_bytes_u8.
  - done.
  - done.
Qed.

End reply_path.

Section end_to_end.
Context {Sv S O P : Type} `{HashFn, SigScheme, RandomState, !OrderedMap Digest, !OrderedMapLaws Digest,
  !SharedData S O P, !Service Sv S O P, !HashLaws, !SigLaws}.
Context (content : Digest -> NodeId * O).
Context (vs : SeqNo) (n f : Z) (seq0 : SeqNo) (bs : nat) (vw : ViewInfo) (faulty : gset NodeId).

(** The executor every replica starts with. *)
Context (ex0 : Executor Sv S O P).

(** The reply [m] of the replica [pr] with id [i] is received by the node [c]
    under the header [h]: the executor of the replica has executed the first
    [k] batches of its queue, one of the messages its tasks sent was handled by
    [execution_finished], in whatever state the replica was then, one of the
    tasks spawned there has written to the socket of [c], and there the reply
    was read. *)
Inductive answered (pr : Proc (S := S) (O := O) (P := P)) (i c : NodeId) (h : Header)
    (m : ReplyMessage P) : Prop :=
| Answered k ex msg (self self' : Replica S O P) task bytes more :
    (k <= length (queue_of pr))%nat ->
    exec_loop ex0 (take k (queue_of pr)) = Done ex -> msg ∈ spawned ex ->
    node_id (r_peer self) = i ->
    execution_finished self (message_replies msg) = Done self' ->
    task ∈ drop (length (outbox (r_peer self))) (outbox (r_peer self')) ->
    ToPeer c bytes ∈ run_task (my_key (r_peer self')) task ->
    rx_read (bytes ++ more) = Some (System h (Reply m), more) ->
    answered pr i c h m.

(** The first of those replies, computed. *)
Definition first_answer (pr : Proc (S := S) (O := O) (P := P)) (k : nat) (self : Replica S O P) (c : NodeId)
  : option (Header * ReplyMessage P) :=
  match exec_loop ex0 (take k (queue_of pr)) with
  | Done ex =>
    match spawned ex with
    | msg :: _ =>
      match execution_finished self (message_replies msg) with
      | Done self' =>
        match drop (length (outbox (r_peer self))) (outbox (r_peer self')) with
        | task :: _ =>
          match run_task (my_key (r_peer self')) task with
          | ToPeer c' bytes :: _ =>
            match rx_read bytes with
            | Some (System h (Reply m), []) => if decide (c' = c) then Some (h, m) else None
            | _ => None
            end
          | _ => None
          end
        | [] => None
        end
      | Panic => None
      end
    | [] => None
    end
  | Panic => None
  end.

Lemma first_answer_ok pr k self c h m : (k <= length (queue_of pr))%nat ->
  first_answer pr k self c = Some (h, m) -> answered pr (node_id (r_peer self)) c h m.
Proof.
  unfold first_answer. intros Hk.
  destruct (exec_loop _ _) as [ex|] eqn:E1; [|discriminate].
  destruct (spawned ex) as [|msg ms] eqn:E2; [discriminate|].
  destruct (execution_finished _ _) as [self'|] eqn:E3; [|discriminate].
  destruct (drop _ _) as [|task tasks] eqn:E4; [discriminate|].
  destruct (run_task _ _) as [|[|c' bytes] ds] eqn:E5; [discriminate..|].
  destruct (rx_read bytes) as [[[h' [| m' | | | |]| | | | | | |] [|]]|] eqn:E6; try discriminate.
  case_decide as Hc; [|discriminate]. intros [= -> ->]. subst c'.
  eapply (Answered pr _ c h m k ex msg self self' task bytes []); try done.
  - rewrite E2. left.
  - rewrite E4. left.
  - rewrite E5. left.
  - by rewrite app_nil_r.
Qed.

(** The operations of the first [k] batches of a replica, and their results. *)
Definition ordered (pr : Proc (S := S) (O := O) (P := P)) (k : nat) : list (Update O) :=
  concat (omap request_batch (take k (queue_of pr))).
Definition results (us : list (Update O)) : list P :=
  (apply_ops (service ex0) (exec_state ex0) (batch_ops us)).2.

(** A reply that an executor produced is the result of one of the operations. *)
Lemma produced_reply pr k ex msg r : only_batches (take k (queue_of pr)) -> spawned ex0 = [] ->
  exec_loop ex0 (take k (queue_of pr)) = Done ex -> msg ∈ spawned ex -> r ∈ message_replies msg ->
  exists x u, ordered pr k !! x = Some u /\ results (ordered pr k) !! x = Some (ur_payload r) /\
    u_digest u = ur_digest r.
Proof.
  intros Hb H0' Hex Hmsg Hr. pose proof (exec_loop_batches (take k (queue_of pr)) ex0 Hb) as Hseq.
  cbv zeta in Hseq. fold (ordered pr k) in Hseq. unfold results.
  destruct (apply_ops _ _ _) as [[sv state] ps]. destruct Hseq as (ms & E & _ & Hrep).
  rewrite E in Hex. injection Hex as <-. cbn [spawned] in Hmsg. rewrite H0' in Hmsg. cbn [app] in Hmsg.
  assert (Hin : r ∈ concat (map message_replies ms)).
  { apply list_elem_of_In, in_concat. exists (message_replies msg). split; [|by apply list_elem_of_In].
    by apply in_map, list_elem_of_In. }
  rewrite Hrep in Hin. apply list_elem_of_lookup in Hin as [x Hx].
  apply lookup_zip_with_Some in Hx as (u & p & -> & Hu & Hp). by exists x, u.
Qed.

Lemma answered_result pr i c h m : replies_serialize (S := S) (O := O) (P := P) ->
  is_u32 (nid i) -> is_u32 (nid c) -> spawned ex0 = [] -> only_batches (queue_of pr) ->
  answered pr i c h m ->
  exists k x u, (k <= length (queue_of pr))%nat /\ ordered pr k !! x = Some u /\
    results (ordered pr k) !! x = Some (r_payload m) /\ u_digest u = r_digest m.
Proof.
  intros Hser Hi Hc H0' Hb [k ex msg self self' task bytes more Hk Hex Hmsg Hid Hfin Htask Hbytes Hread].
  unfold execution_finished in Hfin. destruct (send_replies _ _) as [nd|] eqn:Es; [|discriminate].
  injection Hfin as <-. cbn in Htask, Hbytes.
  apply send_replies_tasks in Es as (Hkey & tasks & Ho & Hf).
  rewrite Ho, drop_app_length in Htask. rewrite Forall_forall in Hf. destruct (Hf task Htask) as (r & Hr & Ht).
  rewrite Hid in Ht.
  destruct (reply_on_wire i _ task (my_key nd) c bytes more Hser Hi Hc Ht Hbytes) as (h' & Hread' & _).
  rewrite Hread in Hread'. injection Hread' as <- ->. cbn [r_payload r_digest].
  destruct (produced_reply pr k ex msg r) as (x & u & Hx & Hp & Hd); [by apply Forall_take|done..|].
  exists k, x, u. done.
Qed.

(** The batches of a correct replica are made of the requests their digests
    stand for. *)
Lemma ordered_content cl i pr k x u : cluster_inv content seq0 vw faulty cl -> members cl !! i = Some pr ->
  ordered pr k !! x = Some u -> u = update_for content (u_digest u).
Proof.
  intros (Hi & _) Hp Hu. destruct (Hi i pr Hp) as (_ & _ & γ & Hok & _).
  apply list_elem_of_lookup_2, list_elem_of_In, in_concat in Hu as (b & Hb & Hu).
  apply list_elem_of_In, list_elem_of_omap in Hb as (r & Hr & Hb).
  apply elem_of_take in Hr as (y & Hr & _).
  destruct (Forall2_lookup_l _ _ _ _ _ (lo_queue _ _ _ _ _ _ _ Hok) Hr) as (dec & _ & Hx).
  unfold executes in Hx. rewrite Hb in Hx. injection Hx as ->.
  by apply in_map_iff in Hu as (d & <- & _).
Qed.

Lemma group_u32 i : i ∈ group (params vw) -> is_u32 (nid i).
Proof.
  unfold group, targets. rewrite elem_of_list_to_set. intros Hin%list_elem_of_In.
  apply in_map_iff in Hin as (z & <- & _). unfold node_from_usize, wrap_u32, is_u32. cbn.
  apply Z.mod_pos_bound. lia.
Qed.

(** Ids as they appear in headers. *)
Definition faulty_ids : gset Z := set_map nid faulty.

Lemma faulty_ids_spec : (size faulty_ids <= size faulty)%nat /\
  forall h, h_from h ∉ faulty_ids -> hdr_from h ∉ faulty.
Proof.
  unfold faulty_ids. split.
  - unfold set_map. rewrite size_list_to_set, length_fmap; [done|].
    apply NoDup_fmap_2; [by intros [a] [b] [= ->]|apply NoDup_elements].
  - intros h Hh Hin. apply Hh, elem_of_map. by exists (hdr_from h).
Qed.

Context (Hparams : params_ok (params vw)).
Context (Hn : params_n (params vw) = 3 * params_f (params vw) + 1).
Context (Hfaulty : faulty ⊆ group (params vw)).
Context (Hf : Z.of_nat (size faulty) <= params_f (params vw)).
Context (Hseq : seq_nonneg seq0).

Lemma ordered_agree cl i j pr q k : cluster_inv content seq0 vw faulty cl -> short cl -> digests_bind cl ->
  members cl !! i = Some pr -> members cl !! j = Some q ->
  (k <= length (queue_of pr))%nat -> (k <= length (queue_of q))%nat -> ordered q k = ordered pr k.
Proof.
  intros Hinv Hsh Hb Hp Hq L1 L2. unfold ordered. f_equal. apply same_batches; [done|done|].
  intros x r1 r2 R1 R2.
  destruct (batches_agree content seq0 vw faulty Hf Hparams Hn Hfaulty Hseq cl j i q pr x r1 r2)
    as (ds & E1 & E2); try done. congruence.
Qed.


End end_to_end.

(** ** Witness

    The replicas of [Replication] order two requests of node 7 and execute the
    first; replicas 0 and 1 answer it, and the client takes their reply. *)

(** Replies are the digest and the result in eight bytes. *)
Definition reply_data : SharedData Z Z Z := {|
  serialize_message := fun m =>
    match m with
    | Reply r =>
      if bool_decide (length (dig_bytes (r_digest r)) = 32%nat) &&
         ((0 <=? r_payload r) && (r_payload r <? 18446744073709551616))
      then Ok (dig_bytes (r_digest r) ++ to_le_bytes 8 (r_payload r))
      else Err (Errors.simple "Communication")
    | _ => Ok []
    end;
  deserialize_message := fun w =>
    if decide (length w = 40%nat)
    then Ok (Reply (mkReply (mkDigest (take 32 w)) (from_le_bytes (drop 32 w))))
    else Err (Errors.simple "Communication")
|}.

Lemma reply_data_serializes : @replies_serialize Z Z Z reply_data.
Proof.
  intros [[bytes] p] w. cbn -[to_le_bytes from_le_bytes]. case_bool_decide as Hl; [|discriminate]. cbn [andb].
  destruct ((0 <=? p) && (p <? 18446744073709551616)) eqn:Hp; [|discriminate].
  apply andb_prop in Hp as [?%Z.leb_le ?%Z.ltb_lt]. intros E.
  assert (w = bytes ++ to_le_bytes 8 p) as -> by congruence. clear E.
  assert (Hw : length (bytes ++ to_le_bytes 8 p) = 40%nat).
  { rewrite length_app, length_to_le_bytes. lia. }
  rewrite decide_True by exact Hw. rewrite <- Hl, take_app_length, drop_app_length.
  rewrite from_le_u64 by done. split; [done|]. rewrite Hw. done.
Qed.

#[local] Existing Instance toy_hash.
#[local] Existing Instance toy_hash_laws.
#[local] Existing Instance toy_sig.
#[local] Existing Instance toy_sig_laws.
#[local] Existing Instance reply_data.
#[local] Existing Instance key_order.
#[local] Existing Instance w_map.
#[local] Existing Instance w_map_laws.
#[local] Existing Instance counter.

Definition w_run : option (Cluster (S := Z) (O := Z) (P := Z)) :=
  cluster_exec_all w_content ZERO 4 1 ZERO 1 w_view w_faulty cluster_start w_schedule.
Definition w_group : Cluster (S := Z) (O := Z) (P := Z) := default cluster_start w_run.

Definition w_client : NodeId := node 7.

(** The reply of replica [i] of a group, after it has connected back to the
    client. *)
Definition w_answer (cl : Cluster (S := Z) (O := Z) (P := Z)) (i : Z) : option (Header * ReplyMessage Z) :=
  match members cl !! node i with
  | Some pr =>
    if decide ((1 <= length (queue_of pr))%nat /\ node_id (r_peer (rep pr)) = node i) then
      first_answer (mkExec tt 0 []) pr 1
        (set_peer (rep pr) (handle_connected_tx (r_peer (rep pr)) w_client)) w_client
    else None
  | None => None
  end.

Lemma w_answer_ok cl i h m : w_answer cl i = Some (h, m) -> hdr_from h = node i ->
  exists pr, members cl !! hdr_from h = Some pr /\
    answered (mkExec tt 0 []) pr (hdr_from h) w_client h m.
Proof.
  intros E ->. revert E. unfold w_answer. destruct (members cl !! node i) as [pr|]; [|discriminate].
  case_decide as Hk; [|discriminate]. destruct Hk as [Hk Hid]. intros E. exists pr. split; [reflexivity|].
  apply first_answer_ok in E; [|exact Hk]. cbn [r_peer set_peer handle_connected_tx node_id] in E.
  by rewrite Hid in E.
Qed.

(** The header and the reply of replica [i]. *)
Definition w_reply_head (i : Z) : Header :=
  mkHeader 0 0 i 7 9374351400059989193 40 (dig_bytes (w_d 1)) (replicate 64 5).
Definition w_result : ReplyMessage Z := mkReply (w_d 1) 10.

Definition w_events : list (Client.ClientEvent (S := Z) (O := Z) (P := Z)) :=
  [Client.EvRecv 0 (System (w_reply_head 0) (Reply w_result));
   Client.EvRecv 0 (System (w_reply_head 1) (Reply w_result));
   Client.EvPoll (w_d 1) 0%nat].

Definition w_start : Client.Client Z Z Z :=
  mkClient (mkParams 4 1) (mkData ∅ ∅) (w_node w_client) (Prng.new (replicate 32 1)) ∅ 0 [].

Lemma w_group_reached : rtc (cluster_step w_content ZERO 4 1 ZERO 1 w_view w_faulty) cluster_start w_group.
Proof.
  apply (cluster_exec_all_steps w_content ZERO 4 1 ZERO 1 w_view w_faulty w_schedule).
  assert (E : (match w_run with Some _ => true | None => false end) = true) by (vm_compute; reflexivity).
  change (w_run = Some w_group). unfold w_group. destruct w_run; [reflexivity|discriminate].
Qed.

Lemma w_answers i : i = 0 \/ i = 1 -> w_answer w_group i = Some (w_reply_head i, w_result).
Proof. intros [->| ->]; vm_compute; reflexivity. Qed.

Lemma w_future_resolves : exists c1, Client.client_run w_start w_events = Done (c1, [(w_d 1, 10)]).
Proof.
  assert (E : (match Client.client_run w_start w_events with
               | Done (_, out) => bool_decide (out = [(w_d 1, 10)]) | Panic => false end) = true)
    by (vm_compute; reflexivity).
  destruct (Client.client_run w_start w_events) as [[c1 out]|]; [|discriminate].
  apply bool_decide_eq_true in E as ->. exists c1. reflexivity.
Qed.

