(* ===== verification/Calc.v ===== *)
(** * The example service ([examples/common.rs])

    A replicated number: clients ask for its square root or its double. The
    state is an [f32], modelled by the binary32 format of the Standard
    Library's [SpecFloat]; [f32::sqrt] and [*] are the correctly rounded
    operations of IEEE 754. The service of a replica also knows the replica's
    id and counts its updates, for printing. *)

From S2P Require Import Prelude Error Ordering Crypto Params Message Node Executor.
From Stdlib Require Import SpecFloat.
Local Open Scope Z_scope.

(** ** Numbers *)

Definition f32 : Type := spec_float.

Definition f32_mul : f32 -> f32 -> f32 := SFmul 24 128.
Definition f32_sqrt : f32 -> f32 := SFsqrt 24 128.

(** The literals [1.0] and [2.0]. *)
Definition f32_one : f32 := S754_finite false 8388608 (-23).
Definition f32_two : f32 := S754_finite false 8388608 (-22).

(** ** The service *)

Inductive Action := Sqrt | MultiplyByTwo.

#[export] Instance Action_eq_dec : EqDecision Action.
Proof. solve_decision. Defined.

Record CalcService := mkCalc { calc_id : NodeId; calc_count : Z }.

Definition calc_initial_state (self : CalcService) : CalcService * result f32 := (self, Ok f32_one).

(** [self.1 += 1] wraps around in a build without overflow checks. *)
Definition calc_update (self : CalcService) (state : f32) (request : Action) : CalcService * f32 * f32 :=
  let state := match request with
               | Sqrt => f32_sqrt state
               | MultiplyByTwo => f32_mul state f32_two
               end in
  (mkCalc (calc_id self) (wrap_i32 (calc_count self + 1)), state, state).

#[export] Instance Calc_service : Service CalcService f32 Action f32 := {|
  initial_state := calc_initial_state;
  update := calc_update
|}.

(** ** Serialization *)

(** What the code uses of bincode, for one type. *)
Class Bincode (A : Type) := {
  bincode_serialize : A -> list Z + string;
  bincode_deserialize : list Z -> A + string
}.

Section data.
Context `{!Bincode f32, !Bincode (SystemMessage f32 Action f32)}.

Definition calc_serialize_state (s : f32) : result (list Z) :=
  result_wrapped id (bincode_serialize s) "Communication".
Definition calc_deserialize_state (r : list Z) : result f32 :=
  result_wrapped id (bincode_deserialize r) "Communication".
Definition calc_serialize_message (m : SystemMessage f32 Action f32) : result (list Z) :=
  result_wrapped id (bincode_serialize m) "Communication".
Definition calc_deserialize_message (r : list Z) : result (SystemMessage f32 Action f32) :=
  result_wrapped id (bincode_deserialize r) "Communication".

#[export] Instance CalcData : SharedData f32 Action f32 := {|
  serialize_message := calc_serialize_message;
  deserialize_message := calc_deserialize_message
|}.

End data.

(** ** Rounding of 24 bit mantissas *)

Lemma digits2_log2 p : Z.pos (digits2_pos p) = Z.log2 (Z.pos p) + 1.
Proof.
  assert (E : digits2_pos p = Pos.size p) by (induction p; cbn; congruence).
  rewrite E. destruct p; cbn; lia.
Qed.

Lemma digits2_unique p a : 0 <= a -> 2 ^ a <= Z.pos p < 2 ^ (a + 1) -> Z.pos (digits2_pos p) = a + 1.
Proof. intros Ha Hp. rewrite digits2_log2, (Z.log2_unique (Z.pos p) a); [done|lia|]. by rewrite <- Z.add_1_r. Qed.

(** A mantissa of exactly 24 bits. *)
Definition full (m : Z) : Prop := 8388608 <= m < 16777216.

Lemma shr_fexp_full m e l : full (Z.pos m) -> -149 <= e ->
  shr_fexp 24 128 (Z.pos m) e l = (shr_record_of_loc (Z.pos m) l, e).
Proof.
  intros Hm He. unfold shr_fexp. cbn [Zdigits2]. rewrite (digits2_unique m 23) by (unfold full in Hm; lia).
  replace (fexp 24 128 (23 + 1 + e) - e) with 0 by (unfold fexp, emin; lia). done.
Qed.

(** Rounding keeps 24 bits; a mantissa that is rounded up to the next power of
    two moves to the next exponent. *)
Lemma round_full q e l : full q -> -149 <= e -> exists m e', full (Z.pos m) /\ e <= e' <= e + 1 /\
  binary_round_aux 24 128 false q e l =
    if e' <=? 104 then S754_finite false m e' else S754_infinity false.
Proof.
  intros Hq He. destruct q as [|p|p]; [unfold full in Hq; lia| |unfold full in Hq; lia].
  unfold binary_round_aux. rewrite shr_fexp_full by done.
  assert (El : loc_of_shr_record (shr_record_of_loc (Z.pos p) l) = l) by (by destruct l as [|[]]).
  assert (Em : shr_m (shr_record_of_loc (Z.pos p) l) = Z.pos p) by (by destruct l as [|[]]).
  rewrite El, Em.
  assert (Hr : round_nearest_even (Z.pos p) l = Z.pos p \/ round_nearest_even (Z.pos p) l = Z.pos p + 1)
    by (destruct l as [|[]]; cbn; auto; destruct p; auto).
  assert (Hf : forall m, full (Z.pos m) -> shr_fexp 24 128 (Z.pos m) e loc_Exact =
    (Build_shr_record (Z.pos m) false false, e)) by (intros m Hm; by rewrite shr_fexp_full).
  destruct Hr as [-> | ->].
  - rewrite Hf by done. exists p, e. split_and!; [done|lia..|done].
  - destruct (Z.eq_dec (Z.pos p + 1) 16777216) as [->|Hne].
    + unfold shr_fexp. replace (fexp 24 128 (Zdigits2 16777216 + e) - e) with 1
        by (unfold fexp, emin; cbn [Zdigits2 digits2_pos]; lia).
      exists 8388608%positive, (e + 1). split_and!; [done|lia..|done].
    + assert (Hp : full (Z.pos (p + 1))) by (unfold full in *; lia).
      change (Z.pos p + 1) with (Z.pos (p + 1)). rewrite Hf by done.
      exists (p + 1)%positive, e. split_and!; [done|lia..|done].
Qed.

(** ** The two operations *)

(** A number from [1.0] on in normal form, or infinity. *)
Definition at_least_one (x : f32) : Prop :=
  match x with
  | S754_infinity false => True
  | S754_finite false m e => full (Z.pos m) /\ -23 <= e <= 104
  | _ => False
  end.

(** Shifting out 23 zeroes. *)
Lemma shr_zeroes m : iter_pos shr_1 23 (shr_record_of_loc (Z.pos (8388608 * m)) loc_Exact)
  = Build_shr_record (Z.pos m) false false.
Proof. reflexivity. Qed.

(** Doubling is exact: it increments the exponent, up to overflow. *)
Lemma double_exact m e : full (Z.pos m) -> -23 <= e ->
  f32_mul (S754_finite false m e) f32_two =
    if e + 1 <=? 104 then S754_finite false m (e + 1) else S754_infinity false.
Proof.
  intros Hm He. unfold f32_mul, f32_two, SFmul. rewrite Pos.mul_comm. cbn [xorb].
  unfold binary_round_aux, shr_fexp at 1. cbn [Zdigits2].
  rewrite (digits2_unique _ 46) by (unfold full in Hm; lia).
  replace (fexp 24 128 (46 + 1 + (e + -22)) - (e + -22)) with 23 by (unfold fexp, emin; lia).
  unfold shr. rewrite shr_zeroes. cbn [shr_m loc_of_shr_record round_nearest_even].
  replace (e + -22 + 23) with (e + 1) by lia. rewrite shr_fexp_full by (done || lia). done.
Qed.

(** The square root of a number from [1.0] on has 24 bits before rounding, and
    half the exponent. *)
Lemma sqrt_core m e : full (Z.pos m) -> -23 <= e <= 104 -> exists q e' l,
  SFsqrt_core_binary 24 128 (Z.pos m) e = (q, e', l) /\ full q /\ -23 <= e' <= 40.
Proof.
  intros Hm He. unfold SFsqrt_core_binary. cbn [Zdigits2].
  rewrite (digits2_unique m 23) by (unfold full in Hm; lia).
  set (e' := Z.min _ _). assert (He' : e' = Z.div2 (e + 25) - 24).
  { subst e'. unfold fexp, emin. rewrite !Z.div2_div.
    replace (23 + 1 + e + 1) with (e + 25) by lia. Z.div_mod_to_equations. lia. }
  assert (Hs : e - 2 * e' = 23 \/ e - 2 * e' = 24) by (rewrite He', Z.div2_div; Z.div_mod_to_equations; lia).
  assert (Hb : -23 <= e' <= 40) by (rewrite He', Z.div2_div; Z.div_mod_to_equations; lia).
  clearbody e'. clear He'.
  assert (Hq : forall n, 70368744177664 <= n < 281474976710656 ->
    exists q l, (let (q, r) := Z.sqrtrem n in
      (q, e', if r =? 0 then loc_Exact else loc_Inexact (if r <=? q then Lt else Gt))) = (q, e', l) /\ full q).
  { intros n Hn. pose proof (Z.sqrtrem_sqrt n) as E. destruct (Z.sqrtrem n) as [q r]. cbn in E. subst q.
    eexists _, _. split; [reflexivity|]. split.
    - apply Z.sqrt_le_square; lia.
    - apply Z.sqrt_lt_square; lia. }
  unfold full in Hm.
  destruct Hs as [-> | ->]; cbn [Z.shiftl]; rewrite Z.shiftl_mul_pow2 by lia.
  - destruct (Hq (Z.pos m * 2 ^ 23)) as (q & l & E & Hf); [lia|]. eauto 6.
  - destruct (Hq (Z.pos m * 2 ^ 24)) as (q & l & E & Hf); [lia|]. eauto 6.
Qed.

Lemma sqrt_at_least_one x : at_least_one x -> at_least_one (f32_sqrt x).
Proof.
  destruct x as [|[]| |[] m e]; try done. intros [Hm He]. unfold f32_sqrt, SFsqrt.
  destruct (sqrt_core m e Hm He) as (q & e1 & l & -> & Hq & H1).
  destruct (round_full q e1 l Hq) as (m2 & e2 & Hm2 & H2 & ->); [lia|].
  destruct (Z.leb_spec e2 104); [|done]. split; [done|lia].
Qed.

Lemma double_at_least_one x : at_least_one x -> at_least_one (f32_mul x f32_two).
Proof.
  destruct x as [|[]| |[] m e]; try done. intros [Hm He]. rewrite double_exact by (done || lia).
  destruct (Z.leb_spec (e + 1) 104); [|done]. split; [done|lia].
Qed.

Lemma calc_update_invariant sv state request : at_least_one state ->
  at_least_one (calc_update sv state request).1.2 /\ at_least_one (calc_update sv state request).2.
Proof.
  intros Hs. destruct request; cbn; split; auto using sqrt_at_least_one, double_at_least_one.
Qed.

(** ** Properties *)

(** C34: the replicated number is always a number from 1 on, or infinite: no
    sequence of actions makes it negative, zero, subnormal or NaN, and the same
    holds of every reply; doubling is exact until it overflows. *)
Theorem calc_state_from_one actions : forall sv,
  let '(_, state, replies) := apply_ops sv f32_one actions in
  at_least_one state /\ Forall at_least_one replies /\
  (forall m e, state = S754_finite false m e ->
     f32_mul state f32_two = if e <? 104 then S754_finite false m (e + 1) else S754_infinity false).
Proof.
  assert (Hgen : forall sv state, at_least_one state ->
    let '(_, state', replies) := apply_ops sv state actions in
    at_least_one state' /\ Forall at_least_one replies).
  { induction actions as [|a actions IH]; intros sv state Hs; cbn [apply_ops]; [by split|].
    pose proof (calc_update_invariant sv state a Hs) as [H1 H2]. change update with calc_update.
    destruct (calc_update sv state a) as [[sv1 state1] p]. specialize (IH sv1 state1 H1).
    destruct (apply_ops sv1 state1 actions) as [[sv2 state2] ps]. destruct IH as [H3 H4].
    split; [done|]. by apply Forall_cons. }
  intros sv. specialize (Hgen sv f32_one).
  destruct (apply_ops sv f32_one actions) as [[sv' state] replies].
  destruct Hgen as [H1 H2]; [done|]. split_and!; [done..|]. intros m e ->. destruct H1 as [Hm He].
  rewrite double_exact by (done || lia).
  by destruct (Z.leb_spec (e + 1) 104), (Z.ltb_spec e 104); try lia.
Qed.

(** The id of the replica and its counter show in neither. *)
#[export] Instance calc_same_answers : SameAnswers (Sv := CalcService) (fun _ _ => True).
Proof. split. intros sv1 sv2 state []; done. Qed.

(** A square root, a double, and a square root of what does not fit. *)
Example calc_run : apply_ops (mkCalc (mkNodeId 2) 0) f32_one
    [MultiplyByTwo; MultiplyByTwo; Sqrt; MultiplyByTwo; Sqrt] =
  (mkCalc (mkNodeId 2) 5, f32_two,
   [f32_two; S754_finite false 8388608 (-21); f32_two; S754_finite false 8388608 (-21); f32_two]).
Proof. vm_compute. reflexivity. Qed.

(** Doubling 128 times overflows, for good. *)
Example calc_overflows : (apply_ops (mkCalc (mkNodeId 2) 0) f32_one
    (replicate 128 MultiplyByTwo ++ [Sqrt; Sqrt])).1.2 = S754_infinity false.
Proof. vm_compute. reflexivity. Qed.
