(* ===== verification/Examples.v ===== *)
(** * The example programs ([examples/])

    [Setup]: the configuration of the nodes of a group of four on one machine
    and of a client ([common.rs], [replica-local.rs], [client-local.rs]): keys,
    addresses, the files that TLS needs, the calls of [bootstrap]. The file
    system and rustls are parameters. [Debug]: the printed form of messages.
    [Frames]: the protocol of [sockets.rs], messages preceded by their length. *)

From S2P Require Import Prelude Error Ordering Prng Crypto Params Message Collections Node Connect.
From S2P Require Import Timeouts Log Consensus Sync Executor Server Client Calc.
From stdpp Require Import pretty.
Local Open Scope Z_scope.
Local Open Scope bft_scope.

(** ** Frames *)

Module Frames.

Definition to_be_bytes (k : nat) (z : Z) : list Z := rev (to_le_bytes k z).
Definition from_be_bytes (bs : list Z) : Z := from_le_bytes (rev bs).

(** One message, and the end of the stream. *)
Definition frame (msg : list Z) : list Z := to_be_bytes 4 (wrap_u32 (Z.of_nat (length msg))) ++ msg.
Definition end_frame : list Z := replicate 4 0.

(** [b"Badass FreesTyle"] *)
Definition MSG : list Z := [66; 97; 100; 97; 115; 115; 32; 70; 114; 101; 101; 115; 84; 121; 108; 101].
Definition TIMES : nat := 5.

(** What [handle_client] writes when no write fails. *)
Definition handle_client : list Z := concat (replicate TIMES (frame MSG)) ++ end_frame.

(** [read_exact]: fails at the end of the stream. *)
Definition read_exact (k : nat) (sock : list Z) : option (list Z * list Z) :=
  if decide (k <= length sock)%nat then Some (take k sock, drop k sock) else None.

(** The loop of [client_main]: the messages printed, and whether it returned
    [Ok]; [None] when the fuel does not suffice. *)
Fixpoint client_loop (fuel : nat) (sock : list Z) (printed : list (list Z)) : option (list (list Z) * bool) :=
  match fuel with
  | 0%nat => None
  | S fuel =>
    match read_exact 4 sock with
    | None => Some (printed, false)
    | Some (size, sock) =>
      let size := from_be_bytes size in
      if size =? 0 then Some (printed, true)
      else match read_exact (Z.to_nat size) sock with
           | None => Some (printed, false)
           | Some (buf, sock) => client_loop fuel sock (printed ++ [buf])
           end
    end
  end.

Definition client_main (sock : list Z) : option (list (list Z) * bool) :=
  client_loop (S (length sock)) sock [].

Lemma to_from_be_bytes z : is_u32 z -> from_be_bytes (to_be_bytes 4 z) = z.
Proof.
  intros Hz. unfold from_be_bytes, to_be_bytes. rewrite rev_involutive. apply from_to_le_bytes.
  exact Hz.
Qed.

Lemma length_to_be_bytes k z : length (to_be_bytes k z) = k.
Proof. unfold to_be_bytes. by rewrite length_rev, length_to_le_bytes. Qed.

Lemma read_exact_app a b : read_exact (length a) (a ++ b) = Some (a, b).
Proof.
  unfold read_exact. rewrite decide_True by (rewrite length_app; lia).
  by rewrite take_app_length, drop_app_length.
Qed.

(** A message that can be framed. *)
Definition framable (msg : list Z) : Prop := msg <> [] /\ is_u32 (Z.of_nat (length msg)).

Lemma client_reads_frame fuel msg rest printed : framable msg ->
  client_loop (S fuel) (frame msg ++ rest) printed = client_loop fuel rest (printed ++ [msg]).
Proof.
  intros [Hne Hl]. cbn [client_loop]. unfold frame. rewrite <- app_assoc.
  set (hd := to_be_bytes 4 _). assert (Hhd : length hd = 4%nat) by apply length_to_be_bytes.
  rewrite <- Hhd at 1. rewrite read_exact_app. unfold hd.
  assert (Ew : wrap_u32 (Z.of_nat (length msg)) = Z.of_nat (length msg)).
  { unfold is_u32, wrap_u32 in *. apply Z.mod_small. lia. }
  rewrite to_from_be_bytes by (by rewrite Ew). rewrite Ew.
  destruct (Z.eqb_spec (Z.of_nat (length msg)) 0) as [E|_]; [destruct msg; [done|cbn in E; lia]|].
  by rewrite Nat2Z.id, read_exact_app.
Qed.

Lemma client_reads_frames msgs : forall fuel rest printed, Forall framable msgs ->
  (length msgs < fuel)%nat ->
  client_loop fuel (concat (map frame msgs) ++ end_frame ++ rest) printed = Some (printed ++ msgs, true).
Proof.
  induction msgs as [|msg msgs IH]; intros fuel rest printed Hf Hl.
  - destruct fuel; [cbn in Hl; lia|]. cbn. by rewrite app_nil_r.
  - destruct fuel; [cbn in Hl; lia|]. apply Forall_cons in Hf as [Hm Hf]. cbn [map concat].
    rewrite <- app_assoc, client_reads_frame by done. rewrite IH; [|done|cbn in Hl; lia].
    by rewrite <- app_assoc.
Qed.

Lemma length_frames msgs : (length msgs <= length (concat (map frame msgs)))%nat.
Proof.
  induction msgs as [|m msgs IH]; [done|]. cbn [map concat length]. rewrite length_app.
  unfold frame at 1. rewrite length_app, length_to_be_bytes. lia.
Qed.

(** The client terminates on every stream. *)
Lemma client_loop_total fuel : forall sock printed, (length sock < fuel)%nat ->
  is_Some (client_loop fuel sock printed).
Proof.
  induction fuel as [|fuel IH]; intros sock printed Hl; [lia|]. cbn [client_loop]. unfold read_exact at 1.
  case_decide as H4; [|eauto]. destruct (_ =? 0); [eauto|]. unfold read_exact. case_decide; [|eauto].
  apply IH. rewrite !length_drop. lia.
Qed.

(** Framing. Whatever non-empty messages are framed and ended by a zero
    length, the reading loop prints exactly these messages, in order, and
    returns [Ok], whatever follows in the stream; on every stream it returns. *)
Theorem frames_roundtrip msgs rest : Forall framable msgs ->
  client_main (concat (map frame msgs) ++ end_frame ++ rest) = Some (msgs, true) /\
  forall sock, is_Some (client_main sock).
Proof.
  intros Hf. split.
  - unfold client_main. rewrite client_reads_frames; [done|done|].
    pose proof (length_frames msgs). rewrite length_app. lia.
  - intros sock. apply client_loop_total. lia.
Qed.

(** The client prints what the server of the example sends. *)
Lemma frames_roundtrip_witness : client_main handle_client = Some (replicate TIMES MSG, true).
Proof.
  replace handle_client with (concat (map frame (replicate TIMES MSG)) ++ end_frame ++ [])
    by (vm_compute; reflexivity).
  apply (frames_roundtrip (replicate TIMES MSG) []).
  repeat (apply Forall_cons; split; [split; [discriminate|vm_compute; split; congruence]|]). by apply Forall_nil.
Defined.

End Frames.

(** ** Printing messages *)

Module Debug.

Definition CalcMessage : Type := Message f32 Action f32.

(** Of the system messages only requests are expected. *)
Definition debug_msg (m : CalcMessage) : outcome string :=
  match m with
  | System _ (Request _) => Done "Req"
  | System _ _ => Panic
  | ConnectedTx _ => Done "CTx"
  | ConnectedRx _ => Done "CRx"
  | DisconnectedTx _ => Done "DTx"
  | DisconnectedRx _ => Done "DRx"
  | ExecutionFinished _ => Done "Exe"
  | ExecutionFinishedWithAppstate _ _ => Done "ExA"
  | Timeout _ => Done "Tim"
  end%string.

Fixpoint debug_loop (buf : string) (rogue : list CalcMessage) : outcome string :=
  match rogue with
  | [] => Done (buf +:+ "]")%string
  | m :: rogue =>
    let! code := debug_msg m in
    debug_loop (buf +:+ code +:+ " ")%string rogue
  end.

Definition debug_rogue (rogue : list CalcMessage) : outcome string := debug_loop "[ " rogue.

Definition printable (m : CalcMessage) : bool :=
  match m with System _ (Request _) => true | System _ _ => false | _ => true end.

Lemma string_length_app s1 s2 : String.length (s1 +:+ s2) = (String.length s1 + String.length s2)%nat.
Proof. induction s1 as [|c s1 IH]; [done|]. simpl. f_equal. exact IH. Qed.

(** A message has a code of three letters, or is not expected. *)
Lemma debug_msg_code m :
  match debug_msg m with
  | Done code => printable m = true /\ String.length code = 3%nat
  | Panic => printable m = false
  end.
Proof. by destruct m as [h [| | | | |]| | | | | | |]. Qed.

(** The printed list has one code per message; printing panics exactly when a
    system message other than a request is among them. *)
Lemma debug_rogue_spec rogue :
  match debug_rogue rogue with
  | Done s => forallb printable rogue = true /\ String.length s = (3 + 4 * length rogue)%nat
  | Panic => forallb printable rogue = false
  end.
Proof.
  unfold debug_rogue. assert (Hgen : forall buf, match debug_loop buf rogue with
    | Done s => forallb printable rogue = true /\ String.length s = (String.length buf + 4 * length rogue + 1)%nat
    | Panic => forallb printable rogue = false
    end).
  { induction rogue as [|m rogue IH]; intros buf; cbn [debug_loop forallb length].
    - split; [done|]. rewrite string_length_app. cbn. lia.
    - pose proof (debug_msg_code m) as Hm. destruct (debug_msg m) as [code|]; [|cbn; by rewrite Hm].
      destruct Hm as [-> Hc]. cbn [obind andb]. specialize (IH (buf +:+ code +:+ " ")%string).
      destruct (debug_loop _ rogue); [|done]. destruct IH as [? ->]. split; [done|].
      rewrite !string_length_app, Hc. cbn [String.length]. lia. }
  specialize (Hgen "[ "%string). destruct (debug_loop "[ " rogue); [|done].
  destruct Hgen as [? ->]. split; [done|]. cbn [String.length]. lia.
Qed.

End Debug.

(** ** Setting up a group *)

Module Setup.

(** What the code uses of rustls, with the type of certificates and of secret
    keys; the checks of [RootCertStore::add], [set_single_cert] and
    [set_single_client_cert]. *)
Class Tls := {
  Cert : Type;
  SecretKey : Type;
  pem_certs : list Z -> option (list Cert);
  pem_rsa_private_keys : list Z -> option (list SecretKey);
  root_add : Cert -> bool;
  server_cert_ok : list Cert -> SecretKey -> bool;
  client_cert_ok : list Cert -> SecretKey -> bool
}.

(** *** The keys of the group *)

Section keys.
Context `{RingKeys}.

(** An element of [sk_stream], made of the seed [buf]: zeroes in
    [replica-local.rs] and [client-local.rs], random bytes in
    [bootstrap-local.rs]. *)
Definition sk_stream (buf : list Z) : outcome (KeyPair * PublicKey) :=
  match key_pair_from_bytes buf with Ok sk => Done sk | Err _ => Panic end.

Fixpoint secret_keys (ids : list Z) (bufs : list (list Z)) (keys : gmap NodeId (KeyPair * PublicKey))
  : outcome (gmap NodeId (KeyPair * PublicKey)) :=
  match ids, bufs with
  | id :: ids, buf :: bufs =>
    let! sk := sk_stream buf in
    secret_keys ids bufs (<[node_from_u32 id := sk]> keys)
  | _, _ => Done keys
  end.

Definition public_keys (keys : gmap NodeId (KeyPair * PublicKey)) : gmap NodeId PublicKey := snd <$> keys.

(** The loop of [async_main]: the key that each node is set up with. *)
Fixpoint hand_out (ids : list NodeId) (keys : gmap NodeId (KeyPair * PublicKey))
  : outcome (list (NodeId * (KeyPair * PublicKey))) :=
  match ids with
  | [] => Done []
  | id :: ids =>
    match keys !! id with
    | None => Panic
    | Some sk => let! rest := hand_out ids (delete id keys) in Done ((id, sk) :: rest)
    end
  end.

Definition replica_keys (bufs : list (list Z))
  : outcome (list (NodeId * (KeyPair * PublicKey)) * gmap NodeId PublicKey) :=
  let! keys := secret_keys [0; 1; 2; 3] bufs ∅ in
  let! handed := hand_out (targets_u32 4) keys in
  Done (handed, public_keys keys).

Lemma sk_stream_done `{!RingKeysLaws} buf : length buf = 32%nat -> exists sk pk, sk_stream buf = Done (sk, pk) /\
  pk = public_key sk.
Proof.
  intros Hb. unfold sk_stream, key_pair_from_bytes, result_simple_msg, map_err.
  apply seed_length in Hb as [sk ->]. cbn [result_bind]. exists sk, (public_key sk). split; [|done].
  unfold public_key_from_bytes_unchecked.
  by rewrite <- (ring_public_key_length sk), firstn_all, ring_public_key_parses.
Qed.

(** Every replica is given a secret key, the public half of which the others
    know it by. *)
Lemma replica_keys_match `{!RingKeysLaws} bufs : length bufs = 4%nat ->
  Forall (fun buf => length buf = 32%nat) bufs ->
  exists handed pk, replica_keys bufs = Done (handed, pk) /\ map fst handed = targets_u32 4 /\
    forall id sk pk', (id, (sk, pk')) ∈ handed -> pk !! id = Some (public_key sk).
Proof.
  intros Hl Hf. destruct bufs as [|b0 [|b1 [|b2 [|b3 [|]]]]]; try discriminate.
  rewrite !Forall_cons in Hf. destruct Hf as (L0 & L1 & L2 & L3 & _).
  destruct (sk_stream_done b0 L0) as (k0 & p0 & E0 & ->), (sk_stream_done b1 L1) as (k1 & p1 & E1 & ->),
    (sk_stream_done b2 L2) as (k2 & p2 & E2 & ->), (sk_stream_done b3 L3) as (k3 & p3 & E3 & ->).
  unfold replica_keys. cbn [secret_keys]. rewrite E0. cbn [obind]. rewrite E1. cbn [obind]. rewrite E2.
  cbn [obind]. rewrite E3. cbn [obind]. eexists _, _. split; [reflexivity|]. split; [reflexivity|].
  intros id sk pk' Hin. repeat (apply elem_of_cons in Hin as [[= -> -> ->]|Hin]); try reflexivity.
  by apply elem_of_nil in Hin.
Qed.

End keys.

Section setup.
Context `{Tls, HashFn, SigScheme}.

(** The files of the file system. *)
Context (files : string -> option (list Z)).

(** [unwrap] and [expect]. *)
Definition unwrap {A : Type} (o : option A) : outcome A :=
  match o with Some a => Done a | None => Panic end.
Definition check (b : bool) : outcome unit := if b then Done tt else Panic.

Definition open_file (path : string) : outcome (list Z) := unwrap (files path).

(** The paths of a replica and of a client. *)
Definition node_file (id : Z) (suffix : string) : string :=
  if id <? 4
  then "./ca-root/cop0" +:+ pretty (id + 1) +:+ "/cop0" +:+ pretty (id + 1) +:+ suffix
  else "./ca-root/cli" +:+ pretty id +:+ "/cli" +:+ pretty id +:+ suffix.

Record TlsConfig := mkTls { tls_root : Cert; tls_chain : list Cert; tls_key : SecretKey }.

Definition get_server_config (id : NodeId) : outcome TlsConfig :=
  let id := usize_from_node id in
  let! file := open_file "./ca-root/root.crt" in
  let! certs := unwrap (pem_certs file) in
  let! root := unwrap (head certs) in
  let! _ := check (root_add root) in
  let! file := open_file (node_file id ".key") in
  let! sks := unwrap (pem_rsa_private_keys file) in
  let! sk := unwrap (head sks) in
  let! file := open_file (node_file id ".crt") in
  let! c := unwrap (pem_certs file) in
  let chain := c ++ certs in
  let! _ := check (server_cert_ok chain sk) in
  Done (mkTls root chain sk).

Definition get_client_config (id : NodeId) : outcome TlsConfig :=
  let id := usize_from_node id in
  let! file := open_file "./ca-root/root.crt" in
  let! certs := unwrap (pem_certs file) in
  let! root := unwrap (head certs) in
  let! _ := check (root_add root) in
  let! file := open_file (node_file id ".key") in
  let! sks := unwrap (pem_rsa_private_keys file) in
  let! sk := unwrap (head sks) in
  let! file := open_file (node_file id ".crt") in
  let! c := unwrap (pem_certs file) in
  let chain := c ++ certs in
  let! _ := check (client_cert_ok chain sk) in
  Done (mkTls root chain sk).

(** The TLS configurations go to rustls; the rest is the configuration of the
    node. *)
Definition node_config (id : NodeId) (sk : KeyPair) (addrs : gmap NodeId (string * string))
  (pk : gmap NodeId PublicKey) : outcome (NodeConfig * TlsConfig * TlsConfig) :=
  let! client_config := get_client_config id in
  let! server_config := get_server_config id in
  Done (mkConfig 4 1 id (node_from_u32 1000) addrs pk sk, client_config, server_config).

Context `{RandomState, !OrderedMap Digest, !Bincode f32, !Bincode (SystemMessage f32 Action f32)}.

(** [bind_error], [seed] and [rx] are what [Node::bootstrap] meets; [None] when it
    waits for another connection. *)
Definition setup_node id sk addrs pk (bind_error : option string) (seed : list Z)
  (rx : list (Message f32 Action f32))
  : outcome (option (result (Node f32 Action f32 * list (Message f32 Action f32)))) :=
  let! '(conf, _, _) := node_config id sk addrs pk in
  let! r := node_bootstrap conf bind_error seed rx in
  Done (fst <$> r).

Definition setup_replica id sk addrs pk bind_error seed rx (now : Z)
  : outcome (option (result (Replica f32 Action f32))) :=
  let! node := setup_node id sk addrs pk bind_error seed rx in
  match node with
  | None => Done None
  | Some node =>
    let executor := match executor_new (P := f32) (mkCalc id 0) with
                    | Ok _ => Ok (mkHandle true [])
                    | Err e => Err e
                    end in
    let! r := bootstrap ZERO 4 1 ZERO 1024 node executor now in
    Done (Some r)
  end.

Definition setup_client id sk addrs pk bind_error seed rx (send_seed : list Z) (now : Z)
  : outcome (option (result (Client.Client f32 Action f32))) :=
  let! node := setup_node id sk addrs pk bind_error seed rx in
  Done ((fun node => client_bootstrap 4 1 node send_seed now) <$> node).

(** The next action of a task of [client-local.rs]. *)
Definition next_action (rng : Prng.State) : Action * Prng.State :=
  let '(i, rng) := next_state rng in
  (if Z.land i 1 =? 0 then Sqrt else MultiplyByTwo, rng).

(** The first part of a turn of such a task, up to the reply. *)
Definition client_task_request (client : Client.Client f32 Action f32) (rng : Prng.State)
  : outcome (Client.Client f32 Action f32 * Digest * Prng.State) :=
  let '(request, rng) := next_action rng in
  let! '(client, digest) := client_update client request in
  Done (client, digest, rng).

(** The receiving loop of a task of [bootstrap-local.rs]: what it prints, the
    code and the sender of each message; [None] when it waits for another one. *)
Fixpoint receive_loop (k : nat) (rx : list (Message f32 Action f32)) (printed : list (string * NodeId))
  : outcome (option (list (string * NodeId))) :=
  match k, rx with
  | 0%nat, _ => Done (Some printed)
  | S k, [] => Done None
  | S k, m :: rx =>
    match message_header m with
    | Err _ => Panic
    | Ok h => let! code := Debug.debug_msg m in receive_loop k rx (printed ++ [(code, hdr_from h)])
    end
  end.

(** Such a task: [received] are the messages that arrive after [bootstrap]. *)
Definition bootstrap_task id sk addrs pk bind_error seed rx (received : list (Message f32 Action f32))
  : outcome (option (Node f32 Action f32 * string * list (string * NodeId))) :=
  let! r := setup_node id sk addrs pk bind_error seed rx in
  match r with
  | None => Done None
  | Some (Err _) => Panic
  | Some (Ok (node, rogue)) =>
    let! text := Debug.debug_rogue rogue in
    let! '(node, _) := broadcast node (Request (mkRequest Sqrt)) (targets_u32 4) in
    let! printed := receive_loop 4 received [] in
    Done ((fun printed => (node, text, printed)) <$> printed)
  end.

(** *** The group on one machine *)

(** The addresses of [replica-local.rs] and [client-local.rs]. *)
Definition local_addrs : gmap NodeId (string * string) :=
  foldl (fun m '(id, addr) => <[node_from_u32 id := addr]> m) ∅
    [(0, ("127.0.0.1:10001", "cop01")); (1, ("127.0.0.1:10002", "cop02"));
     (2, ("127.0.0.1:10003", "cop03")); (3, ("127.0.0.1:10004", "cop04"));
     (1000, ("127.0.0.1:11000", "cli1000"))]%string.

(** Those of [bootstrap-local.rs]. *)
Definition group_addrs : gmap NodeId (string * string) :=
  foldl (fun m '(id, addr) => <[node_from_u32 id := addr]> m) ∅
    [(0, ("127.0.0.1:10001", "cop01")); (1, ("127.0.0.1:10002", "cop02"));
     (2, ("127.0.0.1:10003", "cop03")); (3, ("127.0.0.1:10004", "cop04"))]%string.

Lemma local_addrs_targets i : i ∈ targets_u32 4 -> is_Some (local_addrs !! i).
Proof.
  intros Hi. cbn in Hi. repeat (apply elem_of_cons in Hi as [->|Hi]);
    try (by apply elem_of_nil in Hi); by eexists.
Qed.

Lemma group_addrs_targets i : i ∈ targets_u32 4 -> is_Some (group_addrs !! i).
Proof.
  intros Hi. cbn in Hi. repeat (apply elem_of_cons in Hi as [->|Hi]);
    try (by apply elem_of_nil in Hi); by eexists.
Qed.

Lemma addrs_config_ok id sk pk addrs : id ∈ targets_u32 4 \/ id = node_from_u32 1000 -> is_Some (addrs !! id) ->
  (forall i, i ∈ targets_u32 4 -> is_Some (addrs !! i)) ->
  config_ok (mkConfig 4 1 id (node_from_u32 1000) addrs pk sk).
Proof.
  intros Hid Hmine Haddrs. split_and!; cbn [cfg_n cfg_f cfg_id cfg_first_cli cfg_addrs]; [|..|done|done].
  - unfold params_ok. cbn. lia.
  - destruct Hid as [Hi| ->]; [left|right; cbn; lia]. cbn in Hi.
    repeat (apply elem_of_cons in Hi as [->|Hi]); try (by apply elem_of_nil in Hi); cbn; lia.
Qed.

(** A system message that [Replica::bootstrap] can deal with. *)
Definition rogue_ok (m : Message f32 Action f32) : Prop :=
  match m with
  | System _ (Request _) | System _ (Message.Consensus _) => True
  | System _ _ => False
  | _ => True
  end.

Definition same_start (r r' : Replica f32 Action f32) : Prop :=
  r_phase r' = r_phase r /\ r_peer r' = r_peer r /\ executor r' = executor r /\
  instance r' = instance r /\ view (synchronizer r') = view (synchronizer r).

Lemma handle_rogue_keeps rogue : forall (r : Replica f32 Action f32) now, Forall rogue_ok rogue ->
  exists r', handle_rogue r now rogue = Done r' /\ same_start r r'.
Proof.
  induction rogue as [|m rogue IH]; intros r now Hok; [by exists r|].
  apply Forall_cons in Hok as [Hm Hok].
  destruct m as [h m| | | | | | |]; try (by apply IH). destruct m as [q| |m| | |]; try done; cbn [handle_rogue].
  - destruct (IH (request_received r now h q) now Hok) as (r' & E & A & B & C & D & F). exists r'. split; [done|].
    unfold request_received, watch_request, watch_request_impl in *. unfold same_start.
    destruct (watching_timeouts (synchronizer r)); by split_and!.
  - destruct (IH (set_consensus r (cons_queue (consensus r) h m)) now Hok) as (r' & E & A & B & C & D & F).
    exists r'. split; [done|]. unfold same_start. split_and!; try done. rewrite D.
    unfold instance. cbn [consensus set_consensus].
    by destruct (cons_queue_rest (consensus r) h m) as (t & -> & ? & _).
Qed.

(** A replica of the example group starts. With the files that TLS needs in
    place, the addresses of the example, and connections with the other three
    replicas reported once in each direction, [setup_replica] returns a replica in
    its normal phase, at instance 0 of view 0, connected to the whole group, with
    a quorum of three and an empty execution queue. *)
Theorem setup_replica_starts id sk pk cc sc seed rx now :
  id ∈ targets_u32 4 -> get_client_config id = Done cc -> get_server_config id = Done sc ->
  Z.of_nat (length rx) <= i32_MAX -> Forall (report_ok 4 (node_from_u32 1000)) rx -> reports_once rx ->
  clients_known (mkConfig 4 1 id (node_from_u32 1000) local_addrs pk sk) rx ->
  (forall i, Z.of_nat i < 4 -> Z.of_nat i <> nid id -> conn_count (node_from_u32 1000) i rx = 2%nat) ->
  Forall rogue_ok rx ->
  exists r, setup_replica id sk local_addrs pk None seed rx now = Done (Some (Ok r)) /\
    r_phase r = NormalPhase /\ instance r = ZERO /\ executor r = mkHandle true [] /\
    node_id (r_peer r) = id /\ connected (r_peer r) (targets 4) /\
    view_seq (view (synchronizer r)) = ZERO /\ quorum (params (view (synchronizer r))) = 3.
Proof.
  intros Hid Hcc Hsc Hlen Hok Hon Hcli Hcnt Hrog.
  set (cfg := mkConfig 4 1 id (node_from_u32 1000) local_addrs pk sk).
  destruct (node_bootstrap_connects cfg seed rx (addrs_config_ok id sk pk _ (or_introl Hid) (local_addrs_targets id Hid) local_addrs_targets) Hlen Hok Hon Hcli Hcnt)
    as (nd & pre & rest & E & -> & Hnid & Hconn).
  unfold setup_replica, setup_node, node_config. rewrite Hcc, Hsc. cbn [obind]. fold cfg. rewrite E.
  cbn [obind fmap option_fmap option_map fst]. unfold bootstrap.
  change (view_new ZERO 4 1) with (Ok (mkView ZERO (mkParams 4 1))). cbn [executor_new initial_state Calc_service calc_initial_state].
  set (r0 := mkReplica _ _ _ _ _ _ _ _ _).
  destruct (handle_rogue_keeps (List.filter is_rogue pre) r0 now) as (r & Er & A & B & C & D & F).
  { apply Forall_app in Hrog as [Hrog _]. rewrite Forall_forall in Hrog |- *. intros m Hm.
    apply Hrog. apply list_elem_of_In in Hm. apply filter_In in Hm as [Hm _]. by apply list_elem_of_In. }
  rewrite Er. cbn [obind]. exists r. split; [done|].
  rewrite A, B, C, D, F. by split_and!.
Qed.

(** What a task of [bootstrap-local.rs] prints of requests. *)
Lemma receive_requests l tl : forall printed,
  receive_loop (length l) (map (fun x => System x.1 (Request (mkRequest x.2))) l ++ tl) printed =
  Done (Some (printed ++ map (fun x => ("Req"%string, hdr_from x.1)) l)).
Proof.
  induction l as [|x l IH]; intros printed; cbn; [by rewrite app_nil_r|]. by rewrite IH, <- app_assoc.
Qed.

(** A node of [bootstrap-local.rs]: connected with the other three, it prints
    the messages that came before, sends a request to all four and prints the
    four requests it receives. *)
Lemma bootstrap_task_prints id sk pk cc sc seed rx l tl :
  id ∈ targets_u32 4 -> get_client_config id = Done cc -> get_server_config id = Done sc ->
  Z.of_nat (length rx) <= i32_MAX -> Forall (report_ok 4 (node_from_u32 1000)) rx -> reports_once rx ->
  clients_known (mkConfig 4 1 id (node_from_u32 1000) group_addrs pk sk) rx ->
  (forall i, Z.of_nat i < 4 -> Z.of_nat i <> nid id -> conn_count (node_from_u32 1000) i rx = 2%nat) ->
  forallb Debug.printable rx = true -> length l = 4%nat ->
  serializable (Request (mkRequest Sqrt) : SystemMessage f32 Action f32) ->
  exists node text task, bootstrap_task id sk group_addrs pk None seed rx
      (map (fun x => System x.1 (Request (mkRequest x.2))) l ++ tl)
    = Done (Some (node, text, map (fun x => ("Req"%string, hdr_from x.1)) l)) /\
    task ∈ outbox node /\ t_message task = Request (mkRequest Sqrt) /\
    t_others task = map (Peers id) (filter (fun i => i <> id) (targets_u32 4)).
Proof.
  intros Hid Hcc Hsc Hlen Hok Hon Hcli Hcnt Hprint Hl Hser.
  set (cfg := mkConfig 4 1 id (node_from_u32 1000) group_addrs pk sk).
  destruct (node_bootstrap_connects cfg seed rx
    (addrs_config_ok id sk pk _ (or_introl Hid) (group_addrs_targets id Hid) group_addrs_targets) Hlen Hok Hon Hcli Hcnt)
    as (nd & pre & rest & E & -> & Hnid & Hconn).
  unfold bootstrap_task, setup_node, node_config. rewrite Hcc, Hsc. cbn [obind]. fold cfg. rewrite E.
  cbn [obind fmap option_fmap option_map fst].
  pose proof (Debug.debug_rogue_spec (List.filter is_rogue pre)) as Hr.
  destruct (Debug.debug_rogue (List.filter is_rogue pre)) as [text|].
  2: { exfalso. rewrite forallb_app in Hprint. apply andb_true_iff in Hprint as [Hpre _].
       assert (Hf : forallb Debug.printable (List.filter is_rogue pre) = true); [|by rewrite Hf in Hr].
       apply forallb_forall. intros m [Hm _]%filter_In. rewrite forallb_forall in Hpre. by apply Hpre. }
  cbn [obind]. destruct (broadcast_done nd (Request (mkRequest Sqrt)) (targets_u32 4)) as (task & d & Eb & Ht & _ & Ho);
    [exact Hconn|done|].
  rewrite Eb. cbn [obind]. rewrite <- Hl, receive_requests. cbn [obind fmap option_fmap option_map app].
  eexists _, text, task. split; [reflexivity|]. split; [|by rewrite Ho, Hnid].
  cbn. apply elem_of_app. right. by apply list_elem_of_singleton.
Qed.

End setup.

(** Witness: replica 0, with every file in place. *)

#[local] Existing Instance toy_hash.
#[local] Existing Instance toy_sig.
#[local] Existing Instance key_order.
#[local] Existing Instance w_map.

#[local] Instance toy_tls : Tls := {|
  Cert := list Z;
  SecretKey := list Z;
  pem_certs := fun file => Some [file];
  pem_rsa_private_keys := fun file => Some [file];
  root_add := fun _ => true;
  server_cert_ok := fun _ _ => true;
  client_cert_ok := fun _ _ => true
|}.

#[local] Instance toy_bincode (A : Type) : Bincode A := {|
  bincode_serialize := fun _ => inl [];
  bincode_deserialize := fun _ => inr "toy"%string
|}.

Definition w_files (path : string) : option (list Z) := Some [Z.of_nat (String.length path)].

Definition w_peers : list (Message f32 Action f32) :=
  map (fun i => ConnectedTx (mkNodeId i)) [1; 2; 3] ++ map (fun i => ConnectedRx (mkNodeId i)) [2; 1; 3].

Definition w_tls : @TlsConfig toy_tls := @mkTls toy_tls [18] [[25]; [18]] [25].

Lemma setup_replica_starts_witness : exists r,
  setup_replica w_files (mkNodeId 0) (5 : @KeyPair toy_sig) local_addrs ∅ None (replicate 32 1) w_peers 0 = Done (Some (Ok r)) /\
  r_phase r = NormalPhase /\ instance r = ZERO /\ executor r = mkHandle true [] /\
  node_id (r_peer r) = mkNodeId 0 /\ connected (r_peer r) (targets 4) /\
  view_seq (view (synchronizer r)) = ZERO /\ quorum (params (view (synchronizer r))) = 3.
Proof.
  apply (setup_replica_starts w_files (mkNodeId 0) (5 : @KeyPair toy_sig) ∅ w_tls w_tls).
  - apply elem_of_cons. by left.
  - vm_compute. reflexivity.
  - vm_compute. reflexivity.
  - vm_compute. congruence.
  - repeat (apply Forall_cons_2; [split; [reflexivity|]; intros id Hid; injection Hid as <-; vm_compute; lia|]).
    apply Forall_nil_2.
  - split.
    + cbn. repeat (apply NoDup_cons; split; [set_solver|]). apply NoDup_nil_2.
    + intros m id Hm Hid. cbn in Hm. repeat (apply elem_of_cons in Hm as [->|Hm]);
        try (by apply elem_of_nil in Hm); injection Hid as <-; vm_compute; split; congruence.
  - intros _ id Hin Hge. cbn in Hin. repeat (apply elem_of_cons in Hin as [Hin|Hin]);
      try (by apply elem_of_nil in Hin); try discriminate Hin; injection Hin as ->; vm_compute in Hge; discriminate Hge.
  - intros i Hi Hne. cbn in Hne. destruct i as [|[|[|[|i]]]]; try lia; reflexivity.
  - repeat (apply Forall_cons_2; [exact Logic.I|]). apply Forall_nil_2.
Defined.

(** Node 0 of [bootstrap-local.rs], when the requests of all four arrive. *)
Example bootstrap_task_runs :
  match bootstrap_task w_files (mkNodeId 0) (5 : @KeyPair toy_sig) group_addrs ∅ None (replicate 32 1) w_peers
          (map (fun i => System (w_head i 1) (Request (mkRequest Sqrt))) [0; 2; 1; 3]) with
  | Done (Some (_, text, printed)) =>
    text = "[ ]"%string /\ printed = map (fun i => ("Req"%string, mkNodeId i)) [0; 2; 1; 3]
  | _ => False
  end.
Proof. vm_compute. by split. Qed.

End Setup.
